(* ===== verification/_CoqProject ===== *)
-Q . S2P
Prelude.v
Err.v
Log.v
Util.v
Elf.v
TestImage.v
ElfFacts.v
Layout.v
LayoutFacts.v
Loader.v
VmSpec.v
LoaderFacts.v
Trace.v
FakeVm.v
FakeVmFacts.v
FakeRun.v
Auxv.v
AuxvFacts.v
StackFits.v
FakeStack.v
Program.v
ProgramFacts.v
ProgramRun.v
ProgramTotal.v
Sys.v
SysFacts.v
App.v
Frame.v
AppFacts.v
Binfmt.v
Shim.v
ShimFacts.v
Rt.v
ShimFiles.v
RunFacts.v
StartFacts.v
Machine.v
ExecFacts.v
ExecRun.v
Life.v
LifeRun.v
Conf.v
ConfFacts.v
Etc.v
EtcFacts.v
EtcRun.v
TestKit.v
Tests.v
StackTests.v
LoadTests.v
