(* ===== verification/Prelude.v ===== *)
(** * A verification of app-elfloader, a Rust ELF loader for Unikraft

    The program ([rust/src/]) is the [main] of a unikernel that runs one Linux
    binary: it works out what to run, parses an ELF image, plans where its
    segments go, loads it and its interpreter into an address space, lays out
    the initial stack and starts a thread; a second entry point does the same
    for [execve].  Before it runs, C code of the same program ([autogen/])
    generates the files of [/etc]; a C shim ([glue/]) stands between the Rust code
    and Unikraft.  This library models the program as functions and proves that it
    does what it means to.

    ** How the code is modelled

    - A Rust expression that can fail is an [outcome]: [Ok], [Err] with the
      error of [?], or [Panic] -- a failed overflow check, index or assertion.
      [u64] and [usize] arithmetic is on [Z] with the overflow checks written
      out ([add64], [checked_add], [saturating_add], ...; Prelude.v).  A claim
      that a function "never panics" is that it never is [Panic].
    - Code that changes something is a function of a state ([stM]), which is kept
      on every exit, so that what an error leaves behind can be stated.  In C code
      [Panic] is also undefined behaviour, an access outside an object.
    - What runs for ever, or in an order nobody fixes, is an inductive relation: the
      loop of [cf_write] ([loop_runs]) and the life of the unikernel ([step]).
    - A trait is a class of operations ([Vm], [StackWriter], [Opener],
      [ImageSource]); what its users rely on is a second class of laws ([VmLaws],
      [StackLaws], ...), and each implementation in the sources satisfies them:
      [FakeVm_laws], [UkVm_laws], [FakeStack_laws], [AppStack_laws],
      [ThreadStack_laws], [file_serves], [mem_image_serves].
    - An allocation that may fail asks the [Heap] parameter; the target
      architecture is the [Target] parameter.
    - The foreign functions of [glue/shim.c] are parameters of the Rust modules
      (classes [Vfs], [Process], [Memory], [Threads], [UserSlot]); Shim.v fills
      them with the shim itself, over the C library and Unikraft as one class,
      [Kernel].  What those promise is stated as named laws ([KernelMemory],
      [KernelFiles], [KernelThreads], [KernelExec]), which a concrete machine
      (Machine.v, ExecRun.v) keeps.  The system calls and network devices of the
      C code in [autogen/] are the classes [ConfSys], with the laws [ConfLaws], and
      [NetDevs].

    ** Files

    - Prelude.v: outcomes, the state monad, machine integers, rounding, bytes and
      little-endian words, list lemmas, tactics and hints.
    - Err.v, Util.v, Log.v: [err.rs], [util.rs], [log.rs].
    - Elf.v: [elf.rs] -- headers, [Image::parse] stage by stage, the declarative
      specification [acceptable], and that each stage decides its part of it.
      ElfFacts.v: the parser accepts exactly the acceptable images, never panics,
      and what an accepted image satisfies ([Image_wf]); spans and paths.
    - Layout.v: [layout.rs] -- [plan] and its parts, [phdr_addr], [exec_ranges].
      LayoutFacts.v: a closed form of a plan, from which: segments lie in the
      reservation, do not overlap, put file bytes where they belong and clear the
      rest.
    - Loader.v: [loader.rs].  VmSpec.v: the laws of an address space and a small
      weakest-precondition calculus.  LoaderFacts.v: what every address shows
      after [load_mapped] and [load_copied], and after they fail.  Trace.v: the
      reservation is held at every step in between.
    - Auxv.v: [auxv.rs].  AuxvFacts.v: the layout of the initial stack, for any
      stack writer.  StackFits.v: it succeeds when there is room.
    - Program.v, ProgramFacts.v: [program.rs] -- a program and its interpreter
      side by side, failures that take everything down, and the auxiliary vector
      that describes the pair.
    - Sys.v, SysFacts.v: [sys.rs] -- files, images in memory, the stack of the
      application, the environment, the address space of the unikernel.
    - App.v, AppFacts.v: [app.rs] -- the command line, the openers and [run].
      Frame.v: relations between states that loading and stack building respect.
      Binfmt.v: [binfmt.rs].
    - Shim.v: [glue/shim.c].  ShimFacts.v: [UkVm] over the shim is an address
      space the loader was verified against.  ShimFiles.v: so are its files.
      RunFacts.v: laws of threads, the stack of a thread, the strings of a start.
      StartFacts.v: [run] from the command line to the scheduled thread.
      ExecFacts.v: [binfmt_load] and its unloading over the shim.  Machine.v,
      ExecRun.v: a concrete kernel, and a start and an [execve] on it.
    - Life.v: the rest of the shim -- the registered loader, [main], the wait that
      never ends -- and the unikernel as a transition system from boot on, with an
      invariant of every state it can reach.  LifeRun.v: such a life.
    - Conf.v: [autogen/conffile.c].  ConfFacts.v: the laws of the system calls, and
      what each helper does to the file system.  Etc.v: [autogen/etc.c].
      EtcFacts.v: what the files should hold, and that they do.  EtcRun.v: a file
      system that interrupts and shortens writes, and a boot on it.
    - Rt.v: [rt.rs] -- the global allocator and the panic handler -- and the cached
      configuration of [sys.rs].
    - TestImage.v, FakeVm.v, FakeVmFacts.v, FakeRun.v, FakeStack.v, ProgramRun.v:
      [testutil.rs] and the helpers of the unit tests -- the builder of images,
      the model address space (which satisfies the laws, so that loading is total
      on it), the model stack with its two readers (a round trip), the file
      system -- and the witnesses made with them.  ProgramTotal.v: there a program
      that can be loaded is loaded.
    - TestKit.v, Tests.v, StackTests.v, LoadTests.v: the [#[test]] functions of the
      crate as definitions over the models, and that every suite passes: those of
      [elf.rs] and [layout.rs] on both architectures, those of [loader.rs] and
      [program.rs], whose images are large, on arm64.

    ** Fuel

    Four loops are not structural.  [copy_chunks] has one unit of fuel per chunk
    of 64 KiB and one more; [pread_loop] one per byte of the buffer, since every
    turn reads at least one; [write_loop] one per byte and per interruption to
    come, and one more; the readers of FakeStack.v one per byte of the stack.
    Running out would be a [Panic], and the theorems exclude it; [cf_write] is
    shown to compute what its unbounded loop does.

    ** Properties

    The comments of the properties carry their number.  In groups: a whole start
    and a whole [execve], over the shim and a kernel that keeps its laws, end in a
    program ready to run or leave things as they were; parsing is exact and safe;
    plans are right; loading puts every byte and protection in place, touches
    nothing else, never opens a window in its reservation and is undone by
    unloading and by failures, and its two paths agree; the stack a program
    starts on is what a libc reads; programs and interpreters do not disturb each
    other and the auxiliary vector points at them; reading files is exact under
    short reads; the allocator keeps the contract of a Rust allocator.  Over its
    whole life, through any sequence of [execve] calls and unloads, no two programs
    of the unikernel ever share memory and [main] never returns.  The files of
    [/etc] hold exactly what the devices were configured with, however writes are
    split and interrupted.

    Some theorems record deviations: a failed plan leaves its reservation behind
    ([failed_load_leaks]); [PT_PHDR] is trusted in a gap between segments
    ([phdr_addr_in_gap]); a refused argument vector ends the start without
    unloading the program ([launch_oom_keeps_program]); a line of 128 bytes or more
    in a generated file goes wrong ([cf_nprintf_limit]), as does an address of
    sixteen bytes ([ip4addr_overrun]); a file whose mode cannot be set stays open
    ([cf_create_leaks]), and a socket passes for a directory
    ([cf_mkdir_accepts_socket]).

    ** What is not modelled

    The vDSO image -- generated, around one function that switches the thread
    pointer with Unikraft's own routines -- build files and scripts; the text of log
    messages, beyond the buffer they are formatted into and the levels (arguments of
    log calls that can overflow are evaluated); the abort of an allocation the
    source does not ask for with [try_reserve].  Files do not change while a program
    is loaded, and nothing else runs meanwhile: a start and an [execve] are
    sequences of calls of one thread, and other threads run between them.  What
    they do is a parameter of Life.v, of which only is assumed that they do not
    unmap the images of programs.  The code an [execve] answers with is not part of
    the state of Life.v; [binfmt_ownership] is about it.  The test
    [basename_does_not_modify_its_input] has no counterpart, [basename] being a
    function.

    ** What could follow

    Success of [run] and [binfmt_load] on a kernel with room, as for [build_stack]
    and [load_program] on the model address space; the stack's low-water mark as a
    theorem rather than a test. *)

From Stdlib Require Import ZArith Lia Sorted Permutation.
From Stdlib Require Import Strings.Byte.
From stdpp Require Import base numbers option list.

#[global] Open Scope Z_scope.

(** ** Outcomes: results that may also panic

    The crate is built with [panic = "abort"] and [overflow-checks = true], so
    a Rust expression has three ends: it yields a value, it returns an error
    through [?] or [return Err(..)], or it stops the unikernel. *)

Inductive outcome (E A : Type) : Type :=
| Ok (a : A)
| Err (e : E)
| Panic.
Arguments Ok {E A} a.
Arguments Err {E A} e.
Arguments Panic {E A}.

#[global] Instance outcome_ret E : MRet (outcome E) := fun A a => Ok a.
#[global] Instance outcome_bind E : MBind (outcome E) := fun A B f m =>
  match m with
  | Ok a => f a
  | Err e => Err e
  | Panic => Panic
  end.
#[global] Instance outcome_fmap E : FMap (outcome E) := fun A B f m =>
  match m with
  | Ok a => Ok (f a)
  | Err e => Err e
  | Panic => Panic
  end.

(** [Option::ok_or], [Result::map_err] and slice indexing [v[i]]. *)
Definition ok_or {E A : Type} (o : option A) (e : E) : outcome E A :=
  match o with Some a => Ok a | None => Err e end.

Definition map_err {E F A : Type} (f : E -> F) (m : outcome E A) : outcome F A :=
  match m with Ok a => Ok a | Err e => Err (f e) | Panic => Panic end.

Definition index {E A : Type} (l : list A) (i : nat) : outcome E A :=
  match l !! i with Some a => Ok a | None => Panic end.

Definition is_ok {E A : Type} (m : outcome E A) : bool :=
  match m with Ok _ => true | _ => false end.

(** State passing that keeps the state on every exit: what a failing call has
    already done to the address space is what the leak theorems are about. *)
Definition stM (E S A : Type) : Type := S -> outcome E A * S.

#[global] Instance stM_ret E S : MRet (stM E S) := fun A a s => (Ok a, s).
#[global] Instance stM_bind E S : MBind (stM E S) := fun A B f m s =>
  match m s with
  | (Ok a, s') => f a s'
  | (Err e, s') => (Err e, s')
  | (Panic, s') => (Panic, s')
  end.

Definition lift {E S A : Type} (m : outcome E A) : stM E S A := fun s => (m, s).
Definition fail {E S A : Type} (e : E) : stM E S A := fun s => (Err e, s).

(** [for x in xs { body(x)? }]. *)
Fixpoint for_each {E S A : Type} (body : A -> stM E S unit) (xs : list A) : stM E S unit :=
  match xs with
  | [] => mret tt
  | x :: xs => _ ← body x; for_each body xs
  end.

(** ** Inversion of computations *)

Section OutcomeLemmas.
Context {E A B : Type}.
Implicit Types (m : outcome E A) (f : A -> outcome E B).

Lemma bind_Ok m f b : m ≫= f = Ok b <-> exists a, m = Ok a /\ f a = Ok b.
Proof. destruct m; naive_solver. Qed.

Lemma bind_Err m f e :
  m ≫= f = Err e <-> m = Err e \/ exists a, m = Ok a /\ f a = Err e.
Proof. destruct m; naive_solver. Qed.

Lemma bind_no_panic m f :
  m <> Panic -> (forall a, m = Ok a -> f a <> Panic) -> m ≫= f <> Panic.
Proof. destruct m; cbn; eauto; discriminate. Qed.

Lemma map_err_Ok {F : Type} (g : E -> F) m a : map_err g m = Ok a <-> m = Ok a.
Proof. destruct m; naive_solver. Qed.

Lemma map_err_no_panic {F : Type} (g : E -> F) m : map_err g m <> Panic <-> m <> Panic.
Proof. destruct m; naive_solver. Qed.

Lemma ok_or_Ok (o : option A) (e : E) a : ok_or o e = Ok a <-> o = Some a.
Proof. destruct o; naive_solver. Qed.

Lemma ok_or_no_panic (o : option A) (e : E) : ok_or o e <> Panic.
Proof. by destruct o. Qed.

Lemma index_Ok (l : list A) i a : index (E:=E) l i = Ok a <-> l !! i = Some a.
Proof. unfold index. destruct (l !! i); naive_solver. Qed.

Lemma index_lt (l : list A) i :
  (i < length l)%nat -> exists a, l !! i = Some a /\ index (E:=E) l i = Ok a.
Proof.
  intros [a Ha]%lookup_lt_is_Some. exists a. unfold index. by rewrite Ha.
Qed.
End OutcomeLemmas.

Section StLemmas.
Context {E S : Type}.

Lemma st_bind_Ok {A B} (m : stM E S A) (f : A -> stM E S B) s b s' :
  (m ≫= f) s = (Ok b, s') <-> exists a s1, m s = (Ok a, s1) /\ f a s1 = (Ok b, s').
Proof.
  unfold mbind, stM_bind. destruct (m s) as [[] ?]; naive_solver.
Qed.

Lemma for_each_app {A} (body : A -> stM E S unit) xs ys s :
  for_each body (xs ++ ys) s = (_ ← for_each body xs; for_each body ys) s.
Proof.
  revert s. induction xs as [|x xs IH]; intros s; [done|].
  cbn. unfold mbind, stM_bind. destruct (body x s) as [[] ?]; [|done|done].
  rewrite IH. reflexivity.
Qed.

(** Hoare-style rule for a loop: an invariant kept by every iteration that
    ends normally holds when the loop ends normally. *)
Lemma for_each_inv {A} (body : A -> stM E S unit) (I : list A -> S -> Prop) done xs s s' :
  (forall d x s1 s2, I d s1 -> body x s1 = (Ok tt, s2) -> I (d ++ [x]) s2) ->
  I done s -> for_each body xs s = (Ok tt, s') -> I (done ++ xs) s'.
Proof.
  intros Hstep. revert done s. induction xs as [|x xs IH]; intros done s HI Hrun.
  - cbn in Hrun. injection Hrun as <-. by rewrite app_nil_r.
  - cbn in Hrun. apply st_bind_Ok in Hrun as ([] & s1 & Hx & Hxs).
    replace (done ++ x :: xs) with ((done ++ [x]) ++ xs) by (by rewrite <- app_assoc).
    eauto.
Qed.
End StLemmas.

(** The weakest precondition of a program that does not panic: [P] holds of the
    state and the value when it ends normally, [Q] of the state and the error when
    it does not. *)
Definition wpe {E S A : Type} (m : stM E S A) (P : A -> S -> Prop) (Q : E -> S -> Prop) (s : S) : Prop :=
  match m s with
  | (Ok a, s') => P a s'
  | (Err e, s') => Q e s'
  | (Panic, _) => False
  end.

Section Wpe.
Context {E S : Type}.

Lemma wpe_bind {A B} (m : stM E S A) (f : A -> stM E S B) P Q s :
  wpe m (fun a s' => wpe (f a) P Q s') Q s -> wpe (m ≫= f) P Q s.
Proof. unfold wpe, mbind, stM_bind. by destruct (m s) as [[] ?]. Qed.

Lemma wpe_mono {A} (m : stM E S A) (P P' : A -> S -> Prop) (Q Q' : E -> S -> Prop) s :
  wpe m P Q s -> (forall a s', P a s' -> P' a s') -> (forall e s', Q e s' -> Q' e s') -> wpe m P' Q' s.
Proof. unfold wpe. destruct (m s) as [[] ?]; eauto. Qed.

Lemma wpe_Ok {A} (m : stM E S A) P Q s a s' : wpe m P Q s -> m s = (Ok a, s') -> P a s'.
Proof. unfold wpe. intros H Hm. by rewrite Hm in H. Qed.

(** A loop keeps an invariant of what it has gone through. *)
Lemma wpe_for_each {A} (body : A -> stM E S unit) (I : list A -> S -> Prop) Q done xs s :
  (forall d x s1, x ∈ xs -> I d s1 -> wpe (body x) (fun _ => I (d ++ [x])) Q s1) ->
  I done s -> wpe (for_each body xs) (fun _ => I (done ++ xs)) Q s.
Proof.
  revert done s. induction xs as [|x xs IH]; intros done s Hb HI; cbn [for_each].
  - unfold wpe. cbn. by rewrite app_nil_r.
  - apply wpe_bind. eapply wpe_mono; [apply Hb; [apply list_elem_of_here|exact HI]| |done].
    intros u s1 H1. rewrite cons_middle, app_assoc. apply IH; [|exact H1].
    intros d y s2 Hy. apply Hb. by apply list_elem_of_further.
Qed.
End Wpe.

(** ** 64-bit unsigned arithmetic

    A [u64] (and a [usize], both targets being 64-bit) is a [Z] between 0 and
    2^64; a plain operator panics when the result leaves that range. *)

Definition u64_max : Z := 2 ^ 64 - 1.

Definition u64 (v : Z) : Prop := 0 <= v < 2 ^ 64.

Definition add64 {E : Type} (a b : Z) : outcome E Z :=
  if a + b <? 2 ^ 64 then Ok (a + b) else Panic.
Definition sub64 {E : Type} (a b : Z) : outcome E Z :=
  if b <=? a then Ok (a - b) else Panic.
Definition mul64 {E : Type} (a b : Z) : outcome E Z :=
  if a * b <? 2 ^ 64 then Ok (a * b) else Panic.

Definition checked_add (a b : Z) : option Z :=
  if a + b <? 2 ^ 64 then Some (a + b) else None.
Definition checked_sub (a b : Z) : option Z :=
  if b <=? a then Some (a - b) else None.
Definition checked_mul (a b : Z) : option Z :=
  if a * b <? 2 ^ 64 then Some (a * b) else None.
Definition saturating_add (a b : Z) : Z := Z.min (a + b) u64_max.
Definition saturating_sub (a b : Z) : Z := Z.max 0 (a - b).

(** [!x] on a [u64]. *)
Definition not64 (x : Z) : Z := Z.lxor u64_max x.

(** [u64::is_power_of_two]. *)
Definition is_power_of_two (a : Z) : bool := (0 <? a) && (2 ^ Z.log2 a =? a).

Section U64Lemmas.
Context {E : Type}.

Lemma add64_Ok a b c : add64 (E:=E) a b = Ok c <-> c = a + b /\ a + b < 2 ^ 64.
Proof. unfold add64. destruct (Z.ltb_spec (a + b) (2 ^ 64)); naive_solver lia. Qed.

Lemma add64_small a b : a + b < 2 ^ 64 -> add64 (E:=E) a b = Ok (a + b).
Proof. intros. by apply add64_Ok. Qed.

Lemma sub64_Ok a b c : sub64 (E:=E) a b = Ok c <-> c = a - b /\ b <= a.
Proof. unfold sub64. destruct (Z.leb_spec b a); naive_solver lia. Qed.

Lemma sub64_small a b : b <= a -> sub64 (E:=E) a b = Ok (a - b).
Proof. intros. by apply sub64_Ok. Qed.

Lemma mul64_Ok a b c : mul64 (E:=E) a b = Ok c <-> c = a * b /\ a * b < 2 ^ 64.
Proof. unfold mul64. destruct (Z.ltb_spec (a * b) (2 ^ 64)); naive_solver lia. Qed.

Lemma mul64_small a b : a * b < 2 ^ 64 -> mul64 (E:=E) a b = Ok (a * b).
Proof. intros. by apply mul64_Ok. Qed.

Lemma checked_add_Some a b c : checked_add a b = Some c <-> c = a + b /\ a + b < 2 ^ 64.
Proof. unfold checked_add. destruct (Z.ltb_spec (a + b) (2 ^ 64)); naive_solver lia. Qed.

Lemma checked_add_small a b : a + b < 2 ^ 64 -> checked_add a b = Some (a + b).
Proof. intros. by apply checked_add_Some. Qed.

Lemma checked_add_None a b : checked_add a b = None <-> 2 ^ 64 <= a + b.
Proof. unfold checked_add. destruct (Z.ltb_spec (a + b) (2 ^ 64)); naive_solver lia. Qed.

Lemma checked_sub_Some a b c : checked_sub a b = Some c <-> c = a - b /\ b <= a.
Proof. unfold checked_sub. destruct (Z.leb_spec b a); naive_solver lia. Qed.

Lemma checked_sub_None a b : checked_sub a b = None <-> a < b.
Proof. unfold checked_sub. destruct (Z.leb_spec b a); naive_solver lia. Qed.

Lemma checked_mul_Some a b c : checked_mul a b = Some c <-> c = a * b /\ a * b < 2 ^ 64.
Proof. unfold checked_mul. destruct (Z.ltb_spec (a * b) (2 ^ 64)); naive_solver lia. Qed.
End U64Lemmas.

Lemma is_power_of_two_spec a :
  is_power_of_two a = true <-> exists k, 0 <= k /\ a = 2 ^ k.
Proof.
  unfold is_power_of_two. rewrite andb_true_iff, Z.ltb_lt, Z.eqb_eq. split.
  - intros [Ha <-]. exists (Z.log2 a). split; [apply Z.log2_nonneg|done].
  - intros (k & Hk & ->). rewrite Z.log2_pow2 by done.
    split; [by apply Z.pow_pos_nonneg|done].
Qed.

Lemma is_power_of_two_pos a : is_power_of_two a = true -> 0 < a.
Proof. unfold is_power_of_two. lia. Qed.

Lemma power_of_two_divide a b :
  is_power_of_two a = true -> is_power_of_two b = true -> a <= b -> (a | b).
Proof.
  intros (j & Hj & ->)%is_power_of_two_spec (k & Hk & ->)%is_power_of_two_spec Hle.
  apply Z.pow_le_mono_r_iff in Hle; [|lia|lia].
  exists (2 ^ (k - j)). rewrite <- Z.pow_add_r by lia. f_equal. lia.
Qed.

(** ** Rounding to a page

    The mathematical rounding functions the masks of [align_down] and
    [align_up] compute; each is one half of a Galois connection with the
    multiples of [a]. *)

Definition rdown (v a : Z) : Z := v - v mod a.
Definition rup (v a : Z) : Z := rdown (v + (a - 1)) a.

Section Rounding.
Variable a : Z.
Hypothesis a_pos : 0 < a.

Lemma rdown_divide v : (a | rdown v a).
Proof. exists (v / a). unfold rdown. rewrite Z.mod_eq by lia. lia. Qed.

Lemma rup_divide v : (a | rup v a).
Proof. apply rdown_divide. Qed.

Lemma rdown_bounds v : rdown v a <= v < rdown v a + a.
Proof. unfold rdown. pose proof (Z.mod_pos_bound v a a_pos). lia. Qed.

Lemma rup_bounds v : v <= rup v a < v + a.
Proof. unfold rup. pose proof (rdown_bounds (v + (a - 1))). lia. Qed.

Lemma divide_gap x y : (a | x) -> (a | y) -> x < y -> x + a <= y.
Proof.
  intros [p ->] [q ->] Hlt. apply Z.mul_lt_mono_pos_r in Hlt; [|done].
  assert ((p + 1) * a <= q * a) by (apply Z.mul_le_mono_nonneg_r; lia). lia.
Qed.

Lemma rdown_galois x v : (a | x) -> x <= rdown v a <-> x <= v.
Proof.
  intros Hx. pose proof (rdown_bounds v). split; [lia|]. intros Hle.
  destruct (Z.le_gt_cases x (rdown v a)) as [|Hgt]; [done|].
  pose proof (divide_gap _ _ (rdown_divide v) Hx Hgt). lia.
Qed.

Lemma rup_galois x v : (a | x) -> rup v a <= x <-> v <= x.
Proof.
  intros Hx. pose proof (rup_bounds v). split; [lia|]. intros Hle.
  destruct (Z.le_gt_cases (rup v a) x) as [|Hgt]; [done|].
  pose proof (divide_gap _ _ Hx (rup_divide v) Hgt). lia.
Qed.

Lemma rdown_mono v w : v <= w -> rdown v a <= rdown w a.
Proof.
  intros. apply rdown_galois; [apply rdown_divide|]. pose proof (rdown_bounds v). lia.
Qed.

Lemma rup_mono v w : v <= w -> rup v a <= rup w a.
Proof. intros. apply rdown_mono. lia. Qed.

Lemma rdown_id x : (a | x) -> rdown x a = x.
Proof.
  intros Hx. pose proof (rdown_bounds x).
  assert (x <= rdown x a) by (by apply rdown_galois). lia.
Qed.

Lemma rup_id x : (a | x) -> rup x a = x.
Proof.
  intros Hx. pose proof (rup_bounds x).
  assert (rup x a <= x) by (by apply rup_galois). lia.
Qed.

Lemma rdown_add x v : (a | x) -> rdown (v + x) a = rdown v a + x.
Proof.
  intros [q ->]. unfold rdown. rewrite Z.mod_add by lia. lia.
Qed.

Lemma rup_add x v : (a | x) -> rup (v + x) a = rup v a + x.
Proof.
  intros Hx. unfold rup. replace (v + x + (a - 1)) with (v + (a - 1) + x) by lia.
  by apply rdown_add.
Qed.

Lemma rdown_nonneg v : 0 <= v -> 0 <= rdown v a.
Proof. intros. apply rdown_galois; [apply Z.divide_0_r|done]. Qed.
End Rounding.

(** Masking with [!(2^k - 1)] is rounding down. *)
Lemma land_not64_pow2 v k :
  0 <= k <= 64 -> u64 v -> Z.land v (not64 (2 ^ k - 1)) = rdown v (2 ^ k).
Proof.
  intros Hk [Hv1 Hv2]. unfold rdown.
  assert (Hdiff : Z.land v (not64 (2 ^ k - 1)) = Z.ldiff v (Z.ones k)).
  { apply Z.bits_inj'. intros n Hn. unfold not64, u64_max.
    change (2 ^ 64 - 1) with (Z.ones 64).
    replace (2 ^ k - 1) with (Z.ones k) by (rewrite Z.ones_equiv; lia).
    rewrite Z.land_spec, Z.lxor_spec, Z.ldiff_spec.
    destruct (Z.lt_ge_cases n 64).
    - rewrite (Z.ones_spec_low 64) by lia. by destruct (Z.testbit (Z.ones k) n).
    - rewrite (Z.bits_above_log2 v); [done|done|].
      destruct (decide (v = 0)) as [->|]; [cbn; lia|].
      apply Z.lt_le_trans with 64; [|done]. apply Z.log2_lt_pow2; lia. }
  rewrite Hdiff, Z.ldiff_ones_r, Z.shiftl_mul_pow2, Z.shiftr_div_pow2 by lia.
  rewrite Z.mod_eq by (apply Z.pow_nonzero; lia). lia.
Qed.

Lemma pow2_u64 a : is_power_of_two a = true -> a < 2 ^ 64 -> exists k, 0 <= k < 64 /\ a = 2 ^ k.
Proof.
  intros (k & Hk & ->)%is_power_of_two_spec Hlt. exists k. split; [|done].
  split; [done|]. by apply Z.pow_lt_mono_r_iff in Hlt.
Qed.

(** ** Bytes and little-endian words *)

#[global] Instance byte_eq_dec : EqDecision byte := Byte.byte_eq_dec.
#[global] Instance byte_inhabited : Inhabited byte := populate x00.

Definition byte_val (b : byte) : Z := Z.of_N (Byte.to_N b).
Definition byte_of (v : Z) : byte :=
  match Byte.of_N (Z.to_N (v mod 256)) with Some b => b | None => x00 end.

(** [uN::from_le_bytes] and [uN::to_le_bytes]. *)
Fixpoint from_le_bytes (bs : list byte) : Z :=
  match bs with
  | [] => 0
  | b :: bs => byte_val b + 256 * from_le_bytes bs
  end.

Fixpoint to_le_bytes (n : nat) (v : Z) : list byte :=
  match n with
  | O => []
  | S n => byte_of v :: to_le_bytes n (v / 256)
  end.

Lemma byte_val_range b : 0 <= byte_val b < 256.
Proof. unfold byte_val. pose proof (Byte.to_N_bounded b). lia. Qed.

Lemma byte_val_of v : byte_val (byte_of v) = v mod 256.
Proof.
  pose proof (Z.mod_pos_bound v 256 ltac:(lia)) as Hb.
  unfold byte_of, byte_val. destruct (Byte.of_N (Z.to_N (v mod 256))) as [b|] eqn:Hof.
  - apply Byte.to_of_N in Hof. rewrite Hof. lia.
  - apply Byte.of_N_None_iff in Hof. lia.
Qed.

Lemma byte_val_inj a b : byte_val a = byte_val b -> a = b.
Proof.
  unfold byte_val. intros Heq%N2Z.inj.
  assert (Some a = Some b) as Hs by (rewrite <- !Byte.of_to_N; by f_equal). congruence.
Qed.

Lemma byte_of_val b : byte_of (byte_val b) = b.
Proof.
  apply byte_val_inj. rewrite byte_val_of. apply Z.mod_small, byte_val_range.
Qed.

Lemma from_le_bytes_range bs : 0 <= from_le_bytes bs < 256 ^ Z.of_nat (length bs).
Proof.
  induction bs as [|b bs IH]; cbn [from_le_bytes length]; [cbn; lia|].
  rewrite Nat2Z.inj_succ, Z.pow_succ_r by lia. pose proof (byte_val_range b). lia.
Qed.

Lemma length_to_le_bytes n v : length (to_le_bytes n v) = n.
Proof. revert v. induction n; cbn; auto. Qed.

Lemma from_to_le_bytes n v : from_le_bytes (to_le_bytes n v) = v mod 256 ^ Z.of_nat n.
Proof.
  revert v. induction n as [|n IH]; intros v; cbn [to_le_bytes from_le_bytes].
  - by rewrite Z.mod_1_r.
  - rewrite IH, byte_val_of, Nat2Z.inj_succ, Z.pow_succ_r by lia.
    rewrite Z.rem_mul_r; [done|lia|]. apply Z.pow_pos_nonneg; lia.
Qed.

Lemma to_from_le_bytes bs : to_le_bytes (length bs) (from_le_bytes bs) = bs.
Proof.
  induction bs as [|b bs IH]; cbn [to_le_bytes from_le_bytes length]; [done|].
  pose proof (byte_val_range b).
  replace (byte_of _) with b.
  - f_equal. replace ((_ + _) / 256) with (from_le_bytes bs); [done|].
    rewrite Z.mul_comm, Z.div_add, Z.div_small; lia.
  - apply byte_val_inj. rewrite byte_val_of.
    rewrite Z.mul_comm, Z.mod_add, Z.mod_small; lia.
Qed.

(** ** Slices

    [&b[off..off + n]]: out of range it panics, as the Rust slice does. *)

(** [n <= l.len()], without counting all of [l]. *)
Fixpoint at_least {A : Type} (n : nat) (l : list A) : bool :=
  match n, l with
  | O, _ => true
  | S n, _ :: l => at_least n l
  | S _, [] => false
  end.

Lemma at_least_leb {A} n (l : list A) : at_least n l = (n <=? length l)%nat.
Proof. revert l. induction n as [|n IH]; intros [|x l]; cbn; auto. Qed.

Definition slice {E A : Type} (b : list A) (off n : nat) : outcome E (list A) :=
  if at_least (off + n) b then Ok (take n (drop off b)) else Panic.

Lemma slice_Ok {E A} (b : list A) off n s :
  slice (E:=E) b off n = Ok s <-> (off + n <= length b)%nat /\ s = take n (drop off b).
Proof. unfold slice. rewrite at_least_leb. destruct (Nat.leb_spec (off + n) (length b)); naive_solver lia. Qed.

(** [dst[at..at + src.len()].copy_from_slice(src)]. *)
Definition overwrite {E : Type} (dst : list byte) (at_ : nat) (src : list byte) : outcome E (list byte) :=
  if at_least (at_ + length src) dst
  then Ok (take at_ dst ++ src ++ drop (at_ + length src) dst) else Panic.

Lemma overwrite_Ok {E} dst at_ src :
  (at_ + length src <= length dst)%nat ->
  exists data, overwrite (E:=E) dst at_ src = Ok data /\ length data = length dst /\
    take (at_ + length src) data = take at_ dst ++ src.
Proof.
  intros Hle. unfold overwrite. rewrite at_least_leb, (proj2 (Nat.leb_le _ _) Hle). eexists. split; [done|]. split.
  - rewrite !length_app, length_take, length_drop. lia.
  - rewrite app_assoc. apply take_app_length'. rewrite length_app, length_take. lia.
Qed.

Lemma length_take_drop {A} (b : list A) off n :
  (off + n <= length b)%nat -> length (take n (drop off b)) = n.
Proof. intros. rewrite length_take, length_drop. lia. Qed.

Lemma lookup_take_drop {A} (b : list A) off n i :
  (i < n)%nat -> take n (drop off b) !! i = b !! (off + i)%nat.
Proof. intros. by rewrite lookup_take_lt, lookup_drop. Qed.

(** [[T]::iter().position(p)] and [rposition]. *)
Fixpoint position {A : Type} (p : A -> bool) (l : list A) : option nat :=
  match l with
  | [] => None
  | x :: l => if p x then Some 0%nat else S <$> position p l
  end.

Definition rposition {A : Type} (p : A -> bool) (l : list A) : option nat :=
  (fun i => (length l - 1 - i)%nat) <$> position p (reverse l).

Lemma position_Some {A} (p : A -> bool) l i :
  position p l = Some i <->
  exists x, l !! i = Some x /\ p x = true /\
    forall j y, (j < i)%nat -> l !! j = Some y -> p y = false.
Proof.
  revert i. induction l as [|x l IH]; intros i; cbn; [naive_solver|].
  destruct (p x) eqn:Hp.
  - split.
    + intros [= <-]. exists x. naive_solver lia.
    + intros (y & Hy & Hpy & Hmin). destruct i as [|i]; [done|].
      specialize (Hmin 0%nat x ltac:(lia) eq_refl). congruence.
  - rewrite fmap_Some. split.
    + intros (k & (y & Hy & Hpy & Hmin)%IH & ->). exists y. split; [done|]. split; [done|].
      intros [|j] z Hj Hz; [naive_solver|]. apply (Hmin j); [lia|done].
    + intros (y & Hy & Hpy & Hmin). destruct i as [|i]; [cbn in Hy; congruence|].
      exists i. split; [|done]. apply IH. exists y. split; [done|]. split; [done|].
      intros j z Hj Hz. apply (Hmin (S j)); [lia|done].
Qed.

Lemma position_None {A} (p : A -> bool) l :
  position p l = None <-> Forall (fun x => p x = false) l.
Proof.
  induction l as [|x l IH]; cbn; [by split; [constructor|]|].
  rewrite Forall_cons. destruct (p x); [naive_solver|]. rewrite fmap_None. tauto.
Qed.

Lemma rposition_Some {A} (p : A -> bool) l i :
  rposition p l = Some i <->
  exists x, l !! i = Some x /\ p x = true /\
    forall j y, (i < j)%nat -> l !! j = Some y -> p y = false.
Proof.
  unfold rposition. rewrite fmap_Some. setoid_rewrite position_Some. split.
  - intros (k & (x & Hx & Hp & Hmin) & ->). exists x.
    pose proof (lookup_lt_Some _ _ _ Hx) as Hlt. rewrite length_reverse in Hlt.
    rewrite reverse_lookup in Hx by done.
    replace (length l - 1 - k)%nat with (length l - S k)%nat by lia.
    split; [done|]. split; [done|]. intros j y Hj Hy.
    pose proof (lookup_lt_Some _ _ _ Hy).
    apply (Hmin (length l - S j)%nat); [lia|]. rewrite reverse_lookup by lia.
    by replace (length l - S (length l - S j))%nat with j by lia.
  - intros (x & Hx & Hp & Hmax). pose proof (lookup_lt_Some _ _ _ Hx).
    exists (length l - S i)%nat. split; [|lia]. exists x.
    rewrite reverse_lookup by lia.
    replace (length l - S (length l - S i))%nat with i by lia.
    split; [done|]. split; [done|]. intros j y Hj Hy.
    rewrite reverse_lookup in Hy by lia. apply (Hmax (length l - S j)%nat); [lia|done].
Qed.

Lemma rposition_None {A} (p : A -> bool) l :
  rposition p l = None <-> Forall (fun x => p x = false) l.
Proof. unfold rposition. by rewrite fmap_None, position_None, Forall_reverse. Qed.

(** ** Stable sorting by a key ([slice::sort_by_key]) *)

Section SortByKey.
Context {A : Type} (key : A -> Z).

Fixpoint insert_by_key (x : A) (l : list A) : list A :=
  match l with
  | [] => [x]
  | y :: l' => if key x <=? key y then x :: l else y :: insert_by_key x l'
  end.

Fixpoint sort_by_key (l : list A) : list A :=
  match l with
  | [] => []
  | x :: l => insert_by_key x (sort_by_key l)
  end.

Definition key_le (x y : A) : Prop := key x <= key y.

Lemma insert_by_key_perm x l : Permutation (insert_by_key x l) (x :: l).
Proof.
  induction l as [|y l IH]; cbn; [done|]. destruct (_ <=? _); [done|].
  rewrite IH. apply Permutation_swap.
Qed.

Lemma sort_by_key_perm l : Permutation (sort_by_key l) l.
Proof.
  induction l as [|x l IH]; cbn; [done|]. by rewrite insert_by_key_perm, IH.
Qed.

Lemma insert_by_key_sorted x l :
  StronglySorted key_le l -> StronglySorted key_le (insert_by_key x l).
Proof.
  induction 1 as [|y l Hs IH Hall]; cbn; [by repeat constructor|].
  destruct (Z.leb_spec (key x) (key y)) as [Hle|Hgt].
  - constructor; [by constructor|]. constructor; [done|].
    eapply Forall_impl; [exact Hall|]. unfold key_le. intros z Hz. lia.
  - constructor; [done|]. rewrite insert_by_key_perm. constructor; [|done].
    unfold key_le. lia.
Qed.

Lemma sort_by_key_sorted l : StronglySorted key_le (sort_by_key l).
Proof. induction l; cbn; [constructor|by apply insert_by_key_sorted]. Qed.

(** Elements with equal keys keep their order. *)
Lemma insert_by_key_filter k x l :
  filter (fun y => key y = k) (insert_by_key x l) = filter (fun y => key y = k) (x :: l).
Proof.
  induction l as [|y l IH]; cbn [insert_by_key]; [done|].
  destruct (Z.leb_spec (key x) (key y)) as [|Hgt]; [done|].
  rewrite (filter_cons _ y), IH, !filter_cons.
  repeat case_decide; try done. lia.
Qed.

Lemma sort_by_key_stable k l :
  filter (fun y => key y = k) (sort_by_key l) = filter (fun y => key y = k) l.
Proof.
  induction l as [|x l IH]; cbn; [done|].
  rewrite insert_by_key_filter, !filter_cons, IH. done.
Qed.
End SortByKey.

Lemma StronglySorted_lookup {A} (R : A -> A -> Prop) l i j x y :
  StronglySorted R l -> (i < j)%nat -> l !! i = Some x -> l !! j = Some y -> R x y.
Proof.
  intros Hs. revert i j. induction Hs as [|z l Hs IH Hall]; intros i j Hij Hi Hj; [done|].
  destruct j as [|j]; [lia|]. destruct i as [|i]; cbn in *.
  - injection Hi as <-. by eapply Forall_lookup_1.
  - eapply (IH i j); [lia|done|done].
Qed.

(** ** Automation *)

Create HintDb elfdb.
#[export] Hint Resolve ok_or_no_panic rdown_divide rup_divide is_power_of_two_pos : elfdb.
#[export] Hint Resolve Z.divide_add_r Z.divide_sub_r Z.divide_0_r : elfdb.

(** Take apart a computation known to have ended normally. *)
Ltac inv_ok_step :=
  match goal with
  | H : _ ≫= _ = Ok _ |- _ => apply bind_Ok in H as (? & ? & H)
  | H : mret _ = Ok _ |- _ => injection H as H
  | H : Ok _ = Ok _ |- _ => injection H as H
  | H : Err _ = Ok _ |- _ => discriminate H
  | H : Panic = Ok _ |- _ => discriminate H
  | H : add64 _ _ = Ok _ |- _ => apply add64_Ok in H as [? ?]
  | H : sub64 _ _ = Ok _ |- _ => apply sub64_Ok in H as [? ?]
  | H : mul64 _ _ = Ok _ |- _ => apply mul64_Ok in H as [? ?]
  | H : ok_or _ _ = Ok _ |- _ => apply ok_or_Ok in H
  | H : map_err _ _ = Ok _ |- _ => apply map_err_Ok in H
  | H : index _ _ = Ok _ |- _ => apply index_Ok in H
  | H : slice _ _ _ = Ok _ |- _ => apply slice_Ok in H as [? ?]
  | H : checked_add _ _ = Some _ |- _ => apply checked_add_Some in H as [? ?]
  | H : checked_sub _ _ = Some _ |- _ => apply checked_sub_Some in H as [? ?]
  | H : checked_mul _ _ = Some _ |- _ => apply checked_mul_Some in H as [? ?]
  | H : (if ?c then Err _ else _) = Ok _ |- _ => destruct c eqn:?; [discriminate H|]
  | H : (if ?c then _ else Err _) = Ok _ |- _ => destruct c eqn:?; [|discriminate H]
  | H : (if ?c then Panic else _) = Ok _ |- _ => destruct c eqn:?; [discriminate H|]
  | H : (if ?c then _ else Panic) = Ok _ |- _ => destruct c eqn:?; [|discriminate H]
  end.
Ltac inv_ok := repeat inv_ok_step.

(** Show that a computation does not panic, one step at a time; what is left
    are the arithmetic side conditions. *)
Ltac no_panic_step :=
  match goal with
  | |- Ok _ <> Panic => discriminate
  | |- Err _ <> Panic => discriminate
  | |- mret _ <> Panic => discriminate
  | |- ok_or _ _ <> Panic => apply ok_or_no_panic
  | |- map_err _ _ <> Panic => apply map_err_no_panic
  | |- _ ≫= _ <> Panic => apply bind_no_panic; [|intros ? ?]
  | |- (if ?c then _ else _) <> Panic => destruct c eqn:?
  end.
Ltac no_panic := repeat no_panic_step.

(** ** The build

    What [cfg!(target_arch = "aarch64")] selects, and the Rust heap: whether a
    [try_reserve] of so many elements succeeds is up to the allocator of the
    unikernel, so every function that reserves takes this predicate. *)

Class Target := target_aarch64 : bool.
Class Heap := try_reserve : Z -> bool.
