(* ===== verification/Err.v ===== *)
(** * Errors ([rust/src/err.rs])

    POSIX error numbers as they cross back into C: the [Error] newtype, its
    constants and descriptions, and the two conversions [as_neg] and
    [from_c]. *)

From stdpp Require Import base numbers strings pretty.
From S2P Require Import Prelude.

(** [pub struct Error(pub i32)]. *)
Record Error : Type := MkError { errno : Z }.

#[global] Instance Error_eq_dec : EqDecision Error.
Proof. solve_decision. Defined.

(** [pub type Result<T> = core::result::Result<T, Error>]. *)
Abbreviation Res := (outcome Error).

Definition EPERM : Error := MkError 1.
Definition ENOENT : Error := MkError 2.
Definition EIO : Error := MkError 5.
Definition E2BIG : Error := MkError 7.
Definition ENOEXEC : Error := MkError 8.
Definition EBADF : Error := MkError 9.
Definition ENOMEM : Error := MkError 12.
Definition EFAULT : Error := MkError 14.
Definition EINVAL : Error := MkError 22.
Definition ENOSPC : Error := MkError 28.
Definition ERANGE : Error := MkError 34.
Definition ENOSYS : Error := MkError 38.
Definition ELOOP : Error := MkError 40.
Definition ENOTSUP : Error := MkError 95.

(** The rows of the [errnos!] table, which the macro expands into the constants
    above and into the arms of [as_str]. *)
Definition errno_table : list (Z * string) :=
  [ (1, "operation not permitted"); (2, "no such file or directory");
    (5, "input/output error"); (7, "argument list too long");
    (8, "exec format error"); (9, "bad file descriptor");
    (12, "cannot allocate memory"); (14, "bad address");
    (22, "invalid argument"); (28, "no space left on device");
    (34, "numerical result out of range"); (38, "function not implemented");
    (40, "too many levels of symbolic links"); (95, "operation not supported") ]%string.

Fixpoint describe (n : Z) (table : list (Z * string)) : string :=
  match table with
  | [] => "unknown error"%string
  | (v, d) :: table => if n =? v then d else describe n table
  end.

Definition as_str (e : Error) : string := describe (errno e) errno_table.

(** [fmt], of [Debug] and of [Display]: the pieces [write!] hands on. *)
Definition Error_fmt (e : Error) : list string := [as_str e; " ("; pretty (errno e); ")"]%string.

(** [i32] values, and the truncation [as i32] of an [i64]. *)
Definition i32 (v : Z) : Prop := - 2 ^ 31 <= v < 2 ^ 31.
Definition as_i32 (v : Z) : Z := (v + 2 ^ 31) mod 2 ^ 32 - 2 ^ 31.

(** [-self.0]: negating [i32::MIN] overflows. *)
Definition as_neg {E : Type} (e : Error) : outcome E Z :=
  if errno e =? - 2 ^ 31 then Panic else Ok (- errno e).

(** [from_c]: [-rc] overflows on [i64::MIN] only. *)
Definition from_c (rc : Z) : Res Z :=
  if rc <? 0 then
    if rc =? - 2 ^ 63 then Panic else Err (MkError (as_i32 (- rc)))
  else Ok rc.

Lemma as_i32_small v : i32 v -> as_i32 v = v.
Proof. unfold i32, as_i32. intros Hv. rewrite Z.mod_small; lia. Qed.

(** A positive errno survives the trip to C and back. *)
Lemma from_c_as_neg e :
  0 < errno e < 2 ^ 31 -> exists rc, as_neg (E:=Error) e = Ok rc /\ rc < 0 /\ from_c rc = Err e.
Proof.
  intros He. destruct e as [n]. cbn in He. exists (- n). unfold as_neg, from_c. cbn [errno].
  split; [|split]; [by case_match; [lia|]|lia|].
  destruct (Z.ltb_spec (- n) 0); [|lia]. destruct (Z.eqb_spec (- n) (- 2 ^ 63)); [lia|].
  rewrite Z.opp_involutive, as_i32_small; [done|]. unfold i32. lia.
Qed.

Lemma from_c_nonneg rc : 0 <= rc -> from_c rc = Ok rc.
Proof. intros. unfold from_c. destruct (Z.ltb_spec rc 0); [lia|done]. Qed.
