(* ===== verification/Log.v ===== *)
(** * The log line buffer ([rust/src/log.rs])

    A message is formatted into a buffer of fixed size; what does not fit is cut
    and marked.  [write_str] gets the pieces of a formatted message in order. *)

From Stdlib Require Import Strings.Byte.
From stdpp Require Import base numbers option strings sets list.
From S2P Require Import Prelude Err.

Definition LVL_ERR : Z := 0.
Definition LVL_WARN : Z := 1.
Definition LVL_INFO : Z := 2.
Definition LVL_DEBUG : Z := 3.

Definition MSG_MAX : nat := 512.

Record Buf : Type := MkBuf { b : list byte; n : nat; truncated : bool }.

Definition Buf_new : Buf := MkBuf (replicate MSG_MAX x00) 0 false.

Definition write_str {E : Type} (buf : Buf) (s : list byte) : outcome E Buf :=
  if (MSG_MAX - 1 <? n buf)%nat then Panic else
  let room := (MSG_MAX - 1 - n buf)%nat in
  let taken := Nat.min (length s) room in
  let cut := if (taken <? length s)%nat then true else truncated buf in
  data ← overwrite (b buf) (n buf) (take taken s);
  Ok (MkBuf data (n buf + taken) cut).

(** [finish]: the message, its terminator included. *)
Definition finish {E : Type} (buf : Buf) : outcome E (list byte) :=
  if truncated buf && (4 <=? n buf)%nat then
    data ← overwrite (b buf) (n buf - 4) [x2e; x2e; x2e; x00];
    slice data 0 (n buf)
  else
    if (n buf <? length (b buf))%nat
    then slice (<[n buf := x00]> (b buf)) 0 (n buf + 1)
    else Panic.

(** [write_fmt] with the pieces of a message. *)
Fixpoint write_fmt {E : Type} (buf : Buf) (pieces : list (list byte)) : outcome E Buf :=
  match pieces with
  | [] => Ok buf
  | s :: pieces => buf ← write_str buf s; write_fmt buf pieces
  end.

(** [emit]: the level and the message [elfrs_printk] gets. *)
Definition emit {E : Type} (lvl : Z) (pieces : list (list byte)) : outcome E (Z * list byte) :=
  buf ← write_fmt Buf_new pieces;
  msg ← finish buf;
  Ok (lvl, msg).

Definition err {E : Type} (args : list (list byte)) : outcome E (Z * list byte) := emit LVL_ERR args.
Definition warn {E : Type} (args : list (list byte)) : outcome E (Z * list byte) := emit LVL_WARN args.
Definition info {E : Type} (args : list (list byte)) : outcome E (Z * list byte) := emit LVL_INFO args.
Definition debug {E : Type} (args : list (list byte)) : outcome E (Z * list byte) := emit LVL_DEBUG args.

(** [core::str::from_utf8]: whether the bytes are well-formed UTF-8. *)
Definition within (lo hi : Z) (c : byte) : bool := (lo <=? byte_val c) && (byte_val c <=? hi).
Definition continuation : byte -> bool := within 0x80 0xbf.

Definition second_of_three (c c1 : byte) : bool :=
  within 0xe0 0xe0 c && within 0xa0 0xbf c1 || within 0xe1 0xec c && continuation c1 ||
  within 0xed 0xed c && within 0x80 0x9f c1 || within 0xee 0xef c && continuation c1.
Definition second_of_four (c c1 : byte) : bool :=
  within 0xf0 0xf0 c && within 0x90 0xbf c1 || within 0xf1 0xf3 c && continuation c1 ||
  within 0xf4 0xf4 c && within 0x80 0x8f c1.

Fixpoint is_utf8 (s : list byte) : bool :=
  match s with
  | [] => true
  | c :: s =>
    if within 0 0x7f c then is_utf8 s else
    match s with
    | [] => false
    | c1 :: s =>
      if within 0xc2 0xdf c then continuation c1 && is_utf8 s else
      match s with
      | [] => false
      | c2 :: s =>
        if second_of_three c c1 then continuation c2 && is_utf8 s else
        match s with
        | [] => false
        | c3 :: s => second_of_four c c1 && continuation c2 && continuation c3 && is_utf8 s
        end
      end
    end
  end.

(** The [emit] of a test build: the line it prints, with what follows the tag. *)
Definition level_tag (lvl : Z) : string :=
  if lvl =? LVL_ERR then "ERR" else if lvl =? LVL_WARN then "WARN" else if lvl =? LVL_INFO then "INFO" else "DBG".

Definition emit_test {E : Type} (lvl : Z) (args : list (list byte)) : outcome E (list byte) :=
  buf ← write_fmt Buf_new args;
  msg ← finish buf;
  msg ← slice msg 0 (length msg - 1);
  Ok (x5b :: String.list_byte_of_string (level_tag lvl) ++ [x5d; x20] ++
      (if is_utf8 msg then msg else String.list_byte_of_string "<invalid utf-8>")).

(** ** The message *)

(** The buffer after [s] was written to it. *)
Record holds (s : list byte) (buf : Buf) : Prop := {
  ho_len : length (b buf) = MSG_MAX;
  ho_n : n buf = Nat.min (length s) (MSG_MAX - 1);
  ho_data : take (n buf) (b buf) = take (n buf) s;
  ho_cut : truncated buf = (MSG_MAX - 1 <? length s)%nat
}.

Lemma write_str_holds {E} s t buf : holds s buf ->
  exists buf', write_str (E:=E) buf t = Ok buf' /\ holds (s ++ t) buf'.
Proof.
  intros [Hl Hn Hd Hc]. unfold write_str, MSG_MAX in *.
  rewrite (proj2 (Nat.ltb_ge _ _)) by lia. set (k := Nat.min (length t) (512 - 1 - n buf)).
  destruct (overwrite_Ok (E:=E) (b buf) (n buf) (take k t)) as (data & -> & Hlen & Htk).
  { rewrite length_take. lia. }
  cbn [mbind outcome_bind]. eexists. split; [done|]. rewrite length_take in Htk.
  replace (k `min` length t)%nat with k in Htk by lia.
  split; cbn [b n truncated]; unfold MSG_MAX; rewrite ?length_app.
  - congruence.
  - lia.
  - rewrite Htk, Hd. destruct (Nat.le_gt_cases (length s) (512 - 1)) as [Hle|Hgt].
    + replace (n buf) with (length s) by lia. rewrite take_ge by done. by rewrite take_app_add.
    + replace k with 0%nat by lia. rewrite take_0, app_nil_r, Nat.add_0_r. rewrite take_app_le by lia. done.
  - rewrite Hc. destruct (Nat.ltb_spec k (length t)), (Nat.ltb_spec (512 - 1) (length s)),
      (Nat.ltb_spec (512 - 1) (length s + length t)); try done; lia.
Qed.

Lemma write_fmt_holds {E} pieces s buf : holds s buf ->
  exists buf', write_fmt (E:=E) buf pieces = Ok buf' /\ holds (s ++ mjoin pieces) buf'.
Proof.
  revert s buf. induction pieces as [|t pieces IH]; intros s buf Hb; cbn [write_fmt].
  { exists buf. split; [done|]. cbn. by rewrite app_nil_r. }
  destruct (write_str_holds (E:=E) s t buf Hb) as (buf1 & -> & Hb1). cbn [mbind outcome_bind].
  destruct (IH (s ++ t) buf1 Hb1) as (buf2 & -> & Hb2). exists buf2. split; [done|].
  cbn [mjoin list_join]. by rewrite app_assoc.
Qed.

(** What [finish] makes of the pieces of a message. *)
Lemma formatted {E} pieces : exists buf,
  write_fmt (E:=E) Buf_new pieces = Ok buf /\
  finish (E:=E) buf =
  Ok (if (length (mjoin pieces) <=? 511)%nat then mjoin pieces ++ [x00]
      else take 507 (mjoin pieces) ++ [x2e; x2e; x2e; x00]).
Proof.
  destruct (write_fmt_holds (E:=E) pieces [] Buf_new) as (buf & -> & [Hl Hn Hd Hc]).
  { split; cbn; done. }
  exists buf. split; [done|].
  cbn [app] in *. set (msg := mjoin pieces) in *. unfold MSG_MAX in *. unfold finish. rewrite Hc.
  destruct (Nat.ltb_spec (512 - 1) (length msg)) as [Hgt|Hle], (Nat.leb_spec (length msg) 511); try lia.
  - replace (n buf) with 511%nat in * by lia. cbn [andb Nat.leb].
    destruct (overwrite_Ok (E:=E) (b buf) (511 - 4) [x2e; x2e; x2e; x00]) as (data & -> & Hlen & Htk); [cbn; lia|].
    cbn [mbind outcome_bind]. apply slice_Ok. split; [lia|]. rewrite drop_0.
    change 511%nat with (511 - 4 + length [x2e; x2e; x2e; x00])%nat. rewrite Htk. f_equal.
    assert (H507 : take 507 (take 511 (b buf)) = take 507 (take 511 msg)) by (by rewrite Hd).
    by rewrite !take_take in H507.
  - cbn [andb]. replace (n buf) with (length msg) in * by lia.
    rewrite (proj2 (Nat.ltb_lt _ _)) by lia. apply slice_Ok. rewrite length_insert. split; [lia|].
    rewrite drop_0, Nat.add_1_r, (take_S_r _ _ x00).
    + rewrite take_insert_ge by lia. rewrite Hd. by rewrite take_ge by lia.
    + apply list_lookup_insert_eq. lia.
Qed.

Lemma is_utf8_ascii s : Forall (fun c => byte_val c < 0x80) s -> is_utf8 s = true.
Proof.
  induction 1 as [|c s Hc _ IH]; [done|]. cbn [is_utf8]. unfold within. pose proof (byte_val_range c).
  rewrite (proj2 (Z.leb_le 0 _)), (proj2 (Z.leb_le _ 0x7f)) by lia. exact IH.
Qed.

(** C36. Logging never panics and never overruns its buffer, whatever the
    message: one of at most 511 bytes is handed over verbatim with its NUL, and
    a longer one is cut to 507 bytes followed by an ellipsis and the NUL. *)
Theorem emit_spec {E} lvl pieces :
  emit (E:=E) lvl pieces =
  Ok (lvl, if (length (mjoin pieces) <=? 511)%nat then mjoin pieces ++ [x00]
      else take 507 (mjoin pieces) ++ [x2e; x2e; x2e; x00]).
Proof. unfold emit. destruct (formatted (E:=E) pieces) as (buf & -> & Hf). cbn [mbind outcome_bind]. by rewrite Hf. Qed.

(** The same message in a test build: an ASCII line is printed as it is. *)
Lemma emit_test_ascii {E} lvl pieces :
  (length (mjoin pieces) <= 511)%nat -> Forall (fun c => byte_val c < 0x80) (mjoin pieces) ->
  emit_test (E:=E) lvl pieces
  = Ok (x5b :: String.list_byte_of_string (level_tag lvl) ++ [x5d; x20] ++ mjoin pieces).
Proof.
  intros Hlen Ha. unfold emit_test. destruct (formatted (E:=E) pieces) as (buf & -> & Hf). cbn [mbind outcome_bind].
  rewrite Hf, (proj2 (Nat.leb_le _ _) Hlen). cbn [mbind outcome_bind].
  rewrite (proj2 (slice_Ok (E:=E) _ 0 _ (mjoin pieces))).
  2:{ rewrite length_app, drop_0. cbn [length]. split; [lia|]. by rewrite take_app_le, take_ge by lia. }
  cbn [mbind outcome_bind]. by rewrite is_utf8_ascii.
Qed.
