(* ===== verification/Util.v ===== *)
(** * Path helpers ([rust/src/util.rs])

    [basename], [is_bare_name], [path_candidates] and the [Show] formatter, on
    byte strings. *)

From Stdlib Require Import Strings.Byte.
From stdpp Require Import base numbers option sets list.
From S2P Require Import Prelude.

Definition slash : byte := x2f.
Definition dot : byte := x2e.
Definition colon : byte := x3a.

Definition is_byte (c d : byte) : bool := bool_decide (d = c).

Definition basename (path : list byte) : list byte :=
  let stop := match rposition (fun c => negb (is_byte slash c)) path with
              | Some i => (i + 1)%nat
              | None => 0%nat
              end in
  let stripped := take stop path in
  match rposition (is_byte slash) stripped with
  | Some i => drop (i + 1) stripped
  | None => stripped
  end.

Definition is_bare_name (name : list byte) : bool :=
  match name with
  | [] => false
  | c :: _ => negb (is_byte slash c) && negb (is_byte dot c)
              && negb (bool_decide (slash ∈ name))
  end.

(** [slice::split]: one piece more than there are separators. *)
Fixpoint split_on (sep : byte) (l : list byte) : list (list byte) :=
  match l with
  | [] => [[]]
  | c :: l =>
    if is_byte sep c then [] :: split_on sep l
    else match split_on sep l with
         | [] => [[c]]
         | w :: ws => (c :: w) :: ws
         end
  end.

Definition candidate (name dir : list byte) : list byte :=
  let cand := match dir with [] => [dot] | _ => dir end in
  let cand := if bool_decide (last cand = Some slash) then cand else cand ++ [slash] in
  cand ++ name.

Definition path_candidates {heap : Heap} (name path_env : list byte) : list (list byte) :=
  omap (fun dir =>
    if try_reserve (Z.of_nat (length dir + 1 + length name))
    then Some (candidate name dir) else None)
    (split_on colon path_env).

Definition show_byte (b : byte) : byte :=
  if (0x20 <=? byte_val b) && (byte_val b <? 0x7f) then b else x3f.
Definition show (s : list byte) : list byte := show_byte <$> s.

(** ** Splitting at the last match *)

Lemma is_byte_true c d : is_byte c d = true <-> d = c.
Proof. apply bool_decide_eq_true. Qed.

Lemma is_byte_false c d : is_byte c d = false <-> d <> c.
Proof. apply bool_decide_eq_false. Qed.

(** [rposition] cuts a list into what precedes the last match, the match, and
    a rest without any. *)
Lemma rposition_split {A} (p : A -> bool) l i :
  rposition p l = Some i ->
  exists x, l = take i l ++ x :: drop (S i) l /\ p x = true /\
    Forall (fun y => p y = false) (drop (S i) l).
Proof.
  intros (x & Hx & Hp & Hmax)%rposition_Some. exists x. split; [|split; [done|]].
  - symmetry. by apply take_drop_middle.
  - apply Forall_lookup. intros j y. rewrite lookup_drop. apply Hmax. lia.
Qed.

Lemma split_on_nonempty sep l : split_on sep l <> [].
Proof. destruct l as [|c l]; cbn; [done|]. destruct (is_byte _ _), (split_on sep l); done. Qed.

(** Joining the pieces with the separator gives the list back, and no piece
    contains the separator. *)
Fixpoint join_with (sep : byte) (ws : list (list byte)) : list byte :=
  match ws with
  | [] => []
  | [w] => w
  | w :: ws => w ++ sep :: join_with sep ws
  end.

Lemma join_split_on sep l : join_with sep (split_on sep l) = l.
Proof.
  induction l as [|c l IH]; cbn [split_on]; [done|].
  destruct (is_byte sep c) eqn:Hc.
  - apply is_byte_true in Hc as ->. cbn. pose proof (split_on_nonempty sep l).
    destruct (split_on sep l); [done|]. by rewrite IH.
  - pose proof (split_on_nonempty sep l). destruct (split_on sep l) as [|w ws]; [done|].
    destruct ws; cbn in *; by rewrite <- IH.
Qed.

Lemma split_on_no_sep sep l : Forall (fun w => sep ∉ w) (split_on sep l).
Proof.
  induction l as [|c l IH]; cbn; [by repeat constructor; apply not_elem_of_nil|].
  destruct (is_byte sep c) eqn:Hc.
  - constructor; [apply not_elem_of_nil|done].
  - apply is_byte_false in Hc.
    destruct (split_on sep l) as [|w ws]; [by repeat constructor; set_solver|].
    apply Forall_cons in IH as [Hw Hws]. constructor; [set_solver|done].
Qed.

(** The part of [basename] after the trailing slashes are gone. *)
Lemma basename_app dir base slashes :
  base <> [] -> slash ∉ base -> Forall (eq slash) slashes ->
  (dir = [] \/ last dir = Some slash) ->
  basename (dir ++ base ++ slashes) = base.
Proof.
  intros Hne Hno Hsl Hdir. unfold basename.
  assert (Hb : forall j y, base !! j = Some y -> y <> slash).
  { intros j y Hy ->. apply Hno. by eapply list_elem_of_lookup_2. }
  destruct (last base) as [z|] eqn:Hlast; [|by apply last_None in Hlast].
  rewrite last_lookup in Hlast. assert (0 < length base)%nat by (destruct base; [done|cbn; lia]).
  assert (Hstop : rposition (fun c => negb (is_byte slash c)) (dir ++ base ++ slashes)
                  = Some (length dir + Nat.pred (length base))%nat).
  { apply rposition_Some. exists z. split; [|split].
    - rewrite lookup_app_r, lookup_app_l by lia. rewrite <- Hlast. f_equal. lia.
    - apply negb_true_iff, is_byte_false. eauto.
    - intros j y Hj Hy. rewrite lookup_app_r, lookup_app_r in Hy by lia.
      eapply Forall_lookup_1 in Hsl; [|exact Hy]. subst y.
      by apply negb_false_iff, is_byte_true. }
  rewrite Hstop. cbv zeta.
  replace (take (length dir + Nat.pred (length base) + 1) (dir ++ base ++ slashes))
    with (dir ++ base).
  2:{ rewrite app_assoc, take_app_length'; [done|]. rewrite length_app. lia. }
  destruct Hdir as [->|Hdir].
  - cbn [app]. replace (rposition (is_byte slash) base) with (@None nat); [done|].
    symmetry. apply rposition_None, Forall_lookup. intros j y Hy.
    apply is_byte_false. eauto.
  - rewrite last_lookup in Hdir.
    assert (0 < length dir)%nat by (apply lookup_lt_Some in Hdir; lia).
    replace (rposition (is_byte slash) (dir ++ base)) with (Some (Nat.pred (length dir))).
    + rewrite drop_app_length'; [done|lia].
    + symmetry. apply rposition_Some. exists slash. split; [|split].
      * rewrite lookup_app_l by lia. done.
      * by apply is_byte_true.
      * intros j y Hj Hy. rewrite lookup_app_r in Hy by lia. apply is_byte_false. eauto.
Qed.

(** Every path is a directory prefix, its basename, and trailing slashes. *)
Lemma path_decompose path :
  Forall (eq slash) path \/
  exists dir base slashes, path = dir ++ base ++ slashes /\ base <> [] /\ (slash ∉ base) /\
    Forall (eq slash) slashes /\ (dir = [] \/ last dir = Some slash).
Proof.
  destruct (rposition (fun c => negb (is_byte slash c)) path) as [i|] eqn:Hend.
  2:{ left. apply rposition_None in Hend. eapply Forall_impl; [exact Hend|].
      intros c Hc%negb_false_iff. by apply is_byte_true in Hc. }
  right. apply rposition_split in Hend as (x & Hpath & Hx & Hsl).
  apply negb_true_iff, is_byte_false in Hx.
  assert (Hslashes : Forall (eq slash) (drop (S i) path)).
  { eapply Forall_impl; [exact Hsl|]. intros c Hc%negb_false_iff.
    by apply is_byte_true in Hc. }
  set (front := take i path) in *.
  destruct (rposition (is_byte slash) front) as [k|] eqn:Hdir.
  - apply rposition_split in Hdir as (y & Hfront & Hy & Hno).
    apply is_byte_true in Hy as ->.
    exists (take k front ++ [slash]), (drop (S k) front ++ [x]), (drop (S i) path).
    split; [|split; [|split; [|split; [done|]]]].
    + rewrite Hpath at 1. rewrite Hfront at 1. by rewrite <- !app_assoc.
    + by destruct (drop (S k) front).
    + intros [Hin|Hin]%elem_of_app; [|set_solver].
      rewrite Forall_forall in Hno. specialize (Hno _ Hin). by apply is_byte_false in Hno.
    + right. apply last_snoc.
  - apply rposition_None in Hdir. exists [], (front ++ [x]), (drop (S i) path).
    split; [|split; [|split; [|split; [done|by left]]]].
    + rewrite Hpath at 1. by rewrite <- app_assoc.
    + by destruct front.
    + intros [Hin|Hin]%elem_of_app; [|set_solver].
      rewrite Forall_forall in Hdir. specialize (Hdir _ Hin). by apply is_byte_false in Hdir.
Qed.

Lemma basename_slashes path : Forall (eq slash) path -> basename path = [].
Proof.
  intros Hall. unfold basename.
  replace (rposition _ path) with (@None nat); [done|]. symmetry.
  apply rposition_None. eapply Forall_impl; [exact Hall|]. intros c <-. done.
Qed.

(** [basename] returns the last component: it contains no slash, the
    path is a directory prefix (empty or ending in a slash), the basename and a
    run of trailing slashes, and it is empty only for a path of slashes. *)
Theorem basename_spec path :
  (slash ∉ basename path) /\
  (exists dir slashes, path = dir ++ basename path ++ slashes /\
    Forall (eq slash) slashes /\ (dir = [] \/ last dir = Some slash)) /\
  (basename path = [] <-> Forall (eq slash) path).
Proof.
  destruct (path_decompose path) as [Hall|(dir & base & sl & -> & Hne & Hno & Hsl & Hdir)].
  - rewrite basename_slashes by done. split; [apply not_elem_of_nil|]. split; [|done].
    exists [], path. naive_solver.
  - rewrite basename_app by done. split; [done|]. split; [by exists dir, sl|].
    split; [done|]. intros Hall. destruct base as [|b base]; [done|].
    exfalso. apply Hno. rewrite Forall_forall in Hall.
    rewrite (Hall b) at 1; [by left|]. set_solver.
Qed.

Lemma candidate_shape name dir :
  exists d, candidate name dir = d ++ name /\ last d = Some slash /\
    (d = dir \/ d = dir ++ [slash] \/ (dir = [] /\ d = [dot; slash])).
Proof.
  unfold candidate. destruct dir as [|c dir].
  - exists [dot; slash]. split; [done|]. split; [done|]. auto.
  - cbv zeta. case_bool_decide; [by exists (c :: dir); split_and!; auto|].
    exists ((c :: dir) ++ [slash]). rewrite last_snoc. split_and!; auto.
Qed.

(** For a bare program name, the search path is cut at its colons and
    each element, in order, yields one candidate: the element, a slash unless it
    already ends in one ("." standing for an empty element), and the name --
    which is also the candidate's basename. *)
Theorem path_candidates_spec {heap : Heap} name path_env :
  is_bare_name name = true -> (forall n, try_reserve n = true) ->
  exists dirs, join_with colon dirs = path_env /\ Forall (fun w => colon ∉ w) dirs /\
    Forall2 (fun dir cand => basename cand = name /\
      exists d, cand = d ++ name /\ last d = Some slash /\
        (d = dir \/ d = dir ++ [slash] \/ (dir = [] /\ d = [dot; slash])))
      dirs (path_candidates name path_env).
Proof.
  intros Hbare Hheap. exists (split_on colon path_env).
  split; [apply join_split_on|]. split; [apply split_on_no_sep|].
  unfold path_candidates. induction (split_on colon path_env) as [|dir dirs IH]; cbn; [constructor|].
  rewrite Hheap. constructor; [|done].
  destruct (candidate_shape name dir) as (d & Hc & Hd & Hcase). split; [|by exists d].
  rewrite Hc. rewrite <- (app_nil_r name) at 1. destruct name as [|c name]; [done|].
  cbn in Hbare. apply andb_true_iff in Hbare as [_ Hno].
  apply negb_true_iff, bool_decide_eq_false in Hno.
  apply basename_app; [done|done|constructor|by right].
Qed.

(** [Show] prints every byte string with the same number of printable
    ASCII characters, leaves printable text alone, and is idempotent. *)
Theorem show_printable s :
  length (show s) = length s /\
  Forall (fun b => 0x20 <= byte_val b < 0x7f) (show s) /\
  (Forall (fun b => 0x20 <= byte_val b < 0x7f) s -> show s = s) /\
  show (show s) = show s.
Proof.
  assert (Hok : forall b, 0x20 <= byte_val (show_byte b) < 0x7f).
  { intros b. unfold show_byte. destruct (_ && _) eqn:Hb; [lia|]. cbn. lia. }
  assert (Hid : forall t, Forall (fun b => 0x20 <= byte_val b < 0x7f) t -> show t = t).
  { intros t. induction 1 as [|b t Hb _ IH]; cbn; [done|]. f_equal; [|exact IH].
    unfold show_byte. destruct (_ && _) eqn:He; [done|lia]. }
  assert (Hall : Forall (fun b => 0x20 <= byte_val b < 0x7f) (show s)).
  { apply Forall_fmap, Forall_true. intros b. apply Hok. }
  split; [apply length_fmap|]. auto.
Qed.

(** ["sh"] looked up in [":/bin"]. *)
Lemma path_candidates_spec_witness :
  exists dirs, join_with colon dirs = [colon; slash; x62; x69; x6e] /\
    Forall (fun w => colon ∉ w) dirs /\
    Forall2 (fun dir cand => basename cand = [x73; x68] /\
      exists d, cand = d ++ [x73; x68] /\ last d = Some slash /\
        (d = dir \/ d = dir ++ [slash] \/ (dir = [] /\ d = [dot; slash])))
      dirs (path_candidates (heap:=fun _ => true) [x73; x68] [colon; slash; x62; x69; x6e]).
Proof.
  apply (path_candidates_spec (heap:=fun _ => true)); reflexivity.
Defined.
