(* ===== verification/Elf.v ===== *)
(** * The ELF64 reader ([rust/src/elf.rs])

    Bounds-checked parsing of the executable header and the program headers,
    and the validation every later component relies on.  [debug_assert!] is not
    part of the model: release builds compile it out. *)

From Stdlib Require Import Strings.Byte Sorted Permutation.
From stdpp Require Import base numbers option strings sets list.
From S2P Require Import Prelude Err.

(** ** Constants *)

Definition EI_NIDENT : nat := 16.
Definition EHDR_SIZE : nat := 64.
Definition PHDR_SIZE : nat := 56.

Definition ELFMAG : list byte := [x7f; x45; x4c; x46].

Definition EI_CLASS : nat := 4.
Definition EI_DATA : nat := 5.
Definition EI_VERSION : nat := 6.
Definition EI_OSABI : nat := 7.
Definition EI_ABIVERSION : nat := 8.

Definition ELFCLASS64 : Z := 2.
Definition ELFDATA2LSB : Z := 1.
Definition EV_CURRENT : Z := 1.
Definition ELFOSABI_NONE : Z := 0.
Definition ELFOSABI_GNU : Z := 3.
Definition ELFOSABI_ARM_AEABI : Z := 64.

Definition ET_EXEC : Z := 2.
Definition ET_DYN : Z := 3.
Definition EM_X86_64 : Z := 62.
Definition EM_AARCH64 : Z := 183.
Definition PN_XNUM : Z := 0xffff.

Definition PT_NULL : Z := 0.
Definition PT_LOAD : Z := 1.
Definition PT_DYNAMIC : Z := 2.
Definition PT_INTERP : Z := 3.
Definition PT_NOTE : Z := 4.
Definition PT_PHDR : Z := 6.
Definition PT_TLS : Z := 7.
Definition PT_GNU_EH_FRAME : Z := 0x6474e550.
Definition PT_GNU_STACK : Z := 0x6474e551.
Definition PT_GNU_RELRO : Z := 0x6474e552.
Definition PT_GNU_PROPERTY : Z := 0x6474e553.

Definition PF_X : Z := 1.
Definition PF_W : Z := 2.
Definition PF_R : Z := 4.

Definition EM_NATIVE {target : Target} : Z :=
  if target_aarch64 then EM_AARCH64 else EM_X86_64.

Definition INTERP_MAX : Z := 4096.
Definition PHNUM_MAX : Z := 1024.

(** ** Headers *)

Record Ehdr : Type := MkEhdr {
  ident : list byte;
  e_type : Z;
  e_machine : Z;
  e_version : Z;
  e_entry : Z;
  e_phoff : Z;
  e_shoff : Z;
  e_flags : Z;
  e_ehsize : Z;
  e_phentsize : Z;
  e_phnum : Z;
  e_shentsize : Z;
  e_shnum : Z;
  e_shstrndx : Z
}.

Record Phdr : Type := MkPhdr {
  p_type : Z;
  p_flags : Z;
  p_offset : Z;
  p_vaddr : Z;
  p_paddr : Z;
  p_filesz : Z;
  p_memsz : Z;
  p_align : Z
}.

#[global] Instance Ehdr_eq_dec : EqDecision Ehdr.
Proof. solve_decision. Defined.
#[global] Instance Phdr_eq_dec : EqDecision Phdr.
Proof. solve_decision. Defined.

(** [#[derive(Default)]]. *)
Definition Phdr_default : Phdr := MkPhdr 0 0 0 0 0 0 0 0.
#[global] Instance Phdr_inhabited : Inhabited Phdr := populate Phdr_default.

Definition is_read (ph : Phdr) : bool := negb (Z.land (p_flags ph) PF_R =? 0).
Definition is_write (ph : Phdr) : bool := negb (Z.land (p_flags ph) PF_W =? 0).
Definition is_exec (ph : Phdr) : bool := negb (Z.land (p_flags ph) PF_X =? 0).

Definition flag_str (ph : Phdr) : list byte :=
  [ if is_read ph then x72 else x2d;
    if is_write ph then x77 else x2d;
    if is_exec ph then x78 else x2d ].

(** ** Little-endian fields *)

Definition u16le {E : Type} (b : list byte) (off : nat) : outcome E Z :=
  b0 ← index b off;
  b1 ← index b (off + 1)%nat;
  Ok (from_le_bytes [b0; b1]).

Definition u32le {E : Type} (b : list byte) (off : nat) : outcome E Z :=
  b0 ← index b off;
  b1 ← index b (off + 1)%nat;
  b2 ← index b (off + 2)%nat;
  b3 ← index b (off + 3)%nat;
  Ok (from_le_bytes [b0; b1; b2; b3]).

Definition u64le {E : Type} (b : list byte) (off : nat) : outcome E Z :=
  v ← slice b off 8;
  Ok (from_le_bytes v).

(** ** Image sources

    The trait object a parser reads from: [read_exact_at off n] is a call with
    a buffer of [n] bytes and yields what fills it. *)
Record ImageSource : Type := MkSource {
  read_exact_at : Z -> nat -> Res (list byte);
  size : option Z
}.

(** [impl ImageSource for &[u8]].  [usize] is 64 bits wide, so the conversion of
    the offset cannot fail. *)
Definition slice_source (b : list byte) : ImageSource :=
  let len := Z.of_nat (length b) in
  MkSource
    (fun off n =>
       stop ← ok_or (checked_add off (Z.of_nat n)) ENOEXEC;
       if len <? stop then Err ENOEXEC
       else slice b (Z.to_nat off) n)
    (Some len).

Definition Ehdr_parse (raw : list byte) : Res Ehdr :=
  if (length raw <? EHDR_SIZE)%nat then Err ENOEXEC else
  ident ← slice raw 0 EI_NIDENT;
  e_type ← u16le raw 16;
  e_machine ← u16le raw 18;
  e_version ← u32le raw 20;
  e_entry ← u64le raw 24;
  e_phoff ← u64le raw 32;
  e_shoff ← u64le raw 40;
  e_flags ← u32le raw 48;
  e_ehsize ← u16le raw 52;
  e_phentsize ← u16le raw 54;
  e_phnum ← u16le raw 56;
  e_shentsize ← u16le raw 58;
  e_shnum ← u16le raw 60;
  e_shstrndx ← u16le raw 62;
  Ok (MkEhdr ident e_type e_machine e_version e_entry e_phoff e_shoff e_flags
        e_ehsize e_phentsize e_phnum e_shentsize e_shnum e_shstrndx).

Definition Phdr_parse (raw : list byte) : Res Phdr :=
  if (length raw <? PHDR_SIZE)%nat then Err ENOEXEC else
  p_type ← u32le raw 0;
  p_flags ← u32le raw 4;
  p_offset ← u64le raw 8;
  p_vaddr ← u64le raw 16;
  p_paddr ← u64le raw 24;
  p_filesz ← u64le raw 32;
  p_memsz ← u64le raw 40;
  p_align ← u64le raw 48;
  Ok (MkPhdr p_type p_flags p_offset p_vaddr p_paddr p_filesz p_memsz p_align).

(** ** Rejections *)

Inductive Reject : Type :=
| NotElf
| Unsupported (s : string)
| Malformed (s : string).

#[global] Instance Reject_eq_dec : EqDecision Reject.
Proof. solve_decision. Defined.

(** [impl From<Reject> for Error] and [Reject::as_str]. *)
Definition Reject_to_Error (r : Reject) : Error :=
  match r with
  | NotElf | Malformed _ => ENOEXEC
  | Unsupported _ => ENOTSUP
  end.

Definition Reject_as_str (r : Reject) : string :=
  match r with
  | NotElf => "not an ELF64 little-endian image"
  | Unsupported s | Malformed s => s
  end.

Record Image : Type := MkImage {
  ehdr : Ehdr;
  phdrs : list Phdr;
  loads : list nat;
  interp : option Phdr;
  phdr_seg : option Phdr;
  tls : option Phdr;
  relro : option Phdr;
  exec_stack : bool
}.

Definition is_pie (img : Image) : bool := e_type (ehdr img) =? ET_DYN.
Definition needs_interp (img : Image) : bool :=
  match interp img with Some _ => true | None => false end.

(** ** Alignment *)

Definition align_down {E : Type} (v a : Z) : outcome E Z :=
  m ← sub64 a 1;
  Ok (Z.land v (not64 m)).

Definition align_up {E : Type} (v a : Z) : outcome E (option Z) :=
  m ← sub64 a 1;
  Ok ((fun x => Z.land x (not64 m)) <$> checked_add v m).

(** ** Parsing an image *)

Definition validate_load (ph : Phdr) (page_size : Z) (file_size : option Z) :
    outcome Reject unit :=
  if p_memsz ph <? p_filesz ph then
    Err (Malformed "PT_LOAD filesz exceeds memsz")
  else if negb (p_align ph =? 0) && negb (is_power_of_two (p_align ph)) then
    Err (Malformed "PT_LOAD alignment is not a power of two")
  else if (page_size <? p_align ph) && negb (is_power_of_two (p_align ph)) then
    Err (Malformed "PT_LOAD alignment is not a power of two")
  else
  _ ← ok_or (checked_add (p_vaddr ph) (p_memsz ph))
        (Malformed "PT_LOAD vaddr+memsz overflows");
  file_end ← ok_or (checked_add (p_offset ph) (p_filesz ph))
        (Malformed "PT_LOAD offset+filesz overflows");
  if (match file_size with Some sz => sz <? file_end | None => false end) then
    Err (Malformed "PT_LOAD extends past end of file")
  else if p_filesz ph =? 0 then Ok tt
  else
  m ← sub64 page_size 1;
  if negb (Z.land (p_vaddr ph) m =? Z.land (p_offset ph) m) then
    Err (Malformed "PT_LOAD vaddr and offset are not page-congruent")
  else Ok tt.

(** Identification and the sanity checks on the executable header. *)
Definition check_ehdr {target : Target} (eh : Ehdr) : outcome Reject unit :=
  mag ← slice (ident eh) 0 4;
  class ← index (ident eh) EI_CLASS;
  data ← index (ident eh) EI_DATA;
  version ← index (ident eh) EI_VERSION;
  if negb (bool_decide (mag = ELFMAG)) || negb (byte_val class =? ELFCLASS64)
     || negb (byte_val data =? ELFDATA2LSB) || negb (byte_val version =? EV_CURRENT)
  then Err NotElf else
  osabi ← index (ident eh) EI_OSABI;
  if negb ((byte_val osabi =? ELFOSABI_NONE) || (byte_val osabi =? ELFOSABI_GNU)
           || (byte_val osabi =? ELFOSABI_ARM_AEABI))
  then Err (Unsupported "unsupported ELF OS ABI")
  else if negb (e_machine eh =? EM_NATIVE) then
    Err (Unsupported "ELF machine type mismatch")
  else if negb (e_type eh =? ET_DYN) && negb (e_type eh =? ET_EXEC) then
    Err (Unsupported "ELF is neither ET_DYN nor ET_EXEC")
  else if negb (e_version eh =? 1) then Err (Malformed "unsupported ELF version")
  else if e_phnum eh =? PN_XNUM then Err (Unsupported "PN_XNUM program header count")
  else if e_phnum eh =? 0 then Err (Malformed "no program headers")
  else if PHNUM_MAX <? e_phnum eh then
    Err (Malformed "implausible program header count")
  else if e_phentsize eh <? Z.of_nat PHDR_SIZE then
    Err (Malformed "program header entry too small")
  else Ok tt.

(** The program header table has to lie inside the file. *)
Definition check_phtab (eh : Ehdr) (file_size : option Z) : outcome Reject unit :=
  phtab_len ← ok_or (checked_mul (e_phnum eh) (e_phentsize eh))
                (Malformed "program header table overflows");
  phtab_end ← ok_or (checked_add (e_phoff eh) phtab_len)
                (Malformed "program header table overflows");
  if (match file_size with Some sz => sz <? phtab_end | None => false end) then
    Err (Malformed "program header table past end of file")
  else Ok tt.

(** [for i in 0..phnum]: the [n] entries from index [i] on. *)
Fixpoint read_phdrs (src : ImageSource) (eh : Ehdr) (i : Z) (n : nat) :
    outcome Reject (list Phdr) :=
  match n with
  | O => Ok []
  | S n =>
    step ← mul64 i (e_phentsize eh);
    off ← add64 (e_phoff eh) step;
    ent ← map_err (fun _ => Malformed "truncated program header table")
            (read_exact_at src off PHDR_SIZE);
    ph ← map_err (fun _ => Malformed "bad program header") (Phdr_parse ent);
    rest ← read_phdrs src eh (i + 1) n;
    Ok (ph :: rest)
  end.

(** The mutable locals of the classification loop. *)
Record Classes : Type := MkClasses {
  c_loads : list nat;
  c_interp : option Phdr;
  c_phdr_seg : option Phdr;
  c_tls : option Phdr;
  c_relro : option Phdr;
  c_exec_stack : bool
}.

Definition classes_init : Classes := MkClasses [] None None None None false.

Definition check_interp (ph : Phdr) (file_size : option Z) : outcome Reject unit :=
  if (p_filesz ph =? 0) || (INTERP_MAX <? p_filesz ph) then
    Err (Malformed "implausible PT_INTERP length")
  else match file_size with
  | None => Ok tt
  | Some sz =>
    stop ← ok_or (checked_add (p_offset ph) (p_filesz ph))
             (Malformed "PT_INTERP overflows");
    if sz <? stop then Err (Malformed "PT_INTERP past end of file") else Ok tt
  end.

Definition classify_one (page_size : Z) (file_size : option Z) (i : nat) (ph : Phdr)
    (c : Classes) : outcome Reject Classes :=
  let '(MkClasses loads interp phdr_seg tls relro exec_stack) := c in
  if p_type ph =? PT_LOAD then
    _ ← validate_load ph page_size file_size;
    Ok (MkClasses (loads ++ [i]) interp phdr_seg tls relro exec_stack)
  else if p_type ph =? PT_INTERP then
    if (match interp with Some _ => true | None => false end) then
      Err (Unsupported "multiple PT_INTERP")
    else
    _ ← check_interp ph file_size;
    Ok (MkClasses loads (Some ph) phdr_seg tls relro exec_stack)
  else if p_type ph =? PT_PHDR then
    Ok (MkClasses loads interp (Some ph) tls relro exec_stack)
  else if p_type ph =? PT_TLS then
    Ok (MkClasses loads interp phdr_seg (Some ph) relro exec_stack)
  else if p_type ph =? PT_GNU_RELRO then
    Ok (MkClasses loads interp phdr_seg tls (Some ph) exec_stack)
  else if p_type ph =? PT_GNU_STACK then
    Ok (MkClasses loads interp phdr_seg tls relro (is_exec ph))
  else Ok c.

Fixpoint classify (page_size : Z) (file_size : option Z) (i : nat) (phs : list Phdr)
    (c : Classes) : outcome Reject Classes :=
  match phs with
  | [] => Ok c
  | ph :: phs =>
    c ← classify_one page_size file_size i ph c;
    classify page_size file_size (S i) phs c
  end.

(** [for w in loads.windows(2)]: neighbours in the sorted order must not share a
    page. *)
Definition check_pair (page_size : Z) (a b : Phdr) : outcome Reject unit :=
  s ← add64 (p_vaddr a) (p_memsz a);
  up ← align_up s page_size;
  a_end ← ok_or up (Malformed "segment end overflows");
  db ← align_down (p_vaddr b) page_size;
  da ← align_down a_end page_size;
  if (p_vaddr b <? a_end) && (db <? da) then
    Err (Malformed "overlapping PT_LOAD segments")
  else Ok tt.

Fixpoint check_overlaps (phs : list Phdr) (page_size : Z) (l : list nat) :
    outcome Reject unit :=
  match l with
  | i :: (j :: _) as rest =>
    a ← index phs i;
    b ← index phs j;
    _ ← check_pair page_size a b;
    check_overlaps phs page_size rest
  | _ => Ok tt
  end.

(** The sort key; the indices in [loads] come from [enumerate()], so the lookup
    is always in range. *)
Definition vaddr_at (phs : list Phdr) (i : nat) : Z := p_vaddr (phs !!! i).

Definition Image_parse {target : Target} {heap : Heap} (src : ImageSource) (page_size : Z) :
    outcome Reject Image :=
  raw ← map_err (fun _ => NotElf) (read_exact_at src 0 EHDR_SIZE);
  eh ← map_err (fun _ => NotElf) (Ehdr_parse raw);
  _ ← check_ehdr eh;
  _ ← check_phtab eh (size src);
  if negb (try_reserve (e_phnum eh)) then
    Err (Malformed "out of memory reading program headers")
  else
  phs ← read_phdrs src eh 0 (Z.to_nat (e_phnum eh));
  c ← classify page_size (size src) 0 phs classes_init;
  if (match c_loads c with [] => true | _ => false end) then
    Err (Malformed "no PT_LOAD segments")
  else
  let sorted := sort_by_key (vaddr_at phs) (c_loads c) in
  _ ← check_overlaps phs page_size sorted;
  Ok (MkImage eh phs sorted (c_interp c) (c_phdr_seg c) (c_tls c) (c_relro c)
        (c_exec_stack c)).

(** ** Reading the interpreter path *)

Definition interp_path {heap : Heap} (img : Image) (src : ImageSource) : Res (list byte) :=
  ph ← ok_or (interp img) EINVAL;
  if negb (try_reserve (p_filesz ph)) then Err ENOMEM else
  buf ← read_exact_at src (p_offset ph) (Z.to_nat (p_filesz ph));
  match position (fun b => bool_decide (b = x00)) buf with
  | Some 0%nat => Err ENOEXEC
  | Some n => Ok (take n buf)
  | None => Err ENOEXEC
  end.

(** ** The span of an image and its alignment *)

Definition va_span (img : Image) (page_size : Z) : Res (Z * Z) :=
  i ← index (loads img) 0;
  first ← index (phdrs img) i;
  j ← (match last (loads img) with Some j => Ok j | None => Panic end);
  lst ← index (phdrs img) j;
  lo ← align_down (p_vaddr first) page_size;
  s ← add64 (p_vaddr lst) (p_memsz lst);
  up ← align_up s page_size;
  hi ← ok_or up ENOEXEC;
  Ok (lo, hi).

Definition load_align_step (phs : list Phdr) (a : Z) (i : nat) : outcome Error Z :=
  ph ← index phs i;
  if (a <? p_align ph) && is_power_of_two (p_align ph) then Ok (p_align ph) else Ok a.

Fixpoint load_align_loop (phs : list Phdr) (a : Z) (l : list nat) : outcome Error Z :=
  match l with
  | [] => Ok a
  | i :: l => a ← load_align_step phs a i; load_align_loop phs a l
  end.

Definition load_align (img : Image) (page_size : Z) : Res Z :=
  load_align_loop (phdrs img) page_size (loads img).

(** ** Field readers in closed form *)

Definition field (n : nat) (b : list byte) (off : nat) : Z :=
  from_le_bytes (take n (drop off b)).

Lemma field_range n b off :
  (off + n <= length b)%nat -> 0 <= field n b off < 256 ^ Z.of_nat n.
Proof.
  intros. unfold field. pose proof (from_le_bytes_range (take n (drop off b))) as Hr.
  by rewrite length_take_drop in Hr.
Qed.

Section Fields.
Context {E : Type}.

Lemma take_drop_S {A} (b : list A) n off x :
  b !! off = Some x -> take (S n) (drop off b) = x :: take n (drop (S off) b).
Proof. intros Hx. rewrite (drop_S _ x) by done. done. Qed.

Lemma u16le_eq b off : (off + 2 <= length b)%nat -> u16le (E:=E) b off = Ok (field 2 b off).
Proof.
  intros. unfold u16le, field.
  destruct (index_lt (E:=E) b off) as (b0 & H0 & ->); [lia|].
  destruct (index_lt (E:=E) b (off + 1)) as (b1 & H1 & ->); [lia|].
  rewrite Nat.add_1_r in H1. cbn [mbind outcome_bind].
  by rewrite (take_drop_S b 1 off b0), (take_drop_S b 0 (S off) b1) by done.
Qed.

Lemma u32le_eq b off : (off + 4 <= length b)%nat -> u32le (E:=E) b off = Ok (field 4 b off).
Proof.
  intros. unfold u32le, field.
  destruct (index_lt (E:=E) b off) as (b0 & H0 & ->); [lia|].
  destruct (index_lt (E:=E) b (off + 1)) as (b1 & H1 & ->); [lia|].
  destruct (index_lt (E:=E) b (off + 2)) as (b2 & H2 & ->); [lia|].
  destruct (index_lt (E:=E) b (off + 3)) as (b3 & H3 & ->); [lia|].
  replace (off + 1)%nat with (S off) in H1 by lia.
  replace (off + 2)%nat with (S (S off)) in H2 by lia.
  replace (off + 3)%nat with (S (S (S off))) in H3 by lia. cbn [mbind outcome_bind].
  by rewrite (take_drop_S b 3 off b0), (take_drop_S b 2 (S off) b1),
    (take_drop_S b 1 (S (S off)) b2), (take_drop_S b 0 (S (S (S off))) b3) by done.
Qed.

Lemma u64le_eq b off : (off + 8 <= length b)%nat -> u64le (E:=E) b off = Ok (field 8 b off).
Proof.
  intros. unfold u64le, slice, field. rewrite at_least_leb. destruct (Nat.leb_spec (off + 8) (length b)); [done|lia].
Qed.
End Fields.

Definition ehdr_of (raw : list byte) : Ehdr :=
  MkEhdr (take EI_NIDENT raw) (field 2 raw 16) (field 2 raw 18) (field 4 raw 20)
    (field 8 raw 24) (field 8 raw 32) (field 8 raw 40) (field 4 raw 48) (field 2 raw 52)
    (field 2 raw 54) (field 2 raw 56) (field 2 raw 58) (field 2 raw 60) (field 2 raw 62).

Definition phdr_of (raw : list byte) : Phdr :=
  MkPhdr (field 4 raw 0) (field 4 raw 4) (field 8 raw 8) (field 8 raw 16) (field 8 raw 24)
    (field 8 raw 32) (field 8 raw 40) (field 8 raw 48).

Lemma Ehdr_parse_eq raw :
  Ehdr_parse raw = if (length raw <? EHDR_SIZE)%nat then Err ENOEXEC else Ok (ehdr_of raw).
Proof.
  unfold Ehdr_parse, ehdr_of, EHDR_SIZE, EI_NIDENT.
  destruct (Nat.ltb_spec (length raw) 64) as [|Hlen]; [done|].
  unfold slice. rewrite at_least_leb. destruct (Nat.leb_spec (0 + 16) (length raw)); [|lia].
  rewrite !u16le_eq, !u32le_eq, !u64le_eq by lia. done.
Qed.

Lemma Phdr_parse_eq raw :
  Phdr_parse raw = if (length raw <? PHDR_SIZE)%nat then Err ENOEXEC else Ok (phdr_of raw).
Proof.
  unfold Phdr_parse, phdr_of, PHDR_SIZE.
  destruct (Nat.ltb_spec (length raw) 56) as [|Hlen]; [done|].
  rewrite !u32le_eq, !u64le_eq by lia. done.
Qed.

(** The fields fit their machine types. *)
Record phdr_range (ph : Phdr) : Prop := {
  pr_type : 0 <= p_type ph < 2 ^ 32;
  pr_flags : 0 <= p_flags ph < 2 ^ 32;
  pr_offset : u64 (p_offset ph);
  pr_vaddr : u64 (p_vaddr ph);
  pr_paddr : u64 (p_paddr ph);
  pr_filesz : u64 (p_filesz ph);
  pr_memsz : u64 (p_memsz ph);
  pr_align : u64 (p_align ph)
}.

Record ehdr_range (eh : Ehdr) : Prop := {
  er_ident : length (ident eh) = EI_NIDENT;
  er_entry : u64 (e_entry eh);
  er_phoff : u64 (e_phoff eh);
  er_phnum : 0 <= e_phnum eh < 2 ^ 16;
  er_phentsize : 0 <= e_phentsize eh < 2 ^ 16
}.

Lemma phdr_of_range raw : (PHDR_SIZE <= length raw)%nat -> phdr_range (phdr_of raw).
Proof.
  unfold PHDR_SIZE. intros Hlen.
  split; cbn -[field]; (apply (field_range 4) || apply (field_range 8)); lia.
Qed.

Lemma ehdr_of_range raw : (EHDR_SIZE <= length raw)%nat -> ehdr_range (ehdr_of raw).
Proof.
  unfold EHDR_SIZE. intros Hlen. split; cbn -[field take].
  - rewrite length_take. unfold EI_NIDENT. lia.
  - apply (field_range 8). lia.
  - apply (field_range 8). lia.
  - apply (field_range 2). lia.
  - apply (field_range 2). lia.
Qed.

Lemma Phdr_parse_Ok raw ph :
  Phdr_parse raw = Ok ph <-> (PHDR_SIZE <= length raw)%nat /\ ph = phdr_of raw.
Proof.
  rewrite Phdr_parse_eq. destruct (Nat.ltb_spec (length raw) PHDR_SIZE); naive_solver lia.
Qed.

Lemma Ehdr_parse_Ok raw eh :
  Ehdr_parse raw = Ok eh <-> (EHDR_SIZE <= length raw)%nat /\ eh = ehdr_of raw.
Proof.
  rewrite Ehdr_parse_eq. destruct (Nat.ltb_spec (length raw) EHDR_SIZE); naive_solver lia.
Qed.

(** ** Alignment in closed form *)

Section Align.
Variable page : Z.
Hypothesis page_pow2 : is_power_of_two page = true.
Hypothesis page_u64 : page < 2 ^ 64.
Context {E : Type}.

Lemma align_down_eq v : u64 v -> align_down (E:=E) v page = Ok (rdown v page).
Proof.
  intros Hv. destruct (pow2_u64 page) as (k & Hk & ->); [done|done|].
  assert (0 < 2 ^ k) by (apply Z.pow_pos_nonneg; lia).
  unfold align_down. rewrite sub64_small by lia. cbn. rewrite land_not64_pow2; [done|lia|done].
Qed.

Lemma align_up_eq v :
  0 <= v -> align_up (E:=E) v page =
    Ok (if v + (page - 1) <? 2 ^ 64 then Some (rup v page) else None).
Proof.
  intros Hv. destruct (pow2_u64 page) as (k & Hk & ->); [done|done|].
  assert (0 < 2 ^ k) by (apply Z.pow_pos_nonneg; lia).
  unfold align_up. rewrite sub64_small by lia. cbn [mbind outcome_bind].
  f_equal. unfold checked_add. destruct (Z.ltb_spec (v + (2 ^ k - 1)) (2 ^ 64)); [|done].
  cbn. rewrite land_not64_pow2; [done|lia|]. unfold u64. lia.
Qed.

Lemma align_up_Some v x :
  0 <= v -> align_up (E:=E) v page = Ok (Some x) <-> v + (page - 1) < 2 ^ 64 /\ x = rup v page.
Proof.
  intros Hv. rewrite align_up_eq by done.
  destruct (Z.ltb_spec (v + (page - 1)) (2 ^ 64)); naive_solver lia.
Qed.

Lemma rup_u64 v : 0 <= v -> v + (page - 1) < 2 ^ 64 -> u64 (rup v page).
Proof.
  intros Hv Hlt. pose proof (is_power_of_two_pos _ page_pow2) as Hp.
  pose proof (rup_bounds page Hp v). unfold u64. lia.
Qed.

Lemma rdown_u64 v : u64 v -> u64 (rdown v page).
Proof.
  intros [Hv1 Hv2]. pose proof (is_power_of_two_pos _ page_pow2) as Hp.
  pose proof (rdown_bounds page Hp v). pose proof (rdown_nonneg page Hp v Hv1). unfold u64. lia.
Qed.
End Align.

(** ** What an acceptable image is

    A declarative reading of the validation code: the conditions on one
    loadable segment, on the interpreter entry, on the executable header and on
    the whole program header table. *)

Definition vend (ph : Phdr) : Z := p_vaddr ph + p_memsz ph.
Definition fend (ph : Phdr) : Z := p_offset ph + p_filesz ph.

Definition in_file (fsize : option Z) (stop : Z) : Prop :=
  match fsize with Some sz => stop <= sz | None => True end.

Record load_ok (page : Z) (fsize : option Z) (ph : Phdr) : Prop := {
  lo_size : p_filesz ph <= p_memsz ph;
  lo_align : p_align ph = 0 \/ is_power_of_two (p_align ph) = true;
  lo_mem : vend ph < 2 ^ 64;
  lo_file : fend ph < 2 ^ 64;
  lo_eof : in_file fsize (fend ph);
  lo_congr : p_filesz ph <> 0 -> p_vaddr ph mod page = p_offset ph mod page
}.

Record interp_ok (fsize : option Z) (ph : Phdr) : Prop := {
  io_len : 0 < p_filesz ph <= INTERP_MAX;
  io_eof : in_file fsize (fend ph);
  io_ovf : fsize <> None -> fend ph < 2 ^ 64
}.

Record ehdr_ok {target : Target} (eh : Ehdr) : Prop := {
  eo_magic : take 4 (ident eh) = ELFMAG;
  eo_class : byte_val <$> ident eh !! EI_CLASS = Some ELFCLASS64;
  eo_data : byte_val <$> ident eh !! EI_DATA = Some ELFDATA2LSB;
  eo_vers : byte_val <$> ident eh !! EI_VERSION = Some EV_CURRENT;
  eo_osabi : exists b, ident eh !! EI_OSABI = Some b /\
    (byte_val b = ELFOSABI_NONE \/ byte_val b = ELFOSABI_GNU \/ byte_val b = ELFOSABI_ARM_AEABI);
  eo_machine : e_machine eh = EM_NATIVE;
  eo_type : e_type eh = ET_DYN \/ e_type eh = ET_EXEC;
  eo_version : e_version eh = 1;
  eo_phnum : 0 < e_phnum eh <= PHNUM_MAX;
  eo_phentsize : Z.of_nat PHDR_SIZE <= e_phentsize eh
}.

Definition phtab_ok (eh : Ehdr) (fsize : option Z) : Prop :=
  e_phoff eh + e_phnum eh * e_phentsize eh < 2 ^ 64 /\
  in_file fsize (e_phoff eh + e_phnum eh * e_phentsize eh).

(** The [i]-th entry of the table, read the way the loop reads it. *)
Definition phdr_entry (src : ImageSource) (eh : Ehdr) (i : Z) (ph : Phdr) : Prop :=
  exists raw, read_exact_at src (e_phoff eh + i * e_phentsize eh) PHDR_SIZE = Ok raw /\
    (PHDR_SIZE <= length raw)%nat /\ ph = phdr_of raw.

Definition of_type (t : Z) (phs : list Phdr) : list Phdr :=
  filter (fun ph => p_type ph = t) phs.

Fixpoint load_indices (i : nat) (phs : list Phdr) : list nat :=
  match phs with
  | [] => []
  | ph :: phs => if p_type ph =? PT_LOAD then i :: load_indices (S i) phs
                 else load_indices (S i) phs
  end.

(** The last entry of a type, which is the one that stays in the local. *)
Fixpoint latest (t : Z) (phs : list Phdr) (d : option Phdr) : option Phdr :=
  match phs with
  | [] => d
  | ph :: phs => latest t phs (if p_type ph =? t then Some ph else d)
  end.

Fixpoint stack_flag (phs : list Phdr) (d : bool) : bool :=
  match phs with
  | [] => d
  | ph :: phs => stack_flag phs (if p_type ph =? PT_GNU_STACK then is_exec ph else d)
  end.

Definition sorted_loads (phs : list Phdr) : list nat :=
  sort_by_key (vaddr_at phs) (load_indices 0 phs).

(** Two neighbours in address order: the first ends, rounded up to a page, no
    later than the second begins. *)
Definition before (page : Z) (a b : Phdr) : Prop :=
  vend a + (page - 1) < 2 ^ 64 /\ rup (vend a) page <= p_vaddr b.

Fixpoint adjacent {A} (R : A -> A -> Prop) (l : list A) : Prop :=
  match l with
  | a :: (b :: _) as rest => R a b /\ adjacent R rest
  | _ => True
  end.

Record acceptable {target : Target} {heap : Heap} (src : ImageSource) (page : Z)
    (eh : Ehdr) (phs : list Phdr) : Prop := {
  ac_header : exists raw, read_exact_at src 0 EHDR_SIZE = Ok raw /\
    (EHDR_SIZE <= length raw)%nat /\ eh = ehdr_of raw;
  ac_ehdr : ehdr_ok eh;
  ac_phtab : phtab_ok eh (size src);
  ac_heap : try_reserve (e_phnum eh) = true;
  ac_len : Z.of_nat (length phs) = e_phnum eh;
  ac_entries : forall i ph, phs !! i = Some ph -> phdr_entry src eh (Z.of_nat i) ph;
  ac_loads : Forall (load_ok page (size src)) (of_type PT_LOAD phs);
  ac_some : of_type PT_LOAD phs <> [];
  ac_interps : Forall (interp_ok (size src)) (of_type PT_INTERP phs);
  ac_one_interp : (length (of_type PT_INTERP phs) <= 1)%nat;
  ac_disjoint : adjacent (fun i j => before page (phs !!! i) (phs !!! j)) (sorted_loads phs)
}.

(** The image the parser must build from them. *)
Definition image_of (eh : Ehdr) (phs : list Phdr) : Image :=
  MkImage eh phs (sorted_loads phs) (latest PT_INTERP phs None) (latest PT_PHDR phs None)
    (latest PT_TLS phs None) (latest PT_GNU_RELRO phs None) (stack_flag phs false).

(** ** Each stage decides its condition *)

Section Stages.
Variable page : Z.
Hypothesis page_pow2 : is_power_of_two page = true.
Hypothesis page_u64 : page < 2 ^ 64.

Lemma page_pos : 0 < page.
Proof. by apply is_power_of_two_pos. Qed.

Lemma land_page v : 0 <= v -> Z.land v (page - 1) = v mod page.
Proof.
  intros Hv. destruct (pow2_u64 page) as (k & Hk & ->); [done|done|].
  rewrite <- Z.land_ones by lia. f_equal. rewrite Z.ones_equiv. lia.
Qed.

Lemma validate_load_Ok fsize ph :
  phdr_range ph -> validate_load ph page fsize = Ok tt <-> load_ok page fsize ph.
Proof.
  intros [_ _ Ho Hv _ Hf Hm Ha]. unfold validate_load, u64 in *. split.
  - intros H. inv_ok. subst.
    assert (Heof : in_file fsize (p_offset ph + p_filesz ph)).
    { unfold in_file. destruct fsize; [lia|done]. }
    split; unfold vend, fend; try lia; try done.
    + destruct (is_power_of_two (p_align ph)); [by right|]. left. lia.
    + intros Hnz. destruct (Z.eqb_spec (p_filesz ph) 0); [done|]. inv_ok. subst.
      rewrite !land_page in * by lia. lia.
  - intros [Hsz Hal Hmem Hfile Heof Hcg]. unfold vend, fend, in_file in *.
    destruct (Z.ltb_spec (p_memsz ph) (p_filesz ph)); [lia|].
    assert (Hp : negb (p_align ph =? 0) && negb (is_power_of_two (p_align ph)) = false).
    { destruct Hal as [->| ->]; [done|]. apply andb_false_r. }
    rewrite Hp.
    assert (Hq : (page <? p_align ph) && negb (is_power_of_two (p_align ph)) = false).
    { pose proof page_pos. destruct Hal as [->| ->]; [|apply andb_false_r].
      destruct (Z.ltb_spec page 0); [lia|done]. }
    rewrite Hq. unfold checked_add.
    destruct (Z.ltb_spec (p_vaddr ph + p_memsz ph) (2 ^ 64)); [|lia].
    destruct (Z.ltb_spec (p_offset ph + p_filesz ph) (2 ^ 64)); [|lia].
    cbn [ok_or mbind outcome_bind].
    replace (match fsize with Some sz => _ | None => _ end) with false
      by (destruct fsize; [lia|done]).
    destruct (Z.eqb_spec (p_filesz ph) 0); [done|].
    pose proof page_pos. rewrite sub64_small by lia. cbn [mbind outcome_bind].
    rewrite !land_page by lia. rewrite Hcg by done. by rewrite Z.eqb_refl.
Qed.

Lemma validate_load_no_panic fsize ph : validate_load ph page fsize <> Panic.
Proof.
  unfold validate_load. pose proof page_pos. no_panic. by rewrite sub64_small by lia.
Qed.

Lemma check_interp_Ok fsize ph :
  phdr_range ph -> check_interp ph fsize = Ok tt <-> interp_ok fsize ph.
Proof.
  intros [_ _ Ho Hv _ Hf _ _]. unfold check_interp, u64 in *. split.
  - intros H. inv_ok. destruct fsize; inv_ok; subst; split; unfold fend; cbn; try lia; done.
  - intros [Hl He Hov]. unfold fend in *.
    destruct ((p_filesz ph =? 0) || (INTERP_MAX <? p_filesz ph)) eqn:Hc; [lia|].
    destruct fsize as [sz|]; [|done]. specialize (Hov ltac:(done)). unfold checked_add.
    destruct (Z.ltb_spec (p_offset ph + p_filesz ph) (2 ^ 64)); [|lia]. cbn in *.
    destruct (Z.ltb_spec sz (p_offset ph + p_filesz ph)); [lia|done].
Qed.

Lemma check_interp_no_panic fsize ph : check_interp ph fsize <> Panic.
Proof. unfold check_interp. destruct fsize; no_panic. Qed.
End Stages.

Section Headers.
Context {target : Target}.

Lemma check_ehdr_Ok eh :
  ehdr_range eh -> check_ehdr eh = Ok tt <-> ehdr_ok eh.
Proof.
  intros [Hid _ _ Hn _]. unfold check_ehdr, EI_NIDENT in *.
  assert (Hat : forall i, (i < 16)%nat -> exists b, ident eh !! i = Some b).
  { intros i Hi. apply lookup_lt_is_Some. lia. }
  destruct (Hat EI_CLASS ltac:(unfold EI_CLASS; lia)) as [b1 H1].
  destruct (Hat EI_DATA ltac:(unfold EI_DATA; lia)) as [b2 H2].
  destruct (Hat EI_VERSION ltac:(unfold EI_VERSION; lia)) as [b3 H3].
  destruct (Hat EI_OSABI ltac:(unfold EI_OSABI; lia)) as [b4 H4].
  unfold slice, index. rewrite at_least_leb. rewrite H1, H2, H3, H4. rewrite (proj2 (Nat.leb_le _ _)) by lia.
  cbn [mbind outcome_bind]. rewrite drop_0. unfold PN_XNUM, PHNUM_MAX in *. split.
  - intros H. inv_ok. destruct (bool_decide (take 4 (ident eh) = ELFMAG)) eqn:Hmag; [|done].
    apply bool_decide_eq_true in Hmag.
    split; rewrite ?H1, ?H2, ?H3, ?H4; cbn [fmap option_fmap option_map];
      try (f_equal; lia); try lia; try done.
    + exists b4. split; [done|]. lia.
    + unfold PHNUM_MAX. lia.
  - intros [Hm Hc Hd Hv (b & Hb & Ho) Hma Ht Hve Hp Hs].
    rewrite H1 in Hc. rewrite H2 in Hd. rewrite H3 in Hv. rewrite H4 in Hb.
    injection Hc as ->. injection Hd as ->. injection Hv as ->. injection Hb as ->.
    rewrite (bool_decide_eq_true_2 _ Hm), !Z.eqb_refl. cbn [negb orb].
    unfold PHNUM_MAX in Hp. repeat (case_match; [exfalso; lia|]). done.
Qed.

Lemma check_ehdr_no_panic eh : ehdr_range eh -> check_ehdr eh <> Panic.
Proof.
  intros [Hid _ _ _ _]. unfold EI_NIDENT in Hid.
  assert (Hat : forall i, (i < 16)%nat -> index (E:=Reject) (ident eh) i <> Panic).
  { intros i Hi. destruct (index_lt (E:=Reject) (ident eh) i) as (b & _ & ->); [lia|done]. }
  unfold check_ehdr, slice. rewrite at_least_leb. rewrite (proj2 (Nat.leb_le _ _)) by lia.
  no_panic; apply Hat; unfold EI_CLASS, EI_DATA, EI_VERSION, EI_OSABI; lia.
Qed.
End Headers.

Lemma check_phtab_Ok eh fsize :
  ehdr_range eh -> check_phtab eh fsize = Ok tt <-> phtab_ok eh fsize.
Proof.
  intros [_ _ [Ho1 Ho2] Hn Hs]. unfold check_phtab, phtab_ok. split.
  - intros H. inv_ok. subst. unfold in_file. split; [done|]. destruct fsize; [lia|done].
  - intros [Hlt He]. unfold checked_mul, checked_add.
    destruct (Z.ltb_spec (e_phnum eh * e_phentsize eh) (2 ^ 64)); [|lia]. cbn [ok_or mbind outcome_bind].
    destruct (Z.ltb_spec (e_phoff eh + e_phnum eh * e_phentsize eh) (2 ^ 64)); [|lia].
    cbn [ok_or mbind outcome_bind]. unfold in_file in He. destruct fsize as [sz|]; [|done].
    destruct (Z.ltb_spec sz (e_phoff eh + e_phnum eh * e_phentsize eh)); [lia|done].
Qed.

(** The loop over the table, [n] entries from index [i]; [nmax] bounds the
    offsets it computes. *)
Section ReadPhdrs.
Variables (src : ImageSource) (eh : Ehdr) (nmax : Z).
Hypothesis phoff_nonneg : 0 <= e_phoff eh.
Hypothesis phentsize_nonneg : 0 <= e_phentsize eh.
Hypothesis table_fits : e_phoff eh + nmax * e_phentsize eh < 2 ^ 64.

Lemma phdr_offset_fits i : 0 <= i <= nmax -> i * e_phentsize eh <= nmax * e_phentsize eh.
Proof. intros. apply Z.mul_le_mono_nonneg_r; lia. Qed.

Lemma read_phdrs_Ok i n phs :
  0 <= i -> i + Z.of_nat n <= nmax ->
  read_phdrs src eh i n = Ok phs <->
  length phs = n /\ forall k ph, phs !! k = Some ph -> phdr_entry src eh (i + Z.of_nat k) ph.
Proof.
  revert i phs. induction n as [|n IH]; intros i phs Hi Hn; cbn [read_phdrs].
  - split; [intros [= <-]; done|]. intros [Hl _]. by destruct phs.
  - pose proof (phdr_offset_fits i ltac:(lia)) as Hfit.
    rewrite mul64_small by lia. cbn [mbind outcome_bind]. rewrite add64_small by lia. split.
    + intros H. cbn [mbind outcome_bind] in H.
      apply bind_Ok in H as (raw & Hread%map_err_Ok & H).
      apply bind_Ok in H as (ph0 & [Hraw ->]%map_err_Ok%Phdr_parse_Ok & H).
      apply bind_Ok in H as (rest & Hrest & [= <-]).
      apply IH in Hrest as [Hl Hent]; [|lia|lia]. cbn. split; [by f_equal|].
      intros [|k] ph Hk; cbn in Hk.
      * injection Hk as <-. rewrite Z.add_0_r. eexists. eauto.
      * replace (i + Z.of_nat (S k)) with (i + 1 + Z.of_nat k) by lia. eauto.
    + intros [Hl Hent]. destruct phs as [|ph phs]; [done|].
      destruct (Hent 0%nat ph eq_refl) as (raw & Hread & Hraw & ->).
      rewrite Z.add_0_r in Hread. cbn [mbind outcome_bind]. rewrite Hread.
      cbn [map_err mbind outcome_bind].
      rewrite (proj2 (Phdr_parse_Ok raw (phdr_of raw))) by done.
      cbn [map_err mbind outcome_bind].
      rewrite (proj2 (IH (i + 1) phs ltac:(lia) ltac:(lia))); [done|].
      split; [cbn in Hl; lia|]. intros k ph Hk.
      replace (i + 1 + Z.of_nat k) with (i + Z.of_nat (S k)) by lia. by apply Hent.
Qed.

Lemma read_phdrs_no_panic i n :
  (forall off k, u64 off -> (0 < k)%nat -> read_exact_at src off k <> Panic) ->
  0 <= i -> i + Z.of_nat n <= nmax -> read_phdrs src eh i n <> Panic.
Proof.
  intros Hsrc. revert i. induction n as [|n IH]; intros i Hi Hn; cbn [read_phdrs]; [done|].
  pose proof (phdr_offset_fits i ltac:(lia)).
  assert (0 <= i * e_phentsize eh) by (apply Z.mul_nonneg_nonneg; lia).
  rewrite mul64_small by lia. cbn [mbind outcome_bind].
  rewrite add64_small by lia. cbn [mbind outcome_bind].
  no_panic; [apply Hsrc; unfold u64, PHDR_SIZE; lia| |apply IH; lia].
  rewrite Phdr_parse_eq. by case_match.
Qed.
End ReadPhdrs.

(** ** Classification *)

Definition classes_of (i : nat) (phs : list Phdr) (c : Classes) : Classes :=
  MkClasses (c_loads c ++ load_indices i phs) (latest PT_INTERP phs (c_interp c))
    (latest PT_PHDR phs (c_phdr_seg c)) (latest PT_TLS phs (c_tls c))
    (latest PT_GNU_RELRO phs (c_relro c)) (stack_flag phs (c_exec_stack c)).

Lemma classes_of_cons i ph phs c :
  classes_of i (ph :: phs) c = classes_of (S i) phs (classes_of i [ph] c).
Proof.
  unfold classes_of. cbn. destruct (p_type ph =? PT_LOAD); f_equal.
  - by rewrite <- app_assoc.
  - by rewrite app_nil_r.
Qed.

Lemma of_type_cons t ph phs :
  of_type t (ph :: phs) = if p_type ph =? t then ph :: of_type t phs else of_type t phs.
Proof.
  unfold of_type. rewrite filter_cons.
  destruct (Z.eqb_spec (p_type ph) t); case_decide; congruence.
Qed.

(** The flags of the [match ph.p_type] arms exclude one another. *)
Ltac type_cases ph :=
  unfold PT_LOAD, PT_INTERP, PT_PHDR, PT_TLS, PT_GNU_RELRO, PT_GNU_STACK in *;
  repeat match goal with
  | |- context [p_type ph =? ?t] => destruct (Z.eqb_spec (p_type ph) t) as [?Ht|?Ht]; try (exfalso; lia)
  end.

Section Classify.
Variable page : Z.
Hypothesis page_pow2 : is_power_of_two page = true.
Hypothesis page_u64 : page < 2 ^ 64.
Variable fsize : option Z.

Lemma classify_one_Ok i ph c c' :
  phdr_range ph ->
  classify_one page fsize i ph c = Ok c' <->
  (p_type ph = PT_LOAD -> load_ok page fsize ph) /\
  (p_type ph = PT_INTERP -> interp_ok fsize ph /\ c_interp c = None) /\
  c' = classes_of i [ph] c.
Proof.
  intros Hr. pose proof (validate_load_Ok page page_pow2 page_u64 fsize ph Hr) as Hload.
  pose proof (check_interp_Ok fsize ph Hr) as Hint.
  destruct c as [l it ps tl rl st]. unfold classify_one, classes_of. cbn.
  type_cases ph; rewrite ?app_nil_r; try (split; [intros [= <-]|]; naive_solver lia).
  - rewrite bind_Ok. split.
    + intros ([] & Hv & [= <-]). naive_solver lia.
    + intros (Hl & _ & ->). exists tt. split; [|done]. apply Hload. auto.
  - destruct it; [naive_solver|]. rewrite bind_Ok. split.
    + intros ([] & Hv & [= <-]). naive_solver lia.
    + intros (_ & Hi & ->). exists tt. split; [|done]. apply Hint. naive_solver.
Qed.

Definition have {A} (o : option A) : nat := match o with Some _ => 1 | None => 0 end.

Lemma classify_Ok i phs c c' :
  Forall phdr_range phs ->
  classify page fsize i phs c = Ok c' <->
  Forall (load_ok page fsize) (of_type PT_LOAD phs) /\
  Forall (interp_ok fsize) (of_type PT_INTERP phs) /\
  (length (of_type PT_INTERP phs) + have (c_interp c) <= 1)%nat /\
  c' = classes_of i phs c.
Proof.
  intros Hall. revert i c. induction Hall as [|ph phs Hr Hall IH]; intros i c; cbn [classify].
  - unfold classes_of. cbn. rewrite app_nil_r. destruct c; cbn. split.
    + intros [= <-]. split; [constructor|]. split; [constructor|]. split; [|done].
      destruct c_interp0; cbn; lia.
    + by intros (_ & _ & _ & ->).
  - rewrite bind_Ok, !of_type_cons, classes_of_cons.
    setoid_rewrite classify_one_Ok; [|done]. setoid_rewrite IH. split.
    + intros (c1 & (Hl & Hi & ->) & Hls & His & Hone & ->). cbn [classes_of c_interp] in Hone.
      cbn [latest] in Hone.
      assert (Hlen : (length (if (p_type ph =? PT_INTERP)%Z then ph :: of_type PT_INTERP phs
                              else of_type PT_INTERP phs) + have (c_interp c) <= 1)%nat).
      { destruct (Z.eqb_spec (p_type ph) PT_INTERP) as [Ht|]; [|done].
        destruct (Hi Ht) as [_ Hnone]. rewrite Hnone. cbn in *. lia. }
      split; [|split; [|split; [exact Hlen|done]]].
      * destruct (Z.eqb_spec (p_type ph) PT_LOAD); [|done]. constructor; auto.
      * destruct (Z.eqb_spec (p_type ph) PT_INTERP) as [Ht|]; [|done].
        destruct (Hi Ht). by constructor.
    + intros (Hls & His & Hone & ->). eexists. split; [split_and!; [| |done]|].
      * intros Ht. rewrite Ht, Z.eqb_refl, Forall_cons in Hls. tauto.
      * intros Ht. rewrite Ht, Z.eqb_refl in His, Hone. rewrite Forall_cons in His.
        split; [tauto|]. destruct (c_interp c); [cbn in Hone; lia|done].
      * cbn [classes_of c_interp latest]. split_and!; [| | |done].
        -- destruct (p_type ph =? PT_LOAD); [by apply Forall_cons in Hls as [_ Hls]|done].
        -- destruct (p_type ph =? PT_INTERP); [by apply Forall_cons in His as [_ His]|done].
        -- destruct (p_type ph =? PT_INTERP); cbn [length have] in *; lia.
Qed.

Lemma classify_no_panic i phs c : classify page fsize i phs c <> Panic.
Proof.
  revert i c. induction phs as [|ph phs IH]; intros i c; cbn [classify]; [done|].
  apply bind_no_panic; [|by intros c1 _].
  destruct c. unfold classify_one. no_panic;
    eauto using validate_load_no_panic, check_interp_no_panic.
Qed.

(** ** Overlap check *)

Lemma check_pair_Ok a b :
  phdr_range a -> phdr_range b -> vend a < 2 ^ 64 ->
  (check_pair page a b = Ok tt <-> before page a b) /\ check_pair page a b <> Panic.
Proof.
  pose proof (page_pos page page_pow2) as Hpos.
  intros [_ _ _ Hv1 _ _ Hm1 _] [_ _ _ Hv2 _ _ _ _] Hend.
  unfold check_pair, before, vend, u64 in *.
  rewrite add64_small by lia. cbn [mbind outcome_bind].
  rewrite (align_up_eq page) by (done || lia). cbn [mbind outcome_bind].
  destruct (Z.ltb_spec (p_vaddr a + p_memsz a + (page - 1)) (2 ^ 64)).
  2:{ cbn. split; [|done]. split; [done|]. intros [? _]. lia. }
  cbn [ok_or mbind outcome_bind].
  pose proof (rup_u64 page page_pow2 (p_vaddr a + p_memsz a) ltac:(lia) ltac:(lia)).
  rewrite !(align_down_eq page) by done. cbn [mbind outcome_bind].
  rewrite (rdown_id page Hpos (rup _ _)) by (by apply rup_divide).
  pose proof (rdown_galois page Hpos (rup (p_vaddr a + p_memsz a) page) (p_vaddr b)
                (rup_divide page Hpos _)) as Hg.
  destruct (Z.ltb_spec (p_vaddr b) (rup (p_vaddr a + p_memsz a) page)) as [Hlt|Hge].
  - destruct (Z.ltb_spec (rdown (p_vaddr b) page) (rup (p_vaddr a + p_memsz a) page)); [|lia].
    cbn. split; [|done]. split; [done|]. intros [_ ?]. lia.
  - cbn [andb]. split; [|done]. naive_solver lia.
Qed.

Lemma check_overlaps_Ok phs l :
  Forall (fun i => (i < length phs)%nat /\ phdr_range (phs !!! i) /\ vend (phs !!! i) < 2 ^ 64) l ->
  (check_overlaps phs page l = Ok tt <->
   adjacent (fun i j => before page (phs !!! i) (phs !!! j)) l) /\
  check_overlaps phs page l <> Panic.
Proof.
  induction l as [|i [|j l] IH]; intros Hall; [done|done|].
  change (check_overlaps phs page (i :: j :: l)) with
    (a ← index phs i; b ← index phs j; _ ← check_pair page a b;
     check_overlaps phs page (j :: l)).
  apply Forall_cons in Hall as [(Hi & Hri & Hvi) Hall].
  specialize (IH Hall). apply Forall_cons in Hall as [(Hj & Hrj & Hvj) _].
  apply list_lookup_lookup_total_lt in Hi, Hj. unfold index. rewrite Hi, Hj.
  cbn [mbind outcome_bind].
  destruct (check_pair_Ok _ _ Hri Hrj Hvi) as [Hpair Hnp].
  cbn [adjacent]. rewrite <- Hpair. split.
  - rewrite bind_Ok. split.
    + intros ([] & Hp & Hrest). split; [done|]. by apply IH.
    + intros [Hp Hrest]. exists tt. split; [done|]. by apply IH.
  - apply bind_no_panic; [done|]. intros _ _. apply IH.
Qed.
End Classify.

(** ** The indices of the loadable segments *)

Lemma load_indices_spec k phs i :
  i ∈ load_indices k phs <->
  (k <= i)%nat /\ exists ph, phs !! (i - k)%nat = Some ph /\ p_type ph = PT_LOAD.
Proof.
  revert k. induction phs as [|ph phs IH]; intros k; cbn [load_indices].
  - rewrite elem_of_nil. split; [done|]. intros (_ & ph & Hph & _). done.
  - destruct (Z.eqb_spec (p_type ph) PT_LOAD) as [Ht|Ht];
      rewrite ?elem_of_cons, IH; split.
    + intros [->|(Hle & q & Hq & Hqt)].
      * split; [lia|]. rewrite Nat.sub_diag. exists ph. done.
      * split; [lia|]. replace (i - k)%nat with (S (i - S k)) by lia. eauto.
    + intros (Hle & q & Hq & Hqt). destruct (decide (i = k)) as [->|]; [by left|right].
      split; [lia|]. replace (i - k)%nat with (S (i - S k)) in Hq by lia. eauto.
    + intros (Hle & q & Hq & Hqt). split; [lia|].
      replace (i - k)%nat with (S (i - S k)) by lia. eauto.
    + intros (Hle & q & Hq & Hqt). destruct (decide (i = k)) as [->|].
      * rewrite Nat.sub_diag in Hq. cbn in Hq. congruence.
      * split; [lia|]. replace (i - k)%nat with (S (i - S k)) in Hq by lia. eauto.
Qed.

Lemma load_indices_app pre phs :
  (fun i => (pre ++ phs) !!! i) <$> load_indices (length pre) phs = of_type PT_LOAD phs.
Proof.
  revert pre. induction phs as [|ph phs IH]; intros pre; cbn [load_indices]; [done|].
  rewrite of_type_cons. specialize (IH (pre ++ [ph])).
  rewrite length_app, Nat.add_1_r, <- app_assoc in IH. cbn [app] in IH.
  destruct (p_type ph =? PT_LOAD); [|done]. cbn. rewrite IH. f_equal.
  rewrite list_lookup_total_middle; done.
Qed.

Lemma load_indices_phdrs phs :
  (fun i => phs !!! i) <$> load_indices 0 phs = of_type PT_LOAD phs.
Proof. apply (load_indices_app []). Qed.

Definition load_phdrs (img : Image) : list Phdr := (fun i => phdrs img !!! i) <$> loads img.

Lemma sorted_loads_perm phs :
  Permutation ((fun i => phs !!! i) <$> sorted_loads phs) (of_type PT_LOAD phs).
Proof.
  rewrite <- load_indices_phdrs. apply Permutation_map, sort_by_key_perm.
Qed.

Lemma sorted_loads_bound phs i : i ∈ sorted_loads phs -> (i < length phs)%nat.
Proof.
  unfold sorted_loads. rewrite sort_by_key_perm. intros (_ & ph & Hph & _)%load_indices_spec.
  apply lookup_lt_Some in Hph. lia.
Qed.

Lemma adjacent_fmap {A B} (f : A -> B) (R : B -> B -> Prop) l :
  adjacent (fun x y => R (f x) (f y)) l <-> adjacent R (f <$> l).
Proof.
  induction l as [|x [|y l] IH]; [done|done|].
  change (R (f x) (f y) /\ adjacent (fun x y => R (f x) (f y)) (y :: l) <->
          R (f x) (f y) /\ adjacent R (f <$> y :: l)). by rewrite IH.
Qed.

Lemma adjacent_strong {A} (P : A -> Prop) (R : A -> A -> Prop) l :
  (forall x y z, P y -> R x y -> R y z -> R x z) ->
  Forall P l -> adjacent R l -> StronglySorted R l.
Proof.
  intros Htr Hall. induction Hall as [|x l Hx Hall IH]; intros Hadj; [constructor|].
  destruct l as [|y l]; [by repeat constructor|]. destruct Hadj as [Hxy Hadj].
  specialize (IH Hadj). constructor; [done|]. apply StronglySorted_inv in IH as [_ Hy].
  constructor; [done|]. apply Forall_cons in Hall as [HPy _].
  eapply Forall_impl; [exact Hy|]. intros z Hz. by apply (Htr x y z).
Qed.

(** ** The parser implements the specification *)

Section Parse.
Context {target : Target} {heap : Heap}.
Variables (src : ImageSource) (page : Z).
Hypothesis page_pow2 : is_power_of_two page = true.
Hypothesis page_u64 : page < 2 ^ 64.

Lemma phdr_entry_range eh phs :
  (forall i ph, phs !! i = Some ph -> phdr_entry src eh (Z.of_nat i) ph) ->
  Forall phdr_range phs.
Proof.
  intros Hent. apply Forall_lookup. intros i ph Hph.
  destruct (Hent i ph Hph) as (raw & _ & Hlen & ->). by apply phdr_of_range.
Qed.

Lemma overlap_side fsize phs :
  Forall phdr_range phs -> Forall (load_ok page fsize) (of_type PT_LOAD phs) ->
  Forall (fun i => (i < length phs)%nat /\ phdr_range (phs !!! i) /\ vend (phs !!! i) < 2 ^ 64)
    (sorted_loads phs).
Proof.
  intros Hr Hl. apply Forall_forall. intros i Hi. pose proof (sorted_loads_bound _ _ Hi) as Hb.
  split; [done|]. split; [by apply (Forall_lookup_total_1 _ _ _ Hr)|].
  eapply lo_mem. rewrite Forall_forall in Hl. apply Hl.
  rewrite <- sorted_loads_perm. apply list_elem_of_fmap. eauto.
Qed.

Lemma classes_loads phs :
  c_loads (classes_of 0 phs classes_init) = load_indices 0 phs.
Proof. done. Qed.

Lemma no_loads phs : load_indices 0 phs = [] <-> of_type PT_LOAD phs = [].
Proof. rewrite <- load_indices_phdrs. by destruct (load_indices 0 phs). Qed.

Lemma Image_parse_sound img :
  Image_parse src page = Ok img ->
  exists eh phs, acceptable src page eh phs /\ img = image_of eh phs.
Proof.
  unfold Image_parse. intros H.
  apply bind_Ok in H as (raw & Hraw%map_err_Ok & H).
  apply bind_Ok in H as (eh & [Hlen Heh]%map_err_Ok%Ehdr_parse_Ok & H).
  assert (Hr : ehdr_range eh) by (subst; by apply ehdr_of_range).
  apply bind_Ok in H as ([] & Hok%check_ehdr_Ok & H); [|done].
  apply bind_Ok in H as ([] & Htab%check_phtab_Ok & H); [|done].
  destruct (try_reserve (e_phnum eh)) eqn:Hheap; [|done]. cbn [negb] in H.
  destruct Hr as [_ _ [Ho _] Hn Hs]. pose proof Htab as [Hfit _].
  apply bind_Ok in H as (phs & Hphs & H).
  apply (read_phdrs_Ok src eh (e_phnum eh)) in Hphs as [Hcnt Hent]; [|lia..].
  pose proof (phdr_entry_range eh phs Hent) as Hrange.
  apply bind_Ok in H as (c & Hc & H).
  apply classify_Ok in Hc as (Hls & His & Hone & ->); [|done..]. cbn [c_interp classes_init have] in Hone.
  rewrite classes_loads in H. destruct (load_indices 0 phs) as [|l0 ls] eqn:Hli; [done|].
  rewrite <- Hli in H. apply bind_Ok in H as ([] & Hov & [= <-]).
  apply check_overlaps_Ok in Hov; [|done|done|by apply (overlap_side (size src))].
  exists eh, phs. split; [|done]. split; try done.
  - by exists raw.
  - lia.
  - intros Hnil%no_loads. congruence.
  - lia.
Qed.

Lemma Image_parse_complete eh phs :
  acceptable src page eh phs -> Image_parse src page = Ok (image_of eh phs).
Proof.
  intros [(raw & Hraw & Hlen & Heh) Hok Htab Hheap Hcnt Hent Hls Hsome His Hone Hdis].
  assert (Hr : ehdr_range eh) by (subst eh; by apply ehdr_of_range).
  unfold Image_parse. rewrite Hraw. cbn [map_err mbind outcome_bind].
  rewrite (proj2 (Ehdr_parse_Ok raw eh)) by done. cbn [map_err mbind outcome_bind].
  rewrite (proj2 (check_ehdr_Ok eh Hr) Hok), (proj2 (check_phtab_Ok eh _ Hr) Htab).
  cbn [mbind outcome_bind]. rewrite Hheap. cbn [negb].
  pose proof (phdr_entry_range eh phs Hent) as Hrange.
  destruct Hr as [_ _ [Ho _] Hn Hs], Htab as [Hfit _].
  rewrite (proj2 (read_phdrs_Ok src eh (e_phnum eh) Ho (proj1 Hs) Hfit 0
                    (Z.to_nat (e_phnum eh)) phs
                    ltac:(lia) ltac:(lia)))
    by (split; [lia|done]).
  cbn [mbind outcome_bind].
  rewrite (proj2 (classify_Ok page page_pow2 page_u64 (size src) 0 phs classes_init
                    (classes_of 0 phs classes_init) Hrange))
    by (split_and!; [done..| |done]; cbn [c_interp classes_init have]; lia).
  cbn [mbind outcome_bind]. rewrite classes_loads.
  destruct (load_indices 0 phs) as [|l0 ls] eqn:Hli; [by apply no_loads in Hli|].
  rewrite <- Hli. cbv zeta. fold (sorted_loads phs).
  rewrite (proj2 (proj1 (check_overlaps_Ok page page_pow2 page_u64 phs _
                           (overlap_side (size src) phs Hrange Hls))) Hdis).
  done.
Qed.
End Parse.
