(* ===== verification/TestImage.v ===== *)
(** * Synthetic ELF images ([rust/src/testutil.rs], the builder)

    [ElfBuilder] and its fixtures: they serialise a list of program headers into
    the bytes of a little ELF file.  The witnesses of the other files run the
    loader on these images. *)

From Stdlib Require Import Strings.Byte.
From stdpp Require Import base numbers option strings sets list.
From S2P Require Import Prelude Err Elf.

(** Little-endian stores into a buffer. *)
Definition put16 {E : Type} (b : list byte) (o : nat) (v : Z) : outcome E (list byte) :=
  overwrite b o (to_le_bytes 2 v).
Definition put32 {E : Type} (b : list byte) (o : nat) (v : Z) : outcome E (list byte) :=
  overwrite b o (to_le_bytes 4 v).
Definition put64 {E : Type} (b : list byte) (o : nat) (v : Z) : outcome E (list byte) :=
  overwrite b o (to_le_bytes 8 v).

Record ElfBuilder : Type := MkBuilder {
  eb_type : Z;
  eb_machine : Z;
  eb_entry : Z;
  eb_phdrs : list Phdr;
  eb_overlays : list (Z * list byte);
  eb_patches : list (nat * (Phdr -> Phdr));
  eb_force_phnum : option Z;
  eb_reverse : bool
}.

Definition load_seg (flags off va filesz memsz align : Z) : Phdr :=
  MkPhdr PT_LOAD flags off va va filesz memsz align.

Section Builder.
Context {target : Target}.

Definition builder_new : ElfBuilder :=
  MkBuilder ET_DYN EM_NATIVE 0x400 [] [] [] None false.

(** ** Shapes *)

Definition with_phdrs (phs : list Phdr) (b : ElfBuilder) : ElfBuilder :=
  MkBuilder (eb_type b) (eb_machine b) (eb_entry b) phs (eb_overlays b) (eb_patches b)
    (eb_force_phnum b) (eb_reverse b).

Definition with_entry (e : Z) (b : ElfBuilder) : ElfBuilder :=
  MkBuilder (eb_type b) (eb_machine b) e (eb_phdrs b) (eb_overlays b) (eb_patches b)
    (eb_force_phnum b) (eb_reverse b).

Definition pie_two_segment (b : ElfBuilder) : ElfBuilder :=
  with_phdrs
    [ load_seg (Z.lor PF_R PF_X) 0x0 0x0 0x1000 0x1000 0x1000;
      load_seg (Z.lor PF_R PF_W) 0x1000 0x2000 0x500 0x1500 0x1000 ] b.

Definition non_pie (b : ElfBuilder) : ElfBuilder :=
  let b := with_entry 0x400500
    (with_phdrs
      [ load_seg (Z.lor PF_R PF_X) 0x0 0x400000 0x1000 0x1000 0x1000;
        load_seg (Z.lor PF_R PF_W) 0x1000 0x402000 0x500 0x1500 0x1000 ] b) in
  MkBuilder ET_EXEC (eb_machine b) (eb_entry b) (eb_phdrs b) (eb_overlays b)
    (eb_patches b) (eb_force_phnum b) (eb_reverse b).

(** ["/lib/ld-linux-aarch64.so.1\0"]. *)
Definition glibc_interp : list byte :=
  [x2f; x6c; x69; x62; x2f; x6c; x64; x2d; x6c; x69; x6e; x75; x78; x2d; x61; x61; x72;
   x63; x68; x36; x34; x2e; x73; x6f; x2e; x31; x00].

Definition glibc_arm64_style (b : ElfBuilder) : ElfBuilder :=
  let phs :=
    [ MkPhdr PT_PHDR PF_R 0x40 0x40 0x40 (7 * Z.of_nat PHDR_SIZE) (7 * Z.of_nat PHDR_SIZE) 8;
      MkPhdr PT_INTERP PF_R 0x200 0x200 0x200 (Z.of_nat (length glibc_interp))
        (Z.of_nat (length glibc_interp)) 1;
      load_seg (Z.lor PF_R PF_X) 0x0 0x0 0x1b89c 0x1b89c 0x10000;
      load_seg (Z.lor PF_R PF_W) 0x1cdc0 0x2cdc0 0x4908 0x112a0 0x10000;
      MkPhdr PT_DYNAMIC (Z.lor PF_R PF_W) 0x1fbb0 0x2fbb0 0x2fbb0 0x1b0 0x1b0 8;
      MkPhdr PT_TLS PF_R 0x1cdc0 0x2cdc0 0x2cdc0 0x10 0x90 0x10;
      MkPhdr PT_GNU_RELRO PF_R 0x1cdc0 0x2cdc0 0x2cdc0 0x3240 0x3240 1 ] in
  let b := with_entry 0x7930 (with_phdrs phs b) in
  MkBuilder (eb_type b) (eb_machine b) (eb_entry b) (eb_phdrs b)
    (eb_overlays b ++ [(0x200, glibc_interp)]) (eb_patches b) (eb_force_phnum b) (eb_reverse b).

Definition four_segment_separate_code (b : ElfBuilder) : ElfBuilder :=
  with_entry 0x1100 (with_phdrs
    [ load_seg PF_R 0x0 0x0 0x1000 0x1000 0x1000;
      load_seg (Z.lor PF_R PF_X) 0x1000 0x1000 0x2000 0x2000 0x1000;
      load_seg PF_R 0x3000 0x3000 0x1000 0x1000 0x1000;
      load_seg (Z.lor PF_R PF_W) 0x4000 0x5000 0x800 0x2000 0x1000 ] b).

Definition unaligned_second_segment (b : ElfBuilder) : ElfBuilder :=
  with_phdrs
    [ load_seg (Z.lor PF_R PF_X) 0x0 0x0 0x1000 0x1000 0x1000;
      load_seg (Z.lor PF_R PF_W) 0x1234 0x2234 0x500 0x900 0x1000 ] b.

(** ["/lib/ld-musl-aarch64.so.1"], with no terminator. *)
Definition musl_interp : list byte :=
  [x2f; x6c; x69; x62; x2f; x6c; x64; x2d; x6d; x75; x73; x6c; x2d; x61; x61; x72; x63;
   x68; x36; x34; x2e; x73; x6f; x2e; x31].

Definition interp_without_nul (b : ElfBuilder) : ElfBuilder :=
  let b := pie_two_segment b in
  let n := Z.of_nat (length musl_interp) in
  MkBuilder (eb_type b) (eb_machine b) (eb_entry b)
    (eb_phdrs b ++ [MkPhdr PT_INTERP PF_R 0x200 0x200 0x200 n n 1])
    (eb_overlays b ++ [(0x200, musl_interp)]) (eb_patches b) (eb_force_phnum b) (eb_reverse b).

(** ** Modifiers *)

Definition machine (m : Z) (b : ElfBuilder) : ElfBuilder :=
  MkBuilder (eb_type b) m (eb_entry b) (eb_phdrs b) (eb_overlays b) (eb_patches b)
    (eb_force_phnum b) (eb_reverse b).

Definition patch_phdr (idx : nat) (f : Phdr -> Phdr) (b : ElfBuilder) : ElfBuilder :=
  MkBuilder (eb_type b) (eb_machine b) (eb_entry b) (eb_phdrs b) (eb_overlays b)
    (eb_patches b ++ [(idx, f)]) (eb_force_phnum b) (eb_reverse b).

Definition phnum_xnum (b : ElfBuilder) : ElfBuilder :=
  MkBuilder (eb_type b) (eb_machine b) (eb_entry b) (eb_phdrs b) (eb_overlays b)
    (eb_patches b) (Some PN_XNUM) (eb_reverse b).

Definition reverse_phdrs (b : ElfBuilder) : ElfBuilder :=
  MkBuilder (eb_type b) (eb_machine b) (eb_entry b) (eb_phdrs b) (eb_overlays b)
    (eb_patches b) (eb_force_phnum b) true.

Definition with_exec_stack (b : ElfBuilder) : ElfBuilder :=
  with_phdrs (eb_phdrs b ++
    [MkPhdr PT_GNU_STACK (Z.lor (Z.lor PF_R PF_W) PF_X) 0 0 0 0 0 0]) b.

Definition no_interp (b : ElfBuilder) : ElfBuilder :=
  with_phdrs (filter (fun p => p_type p <> PT_INTERP) (eb_phdrs b)) b.

Definition drop_pt_phdr (b : ElfBuilder) : ElfBuilder :=
  with_phdrs (filter (fun p => p_type p <> PT_PHDR) (eb_phdrs b)) b.

(** ** Serialisation *)

Fixpoint apply_patches {E : Type} (patches : list (nat * (Phdr -> Phdr))) (phs : list Phdr) :
    outcome E (list Phdr) :=
  match patches with
  | [] => Ok phs
  | (idx, f) :: patches =>
    p ← index phs idx;
    apply_patches patches (<[idx := f p]> phs)
  end.

Definition image_size (phs : list Phdr) (overlays : list (Z * list byte)) : Z :=
  let size := Z.of_nat EHDR_SIZE + Z.of_nat (length phs) * Z.of_nat PHDR_SIZE in
  let size := foldl (fun size p =>
      if p_filesz p <? 2 ^ 32 then Z.max size (saturating_add (p_offset p) (p_filesz p))
      else size) size phs in
  foldl (fun size '(off, data) => Z.max size (off + Z.of_nat (length data))) size overlays.

(** [(0..size).map(|i| (i % 251) as u8 | 1)]. *)
Fixpoint fill_from (i : Z) (n : nat) : list byte :=
  match n with
  | O => []
  | S n => byte_of (Z.lor (i mod 251) 1) :: fill_from (i + 1) n
  end.

(** The pattern has period 251, so the bytes are computed once. *)
Fixpoint cycle (period rest : list byte) (n : nat) : list byte :=
  match n with
  | O => []
  | S n =>
    match rest, period with
    | b :: rest, _ | [], b :: rest => b :: cycle period rest n
    | [], [] => []
    end
  end.
Definition fill_pattern (size : nat) : list byte := cycle (fill_from 0 251) [] size.

Definition put_ehdr {E : Type} (eb : ElfBuilder) (phnum : Z) (b : list byte) :
    outcome E (list byte) :=
  b ← overwrite b 0 ELFMAG;
  b ← overwrite b EI_CLASS [byte_of ELFCLASS64];
  b ← overwrite b EI_DATA [byte_of ELFDATA2LSB];
  b ← overwrite b EI_VERSION [byte_of EV_CURRENT];
  b ← overwrite b EI_OSABI [byte_of ELFOSABI_NONE];
  b ← overwrite b EI_ABIVERSION [x00];
  b ← overwrite b 9 (replicate 7 x00);
  b ← put16 b 16 (eb_type eb);
  b ← put16 b 18 (eb_machine eb);
  b ← put32 b 20 1;
  b ← put64 b 24 (eb_entry eb);
  b ← put64 b 32 (Z.of_nat EHDR_SIZE);
  b ← put64 b 40 0;
  b ← put32 b 48 0;
  b ← put16 b 52 (Z.of_nat EHDR_SIZE);
  b ← put16 b 54 (Z.of_nat PHDR_SIZE);
  b ← put16 b 56 (match eb_force_phnum eb with Some n => n | None => phnum end);
  b ← put16 b 58 64;
  b ← put16 b 60 0;
  put16 b 62 0.

Definition put_phdr {E : Type} (b : list byte) (o : nat) (p : Phdr) : outcome E (list byte) :=
  b ← put32 b o (p_type p);
  b ← put32 b (o + 4) (p_flags p);
  b ← put64 b (o + 8) (p_offset p);
  b ← put64 b (o + 16) (p_vaddr p);
  b ← put64 b (o + 24) (p_paddr p);
  b ← put64 b (o + 32) (p_filesz p);
  b ← put64 b (o + 40) (p_memsz p);
  put64 b (o + 48) (p_align p).

Fixpoint put_phdrs {E : Type} (b : list byte) (i : nat) (phs : list Phdr) :
    outcome E (list byte) :=
  match phs with
  | [] => Ok b
  | p :: phs =>
    b ← put_phdr b (EHDR_SIZE + i * PHDR_SIZE)%nat p;
    put_phdrs b (S i) phs
  end.

Fixpoint put_overlays {E : Type} (b : list byte) (overlays : list (Z * list byte)) :
    outcome E (list byte) :=
  match overlays with
  | [] => Ok b
  | (off, data) :: overlays =>
    b ← overwrite b (Z.to_nat off) data;
    put_overlays b overlays
  end.

Definition build {E : Type} (eb : ElfBuilder) : outcome E (list byte) :=
  phs ← apply_patches (eb_patches eb) (eb_phdrs eb);
  let phs := if eb_reverse eb then reverse phs else phs in
  let size := image_size phs (eb_overlays eb) in
  let size := Z.to_nat (Z.land (size + 0xfff) (not64 0xfff)) in
  let b := fill_pattern size in
  b ← put_ehdr eb (Z.of_nat (length phs)) b;
  b ← put_phdrs b 0 phs;
  put_overlays b (eb_overlays eb).
End Builder.

Lemma fill_from_mod i j n : i mod 251 = j mod 251 -> fill_from i n = fill_from j n.
Proof.
  revert i j. induction n as [|n IH]; intros i j H; cbn [fill_from]; [done|].
  rewrite H. f_equal. apply IH. Z.to_euclidean_division_equations; lia.
Qed.

Lemma cycle_fill i k n :
  (i + Z.of_nat k) mod 251 = 0 -> cycle (fill_from 0 251) (fill_from i k) n = fill_from i n.
Proof.
  revert i k. induction n as [|n IH]; intros i k H; [done|].
  change (fill_from i (S n)) with (byte_of (Z.lor (i mod 251) 1) :: fill_from (i + 1) n).
  destruct k as [|k].
  - change (byte_of (Z.lor (0 mod 251) 1) :: cycle (fill_from 0 251) (fill_from 1 250) n
      = byte_of (Z.lor (i mod 251) 1) :: fill_from (i + 1) n).
    replace (i mod 251) with (0 mod 251) by (Z.to_euclidean_division_equations; lia). f_equal.
    rewrite (fill_from_mod 1 (i + 1) 250) by (Z.to_euclidean_division_equations; lia).
    apply IH. Z.to_euclidean_division_equations; lia.
  - change (byte_of (Z.lor (i mod 251) 1) :: cycle (fill_from 0 251) (fill_from (i + 1) k) n
      = byte_of (Z.lor (i mod 251) 1) :: fill_from (i + 1) n).
    f_equal. apply IH. rewrite <- H. f_equal. lia.
Qed.

(** What the cycle computes is the source's expression. *)
Lemma fill_pattern_spec n : fill_pattern n = fill_from 0 n.
Proof. exact (cycle_fill 0 0 n eq_refl). Qed.

(** The bytes of a fixture, for use in examples. *)
Definition built {target : Target} (eb : ElfBuilder) : list byte :=
  match build (E:=unit) eb with Ok b => b | _ => [] end.

(** A fixture cut down to its headers: [n] bytes, not padded to a page. *)
Definition tiny {target : Target} (eb : ElfBuilder) (n : nat) : list byte :=
  match (b ← put_ehdr (E:=unit) eb (Z.of_nat (length (eb_phdrs eb))) (replicate n x00);
         b ← put_phdrs b 0 (eb_phdrs eb);
         put_overlays b (eb_overlays eb)) with
  | Ok b => b
  | _ => []
  end.

(** ** Small fixtures for the witnesses

    Images whose file data is little more than the headers: a text segment, and
    a data segment with a partial last page and a [.bss]. *)

Definition x86_target : Target := false.
Definition plenty : Heap := fun _ => true.

Definition mini_phdrs (va : Z) (filesz : Z) : list Phdr :=
  [ load_seg (Z.lor PF_R PF_X) 0 va filesz filesz 0x1000;
    load_seg (Z.lor PF_R PF_W) 0xb0 (va + 0x10b0) 0x10 0x1800 0x1000 ].

Definition mini_bytes : list byte := Eval vm_compute in
  tiny (target:=x86_target) (with_phdrs (mini_phdrs 0 0xc0) (builder_new (target:=x86_target))) 192.

Definition mini_exec_bytes : list byte := Eval vm_compute in
  let b := with_entry 0x400010 (with_phdrs (mini_phdrs 0x400000 0xc0) (builder_new (target:=x86_target))) in
  tiny (target:=x86_target)
    (MkBuilder ET_EXEC (eb_machine b) (eb_entry b) (eb_phdrs b) [] [] None false) 192.

Definition parsed (b : list byte) : Image :=
  match Image_parse (target:=x86_target) (heap:=plenty) (slice_source b) 4096 with
  | Ok img => img
  | _ => MkImage (MkEhdr [] 0 0 0 0 0 0 0 0 0 0 0 0 0) [] [] None None None None false
  end.

Definition mini_img : Image := Eval vm_compute in parsed mini_bytes.
Definition mini_exec_img : Image := Eval vm_compute in parsed mini_exec_bytes.

Lemma mini_parses :
  Image_parse (target:=x86_target) (heap:=plenty) (slice_source mini_bytes) 4096 = Ok mini_img.
Proof. vm_compute. reflexivity. Qed.

Lemma mini_exec_parses :
  Image_parse (target:=x86_target) (heap:=plenty) (slice_source mini_exec_bytes) 4096 = Ok mini_exec_img.
Proof. vm_compute. reflexivity. Qed.
