(* ===== verification/ElfFacts.v ===== *)
(** * Properties of the ELF reader

    The parser accepts exactly the images the declarative specification
    describes, never panics, and hands on well-formed images; what the later
    components compute from an image ([va_span], [load_align], [interp_path]). *)

From Stdlib Require Import Strings.Byte Sorted Permutation.
From stdpp Require Import base numbers option strings sets list.
From S2P Require Import Prelude Err Elf TestImage.

(** ** Well-formed images *)

Record Image_wf (page : Z) (img : Image) : Prop := {
  wf_some : load_phdrs img <> [];
  wf_bound : Forall (fun i => (i < length (phdrs img))%nat) (loads img);
  wf_range : Forall phdr_range (load_phdrs img);
  wf_load : Forall (load_ok page None) (load_phdrs img);
  wf_disjoint : StronglySorted (before page) (load_phdrs img);
  wf_type : e_type (ehdr img) = ET_DYN \/ e_type (ehdr img) = ET_EXEC;
  wf_entry : u64 (e_entry (ehdr img));
  wf_phoff : u64 (e_phoff (ehdr img))
}.

Lemma load_ok_weaken page fsize ph : load_ok page fsize ph -> load_ok page None ph.
Proof. by intros [? ? ? ? ? ?]. Qed.

Lemma latest_last t phs d :
  latest t phs d = match last (of_type t phs) with Some ph => Some ph | None => d end.
Proof.
  revert d. induction phs as [|ph phs IH]; intros d; cbn [latest]; [done|].
  rewrite IH, of_type_cons. destruct (p_type ph =? t); [|done].
  rewrite last_cons. by destruct (last (of_type t phs)).
Qed.

Lemma stack_flag_last phs d :
  stack_flag phs d =
  match last (of_type PT_GNU_STACK phs) with Some ph => is_exec ph | None => d end.
Proof.
  revert d. induction phs as [|ph phs IH]; intros d; cbn [stack_flag]; [done|].
  rewrite IH, of_type_cons. destruct (p_type ph =? PT_GNU_STACK); [|done].
  rewrite last_cons. by destruct (last (of_type PT_GNU_STACK phs)).
Qed.

Section Accepted.
Context {target : Target} {heap : Heap}.
Variables (src : ImageSource) (page : Z).
Hypothesis page_pow2 : is_power_of_two page = true.
Hypothesis page_u64 : page < 2 ^ 64.

Lemma before_trans a b c :
  phdr_range b -> before page a b -> before page b c -> before page a c.
Proof.
  pose proof (page_pos page page_pow2) as Hpos.
  intros [_ _ _ [Hv _] _ _ [Hm _] _] [Ha Hab] [Hb Hbc]. split; [done|].
  pose proof (rup_bounds page Hpos (vend b)). unfold vend in *. lia.
Qed.

Lemma acceptable_wf eh phs :
  acceptable src page eh phs -> Image_wf page (image_of eh phs).
Proof.
  intros [(raw & _ & Hraw & Heh) Hok _ _ _ Hent Hls Hsome _ _ Hdis].
  pose proof (phdr_entry_range src eh phs Hent) as Hrange.
  pose proof (ehdr_of_range raw Hraw) as [_ Hentry Hphoff _ _]. rewrite <- Heh in *.
  assert (Hperm : Permutation (load_phdrs (image_of eh phs)) (of_type PT_LOAD phs)).
  { apply sorted_loads_perm. }
  assert (Hr : Forall phdr_range (load_phdrs (image_of eh phs))).
  { rewrite Hperm. apply Forall_forall. intros ph [_ Hin]%list_elem_of_filter.
    rewrite Forall_forall in Hrange. auto. }
  split; try done.
  - intros Hnil. rewrite Hnil in Hperm. by apply Permutation_nil_l in Hperm.
  - apply Forall_forall. cbn. intros i Hi. by apply sorted_loads_bound.
  - rewrite Hperm. eapply Forall_impl; [exact Hls|]. intros ph. apply load_ok_weaken.
  - apply (adjacent_strong phdr_range); [|done|].
    + intros a b c Hb Hab Hbc. by apply (before_trans a b c).
    + unfold load_phdrs. cbn. by apply (adjacent_fmap (fun i => phs !!! i) (before page)).
  - by destruct Hok.
Qed.

(** C2. The parser accepts exactly the acceptable images, and from each it
    builds the image whose parts the specification names: the segments in
    stable ascending address order, the single interpreter entry, the last
    [PT_PHDR], [PT_TLS] and [PT_GNU_RELRO], and the executable-stack flag. *)
Theorem Image_parse_refines img :
  Image_parse src page = Ok img <->
  exists eh phs, acceptable src page eh phs /\ img = image_of eh phs.
Proof.
  split; [by apply Image_parse_sound|].
  intros (eh & phs & Hacc & ->). by apply Image_parse_complete.
Qed.

Lemma parse_ehdr_range img : Image_parse src page = Ok img -> ehdr_range (ehdr img).
Proof.
  intros (eh & phs & [(raw & _ & Hlen & Heh) _ _ _ _ _ _ _ _ _ _] & ->)%Image_parse_sound; [|done..]. cbn. subst eh.
  by apply ehdr_of_range.
Qed.

Lemma parse_no_panic :
  (forall off n, u64 off -> (0 < n)%nat -> read_exact_at src off n <> Panic) -> Image_parse src page <> Panic.
Proof.
  intros Hsrc. unfold Image_parse.
  apply bind_no_panic; [apply map_err_no_panic, Hsrc; [done|unfold EHDR_SIZE; lia]|]. intros raw _.
  apply bind_no_panic.
  { apply map_err_no_panic. rewrite Ehdr_parse_eq. by case_match. }
  intros eh [Hlen ->]%map_err_Ok%Ehdr_parse_Ok. pose proof (ehdr_of_range raw Hlen) as Hr.
  apply bind_no_panic; [by apply check_ehdr_no_panic|]. intros [] _.
  apply bind_no_panic; [unfold check_phtab; no_panic|]. intros [] [Hfit _]%check_phtab_Ok; [|done].
  destruct Hr as [_ _ [Ho _] Hn Hs].
  destruct (negb _); [done|]. apply bind_no_panic.
  { apply (read_phdrs_no_panic src (ehdr_of raw) (e_phnum (ehdr_of raw))); auto; lia. }
  intros phs [Hcnt Hent]%(read_phdrs_Ok src (ehdr_of raw) (e_phnum (ehdr_of raw))); [|lia..].
  pose proof (phdr_entry_range src _ phs Hent) as Hrange.
  apply bind_no_panic; [by apply classify_no_panic|]. intros c Hc.
  apply classify_Ok in Hc as (Hls & _ & _ & ->); [|done..]. rewrite classes_loads.
  destruct (load_indices 0 phs) eqn:Hli; [done|]. rewrite <- Hli.
  apply bind_no_panic; [|done].
  apply check_overlaps_Ok; [done|done|]. by apply (overlap_side page (size src)).
Qed.

(** C10. Whatever the bytes of the file, parsing ends in an image or in a
    rejection: no arithmetic overflow, no out-of-range index, no unaligned mask
    stops the unikernel. *)
Theorem Image_parse_no_panic :
  (forall off n, u64 off -> (0 < n)%nat -> read_exact_at src off n <> Panic) -> Image_parse src page <> Panic.
Proof. exact parse_no_panic. Qed.

Lemma parse_wf img : Image_parse src page = Ok img -> Image_wf page img.
Proof.
  intros (eh & phs & Hacc & ->)%Image_parse_sound; [|done..]. by apply acceptable_wf.
Qed.

(** A parsed segment's data lies inside the file, when its size is known. *)
Lemma parse_in_file img n ph :
  Image_parse src page = Ok img -> size src = Some n -> ph ∈ load_phdrs img -> fend ph <= n.
Proof.
  intros (eh & phs & Hacc & ->)%Image_parse_sound Hsz Hin; [|done..].
  pose proof (ac_loads _ _ _ _ Hacc) as Hls. rewrite Hsz, Forall_forall in Hls.
  apply (Hls ph). assert (Hp : Permutation (load_phdrs (image_of eh phs)) (of_type PT_LOAD phs))
    by apply sorted_loads_perm.
  by rewrite <- Hp.
Qed.

Lemma parse_interp_range img ph :
  Image_parse src page = Ok img -> interp img = Some ph -> phdr_range ph /\ 0 < p_filesz ph <= INTERP_MAX.
Proof.
  intros (eh & phs & Hacc & ->)%Image_parse_sound Hin; [|done..]. cbn [interp image_of] in Hin.
  rewrite latest_last in Hin. destruct (last (of_type PT_INTERP phs)) as [q|] eqn:Hq; [|done].
  injection Hin as ->. apply last_Some_elem_of in Hq.
  pose proof (ac_interps _ _ _ _ Hacc) as Hint. rewrite Forall_forall in Hint. destruct (Hint _ Hq) as [Hsz _].
  apply list_elem_of_filter in Hq as [_ Hq]. split; [|lia].
  pose proof (phdr_entry_range src eh phs (ac_entries _ _ _ _ Hacc)) as Hr.
  rewrite Forall_forall in Hr. auto.
Qed.

(** C29. An accepted image satisfies what planning and loading rely on: at
    least one segment; every segment's fields in range, its file part no longer
    than its memory part, neither end overflowing, its address congruent to its
    file offset; and the segments in address order never share a page. *)
Theorem Image_parse_wf img : Image_parse src page = Ok img -> Image_wf page img.
Proof. apply parse_wf. Qed.

(** C30. Classification keeps the right entries: the image's interpreter is
    the only [PT_INTERP] of the table, [PT_PHDR], [PT_TLS] and [PT_GNU_RELRO]
    are the last of their kind, [exec_stack] is the X bit of the last
    [PT_GNU_STACK], and [loads] is a stable sort of the [PT_LOAD] indices. *)
Theorem Image_parse_classes img :
  Image_parse src page = Ok img ->
  interp img = last (of_type PT_INTERP (phdrs img)) /\
  (length (of_type PT_INTERP (phdrs img)) <= 1)%nat /\
  phdr_seg img = last (of_type PT_PHDR (phdrs img)) /\
  tls img = last (of_type PT_TLS (phdrs img)) /\
  relro img = last (of_type PT_GNU_RELRO (phdrs img)) /\
  exec_stack img = match last (of_type PT_GNU_STACK (phdrs img)) with
                   | Some ph => is_exec ph | None => false end /\
  Permutation (load_phdrs img) (of_type PT_LOAD (phdrs img)) /\
  StronglySorted (fun a b => p_vaddr a <= p_vaddr b) (load_phdrs img) /\
  forall v, filter (fun i => vaddr_at (phdrs img) i = v) (loads img)
            = filter (fun i => vaddr_at (phdrs img) i = v) (load_indices 0 (phdrs img)).
Proof.
  intros (eh & phs & Hacc & ->)%Image_parse_sound; [|done..].
  cbn [image_of interp phdrs phdr_seg tls relro exec_stack loads].
  rewrite !latest_last, stack_flag_last.
  split; [by destruct (last _)|]. split; [apply Hacc|].
  split; [by destruct (last _)|]. split; [by destruct (last _)|].
  split; [by destruct (last _)|]. split; [done|].
  split; [apply sorted_loads_perm|]. split; [|intros v; apply sort_by_key_stable].
  unfold load_phdrs. cbn. pose proof (sort_by_key_sorted (vaddr_at phs) (load_indices 0 phs)) as Hs.
  unfold sorted_loads. induction Hs as [|i l Hs IH Hi]; cbn; [constructor|].
  constructor; [done|]. by apply Forall_fmap.
Qed.
End Accepted.

(** ** Rejections *)

(** What makes a file an ELF64 little-endian image at all. *)
Record elf_ident (raw : list byte) : Prop := {
  id_len : (EHDR_SIZE <= length raw)%nat;
  id_magic : take 4 raw = ELFMAG;
  id_class : byte_val <$> raw !! EI_CLASS = Some ELFCLASS64;
  id_data : byte_val <$> raw !! EI_DATA = Some ELFDATA2LSB;
  id_version : byte_val <$> raw !! EI_VERSION = Some EV_CURRENT
}.

Lemma bind_not_err {E A B} (e : E) (m : outcome E A) (f : A -> outcome E B) :
  m <> Err e -> (forall a, m = Ok a -> f a <> Err e) -> m ≫= f <> Err e.
Proof. destruct m; cbn; naive_solver. Qed.

Ltac not_err_step :=
  match goal with
  | |- ?m = Err ?e -> False => change (m <> Err e)
  | |- Ok _ <> Err _ => discriminate
  | |- Panic <> Err _ => discriminate
  | |- Err _ <> Err _ => discriminate
  | |- ok_or ?o _ <> Err _ => destruct o; discriminate
  | |- sub64 _ _ <> Err _ => unfold sub64
  | |- add64 _ _ <> Err _ => unfold add64
  | |- mul64 _ _ <> Err _ => unfold mul64
  | |- index _ _ <> Err _ => unfold index; case_match; discriminate
  | |- map_err _ ?m <> Err _ => destruct m; discriminate
  | |- _ ≫= _ <> Err _ => apply bind_not_err; [|intros ? ?]
  | |- (if ?c then _ else _) <> Err _ => destruct c eqn:?
  end.
Ltac not_err := repeat not_err_step.

Section Rejections.
Context {target : Target} {heap : Heap}.

Lemma align_down_not_err {E} (e : E) v a : align_down v a <> Err e.
Proof. unfold align_down. not_err. Qed.

Lemma align_up_not_err {E} (e : E) v a : align_up v a <> Err e.
Proof. unfold align_up. not_err. Qed.

Lemma check_ehdr_not_elf eh :
  length (ident eh) = EI_NIDENT ->
  check_ehdr eh = Err NotElf <->
  ~ (take 4 (ident eh) = ELFMAG /\ byte_val <$> ident eh !! EI_CLASS = Some ELFCLASS64 /\
     byte_val <$> ident eh !! EI_DATA = Some ELFDATA2LSB /\
     byte_val <$> ident eh !! EI_VERSION = Some EV_CURRENT).
Proof.
  unfold EI_NIDENT. intros Hid.
  assert (Hat : forall i, (i < 16)%nat -> exists b, ident eh !! i = Some b).
  { intros i Hi. apply lookup_lt_is_Some. lia. }
  destruct (Hat EI_CLASS ltac:(unfold EI_CLASS; lia)) as [b1 H1].
  destruct (Hat EI_DATA ltac:(unfold EI_DATA; lia)) as [b2 H2].
  destruct (Hat EI_VERSION ltac:(unfold EI_VERSION; lia)) as [b3 H3].
  unfold check_ehdr, slice. rewrite at_least_leb. rewrite (proj2 (Nat.leb_le _ _)) by lia.
  rewrite (proj2 (index_Ok _ _ _) H1), (proj2 (index_Ok _ _ _) H2), (proj2 (index_Ok _ _ _) H3).
  rewrite H1, H2, H3. cbn [mbind outcome_bind fmap option_fmap option_map].
  rewrite drop_0.
  destruct (bool_decide (take 4 (ident eh) = ELFMAG)) eqn:Hm; cbn [negb orb];
    [apply bool_decide_eq_true in Hm|apply bool_decide_eq_false in Hm; split; [intros _ [? _]; done|done]].
  destruct (_ || _) eqn:Hc.
  - split; [|done]. intros _ (_ & [= He1] & [= He2] & [= He3]). lia.
  - split.
    + intros Hbad. exfalso. revert Hbad. not_err.
    + intros Hno. exfalso. apply Hno. split_and!; [done|f_equal; lia..].
Qed.

Lemma classify_not_elf page fsize i phs c : classify page fsize i phs c <> Err NotElf.
Proof.
  revert i c. induction phs as [|ph phs IH]; intros i c; cbn [classify]; [done|].
  apply bind_not_err; [|by intros c1 _]. destruct c.
  unfold classify_one, validate_load, check_interp. not_err.
  destruct fsize; not_err.
Qed.

Lemma read_phdrs_not_elf src eh i n : read_phdrs src eh i n <> Err NotElf.
Proof.
  revert i. induction n as [|n IH]; intros i; cbn [read_phdrs]; [done|]. not_err. apply IH.
Qed.

Lemma check_overlaps_not_elf phs page l : check_overlaps phs page l <> Err NotElf.
Proof.
  induction l as [|i [|j l] IH]; [done|done|].
  change (check_overlaps phs page (i :: j :: l)) with
    (a ← index phs i; b ← index phs j; _ ← check_pair page a b;
     check_overlaps phs page (j :: l)).
  unfold check_pair. not_err; auto using align_up_not_err, align_down_not_err.
Qed.

(** [NotElf] -- the answer that lets [libukbinfmt] try another loader --
    is given exactly for files that are not ELF64 little-endian images: the 64
    header bytes cannot be read, or the magic, class, byte order or version of
    the identification differ. *)
Theorem Image_parse_not_elf src page :
  (forall off n, u64 off -> (0 < n)%nat -> read_exact_at src off n <> Panic) ->
  Image_parse src page = Err NotElf <->
  ~ exists raw, read_exact_at src 0 EHDR_SIZE = Ok raw /\ elf_ident raw.
Proof.
  intros Hsrc. unfold Image_parse. specialize (Hsrc 0 EHDR_SIZE ltac:(done) ltac:(unfold EHDR_SIZE; lia)).
  destruct (read_exact_at src 0 EHDR_SIZE) as [raw|e|]; [|naive_solver|done].
  cbn [map_err mbind outcome_bind]. rewrite Ehdr_parse_eq.
  destruct (Nat.ltb_spec (length raw) EHDR_SIZE) as [Hlt|Hge].
  { cbn. split; [|done]. intros _ (r & [= <-] & [Hl _ _ _ _]). lia. }
  cbn [map_err mbind outcome_bind].
  pose proof (ehdr_of_range raw Hge) as [Hid _ _ _ _].
  pose proof (check_ehdr_not_elf (ehdr_of raw) Hid) as Hchk. cbn [ident ehdr_of] in Hchk.
  rewrite take_take in Hchk. unfold EI_NIDENT, EI_CLASS, EI_DATA, EI_VERSION in Hchk.
  rewrite !lookup_take_lt in Hchk by lia. change (4 `min` 16)%nat with 4%nat in Hchk.
  split.
  - intros Herr (r & [= <-] & [_ Hm Hc Hd Hv]).
    assert (Hok : check_ehdr (ehdr_of raw) <> Err NotElf) by (intros H; apply Hchk in H; tauto).
    revert Herr.
    apply bind_not_err; [done|]. intros [] _. unfold check_phtab. not_err.
    + apply read_phdrs_not_elf.
    + apply classify_not_elf.
    + apply check_overlaps_not_elf.
  - intros Hno. rewrite (proj2 Hchk); [done|]. intros (Hm & Hc & Hd & Hv).
    apply Hno. exists raw. split; [done|]. by split.
Qed.
End Rejections.

(** ** Spans and alignment *)

Lemma load_phdrs_lookup img k i :
  loads img !! k = Some i -> load_phdrs img !! k = Some (phdrs img !!! i).
Proof. intros Hk. unfold load_phdrs. by rewrite list_lookup_fmap, Hk. Qed.

Lemma index_load {E} page img i :
  Image_wf page img -> i ∈ loads img -> index (E:=E) (phdrs img) i = Ok (phdrs img !!! i).
Proof.
  intros Hwf Hi. apply index_Ok. apply list_lookup_lookup_total_lt.
  pose proof (wf_bound _ _ Hwf) as Hb. rewrite Forall_forall in Hb. auto.
Qed.

Section Span.
Variables (page : Z) (img : Image).
Hypothesis page_pow2 : is_power_of_two page = true.
Hypothesis page_u64 : page < 2 ^ 64.
Hypothesis wf : Image_wf page img.

Lemma load_phdr_in ph : ph ∈ load_phdrs img -> phdr_range ph /\ load_ok page None ph.
Proof.
  intros Hin. destruct wf as [_ _ Hr Hl _ _ _ _]. rewrite Forall_forall in Hr, Hl. auto.
Qed.

Definition first_load : Phdr := load_phdrs img !!! 0%nat.
Definition last_load : Phdr := load_phdrs img !!! (length (load_phdrs img) - 1)%nat.

Lemma loads_nonempty : (0 < length (load_phdrs img))%nat.
Proof. pose proof (wf_some _ _ wf). destruct (load_phdrs img); [done|cbn; lia]. Qed.

Lemma first_load_in : first_load ∈ load_phdrs img.
Proof. apply list_elem_of_lookup_total_2. apply loads_nonempty. Qed.

Lemma last_load_in : last_load ∈ load_phdrs img.
Proof. apply list_elem_of_lookup_total_2. pose proof loads_nonempty. lia. Qed.

Lemma va_span_eq :
  va_span img page =
  if vend last_load + (page - 1) <? 2 ^ 64
  then Ok (rdown (p_vaddr first_load) page, rup (vend last_load) page)
  else Err ENOEXEC.
Proof.
  pose proof loads_nonempty as Hlen. unfold load_phdrs in Hlen. rewrite length_fmap in Hlen.
  destruct (lookup_lt_is_Some_2 (loads img) 0) as [i Hi]; [lia|].
  destruct (lookup_lt_is_Some_2 (loads img) (length (loads img) - 1)) as [j Hj]; [lia|].
  assert (Hfirst : phdrs img !!! i = first_load).
  { unfold first_load. symmetry. by apply list_lookup_total_correct, load_phdrs_lookup. }
  assert (Hlast : phdrs img !!! j = last_load).
  { unfold last_load. symmetry. apply list_lookup_total_correct, load_phdrs_lookup.
    unfold load_phdrs. by rewrite length_fmap. }
  unfold va_span. rewrite (proj2 (index_Ok _ _ _) Hi). cbn [mbind outcome_bind].
  rewrite (index_load page) by (done || by eapply list_elem_of_lookup_2).
  cbn [mbind outcome_bind]. rewrite last_lookup, <- Nat.sub_1_r, Hj. cbn [mbind outcome_bind].
  rewrite (index_load page) by (done || by eapply list_elem_of_lookup_2).
  rewrite Hfirst, Hlast. cbn [mbind outcome_bind].
  destruct (load_phdr_in _ first_load_in) as [[_ _ _ Hv1 _ _ _ _] _].
  destruct (load_phdr_in _ last_load_in) as [[_ _ _ Hv2 _ _ Hm2 _] [_ _ Hend _ _ _]].
  rewrite (align_down_eq page) by done. cbn [mbind outcome_bind].
  unfold vend, u64 in *. rewrite add64_small by lia. cbn [mbind outcome_bind].
  rewrite (align_up_eq page) by (done || lia). cbn [mbind outcome_bind].
  by destruct (_ <? _).
Qed.

Lemma load_order i j a b :
  (i < j)%nat -> load_phdrs img !! i = Some a -> load_phdrs img !! j = Some b -> before page a b.
Proof. intros. by eapply (StronglySorted_lookup _ _ _ _ _ _ (wf_disjoint _ _ wf)). Qed.

(** Every segment starts at or after the first and ends at or before the last. *)
Lemma load_within ph :
  ph ∈ load_phdrs img -> p_vaddr first_load <= p_vaddr ph /\ vend ph <= vend last_load.
Proof.
  pose proof (page_pos page page_pow2) as Hpos. pose proof loads_nonempty as Hlen.
  intros [k Hk]%list_elem_of_lookup. pose proof (lookup_lt_Some _ _ _ Hk) as Hlt.
  assert (Hf : load_phdrs img !! 0%nat = Some first_load)
    by (apply list_lookup_lookup_total_lt; lia).
  assert (Hl : load_phdrs img !! (length (load_phdrs img) - 1)%nat = Some last_load)
    by (apply list_lookup_lookup_total_lt; lia).
  destruct (load_phdr_in ph) as [[_ _ _ [Hv _] _ _ [Hm _] _] _]; [by eapply list_elem_of_lookup_2|].
  destruct (load_phdr_in _ first_load_in) as [[_ _ _ _ _ _ [Hm1 _] _] _].
  destruct (load_phdr_in _ last_load_in) as [[_ _ _ _ _ _ [Hm2 _] _] _].
  split.
  - destruct (decide (k = 0%nat)) as [->|Hne]; [rewrite Hf in Hk; injection Hk as <-; lia|].
    destruct (load_order 0 k first_load ph ltac:(lia) Hf Hk) as [_ Hb].
    pose proof (rup_bounds page Hpos (vend first_load)). unfold vend in *. lia.
  - destruct (decide (k = length (load_phdrs img) - 1)%nat) as [->|Hne].
    { rewrite Hl in Hk. injection Hk as <-. lia. }
    destruct (load_order k (length (load_phdrs img) - 1) ph last_load ltac:(lia) Hk Hl) as [_ Hb].
    pose proof (rup_bounds page Hpos (vend ph)). unfold vend in *. lia.
Qed.

(** What a span promises: page-aligned bounds, tight around the segments. *)
Record span_ok (lo hi : Z) : Prop := {
  sp_lo : (page | lo);
  sp_hi : (page | hi);
  sp_order : 0 <= lo <= hi;
  sp_u64 : hi < 2 ^ 64;
  sp_covers : forall ph, ph ∈ load_phdrs img ->
    lo <= rdown (p_vaddr ph) page /\ rup (vend ph) page <= hi;
  sp_tight : (exists ph, ph ∈ load_phdrs img /\ lo = rdown (p_vaddr ph) page) /\
             (exists ph, ph ∈ load_phdrs img /\ hi = rup (vend ph) page)
}.

Lemma span_ok_of :
  vend last_load + (page - 1) < 2 ^ 64 ->
  span_ok (rdown (p_vaddr first_load) page) (rup (vend last_load) page).
Proof.
  pose proof (page_pos page page_pow2) as Hpos. intros Hlt.
  destruct (load_phdr_in _ first_load_in) as [[_ _ _ Hv1 _ _ _ _] _].
  destruct (load_phdr_in _ last_load_in) as [[_ _ _ Hv2 _ _ Hm2 _] _].
  unfold u64 in *.
  pose proof (rup_bounds page Hpos (vend last_load)).
  pose proof (rdown_bounds page Hpos (p_vaddr first_load)).
  destruct (load_within _ last_load_in) as [Hw _]. unfold vend in *. split.
  - by apply rdown_divide.
  - by apply rup_divide.
  - split; [apply rdown_nonneg; lia|lia].
  - lia.
  - intros ph Hph. destruct (load_within ph Hph). split.
    + by apply rdown_mono.
    + by apply rup_mono.
  - split; [exists first_load|exists last_load];
      auto using first_load_in, last_load_in.
Qed.

Lemma va_span_ok lo hi : va_span img page = Ok (lo, hi) -> span_ok lo hi.
Proof.
  rewrite va_span_eq. case_match eqn:Hlt; [|done]. intros [= <- <-].
  apply span_ok_of. by apply Z.ltb_lt.
Qed.

(** On a well-formed image [va_span] returns the tight page-aligned span
    of its segments; it refuses with [ENOEXEC] exactly when rounding the highest
    end up to a page would overflow, and never panics. *)
Theorem va_span_spec :
  (exists lo hi, va_span img page = Ok (lo, hi) /\ span_ok lo hi /\
     vend last_load + (page - 1) < 2 ^ 64) \/
  (va_span img page = Err ENOEXEC /\ 2 ^ 64 <= vend last_load + (page - 1)).
Proof.
  rewrite va_span_eq. destruct (Z.ltb_spec (vend last_load + (page - 1)) (2 ^ 64)) as [Hlt|Hge];
    [left|by right].
  do 2 eexists. split; [done|]. split; [by apply span_ok_of|done].
Qed.

Lemma load_align_loop_spec l a :
  (forall i, i ∈ l -> i ∈ loads img) -> is_power_of_two a = true ->
  exists r, load_align_loop (phdrs img) a l = Ok r /\ is_power_of_two r = true /\ a <= r /\
    (forall i, i ∈ l -> p_align (phdrs img !!! i) <= r) /\
    (r = a \/ exists i, i ∈ l /\ r = p_align (phdrs img !!! i)).
Proof.
  revert a. induction l as [|i l IH]; intros a Hin Ha; cbn [load_align_loop].
  { exists a. split; [done|]. split; [done|]. split; [lia|]. split; [|by left].
    intros i Hi. by apply not_elem_of_nil in Hi. }
  unfold load_align_step. rewrite (index_load page) by (done || apply Hin; by left).
  cbn [mbind outcome_bind]. set (pa := p_align (phdrs img !!! i)).
  assert (Hpa : pa = 0 \/ is_power_of_two pa = true).
  { destruct (load_phdr_in (phdrs img !!! i)) as [_ [_ Hal _ _ _ _]]; [|done].
    apply list_elem_of_fmap. exists i. split; [done|]. apply Hin. by left. }
  pose proof (is_power_of_two_pos a Ha) as Hapos.
  destruct (IH (if (a <? pa) && is_power_of_two pa then pa else a)) as (r & Hr & Hp & Hle & Hall & Hsrc).
  { intros k Hk. apply Hin. by right. }
  { destruct (_ && _) eqn:Hc; [|done]. by apply andb_true_iff in Hc as [_ ?]. }
  exists r. split; [by destruct (_ && _)|]. split; [done|].
  destruct ((a <? pa) && is_power_of_two pa) eqn:Hc.
  - apply andb_true_iff in Hc as [Hlt%Z.ltb_lt _]. split; [lia|]. split.
    + intros k [->|Hk]%elem_of_cons; [done|auto].
    + right. destruct Hsrc as [->|(k & Hk & ->)]; [exists i|exists k]; split; try done; set_solver.
  - assert (pa <= a).
    { destruct Hpa as [->|Hp2]; [lia|]. rewrite Hp2, andb_true_r in Hc. lia. }
    split; [done|]. split.
    + intros k [->|Hk]%elem_of_cons; [fold pa; lia|auto].
    + destruct Hsrc as [->|(k & Hk & ->)]; [by left|right; exists k; set_solver].
Qed.

(** [load_align] is the strongest alignment a segment asks for, floored
    at the page size: a power of two, at least every [p_align], and one of them
    or the page size itself. *)
Theorem load_align_spec :
  exists a, load_align img page = Ok a /\ is_power_of_two a = true /\ page <= a /\
    (forall ph, ph ∈ load_phdrs img -> p_align ph <= a) /\
    (a = page \/ exists ph, ph ∈ load_phdrs img /\ a = p_align ph).
Proof.
  destruct (load_align_loop_spec (loads img) page ltac:(done) page_pow2)
    as (a & Ha & Hp & Hle & Hall & Hsrc).
  exists a. split; [done|]. split; [done|]. split; [done|]. split.
  - intros ph (i & -> & Hi)%list_elem_of_fmap. auto.
  - destruct Hsrc as [->|(i & Hi & ->)]; [by left|right]. eexists. split; [|done].
    apply list_elem_of_fmap. eauto.
Qed.
End Span.

(** [interp_path] returns the bytes of [PT_INTERP] up to the first NUL: a
    non-empty, NUL-free string followed by a NUL inside the entry.  An image
    without an interpreter gives [EINVAL], an unterminated or empty path
    [ENOEXEC], and a read error is passed on. *)
Theorem interp_path_spec {heap : Heap} img src path :
  interp_path img src = Ok path <->
  exists ph rest, interp img = Some ph /\ try_reserve (p_filesz ph) = true /\
    read_exact_at src (p_offset ph) (Z.to_nat (p_filesz ph)) = Ok (path ++ x00 :: rest) /\
    path <> [] /\ x00 ∉ path.
Proof.
  unfold interp_path. rewrite bind_Ok. setoid_rewrite ok_or_Ok. split.
  - intros (ph & Hph & H). destruct (try_reserve (p_filesz ph)) eqn:Hres; [|done].
    cbn [negb] in H. apply bind_Ok in H as (buf & Hbuf & H).
    destruct (position _ buf) as [[|n]|] eqn:Hpos; [done| |done]. injection H as <-.
    apply position_Some in Hpos as (z & Hz & ->%bool_decide_eq_true & Hmin).
    exists ph, (drop (S (S n)) buf). split; [done|]. split; [done|]. rewrite Hbuf.
    split; [by rewrite take_drop_middle|]. split.
    + destruct buf; [done|]. by cbn.
    + intros (j & Hj)%list_elem_of_lookup. apply lookup_take_Some in Hj as [Hj Hlt].
      specialize (Hmin j _ Hlt Hj). by apply bool_decide_eq_false in Hmin.
  - intros (ph & rest & Hph & Hres & Hread & Hne & Hno). exists ph. split; [done|].
    rewrite Hres. cbn [negb]. rewrite Hread. cbn [mbind outcome_bind].
    replace (position _ _) with (Some (length path)).
    + destruct path as [|c path]; [done|]. cbn [length]. by rewrite take_app_length'.
    + symmetry. apply position_Some. exists x00. rewrite list_lookup_middle by done.
      split; [done|]. split; [by apply bool_decide_eq_true|]. intros j y Hj Hy.
      rewrite lookup_app_l in Hy by done. apply bool_decide_eq_false. intros ->.
      apply Hno. by eapply list_elem_of_lookup_2.
Qed.

(** ** Sources *)

(** A source that serves the bytes of a file, and errors past its end. *)
Definition serves (src : ImageSource) (data : list byte) : Prop :=
  forall off n, u64 off -> (0 < n)%nat ->
    if off + Z.of_nat n <=? Z.of_nat (length data)
    then read_exact_at src off n = Ok (take n (drop (Z.to_nat off) data))
    else exists e, read_exact_at src off n = Err e.

Lemma slice_source_serves b : Z.of_nat (length b) < 2 ^ 64 -> serves (slice_source b) b.
Proof.
  intros Hb off n [H0 _] _. cbn [read_exact_at slice_source].
  destruct (Z.leb_spec (off + Z.of_nat n) (Z.of_nat (length b))) as [Hle|Hgt].
  - rewrite checked_add_small by lia. cbn [ok_or mbind outcome_bind].
    rewrite (proj2 (Z.ltb_ge _ _)) by lia. apply slice_Ok. split; [lia|done].
  - unfold checked_add. destruct (_ <? 2 ^ 64); cbn [ok_or mbind outcome_bind]; [|eauto].
    rewrite (proj2 (Z.ltb_lt _ _)) by lia. eauto.
Qed.

(** Two sources that serve the same bytes read the same, but for the error. *)
Lemma serves_same {E} (f : Error -> E) src1 src2 data off n :
  (forall e1 e2, f e1 = f e2) -> serves src1 data -> serves src2 data -> u64 off -> (0 < n)%nat ->
  map_err f (read_exact_at src1 off n) = map_err f (read_exact_at src2 off n).
Proof.
  intros Hf H1 H2 Ho Hn. specialize (H1 off n Ho Hn). specialize (H2 off n Ho Hn). destruct (_ <=? _).
  - by rewrite H1, H2.
  - destruct H1 as [e1 ->], H2 as [e2 ->]. cbn. by rewrite (Hf e1 e2).
Qed.

Lemma read_phdrs_same src1 src2 data eh n : serves src1 data -> serves src2 data ->
  0 <= e_phoff eh -> 0 <= e_phentsize eh -> forall i, 0 <= i -> read_phdrs src1 eh i n = read_phdrs src2 eh i n.
Proof.
  intros H1 H2 Ho Hs. induction n as [|n IH]; intros i Hi; cbn [read_phdrs]; [done|].
  destruct (mul64 i (e_phentsize eh)) as [st| |] eqn:Hst; [|done|done]. apply mul64_Ok in Hst as [-> _].
  cbn [mbind outcome_bind]. destruct (add64 (e_phoff eh) _) as [off| |] eqn:Hoff; [|done|done].
  apply add64_Ok in Hoff as [-> Hlt]. cbn [mbind outcome_bind].
  rewrite (serves_same _ src1 src2 data) by (done || (unfold u64; nia) || (unfold PHDR_SIZE; lia)).
  rewrite IH by lia. done.
Qed.

Lemma parse_same_bytes {target : Target} {heap : Heap} src1 src2 data page :
  serves src1 data -> serves src2 data -> size src1 = size src2 ->
  Image_parse src1 page = Image_parse src2 page.
Proof.
  intros H1 H2 Hsz. unfold Image_parse. rewrite Hsz.
  rewrite (serves_same _ src1 src2 data) by (done || (unfold EHDR_SIZE; lia)).
  destruct (map_err _ (read_exact_at src2 0 EHDR_SIZE)) as [raw| |]; [|done|done]. cbn [mbind outcome_bind].
  destruct (Ehdr_parse raw) as [eh| |] eqn:Heh; [|done|done]. cbn [map_err mbind outcome_bind].
  apply Ehdr_parse_Ok in Heh as [Hlen ->]. destruct (ehdr_of_range raw Hlen) as [_ _ [Ho _] _ Hs].
  rewrite (read_phdrs_same src1 src2 data) by (done || lia). done.
Qed.


(** ** The fixtures are well-formed *)

Lemma mini_wf : Image_wf 4096 mini_img.
Proof.
  destruct (Image_parse_sound (slice_source mini_bytes) 4096 eq_refl eq_refl mini_img mini_parses)
    as (eh & phs & Hacc & ->).
  by apply (acceptable_wf (target:=x86_target) (heap:=plenty) (slice_source mini_bytes)).
Qed.

Lemma mini_exec_wf : Image_wf 4096 mini_exec_img.
Proof.
  destruct (Image_parse_sound (slice_source mini_exec_bytes) 4096 eq_refl eq_refl mini_exec_img
              mini_exec_parses) as (eh & phs & Hacc & ->).
  by apply (acceptable_wf (target:=x86_target) (heap:=plenty) (slice_source mini_exec_bytes)).
Qed.

(** ** Witnesses *)

Lemma slice_source_no_panic b off n :
  u64 off -> (0 < n)%nat -> read_exact_at (slice_source b) off n <> Panic.
Proof.
  intros [Hoff _] _. cbn. unfold checked_add. destruct (_ <? 2 ^ 64); [|done].
  cbn [ok_or mbind outcome_bind]. destruct (Z.ltb_spec (Z.of_nat (length b)) (off + Z.of_nat n)); [done|].
  unfold slice. rewrite at_least_leb. by rewrite (proj2 (Nat.leb_le _ _)) by lia.
Qed.

Lemma Image_parse_refines_witness :
  exists eh phs, acceptable (target:=x86_target) (heap:=plenty) (slice_source mini_bytes) 4096 eh phs /\
    mini_img = image_of eh phs.
Proof.
  apply (Image_parse_refines (target:=x86_target) (heap:=plenty) (slice_source mini_bytes) 4096
           eq_refl eq_refl mini_img).
  exact mini_parses.
Defined.

(** A source that fails every read. *)
Definition dead_source : ImageSource := MkSource (fun _ _ => Err ENOENT) None.

Lemma Image_parse_no_panic_witness :
  Image_parse (target:=x86_target) (heap:=plenty) (slice_source mini_bytes) 4096 <> Panic.
Proof.
  apply (Image_parse_no_panic (target:=x86_target) (heap:=plenty) (slice_source mini_bytes) 4096
           eq_refl eq_refl).
  apply slice_source_no_panic.
Defined.

Lemma Image_parse_wf_witness : Image_wf 4096 mini_exec_img.
Proof.
  apply (Image_parse_wf (target:=x86_target) (heap:=plenty) (slice_source mini_exec_bytes) 4096
           eq_refl eq_refl mini_exec_img).
  exact mini_exec_parses.
Defined.

Lemma Image_parse_classes_witness :
  Permutation (load_phdrs mini_img) (of_type PT_LOAD (phdrs mini_img)).
Proof.
  apply (Image_parse_classes (target:=x86_target) (heap:=plenty) (slice_source mini_bytes) 4096
           eq_refl eq_refl mini_img mini_parses).
Defined.

Lemma Image_parse_not_elf_witness :
  Image_parse (target:=x86_target) (heap:=plenty) dead_source 4096 = Err NotElf.
Proof.
  apply (Image_parse_not_elf (target:=x86_target) (heap:=plenty) dead_source 4096).
  - intros off n Hoff. discriminate.
  - intros (raw & Hraw & _). discriminate.
Defined.

Lemma va_span_spec_witness :
  va_span mini_img 4096 = Ok (0, 0x3000) /\ span_ok 4096 mini_img 0 0x3000.
Proof.
  assert (Hs : va_span mini_img 4096 = Ok (0, 0x3000)) by (by vm_compute).
  destruct (va_span_spec 4096 mini_img eq_refl eq_refl mini_wf) as [(lo & hi & H & Hok & _)|[H _]];
    rewrite Hs in H; [|done].
  injection H as <- <-. by split.
Defined.

Lemma load_align_spec_witness :
  exists a, load_align mini_img 4096 = Ok a /\ is_power_of_two a = true /\ 4096 <= a /\
    (forall ph, ph ∈ load_phdrs mini_img -> p_align ph <= a) /\
    (a = 4096 \/ exists ph, ph ∈ load_phdrs mini_img /\ a = p_align ph).
Proof. apply (load_align_spec 4096 mini_img eq_refl eq_refl mini_wf). Defined.
