(* ===== verification/Layout.v ===== *)
(** * The load plan ([rust/src/layout.rs])

    Turning a parsed image into a concrete list of mappings: where the image
    goes, which file ranges are mapped where, which bytes are cleared and which
    pages are anonymous. *)

From Stdlib Require Import Strings.Byte Sorted Permutation.
From stdpp Require Import base numbers option strings sets list.
From S2P Require Import Prelude Err Elf ElfFacts.

(** ** Protections *)

Definition PROT_NONE : Z := 0.
Definition PROT_READ : Z := 1.
Definition PROT_WRITE : Z := 2.
Definition PROT_EXEC : Z := 4.

Definition MAX_SEG_ALIGN : Z := 2 * 1024 * 1024.

Definition prot_of (ph : Phdr) : Z :=
  let p := PROT_NONE in
  let p := if is_read ph then Z.lor p PROT_READ else p in
  let p := if is_write ph then Z.lor p PROT_WRITE else p in
  if is_exec ph then Z.lor p PROT_EXEC else p.

(** ** Plans *)

Record FileMap : Type := MkFileMap { f_addr : Z; f_len : Z; f_off : Z }.
Record AnonMap : Type := MkAnonMap { a_addr : Z; a_len : Z }.

Record SegmentPlan : Type := MkSegmentPlan {
  idx : nat;
  file : option FileMap;
  zero : option AnonMap;
  anon : option AnonMap;
  prot : Z;
  needs_write_window : bool
}.

(** [SegmentPlan::range]. *)
Definition range {E : Type} (s : SegmentPlan) : outcome E (Z * Z) :=
  let start := match file s, anon s with
               | Some f, _ => f_addr f
               | None, Some a => a_addr a
               | None, None => 0
               end in
  stop ← (match anon s, file s with
          | Some a, _ => add64 (a_addr a) (a_len a)
          | None, Some f => add64 (f_addr f) (f_len f)
          | None, None => Ok start
          end);
  Ok (start, stop).

Record LoadPlan : Type := MkLoadPlan {
  bias : Z;
  reserve_addr : Z;
  reserve_len : Z;
  base : Z;
  end_ : Z;
  align : Z;
  segments : list SegmentPlan;
  entry : Z
}.

Inductive Placement : Type :=
| Fixed
| At (raw : Z).

Definition seg_align (img : Image) (page_size : Z) : Res Z :=
  a ← load_align img page_size;
  Ok (Z.max (Z.min a MAX_SEG_ALIGN) page_size).

Definition reservation_len (img : Image) (page_size : Z) : Res Z :=
  '(lo, hi) ← va_span img page_size;
  align ← seg_align img page_size;
  match checked_sub hi lo with
  | None => Err ENOEXEC
  | Some span =>
    slack ← sub64 align page_size;
    ok_or (checked_add span slack) ENOEXEC
  end.

(** The part of [plan] that picks the bias and the reservation. *)
Definition place (page_size va_lo span align : Z) (p : Placement) : Res (Z * Z * Z) :=
  match p with
  | Fixed => Ok (0, va_lo, span)
  | At raw =>
    up ← align_up raw align;
    base ← ok_or up ENOMEM;
    bias ← ok_or (checked_sub base va_lo) ENOMEM;
    slack ← sub64 align page_size;
    len ← add64 span slack;
    Ok (bias, raw, len)
  end.

(** The body of the loop over [image.loads]. *)
Definition plan_segment (img : Image) (page_size bias : Z) (i : nat) : Res SegmentPlan :=
  ph ← index (phdrs img) i;
  let prot := prot_of ph in
  vaddr ← ok_or (checked_add (p_vaddr ph) bias) ENOMEM;
  mstart ← align_down vaddr page_size;
  fdelta ← sub64 vaddr mstart;
  mem ← add64 vaddr (p_memsz ph);
  up ← align_up mem page_size;
  mem_end ← ok_or up ENOMEM;
  '(file, zero, file_end) ←
    (if 0 <? p_filesz ph then
       fend ← add64 vaddr (p_filesz ph);
       up ← align_up fend page_size;
       fmap_end ← ok_or up ENOMEM;
       len ← sub64 fmap_end mstart;
       off ← sub64 (p_offset ph) fdelta;
       let f := MkFileMap mstart len off in
       z ← (if fend <? fmap_end then
              zlen ← sub64 fmap_end fend; Ok (Some (MkAnonMap fend zlen))
            else Ok None);
       Ok (Some f, z, fmap_end)
     else Ok (None, None, mstart));
  anon ← (if file_end <? mem_end then
            len ← sub64 mem_end file_end; Ok (Some (MkAnonMap file_end len))
          else Ok None);
  let needs_write_window :=
    match zero with Some _ => Z.land prot PROT_WRITE =? 0 | None => false end in
  Ok (MkSegmentPlan i file zero anon prot needs_write_window).

Fixpoint plan_segments (img : Image) (page_size bias : Z) (l : list nat) :
    Res (list SegmentPlan) :=
  match l with
  | [] => Ok []
  | i :: l =>
    s ← plan_segment img page_size bias i;
    rest ← plan_segments img page_size bias l;
    Ok (s :: rest)
  end.

Definition plan {heap : Heap} (img : Image) (page_size : Z) (p : Placement) : Res LoadPlan :=
  '(va_lo, va_hi) ← va_span img page_size;
  align ← seg_align img page_size;
  span ← sub64 va_hi va_lo;
  '(bias, reserve_addr, reserve_len) ← place page_size va_lo span align p;
  base ← add64 va_lo bias;
  end_ ← add64 va_hi bias;
  if negb (try_reserve (Z.of_nat (length (loads img)))) then Err ENOMEM else
  segments ← plan_segments img page_size bias (loads img);
  entry ← ok_or (checked_add (e_entry (ehdr img)) bias) ENOMEM;
  Ok (MkLoadPlan bias reserve_addr reserve_len base end_ align segments entry).

Definition covers (p : LoadPlan) (addr : Z) : bool := (base p <=? addr) && (addr <? end_ p).

(** The loop of [phdr_addr] over the loadable segments; [?] on an [Option]
    ends the function with [None]. *)
Fixpoint phdr_addr_loop (img : Image) (bias : Z) (l : list nat) : outcome Error (option Z) :=
  match l with
  | [] => Ok None
  | i :: l =>
    ph ← index (phdrs img) i;
    let phoff := e_phoff (ehdr img) in
    if p_offset ph <=? phoff then
      match checked_add (p_offset ph) (p_filesz ph) with
      | None => Ok None
      | Some stop =>
        if phoff <? stop then
          d ← sub64 phoff (p_offset ph);
          Ok (a ← checked_add d (p_vaddr ph); checked_add a bias)
        else phdr_addr_loop img bias l
      end
    else phdr_addr_loop img bias l
  end.

Definition phdr_addr (p : LoadPlan) (img : Image) : outcome Error (option Z) :=
  match phdr_seg img with
  | Some ph =>
    match checked_add (p_vaddr ph) (bias p) with
    | None => Ok None
    | Some addr =>
      if covers p addr then Ok (Some addr) else phdr_addr_loop img (bias p) (loads img)
    end
  | None => phdr_addr_loop img (bias p) (loads img)
  end.

Fixpoint exec_ranges_loop {E : Type} (img : Image) (segs : list SegmentPlan) :
    outcome E (list (Z * Z)) :=
  match segs with
  | [] => Ok []
  | s :: segs =>
    ph ← index (phdrs img) (idx s);
    if is_exec ph then
      '(a, b) ← range s;
      len ← sub64 b a;
      rest ← exec_ranges_loop img segs;
      Ok ((a, len) :: rest)
    else exec_ranges_loop img segs
  end.

Definition exec_ranges {E : Type} (p : LoadPlan) (img : Image) : outcome E (list (Z * Z)) :=
  exec_ranges_loop img (segments p).

(** ** Protection bits *)

Lemma flag_bit v k : 0 <= k -> negb (Z.land v (2 ^ k) =? 0) = Z.testbit v k.
Proof.
  intros Hk. destruct (Z.testbit v k) eqn:Hb.
  - apply negb_true_iff, Z.eqb_neq. intros H0.
    assert (Hb' : Z.testbit (Z.land v (2 ^ k)) k = true)
      by (rewrite Z.land_spec, Hb, Z.pow2_bits_true; done).
    by rewrite H0, Z.bits_0 in Hb'.
  - apply negb_false_iff, Z.eqb_eq, Z.bits_inj'. intros n Hn.
    rewrite Z.land_spec, Z.bits_0, Z.pow2_bits_eqb by lia.
    destruct (Z.eqb_spec k n) as [->|]; [by rewrite Hb|apply andb_false_r].
Qed.

(** [prot_of] translates the ELF flags bit by bit: R, W and X of the
    protection are [PF_R], [PF_W] and [PF_X] of the segment, and no other bit is
    ever set. *)
Theorem prot_of_bits ph n :
  0 <= n ->
  Z.testbit (prot_of ph) n =
  match n with
  | 0 => Z.testbit (p_flags ph) 2
  | 1 => Z.testbit (p_flags ph) 1
  | 2 => Z.testbit (p_flags ph) 0
  | _ => false
  end.
Proof.
  intros Hn. unfold prot_of, is_read, is_write, is_exec, PF_R, PF_W, PF_X.
  change 4 with (2 ^ 2). change (Z.land (p_flags ph) 2) with (Z.land (p_flags ph) (2 ^ 1)).
  change (Z.land (p_flags ph) 1) with (Z.land (p_flags ph) (2 ^ 0)).
  rewrite !flag_bit by lia.
  destruct n as [|p|p]; [|do 2 (try destruct p as [p|p|])|lia];
    by destruct (Z.testbit (p_flags ph) 2), (Z.testbit (p_flags ph) 1),
      (Z.testbit (p_flags ph) 0).
Qed.

Lemma prot_of_bits_witness :
  Z.testbit (prot_of (MkPhdr PT_LOAD (Z.lor PF_R PF_X) 0 0 0 0 0 0)) 2 = true.
Proof. rewrite (prot_of_bits _ 2) by lia. reflexivity. Defined.
