(* ===== verification/LayoutFacts.v ===== *)
(** * Properties of the load plan

    The plan in closed form, when planning succeeds, and what a plan promises:
    page-aligned pieces inside the reservation that never overlap, file bytes
    placed at their linked address, and every byte between the end of the file
    data and the end of the last page either cleared or anonymous. *)

From Stdlib Require Import Strings.Byte Sorted Permutation.
From stdpp Require Import base numbers option strings sets list.
From S2P Require Import Prelude Err Elf TestImage ElfFacts Layout.

(** ** The closed form *)

Section Closed.
Variable page : Z.

Definition seg_vaddr (bias : Z) (ph : Phdr) : Z := p_vaddr ph + bias.
Definition seg_start (bias : Z) (ph : Phdr) : Z := rdown (p_vaddr ph + bias) page.
Definition seg_fend (bias : Z) (ph : Phdr) : Z := p_vaddr ph + bias + p_filesz ph.
Definition seg_fmap_end (bias : Z) (ph : Phdr) : Z := rup (seg_fend bias ph) page.
Definition seg_end (bias : Z) (ph : Phdr) : Z := rup (p_vaddr ph + bias + p_memsz ph) page.

Definition seg_file (bias : Z) (ph : Phdr) : option FileMap :=
  if 0 <? p_filesz ph
  then Some (MkFileMap (seg_start bias ph) (seg_fmap_end bias ph - seg_start bias ph)
               (p_offset ph - (p_vaddr ph + bias - seg_start bias ph)))
  else None.

Definition seg_zero (bias : Z) (ph : Phdr) : option AnonMap :=
  if (0 <? p_filesz ph) && (seg_fend bias ph <? seg_fmap_end bias ph)
  then Some (MkAnonMap (seg_fend bias ph) (seg_fmap_end bias ph - seg_fend bias ph))
  else None.

(** Where the anonymous part begins: after the file mapping, or at the start. *)
Definition seg_file_end (bias : Z) (ph : Phdr) : Z :=
  if 0 <? p_filesz ph then seg_fmap_end bias ph else seg_start bias ph.

Definition seg_anon (bias : Z) (ph : Phdr) : option AnonMap :=
  if seg_file_end bias ph <? seg_end bias ph
  then Some (MkAnonMap (seg_file_end bias ph) (seg_end bias ph - seg_file_end bias ph))
  else None.

Definition seg_plan (bias : Z) (i : nat) (ph : Phdr) : SegmentPlan :=
  MkSegmentPlan i (seg_file bias ph) (seg_zero bias ph) (seg_anon bias ph) (prot_of ph)
    (match seg_zero bias ph with
     | Some _ => Z.land (prot_of ph) PROT_WRITE =? 0
     | None => false
     end).

Definition plan_closed (img : Image) (lo hi align bias raddr rlen : Z) : LoadPlan :=
  MkLoadPlan bias raddr rlen (lo + bias) (hi + bias) align
    ((fun i => seg_plan bias i (phdrs img !!! i)) <$> loads img) (e_entry (ehdr img) + bias).
End Closed.

Section PlanFacts.
Context {heap : Heap}.
Variables (page : Z) (img : Image).
Hypothesis page_pow2 : is_power_of_two page = true.
Hypothesis page_u64 : page < 2 ^ 64.
Hypothesis wf : Image_wf page img.

(** One segment, placed so that its page-rounded end still fits. *)
Lemma page_divides_2_64 : (page | 2 ^ 64).
Proof.
  destruct (pow2_u64 page) as (k & Hk & ->); [done|done|].
  exists (2 ^ (64 - k)). rewrite <- Z.pow_add_r by lia. f_equal. lia.
Qed.

Lemma room_above v hi : (page | hi) -> v <= hi -> hi < 2 ^ 64 -> v + (page - 1) < 2 ^ 64.
Proof.
  intros Hd Hle Hlt. pose proof (page_pos page page_pow2) as Hpos.
  pose proof (divide_gap page Hpos hi (2 ^ 64) Hd page_divides_2_64 Hlt). lia.
Qed.

Record placed (bias hi : Z) (ph : Phdr) : Prop := {
  pl_bias : (page | bias);
  pl_nonneg : 0 <= bias;
  pl_hi : (page | hi);
  pl_u64 : hi < 2 ^ 64;
  pl_end : vend ph + bias <= hi
}.

Lemma seg_order bias hi ph :
  phdr_range ph -> load_ok page None ph -> placed bias hi ph ->
  seg_start page bias ph <= seg_vaddr bias ph <= seg_fend bias ph /\
  seg_fend bias ph <= seg_fmap_end page bias ph <= seg_end page bias ph /\
  seg_end page bias ph <= hi /\ 0 <= seg_start page bias ph /\
  seg_start page bias ph <= seg_file_end page bias ph <= seg_end page bias ph.
Proof.
  intros [_ _ Ho Hv _ Hf Hm _] [Hsz _ _ _ _ _] [Hb Hb0 Hhi Hhu Hend].
  pose proof (page_pos page page_pow2) as Hpos.
  unfold seg_file_end, seg_fmap_end, seg_start, seg_vaddr, seg_fend, seg_end, vend, u64 in *.
  pose proof (rdown_bounds page Hpos (p_vaddr ph + bias)).
  pose proof (rup_bounds page Hpos (p_vaddr ph + bias + p_filesz ph)).
  pose proof (rup_bounds page Hpos (p_vaddr ph + bias + p_memsz ph)).
  pose proof (rup_mono page Hpos (p_vaddr ph + bias + p_filesz ph)
                (p_vaddr ph + bias + p_memsz ph) ltac:(lia)).
  pose proof (rdown_nonneg page Hpos (p_vaddr ph + bias) ltac:(lia)).
  assert (rup (p_vaddr ph + bias + p_memsz ph) page <= hi)
    by (apply rup_galois; [done|done|lia]).
  destruct (0 <? p_filesz ph); lia.
Qed.

(** The file offset of the mapping is congruent: it does not underflow, and it
    is page-aligned. *)
Lemma seg_offset bias ph :
  (page | bias) -> phdr_range ph -> load_ok page None ph -> 0 < p_filesz ph ->
  let off := p_offset ph - (p_vaddr ph + bias - seg_start page bias ph) in
  0 <= off /\ (page | off) /\ off = rdown (p_offset ph) page.
Proof.
  intros Hb [_ _ [Ho _] _ _ _ _ _] [_ _ _ _ _ Hcg] Hf. cbv zeta.
  pose proof (page_pos page page_pow2) as Hpos. specialize (Hcg ltac:(lia)).
  unfold seg_start. rewrite rdown_add by done.
  replace (_ - _) with (rdown (p_offset ph) page) by (unfold rdown; lia).
  split; [by apply rdown_nonneg|]. split; [by apply rdown_divide|done].
Qed.

Lemma plan_segment_eq bias hi i :
  i ∈ loads img -> placed bias hi (phdrs img !!! i) ->
  plan_segment img page bias i = Ok (seg_plan page bias i (phdrs img !!! i)).
Proof.
  intros Hi Hpl. unfold plan_segment. rewrite (index_load page) by done.
  cbn [mbind outcome_bind]. set (ph := phdrs img !!! i) in *.
  destruct (load_phdr_in page img wf ph) as [Hr Hl]; [apply list_elem_of_fmap; eauto|].
  destruct (seg_order bias hi ph Hr Hl Hpl) as (H1 & H2 & H3 & H4 & H5).
  pose proof (room_above (vend ph + bias) hi (pl_hi _ _ _ Hpl) (pl_end _ _ _ Hpl) (pl_u64 _ _ _ Hpl)) as Hroom.
  pose proof Hr as [_ _ Ho Hv _ Hf Hm _]. pose proof Hl as [Hsz _ _ _ _ _].
  pose proof Hpl as [Hb Hb0 Hhi Hhu Hend]. unfold u64, vend in *.
  unfold seg_plan, seg_zero, seg_anon, seg_file, seg_file_end, seg_fmap_end, seg_fend, seg_end, seg_start, seg_vaddr in *.
  rewrite checked_add_small by lia. cbn [ok_or mbind outcome_bind].
  rewrite (align_down_eq page) by (done || unfold u64; lia). cbn [mbind outcome_bind].
  rewrite (sub64_small (p_vaddr ph + bias)) by lia. cbn [mbind outcome_bind].
  rewrite (add64_small _ (p_memsz ph)) by lia. cbn [mbind outcome_bind].
  rewrite (align_up_eq page page_pow2 page_u64 (p_vaddr ph + bias + p_memsz ph)) by (done || lia). cbn [mbind outcome_bind].
  rewrite (proj2 (Z.ltb_lt (p_vaddr ph + bias + p_memsz ph + (page - 1)) _)) by lia. cbn [ok_or mbind outcome_bind].
  destruct (Z.ltb_spec 0 (p_filesz ph)) as [Hpos|Hzero].
  - destruct (seg_offset bias ph Hb Hr Hl Hpos) as (Hoff & _ & _). unfold seg_start in Hoff.
    rewrite add64_small by lia. cbn [mbind outcome_bind].
    rewrite (align_up_eq page) by (done || lia). cbn [mbind outcome_bind].
    rewrite (proj2 (Z.ltb_lt (p_vaddr ph + bias + p_filesz ph + (page - 1)) _)) by lia.
    cbn [ok_or mbind outcome_bind]. rewrite !sub64_small by lia. cbn [mbind outcome_bind andb].
    destruct (Z.ltb_spec (p_vaddr ph + bias + p_filesz ph)
                (rup (p_vaddr ph + bias + p_filesz ph) page)); cbn [mbind outcome_bind];
      rewrite sub64_small by lia; destruct (_ <? rup (p_vaddr ph + bias + p_memsz ph) page); done.
  - cbn [mbind outcome_bind andb]. rewrite sub64_small by lia.
    destruct (_ <? rup (p_vaddr ph + bias + p_memsz ph) page); done.
Qed.

Lemma plan_segments_eq bias hi l :
  (forall i, i ∈ l -> i ∈ loads img /\ placed bias hi (phdrs img !!! i)) ->
  plan_segments img page bias l = Ok ((fun i => seg_plan page bias i (phdrs img !!! i)) <$> l).
Proof.
  induction l as [|i l IH]; intros Hall; cbn [plan_segments]; [done|].
  destruct (Hall i) as [Hi Hpl]; [by left|].
  rewrite (plan_segment_eq bias hi) by done. cbn [mbind outcome_bind].
  rewrite IH; [done|]. intros k Hk. apply Hall. by right.
Qed.

Lemma seg_align_eq :
  exists a, seg_align img page = Ok a /\ is_power_of_two a = true /\ page <= a < 2 ^ 64 /\
    (page | a) /\ (a <= MAX_SEG_ALIGN \/ a = page) /\
    forall ph, ph ∈ load_phdrs img -> p_align ph <= a \/ MAX_SEG_ALIGN <= a.
Proof.
  destruct (load_align_loop_spec page img page_pow2 page_u64 wf (loads img) page ltac:(done) page_pow2)
    as (la & Hla & Hp & Hle & Hall & _).
  unfold seg_align, load_align. rewrite Hla. cbn [mbind outcome_bind].
  assert (Hmax : is_power_of_two MAX_SEG_ALIGN = true) by done.
  assert (Hpow : is_power_of_two (Z.max (Z.min la MAX_SEG_ALIGN) page) = true).
  { destruct (Z.max_spec (Z.min la MAX_SEG_ALIGN) page) as [[_ ->]|[_ ->]]; [done|].
    by destruct (Z.min_spec la MAX_SEG_ALIGN) as [[_ ->]|[_ ->]]. }
  eexists. split; [done|]. split; [done|].
  assert (MAX_SEG_ALIGN < 2 ^ 64) by done.
  split; [lia|]. split; [apply power_of_two_divide; [done|done|lia]|]. split; [lia|].
  intros ph (i & -> & Hi)%list_elem_of_fmap. specialize (Hall i Hi). lia.
Qed.

(** ** Placement *)

Section Placed.
Variables (lo hi a : Z).
Hypothesis span_eq : va_span img page = Ok (lo, hi).
Hypothesis align_eq : seg_align img page = Ok a.

Lemma align_facts : is_power_of_two a = true /\ page <= a < 2 ^ 64 /\ (page | a).
Proof.
  destruct seg_align_eq as (a' & Ha & Hp & Hr & Hd & _).
  rewrite align_eq in Ha. by injection Ha as <-.
Qed.

Lemma placed_of bias i :
  (page | bias) -> 0 <= bias -> hi + bias < 2 ^ 64 -> i ∈ loads img ->
  placed bias (hi + bias) (phdrs img !!! i).
Proof.
  intros Hb Hb0 Hu Hi. pose proof (page_pos page page_pow2) as Hpos.
  destruct (va_span_ok page img page_pow2 page_u64 wf lo hi span_eq) as [_ Hhi _ _ Hcov _].
  destruct (Hcov (phdrs img !!! i)) as [_ Hup]; [apply list_elem_of_fmap; eauto|].
  pose proof (rup_bounds page Hpos (vend (phdrs img !!! i))).
  split; [done|done|by apply Z.divide_add_r|done|lia].
Qed.

(** From a bias on, planning can only fail for want of memory or because the
    entry point overflows. *)
Lemma plan_from bias raddr rlen p :
  place page lo (hi - lo) a p = Ok (bias, raddr, rlen) ->
  (page | bias) -> 0 <= bias -> hi + bias < 2 ^ 64 ->
  plan img page p =
  if negb (try_reserve (Z.of_nat (length (loads img)))) then Err ENOMEM
  else if e_entry (ehdr img) + bias <? 2 ^ 64
  then Ok (plan_closed page img lo hi a bias raddr rlen) else Err ENOMEM.
Proof.
  intros Hplace Hb Hb0 Hu. unfold plan. rewrite span_eq. cbn [mbind outcome_bind].
  rewrite align_eq. cbn [mbind outcome_bind].
  destruct (va_span_ok page img page_pow2 page_u64 wf lo hi span_eq) as [_ _ [_ Hlh] _ _ _].
  rewrite sub64_small by done. cbn [mbind outcome_bind].
  rewrite Hplace. cbn [mbind outcome_bind].
  rewrite !add64_small by lia. cbn [mbind outcome_bind].
  destruct (negb _); [done|].
  rewrite (plan_segments_eq bias (hi + bias)).
  - cbn [mbind outcome_bind]. unfold checked_add.
    by destruct (e_entry (ehdr img) + bias <? 2 ^ 64).
  - intros i Hi. split; [done|]. by apply placed_of.
Qed.

Lemma plan_fixed_eq :
  plan img page Fixed =
  if negb (try_reserve (Z.of_nat (length (loads img)))) then Err ENOMEM
  else Ok (plan_closed page img lo hi a 0 lo (hi - lo)).
Proof.
  destruct (va_span_ok page img page_pow2 page_u64 wf lo hi span_eq) as [_ _ _ Hu _ _].
  rewrite (plan_from 0 lo (hi - lo)); [|done|apply Z.divide_0_r|lia|lia].
  destruct (wf_entry _ _ wf) as [_ He].
  by rewrite (proj2 (Z.ltb_lt (e_entry (ehdr img) + 0) _)) by lia.
Qed.

(** The reservation a relocatable image asks for, and where the base goes. *)
Definition need : Z := hi - lo + (a - page).

Lemma reservation_len_eq : need < 2 ^ 64 -> reservation_len img page = Ok need.
Proof.
  intros Hn. unfold reservation_len, need in *. rewrite span_eq, align_eq. cbn [mbind outcome_bind].
  destruct (va_span_ok page img page_pow2 page_u64 wf lo hi span_eq) as [_ _ [_ Hlh] _ _ _].
  destruct align_facts as (_ & Ha & _).
  unfold checked_sub. rewrite (proj2 (Z.leb_le _ _)) by done.
  rewrite sub64_small by lia. cbn [mbind outcome_bind]. by rewrite checked_add_small.
Qed.

Lemma reservation_len_inv n : reservation_len img page = Ok n -> n = need /\ need < 2 ^ 64.
Proof.
  unfold reservation_len. rewrite span_eq, align_eq. cbn [mbind outcome_bind].
  destruct (checked_sub hi lo) eqn:Hc; [|done]. apply checked_sub_Some in Hc as [-> _].
  intros (s & [-> _]%sub64_Ok & [-> ?]%ok_or_Ok%checked_add_Some)%bind_Ok. done.
Qed.

Section At.
Variable raw : Z.
Hypothesis raw_page : (page | raw).
Hypothesis raw_nonneg : 0 <= raw.
Hypothesis raw_room : raw + need < 2 ^ 64.

Lemma base_room : raw <= rup raw a /\ rup raw a + (hi - lo) <= raw + need /\ (a | rup raw a).
Proof.
  pose proof (page_pos page page_pow2) as Hpos. destruct align_facts as (Ha & Hap & Hd).
  assert (Hapos : 0 < a) by lia.
  pose proof (rup_bounds a Hapos raw) as [H1 H2].
  pose proof (rup_divide a Hapos raw) as Hdiv.
  assert (Hpd : (page | rup raw a)) by (by apply Z.divide_trans with a).
  unfold need in *. split; [done|]. split; [|done].
  pose proof (divide_gap page Hpos (rup raw a) (raw + a) Hpd ltac:(by apply Z.divide_add_r) H2). lia.
Qed.

Lemma place_at_eq :
  place page lo (hi - lo) a (At raw) =
  if rup raw a <? lo then Err ENOMEM else Ok (rup raw a - lo, raw, need).
Proof.
  pose proof (page_pos page page_pow2) as Hpos. destruct align_facts as (Ha & Hap & Hd).
  destruct (va_span_ok page img page_pow2 page_u64 wf lo hi span_eq) as [Hlo Hhi [H0 Hlh] _ _ _].
  unfold place. rewrite (align_up_eq a) by (done || lia). cbn [mbind outcome_bind].
  assert (Hfit : raw + (a - 1) < 2 ^ 64).
  { unfold need in *.
    pose proof (divide_gap page Hpos (raw + (a - page)) (2 ^ 64)) as Hg.
    pose proof page_divides_2_64.
    assert ((page | raw + (a - page))).
    { apply Z.divide_add_r; [done|]. apply Z.divide_sub_r; [done|apply Z.divide_refl]. }
    specialize (Hg ltac:(done) ltac:(done) ltac:(lia)). lia. }
  rewrite (proj2 (Z.ltb_lt (raw + (a - 1)) _)) by done. cbn [ok_or mbind outcome_bind].
  unfold checked_sub. destruct (Z.ltb_spec (rup raw a) lo).
  - by rewrite (proj2 (Z.leb_gt _ _)) by lia.
  - rewrite (proj2 (Z.leb_le _ _)) by lia. cbn [ok_or mbind outcome_bind].
    rewrite sub64_small by lia. cbn [mbind outcome_bind].
    unfold need in *. by rewrite add64_small by lia.
Qed.

Lemma plan_at_eq :
  plan img page (At raw) =
  if rup raw a <? lo then Err ENOMEM
  else if negb (try_reserve (Z.of_nat (length (loads img)))) then Err ENOMEM
  else if e_entry (ehdr img) + (rup raw a - lo) <? 2 ^ 64
  then Ok (plan_closed page img lo hi a (rup raw a - lo) raw need) else Err ENOMEM.
Proof.
  pose proof place_at_eq as Hpl. destruct (Z.ltb_spec (rup raw a) lo) as [Hlt|Hge].
  - unfold plan. rewrite span_eq. cbn [mbind outcome_bind]. rewrite align_eq. cbn [mbind outcome_bind].
    destruct (va_span_ok page img page_pow2 page_u64 wf lo hi span_eq) as [_ _ [_ Hlh] _ _ _].
    rewrite sub64_small by done. cbn [mbind outcome_bind]. by rewrite Hpl.
  - destruct (va_span_ok page img page_pow2 page_u64 wf lo hi span_eq) as [Hlo Hhi [H0 Hlh] _ _ _].
    destruct align_facts as (_ & _ & Hd). destruct base_room as (H1 & H2 & H3).
    apply (plan_from _ raw need); [done| |lia|lia].
    apply Z.divide_sub_r; [by apply Z.divide_trans with a|done].
Qed.
End At.
End Placed.

(** ** What a plan promises *)

(** The two ways the loader asks for a plan: at the link address, or inside a
    page-aligned reservation of the length [reservation_len] computes. *)
Definition placement_ok (p : Placement) : Prop :=
  match p with
  | Fixed => True
  | At raw => (page | raw) /\ 0 <= raw /\
              exists n, reservation_len img page = Ok n /\ raw + n < 2 ^ 64
  end.

Record plan_ok (pl : LoadPlan) : Prop := {
  po_bias : (page | bias pl);
  po_bias_nonneg : 0 <= bias pl;
  po_raddr : (page | reserve_addr pl);
  po_rlen : (page | reserve_len pl);
  po_base : (page | base pl);
  po_end : (page | end_ pl);
  po_bounds : 0 <= reserve_addr pl <= base pl /\ base pl <= end_ pl <= reserve_addr pl + reserve_len pl;
  po_room : reserve_addr pl + reserve_len pl < 2 ^ 64;
  po_segments : segments pl = (fun i => seg_plan page (bias pl) i (phdrs img !!! i)) <$> loads img;
  po_inside : forall ph, ph ∈ load_phdrs img ->
    base pl <= seg_start page (bias pl) ph /\ seg_end page (bias pl) ph <= end_ pl;
  po_entry : entry pl = e_entry (ehdr img) + bias pl;
  po_entry_u64 : entry pl < 2 ^ 64
}.

Lemma plan_closed_ok lo hi a bias raddr rlen :
  va_span img page = Ok (lo, hi) -> (page | bias) -> 0 <= bias ->
  (page | raddr) -> (page | rlen) -> 0 <= raddr <= lo + bias -> hi + bias <= raddr + rlen ->
  raddr + rlen < 2 ^ 64 -> e_entry (ehdr img) + bias < 2 ^ 64 ->
  plan_ok (plan_closed page img lo hi a bias raddr rlen).
Proof.
  intros Hspan Hb Hb0 Hra Hrl Hlow Hhigh Hroom Hent.
  destruct (va_span_ok page img page_pow2 page_u64 wf lo hi Hspan) as [Hlo Hhi [H0 Hlh] Hu Hcov _].
  pose proof (page_pos page page_pow2) as Hpos.
  split; cbn [plan_closed Layout.bias reserve_addr reserve_len base end_ segments entry];
    try done; try lia; try (by apply Z.divide_add_r).
  intros ph Hph. destruct (Hcov ph Hph) as [Hc1 Hc2]. unfold seg_start, seg_end, vend in *.
  rewrite rdown_add by done.
  replace (p_vaddr ph + bias + p_memsz ph) with (p_vaddr ph + p_memsz ph + bias) by lia.
  rewrite rup_add by done. lia.
Qed.

Lemma plan_inv p pl :
  placement_ok p -> plan img page p = Ok pl ->
  plan_ok pl /\ seg_align img page = Ok (align pl) /\
  va_span img page = Ok (base pl - bias pl, end_ pl - bias pl) /\
  match p with
  | Fixed => bias pl = 0 /\ reserve_addr pl = base pl /\ reserve_len pl = end_ pl - base pl
  | At raw => reserve_addr pl = raw /\ reservation_len img page = Ok (reserve_len pl) /\
              base pl = rup raw (align pl)
  end.
Proof.
  intros Hp Hpl.
  assert (exists lo hi, va_span img page = Ok (lo, hi)) as (lo & hi & Hspan).
  { unfold plan in Hpl. destruct (va_span img page) as [[lo hi]| |]; [eauto|done|done]. }
  destruct seg_align_eq as (a & Ha & _ & Hap & Hda & _).
  destruct (va_span_ok page img page_pow2 page_u64 wf lo hi Hspan) as [Hlo Hhi [H0 Hlh] Hu _ _].
  destruct (wf_entry _ _ wf) as [_ Hent]. pose proof (page_pos page page_pow2) as Hpos.
  destruct p as [|raw]; cbn [placement_ok] in Hp.
  - rewrite (plan_fixed_eq lo hi a Hspan Ha) in Hpl. destruct (negb _); [done|]. injection Hpl as <-.
    split; [apply plan_closed_ok; try done; try lia; try apply Z.divide_0_r; by apply Z.divide_sub_r|].
    cbn. split; [done|]. split; [rewrite Hspan; do 2 f_equal; lia|]. lia.
  - destruct Hp as (Hraw & Hraw0 & n & Hn & Hroom).
    destruct (reservation_len_inv lo hi a Hspan Ha n Hn) as [-> Hneed].
    rewrite (plan_at_eq lo hi a Hspan Ha raw) in Hpl by done.
    destruct (Z.ltb_spec (rup raw a) lo) as [|Hge]; [done|]. destruct (negb _); [done|].
    destruct (Z.ltb_spec (e_entry (ehdr img) + (rup raw a - lo)) (2 ^ 64)); [|done].
    injection Hpl as <-.
    destruct (base_room lo hi a Ha raw Hraw) as (H1 & H2 & H3).
    assert (Hpa : (page | rup raw a)) by (by apply Z.divide_trans with a).
    split; [apply plan_closed_ok; try done; try lia|].
    + by apply Z.divide_sub_r.
    + unfold need. apply Z.divide_add_r; apply Z.divide_sub_r; try done; apply Z.divide_refl.
    + cbn. split; [done|]. split; [rewrite Hspan; do 2 f_equal; lia|].
      split; [done|]. split; [done|]. lia.
Qed.

Lemma plan_at_outcome raw :
  placement_ok (At raw) -> (exists pl, plan img page (At raw) = Ok pl) \/ plan img page (At raw) = Err ENOMEM.
Proof.
  intros (Hraw & H0 & n & Hn & Hroom).
  assert (Hs : exists lo hi, va_span img page = Ok (lo, hi)).
  { unfold reservation_len in Hn. destruct (va_span img page) as [[lo hi]| |]; [eauto|done|done]. }
  destruct Hs as (lo & hi & Hs), seg_align_eq as (a & Ha & _).
  destruct (reservation_len_inv lo hi a Hs Ha n Hn) as [-> _].
  rewrite (plan_at_eq lo hi a Hs Ha raw) by done.
  repeat case_match; eauto.
Qed.
End PlanFacts.

(** ** Segments of a plan *)

Section Segments.
Variables (page : Z) (img : Image) (pl : LoadPlan).
Hypothesis page_pow2 : is_power_of_two page = true.
Hypothesis page_u64 : page < 2 ^ 64.
Hypothesis wf : Image_wf page img.
Hypothesis ok : plan_ok page img pl.

Abbreviation sstart := (seg_start page (bias pl)).
Abbreviation send := (seg_end page (bias pl)).

Lemma plan_placed ph : ph ∈ load_phdrs img -> placed page (bias pl) (end_ pl) ph.
Proof.
  intros Hph. destruct (po_inside _ _ _ ok ph Hph) as [_ Hend].
  pose proof (rup_bounds page (page_pos page page_pow2) (p_vaddr ph + bias pl + p_memsz ph)).
  pose proof (po_room _ _ _ ok). pose proof (po_bounds _ _ _ ok). unfold seg_end in *.
  split; [apply ok|apply ok|apply ok|lia|unfold vend; lia].
Qed.

Lemma seg_order_of ph : ph ∈ load_phdrs img ->
  sstart ph <= seg_vaddr (bias pl) ph <= seg_fend (bias pl) ph /\
  seg_fend (bias pl) ph <= seg_fmap_end page (bias pl) ph <= send ph /\
  send ph <= end_ pl /\ 0 <= sstart ph /\
  sstart ph <= seg_file_end page (bias pl) ph <= send ph.
Proof.
  intros Hph. destruct (load_phdr_in page img wf ph Hph) as [Hr Hl].
  apply (seg_order page page_pow2 (bias pl) (end_ pl) ph Hr Hl (plan_placed ph Hph)).
Qed.

(** A segment that occupies no page has the range [(0, 0)]; every other one
    starts and ends where its memory does, rounded out to pages. *)
Lemma range_eq {E} i ph : ph ∈ load_phdrs img ->
  range (E:=E) (seg_plan page (bias pl) i ph) =
  Ok (if sstart ph <? send ph then (sstart ph, send ph) else (0, 0)).
Proof.
  intros Hph. destruct (seg_order_of ph Hph) as (H1 & H2 & H3 & H4 & H5).
  pose proof (po_room _ _ _ ok) as Hroom. pose proof (po_bounds _ _ _ ok) as Hb.
  destruct (load_phdr_in page img wf ph Hph) as [[_ _ _ _ _ [Hf _] _ _] _].
  unfold range, seg_plan. cbn [file anon]. unfold seg_file, seg_anon, seg_file_end in *.
  unfold seg_vaddr, seg_fend in *. cbn [f_addr f_len].
  destruct (Z.ltb_spec 0 (p_filesz ph)) as [Hpos|Hz].
  - destruct (Z.ltb_spec (seg_fmap_end page (bias pl) ph) (send ph)); cbn [a_addr a_len f_addr f_len];
      rewrite add64_small by lia; cbn [mbind outcome_bind];
      rewrite (proj2 (Z.ltb_lt (sstart ph) _)) by lia; do 2 f_equal; lia.
  - destruct (Z.ltb_spec (sstart ph) (send ph)); cbn [mbind outcome_bind a_addr a_len].
    + rewrite add64_small by lia. cbn [mbind outcome_bind]. do 2 f_equal. lia.
    + done.
Qed.

Lemma segments_lookup k s :
  segments pl !! k = Some s ->
  exists i ph, loads img !! k = Some i /\ load_phdrs img !! k = Some ph /\
    phdrs img !!! i = ph /\ s = seg_plan page (bias pl) i ph.
Proof.
  rewrite (po_segments _ _ _ ok), list_lookup_fmap. intros (i & Hi & ->)%fmap_Some.
  exists i, (phdrs img !!! i). split; [done|]. split; [by apply load_phdrs_lookup|done].
Qed.

(** Page rounding keeps the gap between two ordered segments. *)
Lemma seg_before a b : before page a b -> send a <= sstart b.
Proof.
  intros [_ Hab]. pose proof (po_bias _ _ _ ok) as Hb. pose proof (page_pos page page_pow2) as Hpos.
  unfold seg_start, seg_end, vend in *. rewrite rdown_add by done.
  replace (p_vaddr a + bias pl + p_memsz a) with (p_vaddr a + p_memsz a + bias pl) by lia.
  rewrite rup_add by done.
  apply (rdown_galois page Hpos _ _ (rup_divide page Hpos _)) in Hab. lia.
Qed.

Lemma segs_disjoint : StronglySorted (fun a b => send a <= sstart b) (load_phdrs img).
Proof.
  pose proof (wf_disjoint _ _ wf) as Hd. induction Hd as [|a l Hd IH Ha]; constructor; [done|].
  eapply Forall_impl; [exact Ha|]. intros b. apply seg_before.
Qed.

Lemma seg_pages ph : (page | sstart ph) /\ (page | send ph) /\ (page | seg_fmap_end page (bias pl) ph).
Proof.
  pose proof (page_pos page page_pow2) as Hpos.
  split; [by apply rdown_divide|]. split; by apply rup_divide.
Qed.
End Segments.

(** ** The properties of planning *)

Section Claims.
Context {heap : Heap}.
Variables (page : Z) (img : Image).
Hypothesis page_pow2 : is_power_of_two page = true.
Hypothesis page_u64 : page < 2 ^ 64.
Hypothesis wf : Image_wf page img.


(** A non-PIE image is planned at its link address: no bias, a
    reservation of exactly its span; with memory for the segment list planning
    always succeeds, and it never panics. *)
Theorem plan_fixed_spec lo hi :
  va_span img page = Ok (lo, hi) ->
  if try_reserve (Z.of_nat (length (loads img))) then
    exists pl, plan img page Fixed = Ok pl /\ bias pl = 0 /\
      reserve_addr pl = lo /\ reserve_len pl = hi - lo /\ base pl = lo /\ end_ pl = hi /\
      entry pl = e_entry (ehdr img)
  else plan img page Fixed = Err ENOMEM.
Proof.
  intros Hs. destruct (seg_align_eq page img page_pow2 page_u64 wf) as (a & Ha & _).
  rewrite (plan_fixed_eq page img page_pow2 page_u64 wf lo hi a Hs Ha).
  destruct (try_reserve _); [|done]. eexists. split; [done|]. cbn. lia.
Qed.

(** C12. The segments of a plan are page-aligned, lie between the plan's base
    and end, and follow each other without overlapping: of two that occupy
    memory, the earlier ends before the later begins. *)
Theorem plan_segments_disjoint p pl :
  placement_ok page img p -> plan img page p = Ok pl ->
  (forall s, s ∈ segments pl -> exists a b, range (E:=Error) s = Ok (a, b) /\
     (page | a) /\ (page | b) /\ (a = b \/ base pl <= a < b /\ b <= end_ pl)) /\
  (forall j k s t a b c d, (j < k)%nat ->
     segments pl !! j = Some s -> segments pl !! k = Some t ->
     range (E:=Error) s = Ok (a, b) -> range (E:=Error) t = Ok (c, d) -> a < b -> c < d -> b <= c).
Proof.
  intros Hp Hpl. destruct (plan_inv page img page_pow2 page_u64 wf p pl Hp Hpl) as [Hok _]. split.
  - intros s (k & Hk)%list_elem_of_lookup.
    destruct (segments_lookup page img pl Hok k s Hk) as (i & ph & _ & Hph & _ & ->).
    apply list_elem_of_lookup_2 in Hph.
    rewrite (range_eq page img pl page_pow2 wf Hok) by done.
    destruct (po_inside _ _ _ Hok ph Hph), (seg_pages page pl page_pow2 ph) as (H1 & H2 & _).
    destruct (Z.ltb_spec (seg_start page (bias pl) ph) (seg_end page (bias pl) ph)).
    + do 2 eexists. split; [done|]. split; [done|]. split; [done|]. right. lia.
    + exists 0, 0. split; [done|]. split; [apply Z.divide_0_r|]. split; [apply Z.divide_0_r|by left].
  - intros j k s t a b c d Hjk Hs Ht Hrs Hrt Hab Hcd.
    destruct (segments_lookup page img pl Hok j s Hs) as (i1 & ph1 & _ & Hph1 & _ & ->).
    destruct (segments_lookup page img pl Hok k t Ht) as (i2 & ph2 & _ & Hph2 & _ & ->).
    pose proof (segs_disjoint page img pl page_pow2 wf Hok) as Hsort.
    pose proof (StronglySorted_lookup _ _ j k ph1 ph2 Hsort Hjk Hph1 Hph2) as Hle. cbv beta in Hle.
    apply list_elem_of_lookup_2 in Hph1, Hph2.
    rewrite (range_eq page img pl page_pow2 wf Hok) in Hrs, Hrt by done.
    repeat case_match; simplify_eq; lia.
Qed.

(** C13. File bytes land where the program was linked to find them: the
    mapping of a segment starts at a page-aligned file offset, covers all of the
    segment's file data, and shows the byte at file offset [o] at address
    [p_vaddr + bias + (o - p_offset)].  A segment has no file mapping exactly
    when it has no file data. *)
Theorem plan_file_bytes p pl s :
  placement_ok page img p -> plan img page p = Ok pl -> s ∈ segments pl ->
  let ph := phdrs img !!! idx s in
  match file s with
  | Some f =>
    0 < p_filesz ph /\ (page | f_addr f) /\ (page | f_off f) /\ (page | f_len f) /\ 0 <= f_off f /\
    forall o, p_offset ph <= o < fend ph ->
      f_addr f + (o - f_off f) = p_vaddr ph + bias pl + (o - p_offset ph) /\
      f_off f <= o < f_off f + f_len f
  | None => p_filesz ph = 0
  end.
Proof.
  intros Hp Hpl (k & Hk)%list_elem_of_lookup. cbv zeta.
  destruct (plan_inv page img page_pow2 page_u64 wf p pl Hp Hpl) as [Hok _].
  destruct (segments_lookup page img pl Hok k s Hk) as (i & ph & _ & Hph & Hi & ->).
  cbn [idx seg_plan file]. rewrite Hi. unfold seg_file. apply list_elem_of_lookup_2 in Hph.
  destruct (load_phdr_in page img wf ph Hph) as [Hr Hl].
  destruct (seg_pages page pl page_pow2 ph) as (Hd1 & _ & Hd2).
  destruct (seg_order_of page img pl page_pow2 wf Hok ph Hph) as (H1 & H2 & H3 & H4 & _).
  destruct (Z.ltb_spec 0 (p_filesz ph)) as [Hf|Hf].
  - destruct (seg_offset page page_pow2 (bias pl) ph (po_bias _ _ _ Hok) Hr Hl Hf) as (Ho & Hod & Hor).
    cbn [f_addr f_off f_len].
    split; [done|]. split; [done|]. split; [done|]. split; [by apply Z.divide_sub_r|]. split; [done|].
    intros o Ho'. unfold seg_vaddr, seg_fend, fend in *. lia.
  - destruct Hr as [_ _ _ _ _ [? _] _ _]. lia.
Qed.

End Claims.

(** ** Where the program headers and the code are *)

Section Addresses.
Variables (page : Z) (img : Image) (pl : LoadPlan).
Hypothesis page_pow2 : is_power_of_two page = true.
Hypothesis page_u64 : page < 2 ^ 64.
Hypothesis wf : Image_wf page img.
Hypothesis ok : plan_ok page img pl.

(** The program header table lies in the file data of a segment. *)
Definition holds_table (ph : Phdr) : Prop :=
  p_offset ph <= e_phoff (ehdr img) < fend ph.

Lemma phdr_addr_loop_eq l :
  (forall i, i ∈ l -> i ∈ loads img) ->
  (exists i, i ∈ l /\ holds_table (phdrs img !!! i) /\
     phdr_addr_loop img (bias pl) l =
       Ok (Some (e_phoff (ehdr img) - p_offset (phdrs img !!! i) + p_vaddr (phdrs img !!! i) + bias pl))) \/
  (phdr_addr_loop img (bias pl) l = Ok None /\ forall i, i ∈ l -> ~ holds_table (phdrs img !!! i)).
Proof.
  induction l as [|i l IH]; intros Hin; cbn [phdr_addr_loop].
  { right. split; [done|]. intros i Hi. by apply not_elem_of_nil in Hi. }
  assert (Hi : i ∈ loads img) by (apply Hin; by left).
  rewrite (index_load page) by done. cbn [mbind outcome_bind].
  assert (Hph : phdrs img !!! i ∈ load_phdrs img) by (apply list_elem_of_fmap; eauto).
  set (ph := phdrs img !!! i) in *.
  destruct (load_phdr_in page img wf ph Hph) as [[_ _ Ho Hv _ Hf Hm _] [Hsz _ Hve Hfe _ _]].
  destruct (seg_order_of page img pl page_pow2 wf ok ph Hph) as (H1 & H2 & H3 & H4 & _).
  pose proof (po_room _ _ _ ok). pose proof (po_bounds _ _ _ ok).
  unfold u64, vend, fend, seg_vaddr, seg_fend in *.
  assert (Hrest : ~ holds_table ph ->
    (exists k, k ∈ i :: l /\ holds_table (phdrs img !!! k) /\
       phdr_addr_loop img (bias pl) l =
         Ok (Some (e_phoff (ehdr img) - p_offset (phdrs img !!! k) + p_vaddr (phdrs img !!! k) + bias pl))) \/
    (phdr_addr_loop img (bias pl) l = Ok None /\ forall k, k ∈ i :: l -> ~ holds_table (phdrs img !!! k))).
  { intros Hno. destruct IH as [(k & Hk & Hh & He)|[He Hall]].
    - intros k Hk. apply Hin. by right.
    - left. exists k. split; [by right|done].
    - right. split; [done|]. intros k [->|Hk]%elem_of_cons; auto. }
  destruct (Z.leb_spec (p_offset ph) (e_phoff (ehdr img))) as [Hle|Hgt];
    [|apply Hrest; unfold holds_table; lia].
  rewrite checked_add_small by lia.
  destruct (Z.ltb_spec (e_phoff (ehdr img)) (p_offset ph + p_filesz ph)) as [Hlt|Hge];
    [|apply Hrest; unfold holds_table, fend; lia].
  left. exists i. split; [by left|]. split; [unfold holds_table, fend; fold ph; lia|].
  rewrite sub64_small by lia. cbn [mbind outcome_bind].
  rewrite checked_add_small by lia. cbn. by rewrite checked_add_small by (fold ph; lia).
Qed.

Lemma phdr_addr_ok :
  exists r, phdr_addr pl img = Ok r /\
  match r with
  | Some addr =>
    base pl <= addr < end_ pl /\
    ((exists ph, phdr_seg img = Some ph /\ addr = p_vaddr ph + bias pl) \/
     (exists ph, ph ∈ load_phdrs img /\ holds_table ph /\
        addr = p_vaddr ph + bias pl + (e_phoff (ehdr img) - p_offset ph)))
  | None =>
    (forall ph, ph ∈ load_phdrs img -> ~ holds_table ph) \/
    exists ph, phdr_seg img = Some ph /\ 2 ^ 64 <= p_vaddr ph + bias pl
  end.
Proof.
  assert (Hloop : exists r, phdr_addr_loop img (bias pl) (loads img) = Ok r /\
    match r with
    | Some addr => base pl <= addr < end_ pl /\ exists ph, ph ∈ load_phdrs img /\ holds_table ph /\
        addr = p_vaddr ph + bias pl + (e_phoff (ehdr img) - p_offset ph)
    | None => forall ph, ph ∈ load_phdrs img -> ~ holds_table ph
    end).
  { destruct (phdr_addr_loop_eq (loads img) ltac:(done)) as [(i & Hi & Hh & ->)|[-> Hall]];
      (eexists; split; [done|]); cbn beta match.
    - assert (Hph : phdrs img !!! i ∈ load_phdrs img) by (apply list_elem_of_fmap; eauto).
      destruct (seg_order_of page img pl page_pow2 wf ok _ Hph) as (H1 & H2 & H3 & H4 & _).
      destruct (po_inside _ _ _ ok _ Hph). unfold holds_table, fend, seg_vaddr, seg_fend in *.
      split; [lia|]. exists (phdrs img !!! i). split; [done|]. split; [done|]. lia.
    - intros ph (i & -> & Hi)%list_elem_of_fmap. auto. }
  destruct Hloop as (r & Hr & Hspec). unfold phdr_addr.
  destruct (phdr_seg img) as [ph|].
  - destruct (checked_add (p_vaddr ph) (bias pl)) as [addr|] eqn:Hadd.
    + apply checked_add_Some in Hadd as [-> Hadd]. unfold covers. destruct (_ && _) eqn:Hc.
      * eexists. split; [done|]. cbn beta match. split; [lia|]. left. by exists ph.
      * exists r. split; [done|]. destruct r; naive_solver.
    + apply checked_add_None in Hadd. exists None. split; [done|]. right. by exists ph.
  - exists r. split; [done|]. destruct r; naive_solver.
Qed.


Lemma exec_ranges_loop_eq {E} l :
  (forall i, i ∈ l -> i ∈ loads img) ->
  exec_ranges_loop (E:=E) img ((fun i => seg_plan page (bias pl) i (phdrs img !!! i)) <$> l) =
  Ok ((fun ph => if seg_start page (bias pl) ph <? seg_end page (bias pl) ph
                 then (seg_start page (bias pl) ph, seg_end page (bias pl) ph - seg_start page (bias pl) ph)
                 else (0, 0))
      <$> filter (fun ph => is_exec ph = true) ((fun i => phdrs img !!! i) <$> l)).
Proof.
  induction l as [|i l IH]; intros Hin; cbn [fmap list_fmap exec_ranges_loop]; [done|].
  assert (Hi : i ∈ loads img) by (apply Hin; by left).
  cbn [idx seg_plan]. rewrite (index_load page) by done. cbn [mbind outcome_bind].
  specialize (IH ltac:(intros k Hk; apply Hin; by right)).
  rewrite filter_cons. destruct (is_exec (phdrs img !!! i)) eqn:Hx.
  - rewrite decide_True by done.
    rewrite (range_eq page img pl page_pow2 wf ok) by (apply list_elem_of_fmap; eauto).
    cbn [mbind outcome_bind].
    destruct (Z.ltb_spec (seg_start page (bias pl) (phdrs img !!! i))
                (seg_end page (bias pl) (phdrs img !!! i))) as [Hlt|Hge];
      (rewrite sub64_small by lia); cbn [mbind outcome_bind]; rewrite IH;
      cbn [mbind outcome_bind fmap list_fmap].
    + by rewrite (proj2 (Z.ltb_lt _ _) Hlt).
    + by rewrite (proj2 (Z.ltb_ge _ _) Hge).
  - rewrite decide_False by done. exact IH.
Qed.

(** C32. The ranges handed to instruction-cache maintenance are exactly the
    executable segments: every address of an executable segment is in one of
    them, and they hold nothing of a segment that is not executable. *)
Theorem exec_ranges_spec :
  exists rs, exec_ranges (E:=Error) pl img = Ok rs /\
  forall x, (exists a len, (a, len) ∈ rs /\ a <= x < a + len) <->
            exists ph, ph ∈ load_phdrs img /\ is_exec ph = true /\
              rdown (p_vaddr ph + bias pl) page <= x < rup (vend ph + bias pl) page.
Proof.
  eexists. split.
  { unfold exec_ranges. rewrite (po_segments _ _ _ ok). by apply exec_ranges_loop_eq. }
  fold (load_phdrs img). intros x.
  assert (Hend : forall ph, rup (vend ph + bias pl) page = seg_end page (bias pl) ph).
  { intros ph. unfold seg_end, vend. f_equal. lia. }
  setoid_rewrite Hend. split.
  - intros (a & len & (ph & Heq & Hph)%list_elem_of_fmap & Hx).
    apply list_elem_of_filter in Hph as [He Hph]. exists ph. split; [done|]. split; [done|].
    fold (seg_start page (bias pl) ph). case_match; simplify_eq; lia.
  - intros (ph & Hph & He & Hx). fold (seg_start page (bias pl) ph) in Hx.
    exists (seg_start page (bias pl) ph), (seg_end page (bias pl) ph - seg_start page (bias pl) ph).
    split; [|lia]. apply list_elem_of_fmap. exists ph.
    rewrite (proj2 (Z.ltb_lt _ _)) by lia. split; [done|]. by apply list_elem_of_filter.
Qed.
End Addresses.

(** ** Witnesses *)

Lemma mini_placement : placement_ok 4096 mini_img (At 0x10000000).
Proof.
  split; [by exists 0x10000|]. split; [done|]. exists 0x3000. by vm_compute.
Qed.

Definition mini_plan : LoadPlan := Eval vm_compute in
  plan_closed 4096 mini_img 0 0x3000 4096 0x10000000 0x10000000 0x3000.

Lemma mini_planned : plan (heap:=plenty) mini_img 4096 (At 0x10000000) = Ok mini_plan.
Proof. vm_compute. reflexivity. Qed.

Lemma mini_plan_ok : plan_ok 4096 mini_img mini_plan.
Proof.
  apply (plan_inv (heap:=plenty) 4096 mini_img eq_refl eq_refl mini_wf _ _ mini_placement mini_planned).
Qed.


Lemma plan_fixed_spec_witness :
  exists pl, plan (heap:=plenty) mini_exec_img 4096 Fixed = Ok pl /\ bias pl = 0 /\
    reserve_addr pl = 0x400000 /\ reserve_len pl = 0x403000 - 0x400000 /\
    base pl = 0x400000 /\ end_ pl = 0x403000 /\ entry pl = e_entry (ehdr mini_exec_img).
Proof.
  apply (plan_fixed_spec (heap:=plenty) 4096 mini_exec_img eq_refl eq_refl mini_exec_wf 0x400000 0x403000).
  by vm_compute.
Defined.

Definition mini_text : SegmentPlan := Eval vm_compute in
  seg_plan 4096 0x10000000 0 (phdrs mini_img !!! 0%nat).
Definition mini_data : SegmentPlan := Eval vm_compute in
  seg_plan 4096 0x10000000 1 (phdrs mini_img !!! 1%nat).

Lemma mini_data_in : mini_data ∈ segments mini_plan.
Proof. by apply (list_elem_of_lookup_2 _ 1%nat). Qed.

Lemma plan_segments_disjoint_witness :
  range (E:=Error) mini_text = Ok (0x10000000, 0x10001000) /\
  range (E:=Error) mini_data = Ok (0x10001000, 0x10003000) /\ 0x10001000 <= 0x10001000.
Proof.
  assert (Hs : range (E:=Error) mini_text = Ok (0x10000000, 0x10001000)) by (by vm_compute).
  assert (Ht : range (E:=Error) mini_data = Ok (0x10001000, 0x10003000)) by (by vm_compute).
  split; [done|]. split; [done|].
  apply (proj2 (plan_segments_disjoint (heap:=plenty) 4096 mini_img eq_refl eq_refl mini_wf
            (At 0x10000000) mini_plan mini_placement mini_planned)
           0%nat 1%nat mini_text mini_data 0x10000000 0x10001000 0x10001000 0x10003000);
    try done; lia.
Defined.

Lemma plan_file_bytes_witness :
  match file mini_data with
  | Some f => f_addr f + (0xb4 - f_off f) = 0x10b0 + 0x10000000 + (0xb4 - 0xb0)
  | None => False
  end.
Proof.
  destruct (plan_file_bytes (heap:=plenty) 4096 mini_img eq_refl eq_refl mini_wf
    (At 0x10000000) mini_plan mini_data mini_placement mini_planned mini_data_in)
    as (_ & _ & _ & _ & _ & H).
  apply (H 0xb4). by vm_compute.
Defined.



Lemma exec_ranges_spec_witness :
  exists rs, exec_ranges (E:=Error) mini_plan mini_img = Ok rs /\
  forall x, (exists a len, (a, len) ∈ rs /\ a <= x < a + len) <->
            exists ph, ph ∈ load_phdrs mini_img /\ is_exec ph = true /\
              rdown (p_vaddr ph + 0x10000000) 4096 <= x < rup (vend ph + 0x10000000) 4096.
Proof. apply (exec_ranges_spec 4096 mini_img mini_plan eq_refl mini_wf mini_plan_ok). Defined.

(** ** [PT_PHDR] in a gap between segments

    The comment in [phdr_addr] promises that [PT_PHDR] is trusted only inside a
    [PT_LOAD]; the code compares with the base and the end of the whole image,
    so an address in a gap passes. *)

Definition gap_bytes : list byte := Eval vm_compute in
  tiny (target:=x86_target)
    (with_phdrs
       [ MkPhdr PT_PHDR PF_R 0x40 0x2000 0x2000 0xa8 0xa8 8;
         load_seg (Z.lor PF_R PF_X) 0 0 0xe8 0xe8 0x1000;
         load_seg (Z.lor PF_R PF_W) 0xe8 0x30e8 0x10 0x1800 0x1000 ]
       (builder_new (target:=x86_target))) 248.

Definition gap_plan : LoadPlan := Eval vm_compute in
  plan_closed 4096 (parsed gap_bytes) 0 0x5000 4096 0x10000000 0x10000000 0x5000.

(** An image the parser accepts and the planner places, for which
    [phdr_addr] reports an address that lies in no segment. *)
Theorem phdr_addr_in_gap :
  Image_parse (target:=x86_target) (heap:=plenty) (slice_source gap_bytes) 4096 = Ok (parsed gap_bytes) /\
  plan (heap:=plenty) (parsed gap_bytes) 4096 (At 0x10000000) = Ok gap_plan /\
  phdr_addr gap_plan (parsed gap_bytes) = Ok (Some 0x10002000) /\
  (range (E:=Error) <$> segments gap_plan) =
    [Ok (0x10000000, 0x10001000); Ok (0x10003000, 0x10005000)].
Proof. vm_compute. auto. Qed.
