(* ===== verification/Loader.v ===== *)
(** * Executing a load plan ([rust/src/loader.rs])

    The loader runs against an address space behind the [Vm] trait.  The trait
    is a class of operations on a state; every operation keeps the state on
    every exit, so what a failing load leaves behind can be stated. *)

From Stdlib Require Import Strings.Byte.
From stdpp Require Import base numbers option strings sets list.
From S2P Require Import Prelude Err Elf Layout.

Inductive Where : Type :=
| Anywhere
| Hint (a : Z)
| Exact (a : Z).

Inductive MapSrc : Type :=
| Anon
| File (fd : Z) (off : Z).

#[global] Instance Where_eq_dec : EqDecision Where.
Proof. solve_decision. Defined.
#[global] Instance MapSrc_eq_dec : EqDecision MapSrc.
Proof. solve_decision. Defined.

(** [trait Vm].  The methods take [&self] and change the address space behind
    it; the page size and the file-mapping capability are constants of an
    implementation.  [icache_sync] and [free_aligned] return nothing: of an
    [outcome] only [Ok] and [Panic] occur there. *)
Class Vm (S : Type) : Type := {
  page_size : Z;
  can_map_files : bool;
  vm_map : Where -> Z -> Z -> MapSrc -> stM Error S Z;
  vm_unmap : Z -> Z -> stM Error S unit;
  vm_protect : Z -> Z -> Z -> stM Error S unit;
  vm_write : Z -> list byte -> stM Error S unit;
  vm_zero : Z -> Z -> stM Error S unit;
  vm_icache_sync : Z -> Z -> stM Error S unit;
  vm_alloc_aligned : Z -> Z -> stM Error S Z;
  vm_free_aligned : Z -> Z -> stM Error S unit
}.

(** A loaded image and the resources it owns. *)
Record Loaded : Type := MkLoaded { lplan : LoadPlan; allocated : bool }.

Definition COPY_CHUNK : Z := 64 * 1024.

Definition RW : Z := Z.lor PROT_READ PROT_WRITE.

(** [let _ = m] and [if let Err(e) = m { warn }]: an error is dropped. *)
Definition ignore {S : Type} (m : stM Error S unit) : stM Error S unit := fun s =>
  match m s with
  | (Err _, s') => (Ok tt, s')
  | r => r
  end.

(** [if let Err(e) = m { cleanup; return Err(e); }]. *)
Definition on_err {S A : Type} (m : stM Error S A) (cleanup : stM Error S unit) : stM Error S A :=
  fun s =>
  match m s with
  | (Err e, s') =>
    match cleanup s' with
    | (Panic, s'') => (Panic, s'')
    | (_, s'') => (Err e, s'')
    end
  | r => r
  end.

Section Loader.
Context {S : Type} {vm : Vm S} {heap : Heap}.

(** [Loaded::unload]: a failing [unmap] is only logged. *)
Definition unload (l : Loaded) : stM Error S unit :=
  if allocated l
  then vm_free_aligned (reserve_addr (lplan l)) (reserve_len (lplan l))
  else ignore (vm_unmap (reserve_addr (lplan l)) (reserve_len (lplan l))).

(** One iteration of the loop over the segments in [fill_mapped].  The two
    calls of [range] in the log line are evaluated whatever the log level. *)
Definition fill_mapped_seg (img : Image) (fd : Z) (seg : SegmentPlan) : stM Error S unit :=
  _ ← lift (index (phdrs img) (idx seg));
  _ ← lift (range seg);
  _ ← match file seg with
      | Some fm =>
        let prot := if needs_write_window seg then Z.lor (prot seg) PROT_WRITE else prot seg in
        _ ← vm_map (Exact (f_addr fm)) (f_len fm) prot (File fd (f_off fm));
        mret tt
      | None => mret tt
      end;
  _ ← match zero seg with
      | Some z => vm_zero (a_addr z) (a_len z)
      | None => mret tt
      end;
  _ ← match anon seg with
      | Some a => _ ← vm_map (Exact (a_addr a)) (a_len a) (prot seg) Anon; mret tt
      | None => mret tt
      end;
  if needs_write_window seg then
    '(s, e) ← lift (range seg);
    len ← lift (sub64 e s);
    vm_protect s len (prot seg)
  else mret tt.

(** The loop that syncs the bytes the loader cleared in executable segments. *)
Definition sync_zeroed_seg (img : Image) (seg : SegmentPlan) : stM Error S unit :=
  ph ← lift (index (phdrs img) (idx seg));
  if is_exec ph then
    match zero seg with
    | Some z => vm_icache_sync (a_addr z) (a_len z)
    | None => mret tt
    end
  else mret tt.

Definition fill_mapped (img : Image) (fd : Z) (plan : LoadPlan) : stM Error S unit :=
  _ ← for_each (fill_mapped_seg img fd) (segments plan);
  for_each (sync_zeroed_seg img) (segments plan).

(** The reservation of [load_mapped]: anywhere for a PIE, at the link address
    or not at all for the rest. *)
Definition reserve_mapped (img : Image) (page va_lo need : Z) : stM Error S Placement :=
  if e_type (ehdr img) =? ET_DYN then
    raw ← vm_map Anywhere need PROT_NONE Anon;
    mret (At raw)
  else
    '(_, hi) ← lift (va_span img page);
    span ← lift (sub64 hi va_lo);
    got ← vm_map (Hint va_lo) span PROT_NONE Anon;
    if got =? va_lo then mret Fixed
    else
      _ ← ignore (vm_unmap got span);
      fail ENOMEM.

Definition load_mapped (img : Image) (fd : Z) (page : Z) : stM Error S Loaded :=
  '(va_lo, _) ← lift (va_span img page);
  need ← lift (reservation_len img page);
  placement ← reserve_mapped img page va_lo need;
  p ← lift (plan img page placement);
  let loaded := MkLoaded p false in
  _ ← on_err (fill_mapped img fd (lplan loaded)) (unload loaded);
  mret loaded.

(** The [while done < p_filesz] loop of [fill_copied]; [fuel] bounds the number
    of chunks, and running out of it would show as a panic. *)
Fixpoint copy_chunks (src : ImageSource) (ph : Phdr) (vaddr : Z) (fuel : nat) (cur : Z) :
    stM Error S unit :=
  if cur <? p_filesz ph then
    match fuel with
    | O => lift Panic
    | Datatypes.S fuel =>
      left ← lift (sub64 (p_filesz ph) cur);
      let n := Z.min COPY_CHUNK left in
      off ← lift (add64 (p_offset ph) cur);
      buf ← lift (read_exact_at src off (Z.to_nat n));
      addr ← lift (add64 vaddr cur);
      _ ← vm_write addr buf;
      next ← lift (add64 cur n);
      copy_chunks src ph vaddr fuel next
    end
  else mret tt.

(** Enough for every chunk: each but the last is full. *)
Definition chunk_fuel (ph : Phdr) : nat := Datatypes.S (Z.to_nat (p_filesz ph / COPY_CHUNK)).

Definition fill_copied_seg (img : Image) (src : ImageSource) (plan : LoadPlan) (seg : SegmentPlan) :
    stM Error S unit :=
  ph ← lift (index (phdrs img) (idx seg));
  vaddr ← lift (add64 (p_vaddr ph) (bias plan));
  _ ← copy_chunks src ph vaddr (chunk_fuel ph) 0;
  mem ← lift (add64 vaddr (p_memsz ph));
  up ← lift (align_up mem page_size);
  mem_end ← lift (ok_or up ENOMEM);
  zstart ← lift (add64 vaddr (p_filesz ph));
  if zstart <? mem_end then
    zlen ← lift (sub64 mem_end zstart);
    vm_zero zstart zlen
  else mret tt.

(** The last loop of [fill_copied]: a failing [protect] is only logged. *)
Definition protect_seg (seg : SegmentPlan) : stM Error S unit :=
  '(s, e) ← lift (range seg);
  len ← lift (sub64 e s);
  ignore (vm_protect s len (prot seg)).

Definition fill_copied (img : Image) (src : ImageSource) (plan : LoadPlan) : stM Error S unit :=
  if negb (try_reserve COPY_CHUNK) then fail ENOMEM else
  _ ← for_each (fill_copied_seg img src plan) (segments plan);
  rs ← lift (exec_ranges plan img);
  _ ← for_each (fun r : Z * Z => vm_icache_sync r.1 r.2) rs;
  for_each protect_seg (segments plan).

Definition load_copied (img : Image) (src : ImageSource) (page : Z) : stM Error S Loaded :=
  if negb (e_type (ehdr img) =? ET_DYN) then fail ENOTSUP else
  need ← lift (reservation_len img page);
  align ← lift (seg_align img page);
  raw ← vm_alloc_aligned align need;
  p ← lift (plan img page (At raw));
  let loaded := MkLoaded p true in
  _ ← on_err (fill_copied img src (lplan loaded)) (unload loaded);
  mret loaded.

Definition load (img : Image) (src : ImageSource) (fd : option Z) : stM Error S Loaded :=
  match fd with
  | Some fd =>
    if can_map_files then load_mapped img fd page_size else load_copied img src page_size
  | None => load_copied img src page_size
  end.
End Loader.

Fixpoint any_seg {E : Type} (f : SegmentPlan -> outcome E bool) (l : list SegmentPlan) : outcome E bool :=
  match l with
  | [] => Ok false
  | s :: l => f s ≫= fun b : bool => if b then Ok true else any_seg f l
  end.

(** The closure of [entry_is_executable]. *)
Definition holds_entry {E : Type} (plan : LoadPlan) (s : SegmentPlan) : outcome E bool :=
  '(a, b) ← range s;
  Ok (negb (Z.land (prot s) PROT_EXEC =? 0) && (a <=? entry plan) && (entry plan <? b)).

Definition entry_is_executable {E : Type} (img : Image) (plan : LoadPlan) : outcome E bool :=
  any_seg (holds_entry plan) (segments plan) ≫= fun found =>
  Ok (found && negb (match loads img with [] => true | _ => false end)).

Definition check_stack_request (img : Image) : Res unit :=
  if exec_stack img then Err ENOTSUP else Ok tt.
