(* ===== verification/VmSpec.v ===== *)
(** * What the loader relies on in an address space

    [VmLaws] states what an implementation of the [Vm] trait promises, in terms
    of the protection and the byte visible at each address.  The loader is
    verified against these laws; the model address space of the tests is one
    implementation that satisfies them.  A small weakest-precondition calculus
    runs the loader's programs against the laws. *)

From Stdlib Require Import Strings.Byte.
From stdpp Require Import base numbers option strings sets list.
From S2P Require Import Prelude Err Elf Layout Loader.

(** ** Weakest preconditions

    [wp m P Q s]: run from [s], [m] does not panic, ends normally only in [P]
    and with an error only in [Q]. *)

Definition wp {S A : Type} (m : stM Error S A) (P : A -> S -> Prop) (Q : S -> Prop) (s : S) : Prop :=
  match m s with
  | (Ok a, s') => P a s'
  | (Err _, s') => Q s'
  | (Panic, _) => False
  end.

Section Wp.
Context {S : Type}.

Lemma wp_bind {A B} (m : stM Error S A) (f : A -> stM Error S B) P Q s :
  wp m (fun a s' => wp (f a) P Q s') Q s -> wp (m ≫= f) P Q s.
Proof. unfold wp, mbind, stM_bind. by destruct (m s) as [[] ?]. Qed.

Lemma wp_ret {A} (a : A) (P : A -> S -> Prop) Q s : P a s -> wp (mret a) P Q s.
Proof. done. Qed.

Lemma wp_lift_Ok {A} (m : outcome Error A) a (P : A -> S -> Prop) Q s :
  m = Ok a -> P a s -> wp (lift m) P Q s.
Proof. by intros -> ?. Qed.

Lemma wp_lift {A} (m : outcome Error A) (P : A -> S -> Prop) Q s :
  m <> Panic -> (forall a, m = Ok a -> P a s) -> (forall e, m = Err e -> Q s) -> wp (lift m) P Q s.
Proof. unfold wp, lift. destruct m; eauto. Qed.

Lemma wp_mono {A} (m : stM Error S A) (P P' : A -> S -> Prop) (Q Q' : S -> Prop) s :
  wp m P Q s -> (forall a s', P a s' -> P' a s') -> (forall s', Q s' -> Q' s') -> wp m P' Q' s.
Proof. unfold wp. destruct (m s) as [[] ?]; eauto. Qed.

Lemma wp_ignore (m : stM Error S unit) P Q s :
  wp m (fun _ => P tt) (P tt) s -> wp (ignore m) P Q s.
Proof. unfold wp, ignore. destruct (m s) as [[[]| |] ?]; auto. Qed.

Lemma wp_on_err {A} (m : stM Error S A) c P Q s :
  wp m P (wp c (fun _ => Q) Q) s -> wp (on_err m c) P Q s.
Proof.
  unfold wp, on_err. destruct (m s) as [[] s1]; [done| |done].
  destruct (c s1) as [[] ?]; done.
Qed.

Lemma wp_for_each {A} (body : A -> stM Error S unit) (I : list A -> S -> Prop) Q xs s :
  (forall pre x post s, xs = pre ++ x :: post -> I pre s -> wp (body x) (fun _ => I (pre ++ [x])) Q s) ->
  I [] s -> wp (for_each body xs) (fun _ => I xs) Q s.
Proof.
  assert (Hgen : forall post pre s, xs = pre ++ post ->
    (forall pre x post s, xs = pre ++ x :: post -> I pre s -> wp (body x) (fun _ => I (pre ++ [x])) Q s) ->
    I pre s -> wp (for_each body post) (fun _ => I xs) Q s).
  { induction post as [|x post IH]; intros pre s1 Hxs Hstep HI.
    - rewrite app_nil_r in Hxs. by subst.
    - cbn [for_each]. apply wp_bind. eapply wp_mono; [by apply (Hstep pre x post)| |done].
      intros a s2 HI2. apply (IH (pre ++ [x])); [by rewrite <- app_assoc|done|done]. }
  intros Hstep HI. by apply (Hgen xs []).
Qed.
End Wp.

(** ** Address spaces *)

(** The addresses of a range. *)
Definition within (a len x : Z) : Prop := a <= x < a + len.
#[global] Instance within_dec a len x : Decision (within a len x).
Proof. unfold within. apply _. Defined.

Definition cell : Type := (Z * byte)%type.

Definition writable (c : option cell) : Prop :=
  match c with Some (p, _) => Z.testbit p 1 = true | None => False end.

(** The byte at an offset of a file mapping; past the end of the file it
    reads as zero. *)
Definition file_byte (data : list byte) (off : Z) : byte := default x00 (data !! Z.to_nat off).

(** A protection is made of three bits. *)
Definition prot_ok (prot : Z) : Prop := 0 <= prot < 8.

Class VmLaws (S : Type) {vm : Vm S} : Type := {
  vm_inv : S -> Prop;
  view : S -> Z -> option cell;
  (** [region s a len]: this range is mapped, and can be written and protected
      as a whole. *)
  region : S -> Z -> Z -> Prop;
  (** What a descriptor reads. *)
  fd_data : S -> Z -> option (list byte);
  (** The blocks the allocator has handed out. *)
  block : S -> Z -> Z -> Prop;
  (** What else there is -- open files, threads -- no call touches. *)
  vm_kept : S -> S -> Prop;
  vm_kept_pre : PreOrder vm_kept;
  (** No call but [free_aligned] takes a block back. *)
  vm_held (s s' : S) : Prop := vm_inv s' /\ forall b bl, block s b bl -> block s' b bl;
  vm_step (s s' : S) : Prop := vm_held s s' /\ vm_kept s s';
  (** The longest range an implementation can map, and whether there is room
      for one more of a given length, by mapping or by allocation. *)
  max_len : Z;
  room : S -> Z -> Prop;
  heap_room : S -> Z -> Z -> Prop;

  law_page : is_power_of_two page_size = true;
  law_page_u64 : page_size < 2 ^ 64;
  law_room s len : room s len -> len <= max_len;
  law_region s a len : vm_inv s -> region s a len -> forall x, within a len x -> is_Some (view s x);

  law_map_fresh s w len prot :
    vm_inv s -> room s len -> (page_size | len) -> 0 < len -> prot_ok prot ->
    match w with Anywhere => True | Hint a => 0 <= a /\ (page_size | a) /\ a + len < 2 ^ 64 | Exact _ => False end ->
    wp (vm_map w len prot Anon)
      (fun a s' => vm_step s s' /\ fd_data s' = fd_data s /\
         0 <= a /\ (page_size | a) /\ a + len < 2 ^ 64 /\
         (forall x, within a len x -> view s x = None) /\
         forall x, view s' x = if decide (within a len x) then Some (prot, x00) else view s x)
      (fun s' => vm_step s s' /\ forall x, view s' x = view s x) s;

  (** [Where::Exact] is "only ever used to fill in a range this loader already
      holds": the range is mapped before the call.  Of a file at most the rest of
      the page that holds its last byte is mapped past its end. *)
  law_map_exact s a len prot src :
    vm_inv s -> 0 <= a -> (page_size | a) -> (page_size | len) -> 0 < len <= max_len ->
    a + len < 2 ^ 64 -> prot_ok prot -> (forall x, within a len x -> is_Some (view s x)) ->
    match src with
    | Anon => True
    | File fd off => exists d, fd_data s fd = Some d /\ 0 <= off <= Z.of_nat (length d) /\
        off + len < Z.of_nat (length d) + page_size
    end ->
    wp (vm_map (Exact a) len prot src)
      (fun r s' => r = a /\ vm_step s s' /\ fd_data s' = fd_data s /\ region s' a len /\
         (forall b bl, region s b bl -> b + bl <= a \/ a + len <= b -> region s' b bl) /\
         forall x, view s' x =
           if decide (within a len x)
           then Some (prot, match src with
                            | Anon => x00
                            | File fd off => file_byte (default [] (fd_data s fd)) (off + (x - a))
                            end)
           else view s x)
      (fun s' => vm_step s s' /\ forall x, ~ within a len x -> view s' x = view s x) s;

  law_zero s a len z zl :
    vm_inv s -> region s a len -> a <= z -> 0 < zl -> z + zl <= a + len ->
    (forall x, within a len x -> writable (view s x)) ->
    wp (vm_zero z zl)
      (fun _ s' => vm_step s s' /\ fd_data s' = fd_data s /\
         (forall b bl, region s b bl <-> region s' b bl) /\
         forall x, view s' x =
           if decide (within z zl x) then (fun c : cell => (c.1, x00)) <$> view s x else view s x)
      (fun s' => vm_step s s' /\ forall x, ~ within z zl x -> view s' x = view s x) s;

  law_write s a len w data :
    vm_inv s -> region s a len -> a <= w -> data <> [] -> w + Z.of_nat (length data) <= a + len ->
    (forall x, within a len x -> writable (view s x)) ->
    wp (vm_write w data)
      (fun _ s' => vm_step s s' /\ fd_data s' = fd_data s /\
         (forall b bl, region s b bl <-> region s' b bl) /\
         forall x, view s' x =
           match (if decide (w <= x) then data !! Z.to_nat (x - w) else None) with
           | Some b => (fun c : cell => (c.1, b)) <$> view s x
           | None => view s x
           end)
      (fun s' => vm_step s s' /\ forall x, ~ within w (Z.of_nat (length data)) x -> view s' x = view s x) s;

  (** Protecting mappings as a whole changes their protection and nothing
      else: the range is one mapping, or two that follow each other. *)
  law_protect s a l1 l2 prot :
    vm_inv s -> region s a l1 -> 0 < l1 -> 0 <= l2 -> (0 < l2 -> region s (a + l1) l2) -> prot_ok prot ->
    wp (vm_protect a (l1 + l2) prot)
      (fun _ s' => vm_step s s' /\ fd_data s' = fd_data s /\
         (forall b bl, region s b bl <-> region s' b bl) /\
         forall x, view s' x =
           if decide (within a (l1 + l2) x) then (fun c : cell => (prot, c.2)) <$> view s x else view s x)
      (fun s' => vm_step s s' /\ forall x, ~ within a (l1 + l2) x -> view s' x = view s x) s;

  (** Protecting part of a mapping: the protection of the rest of that mapping
      may follow, its bytes never change. *)
  law_protect_part s a len z zl prot :
    vm_inv s -> region s a len -> a <= z -> 0 < zl -> z + zl <= a + len ->
    (page_size | z) -> (page_size | zl) ->
    let post s' := vm_step s s' /\ fd_data s' = fd_data s /\
         (forall b bl, region s b bl <-> region s' b bl) /\
         (forall x, snd <$> view s' x = snd <$> view s x) /\
         (forall x, ~ within a len x -> view s' x = view s x) in
    wp (vm_protect z zl prot) (fun _ => post) post s;

  (** Clearing mapped memory, and protecting whatever it is called with, never
      change what is mapped. *)
  law_zero_keeps s z zl s' :
    vm_inv s -> 0 <= z -> 0 < zl -> (forall x, within z zl x -> is_Some (view s x)) -> vm_zero z zl s = (Ok tt, s') ->
    vm_inv s' /\ fd_data s' = fd_data s /\ forall x, is_Some (view s' x) <-> is_Some (view s x);
  law_protect_keeps s a len prot s' :
    vm_inv s -> vm_protect a len prot s = (Ok tt, s') ->
    vm_inv s' /\ fd_data s' = fd_data s /\ forall x, is_Some (view s' x) <-> is_Some (view s x);

  law_unmap s a len :
    can_map_files = true -> vm_inv s -> 0 <= a -> (page_size | a) -> (page_size | len) -> 0 < len -> a + len < 2 ^ 64 ->
    wp (vm_unmap a len)
      (fun _ s' => vm_step s s' /\ fd_data s' = fd_data s /\
         forall x, view s' x = if decide (within a len x) then None else view s x)
      (fun _ => False) s;

  law_icache s a len :
    vm_inv s ->
    wp (vm_icache_sync a len)
      (fun _ s' => vm_step s s' /\ fd_data s' = fd_data s /\
         (forall b bl, region s b bl <-> region s' b bl) /\ forall x, view s' x = view s x)
      (fun _ => False) s;

  law_alloc s align len :
    vm_inv s -> heap_room s align len -> is_power_of_two align = true -> page_size <= align < 2 ^ 64 ->
    (page_size | len) -> 0 < len ->
    wp (vm_alloc_aligned align len)
      (fun a s' => vm_step s s' /\ fd_data s' = fd_data s /\ region s' a len /\
         block s' a len /\ (forall bl, ~ block s a bl) /\
         0 <= a /\ (align | a) /\ a + len < 2 ^ 64 /\
         (forall x, within a len x -> view s x = None /\ exists b, view s' x = Some (RW, b)) /\
         forall x, ~ within a len x -> view s' x = view s x)
      (fun s' => vm_step s s' /\ forall x, view s' x = view s x) s;

  law_free s a len :
    vm_inv s -> block s a len -> 0 <= a -> (page_size | a) -> (page_size | len) -> 0 < len -> a + len < 2 ^ 64 ->
    wp (vm_free_aligned a len)
      (fun _ s' => (vm_inv s' /\ forall b bl, block s b bl -> b <> a -> block s' b bl) /\ vm_kept s s' /\
         fd_data s' = fd_data s /\
         forall x, view s' x = if decide (within a len x) then None else view s x)
      (fun _ => False) s
}.

Section Steps.
Context {S : Type} {vm : Vm S} {laws : VmLaws S}.

#[global] Instance vm_kept_preorder : PreOrder vm_kept := vm_kept_pre.

Lemma held_inv s s' : vm_held s s' -> vm_inv s'.
Proof. by intros [? _]. Qed.

Lemma held_refl s : vm_inv s -> vm_held s s.
Proof. by split. Qed.

Lemma held_trans s1 s2 s3 : vm_held s1 s2 -> vm_held s2 s3 -> vm_held s1 s3.
Proof. intros [_ H1] [Hi H2]. split; [done|]. auto. Qed.

Lemma step_held s s' : vm_step s s' -> vm_held s s'.
Proof. by intros [? _]. Qed.

Lemma step_kept s s' : vm_step s s' -> vm_kept s s'.
Proof. by intros [_ ?]. Qed.

Lemma step_block s s' b bl : vm_step s s' -> block s b bl -> block s' b bl.
Proof. intros [[_ ?] _]. auto. Qed.

Lemma step_inv s s' : vm_step s s' -> vm_inv s'.
Proof. by intros [[? _] _]. Qed.

Lemma step_refl s : vm_inv s -> vm_step s s.
Proof. intros. split; [by apply held_refl|done]. Qed.

Lemma step_trans s1 s2 s3 : vm_step s1 s2 -> vm_step s2 s3 -> vm_step s1 s3.
Proof. intros [H1 K1] [H2 K2]. split; [by eapply held_trans|by etrans]. Qed.
End Steps.

Create HintDb vm.
#[export] Hint Resolve held_inv held_refl held_trans step_held step_kept step_inv step_refl step_trans : vm.
