(* ===== verification/LoaderFacts.v ===== *)
(** * Properties of the loader

    Verified against [VmLaws]: what the address space holds after a load, that
    the reservation is never released while it is filled, that nothing outside
    it is touched, and what a failing load leaves behind. *)

From Stdlib Require Import Strings.Byte Sorted.
From stdpp Require Import base numbers option strings sets list.
From S2P Require Import Prelude Err Elf TestImage ElfFacts Layout LayoutFacts Loader VmSpec.

Ltac wp_step := apply wp_bind.
Ltac wp_by H := eapply wp_mono; [apply H| |].

(** The file holds all of the data its segments name; the parser checks this
    whenever the size of the file is known. *)
Definition file_covers (img : Image) (data : list byte) : Prop :=
  forall ph, ph ∈ load_phdrs img -> 0 < p_filesz ph -> fend ph <= Z.of_nat (length data).

(** ** One segment *)

Section Segment.
Context {S : Type} {vm : Vm S} {laws : VmLaws S}.
Variables (img : Image) (pl : LoadPlan) (fd : Z) (data : list byte).
Hypothesis wf : Image_wf page_size img.
Hypothesis ok : plan_ok page_size img pl.
Hypothesis len_ok : reserve_len pl <= max_len.
Hypothesis covered : file_covers img data.

Abbreviation sstart := (seg_start page_size (bias pl)).
Abbreviation send := (seg_end page_size (bias pl)).
Abbreviation sfend := (seg_fend (bias pl)).
Abbreviation sfmap := (seg_fmap_end page_size (bias pl)).

Definition in_seg (ph : Phdr) (x : Z) : Prop := within (sstart ph) (send ph - sstart ph) x.
#[local] Instance in_seg_dec ph x : Decision (in_seg ph x).
Proof. unfold in_seg. apply _. Defined.

(** The byte a loaded segment shows: file data up to its end, zeros after it;
    the head of its first page shows what precedes it in the file. *)
Definition seg_byte (ph : Phdr) (x : Z) : byte :=
  if (0 <? p_filesz ph) && (x <? sfend ph)
  then file_byte data (p_offset ph + (x - (p_vaddr ph + bias pl))) else x00.

Definition window_prot (ph : Phdr) : Z :=
  if (match seg_zero page_size (bias pl) ph with
      | Some _ => Z.land (prot_of ph) PROT_WRITE =? 0
      | None => false
      end)
  then Z.lor (prot_of ph) PROT_WRITE else prot_of ph.

Lemma window_writable ph :
  seg_zero page_size (bias pl) ph <> None -> Z.testbit (window_prot ph) 1 = true.
Proof.
  intros Hz. unfold window_prot. destruct (seg_zero _ _ ph); [|done].
  unfold prot_of. by destruct (is_read ph), (is_write ph), (is_exec ph).
Qed.

Lemma prot_of_ok ph : prot_ok (prot_of ph).
Proof. unfold prot_ok, prot_of. by destruct (is_read ph), (is_write ph), (is_exec ph). Qed.

Lemma window_prot_ok ph : prot_ok (window_prot ph).
Proof.
  unfold prot_ok, window_prot, prot_of. case_match; by destruct (is_read ph), (is_write ph), (is_exec ph).
Qed.
#[local] Hint Resolve prot_of_ok window_prot_ok : core.

Section One.
Variable ph : Phdr.
Hypothesis ph_in : ph ∈ load_phdrs img.
Variable s0 : S.
Hypothesis inv0 : vm_inv s0.
Hypothesis fd0 : fd_data s0 fd = Some data.
Hypothesis held0 : forall x, in_seg ph x -> is_Some (view s0 x).

Lemma seg_facts :
  0 <= sstart ph /\ sstart ph <= sfend ph <= sfmap ph /\ sfmap ph <= send ph /\ send ph < 2 ^ 64 /\
  (page_size | sstart ph) /\ (page_size | send ph) /\ (page_size | sfmap ph) /\
  send ph - sstart ph <= max_len /\
  0 <= p_filesz ph.
Proof.
  pose proof law_page as Hpp.
  destruct (seg_order_of page_size img pl Hpp wf ok ph ph_in) as (H1 & H2 & H3 & H4 & H5).
  destruct (seg_pages page_size pl Hpp ph) as (D1 & D2 & D3).
  destruct (po_bounds _ _ _ ok) as [B1 B2]. pose proof (po_room _ _ _ ok).
  destruct (po_inside _ _ _ ok ph ph_in) as [I1 I2].
  destruct (load_phdr_in page_size img wf ph ph_in) as [[_ _ _ _ _ [Hf _] _ _] _].
  unfold seg_vaddr in *. split_and!; try done; lia.
Qed.

(** The states between the calls for one segment with file data. *)
Record filled (p : Z) (byte_at : Z -> byte) (s : S) : Prop := {
  fl_inv : vm_step s0 s;
  fl_fd : fd_data s = fd_data s0;
  fl_region : region s (sstart ph) (sfmap ph - sstart ph);
  fl_view : forall x, view s x =
    if decide (within (sstart ph) (sfmap ph - sstart ph) x) then Some (p, byte_at x) else view s0 x
}.

(** What an error anywhere in the segment leaves. *)
Definition seg_frame (s : S) : Prop :=
  vm_step s0 s /\ forall x, ~ in_seg ph x -> view s x = view s0 x.

Definition raw_byte (x : Z) : byte :=
  file_byte data (p_offset ph - (p_vaddr ph + bias pl - sstart ph) + (x - sstart ph)).

Lemma wp_map_file :
  0 < p_filesz ph ->
  wp (vm_map (Exact (sstart ph)) (sfmap ph - sstart ph) (window_prot ph)
        (File fd (p_offset ph - (p_vaddr ph + bias pl - sstart ph))))
    (fun _ => filled (window_prot ph) raw_byte) seg_frame s0.
Proof.
  intros Hf. destruct seg_facts as (H0 & H1 & H2 & H3 & D1 & D2 & D3 & Hlen & _).
  pose proof law_page as Hpp. pose proof (page_pos page_size Hpp) as Hpos.
  destruct (load_phdr_in page_size img wf ph ph_in) as [Hr Hl].
  destruct (seg_offset page_size Hpp (bias pl) ph (po_bias _ _ _ ok) Hr Hl Hf) as (Ho & _ & _).
  destruct (seg_order_of page_size img pl Hpp wf ok ph ph_in) as (O1 & _).
  unfold seg_vaddr, seg_fend in *.
  wp_by law_map_exact; try done; try lia.
  - by apply Z.divide_sub_r.
  - intros x Hx. apply held0. unfold in_seg, within in *. lia.
  - exists data. split; [done|]. specialize (covered ph ph_in Hf). unfold fend in covered.
    pose proof (rup_bounds page_size Hpos (p_vaddr ph + bias pl + p_filesz ph)).
    unfold seg_fmap_end, seg_fend in *. lia.
  - intros a s' (_ & Hi & Hfd & Hreg & _ & Hv). split; try done.
    intros x. rewrite Hv, fd0. done.
  - intros s' [Hi Hv]. split; [done|]. intros x Hx. apply Hv. unfold in_seg, within in *. lia.
Qed.

Lemma wp_zero_tail s :
  0 < p_filesz ph -> filled (window_prot ph) raw_byte s ->
  wp (match seg_zero page_size (bias pl) ph with
      | Some z => vm_zero (a_addr z) (a_len z)
      | None => mret tt
      end)
    (fun _ => filled (window_prot ph) (seg_byte ph)) seg_frame s.
Proof.
  intros Hf [Hi Hfd Hreg Hv]. destruct seg_facts as (H0 & H1 & H2 & H3 & D1 & D2 & D3 & Hlen & _).
  pose proof (step_inv _ _ Hi) as Hinv.
  assert (Hraw : forall x, x < sfend ph -> raw_byte x = seg_byte ph x).
  { intros x Hx. unfold raw_byte, seg_byte. rewrite (proj2 (Z.ltb_lt _ _) Hf), (proj2 (Z.ltb_lt _ _) Hx).
    cbn [andb]. f_equal. lia. }
  assert (Htail : forall x, sfend ph <= x -> seg_byte ph x = x00).
  { intros x Hx. unfold seg_byte. by rewrite (proj2 (Z.ltb_ge x _) Hx), andb_false_r. }
  pose proof (window_writable ph) as Hw. revert Hw.
  unfold seg_zero. rewrite (proj2 (Z.ltb_lt _ _) Hf). cbn [andb].
  destruct (Z.ltb_spec (sfend ph) (sfmap ph)) as [Hlt|Hge]; intros Hw.
  - specialize (Hw ltac:(done)). cbn [a_addr a_len].
    wp_by (law_zero s (sstart ph) (sfmap ph - sstart ph)); try done; try lia.
    + intros x Hx. rewrite Hv, decide_True by done. done.
    + intros [] s' (Hi' & Hfd' & Hreg' & Hv'). split; [eauto with vm|congruence|by apply Hreg'|].
      intros x. rewrite Hv', Hv. unfold within. repeat case_decide; cbn; try lia.
      * by rewrite Htail by lia.
      * by rewrite Hraw by lia.
      * done.
    + intros s' [Hi' Hv']. split; [eauto with vm|]. intros x Hx. unfold in_seg, within in *.
      rewrite Hv', Hv by lia. rewrite decide_False by (unfold within; lia). done.
  - apply wp_ret. split; [done|done|done|]. intros x. rewrite Hv. unfold within.
    case_decide; [|done]. by rewrite Hraw by lia.
Qed.

(** After the anonymous part, before the protection is narrowed. *)
Record mapped (p : Z) (s : S) : Prop := {
  mp_inv : vm_step s0 s;
  mp_fd : fd_data s = fd_data s0;
  mp_region : region s (sstart ph) (sfmap ph - sstart ph);
  mp_anon : 0 < send ph - sfmap ph -> region s (sfmap ph) (send ph - sfmap ph);
  mp_view : forall x, view s x =
    if decide (in_seg ph x)
    then Some (if x <? sfmap ph then p else prot_of ph, seg_byte ph x) else view s0 x
}.

Lemma wp_map_anon s :
  0 < p_filesz ph -> filled (window_prot ph) (seg_byte ph) s ->
  wp (match seg_anon page_size (bias pl) ph with
      | Some a => _ ← vm_map (Exact (a_addr a)) (a_len a) (prot_of ph) Anon; mret tt
      | None => mret tt
      end)
    (fun _ => mapped (window_prot ph)) seg_frame s.
Proof.
  intros Hf [Hi Hfd Hreg Hv]. destruct seg_facts as (H0 & H1 & H2 & H3 & D1 & D2 & D3 & Hlen & _).
  pose proof (step_inv _ _ Hi) as Hinv.
  assert (Htail : forall x, sfend ph <= x -> seg_byte ph x = x00).
  { intros x Hx. unfold seg_byte. by rewrite (proj2 (Z.ltb_ge x _) Hx), andb_false_r. }
  unfold seg_anon, seg_file_end. rewrite (proj2 (Z.ltb_lt _ _) Hf).
  destruct (Z.ltb_spec (sfmap ph) (send ph)) as [Hlt|Hge]; cbn [a_addr a_len].
  - wp_step. wp_by (law_map_exact s (sfmap ph)); try done; try lia.
    + by apply Z.divide_sub_r.
    + intros x Hx. rewrite Hv. unfold within in *. rewrite decide_False by lia.
      apply held0. unfold in_seg, within. lia.
    + intros a s' (_ & Hi' & Hfd' & Hreg' & Hkeep & Hv'). apply wp_ret.
      split; [eauto with vm|congruence|apply Hkeep; [done|lia]|done|].
      intros x. rewrite Hv', Hv. unfold in_seg, within.
      destruct (Z.ltb_spec x (sfmap ph)); repeat case_decide; try lia; try done.
      by rewrite Htail by lia.
    + intros s' [Hi' Hv']. split; [eauto with vm|]. intros x Hx. unfold in_seg, within in *.
      rewrite Hv', Hv by lia. by rewrite decide_False by (unfold within; lia).
  - apply wp_ret. split; [done|done|done|lia|]. intros x. rewrite Hv. unfold in_seg, within.
    destruct (Z.ltb_spec x (sfmap ph)); repeat case_decide; try lia; done.
Qed.

(** The segment is in place: its protection and bytes, and nothing else. *)
Record seg_done (s : S) : Prop := {
  sd_inv : vm_step s0 s;
  sd_fd : fd_data s = fd_data s0;
  sd_view : forall x, view s x =
    if decide (in_seg ph x) then Some (prot_of ph, seg_byte ph x) else view s0 x
}.

Lemma seg_range_eq i :
  0 < p_filesz ph -> range (E:=Error) (seg_plan page_size (bias pl) i ph) = Ok (sstart ph, send ph).
Proof.
  intros Hf. rewrite (range_eq page_size img pl law_page wf ok) by done.
  destruct seg_facts as (H0 & H1 & H2 & _).
  destruct (seg_order_of page_size img pl law_page wf ok ph ph_in) as (O1 & _).
  unfold seg_vaddr, seg_fend in *. by rewrite (proj2 (Z.ltb_lt _ _)) by lia.
Qed.

Lemma wp_narrow i s :
  0 < p_filesz ph -> mapped (window_prot ph) s ->
  wp (if needs_write_window (seg_plan page_size (bias pl) i ph) then
        '(a, e) ← lift (range (seg_plan page_size (bias pl) i ph));
        len ← lift (sub64 e a);
        vm_protect a len (prot_of ph)
      else mret tt)
    (fun _ => seg_done) seg_frame s.
Proof.
  intros Hf [Hi Hfd Hreg Hanon Hv]. pose proof (step_inv _ _ Hi) as Hinv. destruct seg_facts as (H0 & H1 & H2 & H3 & D1 & D2 & D3 & Hlen & _).
  destruct (seg_order_of page_size img pl law_page wf ok ph ph_in) as (O1 & _).
  unfold seg_vaddr, seg_fend in O1.
  assert (Hwin : window_prot ph = if needs_write_window (seg_plan page_size (bias pl) i ph)
    then Z.lor (prot_of ph) PROT_WRITE else prot_of ph) by done.
  destruct (needs_write_window (seg_plan page_size (bias pl) i ph)).
  - wp_step. apply (wp_lift_Ok _ (sstart ph, send ph)); [by apply seg_range_eq|].
    wp_step. apply (wp_lift_Ok _ (send ph - sstart ph)); [apply sub64_small; unfold seg_fend in *; lia|].
    replace (send ph - sstart ph) with ((sfmap ph - sstart ph) + (send ph - sfmap ph)) by lia.
    wp_by (law_protect s (sstart ph)); try done; try (unfold seg_fend in *; lia).
    + intros Hl. replace (sstart ph + (sfmap ph - sstart ph)) with (sfmap ph) by lia. auto.
    + intros [] s' (Hi' & Hfd' & _ & Hv'). split; [eauto with vm|congruence|].
      intros x. rewrite Hv', Hv. unfold in_seg, within.
      repeat case_decide; try lia; done.
    + intros s' [Hi' Hv']. split; [eauto with vm|]. intros x Hx. rewrite Hv', Hv; [by rewrite decide_False|].
      unfold in_seg, within in *. lia.
  - apply wp_ret. split; [done|done|]. intros x. rewrite Hv, Hwin. by destruct (x <? sfmap ph).
Qed.

(** A segment without file data is one anonymous mapping, or nothing. *)
Lemma wp_anon_only :
  p_filesz ph = 0 ->
  wp (match seg_anon page_size (bias pl) ph with
      | Some a => _ ← vm_map (Exact (a_addr a)) (a_len a) (prot_of ph) Anon; mret tt
      | None => mret tt
      end)
    (fun _ => seg_done) seg_frame s0.
Proof.
  intros Hf. destruct seg_facts as (H0 & H1 & H2 & H3 & D1 & D2 & D3 & Hlen & _).
  assert (Hz : forall x, seg_byte ph x = x00) by (intros x; unfold seg_byte; by rewrite Hf).
  unfold seg_anon, seg_file_end. rewrite Hf. cbn [Z.ltb Z.compare].
  destruct (Z.ltb_spec (sstart ph) (send ph)) as [Hlt|Hge]; cbn [a_addr a_len].
  - wp_step. wp_by (law_map_exact s0 (sstart ph)); try done; try lia.
    + by apply Z.divide_sub_r.
    + intros a s' (_ & Hi' & Hfd' & _ & _ & Hv'). apply wp_ret.
      split; [done|done|]. intros x. rewrite Hv', Hz. done.
  - apply wp_ret. split; [by apply step_refl|done|]. intros x. unfold in_seg, within.
    by rewrite decide_False by lia.
Qed.

Lemma wp_fill_mapped_seg i :
  loads img !! i <> None -> phdrs img !!! (loads img !!! i) = ph ->
  wp (fill_mapped_seg img fd (seg_plan page_size (bias pl) (loads img !!! i) ph))
    (fun _ => seg_done) seg_frame s0.
Proof.
  intros Hi Hph. unfold fill_mapped_seg. cbn [idx file zero anon prot seg_plan].
  destruct seg_facts as (H0 & H1 & H2 & H3 & D1 & D2 & D3 & Hlen & Hf0).
  wp_step. apply (wp_lift_Ok _ ph).
  { rewrite <- Hph. apply (index_load page_size); [done|].
    destruct (loads img !! i) as [k|] eqn:Hk; [|done].
    rewrite (list_lookup_total_correct _ _ _ Hk). by eapply list_elem_of_lookup_2. }
  wp_step. eapply wp_lift_Ok; [by apply (range_eq page_size img pl law_page wf ok)|].
  unfold seg_file. destruct (Z.ltb_spec 0 (p_filesz ph)) as [Hf|Hf].
  - cbn [f_addr f_len f_off]. wp_step. wp_step.
    change (if needs_write_window _ then Z.lor (prot_of ph) PROT_WRITE else prot_of ph)
      with (window_prot ph).
    wp_by (wp_map_file Hf); [|done]. intros ? s1 Hs1. apply wp_ret.
    wp_step. wp_by (wp_zero_tail s1 Hf Hs1); [|done]. intros ? s2 Hs2.
    wp_step. wp_by (wp_map_anon s2 Hf Hs2); [|done]. intros ? s3 Hs3.
    by apply wp_narrow.
  - assert (Hz : p_filesz ph = 0) by lia. wp_step. apply wp_ret.
    wp_step. unfold seg_zero. rewrite Hz. cbn [Z.ltb Z.compare andb]. apply wp_ret.
    wp_step. wp_by (wp_anon_only Hz); [|done]. intros ? s3 Hs3.
    unfold needs_write_window, seg_plan, seg_zero. rewrite Hz. by apply wp_ret.
Qed.
End One.
End Segment.

(** ** Filling the reservation *)

#[global] Instance in_seg_decision {S} {vm : Vm S} pl ph x : Decision (in_seg (vm:=vm) pl ph x).
Proof. unfold in_seg. apply _. Defined.

Section Fill.
Context {S : Type} {vm : Vm S} {laws : VmLaws S}.
Variables (img : Image) (pl : LoadPlan) (fd : Z) (data : list byte).
Hypothesis wf : Image_wf page_size img.
Hypothesis ok : plan_ok page_size img pl.
Hypothesis len_ok : reserve_len pl <= max_len.
Hypothesis covered : file_covers img data.

Abbreviation in_reserve := (within (reserve_addr pl) (reserve_len pl)).

(** The address space [old] with segments laid over it. *)
Definition overlay (phs : list Phdr) (old : Z -> option cell) (x : Z) : option cell :=
  foldl (fun acc ph => if decide (in_seg pl ph x) then Some (prot_of ph, seg_byte pl data ph x) else acc)
    (old x) phs.

Lemma overlay_out phs old x :
  (forall ph, ph ∈ phs -> ~ in_seg pl ph x) -> overlay phs old x = old x.
Proof.
  unfold overlay. generalize (old x) as o.
  induction phs as [|ph phs IH]; intros o Hno; cbn; [done|].
  rewrite decide_False by (apply Hno; by left). apply IH. intros q Hq. apply Hno. by right.
Qed.

Lemma overlay_unique phs old x ph :
  ph ∈ phs -> in_seg pl ph x -> (forall q, q ∈ phs -> in_seg pl q x -> q = ph) ->
  overlay phs old x = Some (prot_of ph, seg_byte pl data ph x).
Proof.
  unfold overlay. generalize (old x) as o. intros o Hin Hx Huniq.
  assert (Hgen : forall qs o, (forall q, q ∈ qs -> in_seg pl q x -> q = ph) ->
    o = Some (prot_of ph, seg_byte pl data ph x) \/ ph ∈ qs ->
    foldl (fun acc q => if decide (in_seg pl q x) then Some (prot_of q, seg_byte pl data q x) else acc) o qs
    = Some (prot_of ph, seg_byte pl data ph x)).
  { clear -Hx. induction qs as [|q qs IH]; intros o Hq Ho; cbn.
    - destruct Ho as [?|[]%not_elem_of_nil]. done.
    - apply IH; [intros r Hr; apply Hq; by right|].
      destruct (decide (in_seg pl q x)) as [Hqx|Hqx].
      + left. by rewrite (Hq q) by (by left || done).
      + destruct Ho as [?|[->|?]%elem_of_cons]; auto. done. }
  auto.
Qed.

Lemma overlay_some phs old x : is_Some (old x) -> is_Some (overlay phs old x).
Proof.
  unfold overlay. generalize (old x) as o. induction phs as [|ph phs IH]; intros o Ho; cbn; [done|].
  apply IH. by case_decide.
Qed.

Lemma load_unique x ph q :
  ph ∈ load_phdrs img -> q ∈ load_phdrs img -> in_seg pl ph x -> in_seg pl q x -> q = ph.
Proof.
  intros (j & Hj)%list_elem_of_lookup (k & Hk)%list_elem_of_lookup Hx Hq.
  pose proof (segs_disjoint page_size img pl law_page wf ok) as Hs. unfold in_seg, within in *.
  destruct (Nat.lt_trichotomy j k) as [Hlt|[->|Hlt]]; [|congruence|].
  - pose proof (StronglySorted_lookup _ _ _ _ _ _ Hs Hlt Hj Hk). cbv beta in *. lia.
  - pose proof (StronglySorted_lookup _ _ _ _ _ _ Hs Hlt Hk Hj). cbv beta in *. lia.
Qed.

Lemma in_seg_reserve ph x : ph ∈ load_phdrs img -> in_seg pl ph x -> in_reserve x.
Proof.
  intros Hph Hx. destruct (po_inside _ _ _ ok ph Hph). destruct (po_bounds _ _ _ ok).
  unfold in_seg, within in *. lia.
Qed.

Section Run.
Variable s0 : S.
Hypothesis inv0 : vm_inv s0.
Hypothesis fd0 : fd_data s0 fd = Some data.
Hypothesis held0 : forall x, in_reserve x -> is_Some (view s0 x).

Record overlaid (phs : list Phdr) (s : S) : Prop := {
  ov_inv : vm_step s0 s;
  ov_fd : fd_data s = fd_data s0;
  ov_view : forall x, view s x = overlay phs (view s0) x
}.

Definition fill_frame (s : S) : Prop :=
  vm_step s0 s /\ forall x, ~ in_reserve x -> view s x = view s0 x.

Lemma overlaid_frame k s x : overlaid (take k (load_phdrs img)) s -> ~ in_reserve x -> view s x = view s0 x.
Proof.
  intros [_ _ Hv] Hx. rewrite Hv, overlay_out; [done|].
  intros ph Hph Hin. apply Hx. apply (in_seg_reserve ph); [|done].
  apply list_elem_of_lookup in Hph as (j & Hj). apply lookup_take_Some in Hj as [Hj _].
  by eapply list_elem_of_lookup_2.
Qed.

Lemma wp_fill_segments :
  wp (for_each (fill_mapped_seg img fd) (segments pl)) (fun _ => overlaid (load_phdrs img)) fill_frame s0.
Proof.
  eapply wp_mono.
  - apply (wp_for_each _ (fun pre s => overlaid (take (length pre) (load_phdrs img)) s) fill_frame).
    + intros pre seg post s Hseg Hs.
      assert (Hk : segments pl !! length pre = Some seg) by (rewrite Hseg; by apply list_lookup_middle).
      destruct (segments_lookup page_size img pl ok _ _ Hk) as (i & ph & Hi & Hph & Hphi & ->).
      pose proof (list_elem_of_lookup_2 _ _ _ Hph) as Hin. pose proof Hs as [Hinv Hfd Hv].
      rewrite <- (list_lookup_total_correct _ _ _ Hi).
      wp_by (wp_fill_mapped_seg img pl fd data wf ok len_ok covered ph Hin s (step_inv _ _ Hinv)); try done.
      * by rewrite Hfd.
      * intros x Hx. rewrite Hv. apply overlay_some, held0. by apply (in_seg_reserve ph).
      * by rewrite Hi.
      * by rewrite (list_lookup_total_correct _ _ _ Hi).
      * intros ? s' [Hi' Hfd' Hv']. split; [eauto with vm|congruence|]. intros x.
        rewrite length_app, Nat.add_1_r, (take_S_r _ _ _ Hph). unfold overlay.
        rewrite foldl_app. cbn [foldl]. rewrite Hv', Hv. done.
      * intros s' [Hi' Hv']. split; [eauto with vm|]. intros x Hx. rewrite Hv'.
        { by apply (overlaid_frame (length pre) s). }
        intros Hsx. apply Hx. by apply (in_seg_reserve ph).
    + split; [by apply step_refl|done|done].
  - cbn beta. intros ? s. rewrite (po_segments _ _ _ ok), length_fmap.
    rewrite take_ge; [done|]. unfold load_phdrs. by rewrite length_fmap.
  - done.
Qed.

Lemma wp_sync_zeroed s :
  overlaid (load_phdrs img) s ->
  wp (for_each (sync_zeroed_seg img) (segments pl)) (fun _ => overlaid (load_phdrs img)) fill_frame s.
Proof.
  intros Hs. apply (wp_for_each _ (fun _ s => overlaid (load_phdrs img) s) fill_frame); [|done].
  intros pre seg post s1 Hseg Hs1. unfold sync_zeroed_seg.
  assert (Hk : segments pl !! length pre = Some seg) by (rewrite Hseg; by apply list_lookup_middle).
  destruct (segments_lookup page_size img pl ok _ _ Hk) as (i & ph & Hi & Hph & Hphi & ->).
  wp_step. apply (wp_lift_Ok _ ph).
  { rewrite <- Hphi. apply (index_load page_size); [done|]. by eapply list_elem_of_lookup_2. }
  destruct (is_exec ph); [|done]. cbn [zero seg_plan].
  destruct (seg_zero _ _ ph) as [z|]; [|done].
  destruct Hs1 as [Hi1 Hfd1 Hv1]. wp_by (law_icache s1); [by eapply step_inv| |done].
  intros ? s2 (Hi2 & Hfd2 & _ & Hv2). split; [eauto with vm|congruence|]. intros x. by rewrite Hv2.
Qed.

Lemma wp_fill_mapped :
  wp (fill_mapped img fd pl) (fun _ => overlaid (load_phdrs img)) fill_frame s0.
Proof.
  unfold fill_mapped. wp_step. wp_by wp_fill_segments; [|done]. intros ? s Hs. by apply wp_sync_zeroed.
Qed.

Lemma wp_unload_mapped s :
  can_map_files = true -> vm_step s0 s -> 0 < reserve_len pl -> (forall x, ~ in_reserve x -> view s x = view s0 x) ->
  (forall x, in_reserve x -> view s0 x = None) ->
  wp (unload (MkLoaded pl false)) (fun _ s' => vm_step s0 s' /\ forall x, view s' x = view s0 x)
     (fun s' => vm_step s0 s' /\ forall x, view s' x = view s0 x) s.
Proof.
  intros Hcan Hi Hl Hout Hin. destruct (po_bounds _ _ _ ok) as [[? ?] ?]. pose proof (po_room _ _ _ ok).
  unfold unload. cbn [allocated lplan]. apply wp_ignore.
  wp_by (law_unmap s (reserve_addr pl) (reserve_len pl)); try done; try apply ok; [by eapply step_inv|].
  intros ? s' (Hi' & _ & Hv'). split; [eauto with vm|]. intros x. rewrite Hv'. case_decide; [|by apply Hout].
  symmetry. by apply Hin.
Qed.
End Run.
End Fill.

(** ** Loading with mappings *)

Section Mapped.
Context {S : Type} {vm : Vm S} {laws : VmLaws S} {heap : Heap}.
Variables (img : Image) (fd : Z) (data : list byte) (lo hi n : Z) (s0 : S).
Hypothesis mappable : can_map_files = true.
Hypothesis wf : Image_wf page_size img.
Hypothesis inv0 : vm_inv s0.
Hypothesis fd0 : fd_data s0 fd = Some data.
Hypothesis span : va_span img page_size = Ok (lo, hi).
Hypothesis nonempty : lo < hi.
Hypothesis resv : reservation_len img page_size = Ok n.
Hypothesis fits : room s0 n.
Hypothesis fits_fixed : room s0 (hi - lo).
Hypothesis covered : file_covers img data.

(** The length of the reservation taken for a placement. *)
Definition taken (p : Placement) : Z * Z :=
  match p with At raw => (raw, n) | Fixed => (lo, hi - lo) end.

(** The state after the reservation: one [PROT_NONE] range where nothing was. *)
Record reserved (p : Placement) (s : S) : Prop := {
  rs_inv : vm_step s0 s;
  rs_fd : fd_data s = fd_data s0;
  rs_placement : placement_ok page_size img p;
  rs_kind : p = Fixed <-> e_type (ehdr img) <> ET_DYN;
  rs_max : (taken p).2 <= max_len;
  rs_free : forall x, within (taken p).1 (taken p).2 x -> view s0 x = None;
  rs_view : forall x, view s x =
    if decide (within (taken p).1 (taken p).2 x) then Some (PROT_NONE, x00) else view s0 x
}.

Definition untouched (s : S) : Prop := vm_step s0 s /\ forall x, view s x = view s0 x.

Lemma need_facts : 0 < n /\ (page_size | n) /\ 0 <= lo /\ (page_size | lo) /\ (page_size | hi - lo) /\ hi < 2 ^ 64.
Proof.
  pose proof law_page as Hpp. pose proof law_page_u64 as Hpu.
  destruct (seg_align_eq page_size img Hpp Hpu wf) as (a & Ha & _ & Hr & Hd & _).
  destruct (reservation_len_inv page_size img lo hi a span Ha n resv) as [-> _].
  destruct (va_span_ok page_size img Hpp Hpu wf lo hi span) as [D1 D2 [H0 _] Hu _ _].
  unfold need. split_and!; try done; try lia.
  - apply Z.divide_add_r; apply Z.divide_sub_r; try done; apply Z.divide_refl.
  - by apply Z.divide_sub_r.
Qed.

Lemma wp_reserve : wp (reserve_mapped img page_size lo n) reserved untouched s0.
Proof.
  destruct need_facts as (Hn & Dn & H0 & Dlo & Dspan & Hu). unfold reserve_mapped.
  destruct (Z.eqb_spec (e_type (ehdr img)) ET_DYN) as [Ht|Ht].
  - wp_step. wp_by (law_map_fresh s0 Anywhere n); try done.
    intros a s' (Hi & Hfd & Ha0 & Da & Hau & Hfree & Hv). apply wp_ret.
    split; cbn [taken fst snd]; try done.
    + split_and!; eauto.
    + by apply (law_room s0).
  - wp_step. apply (wp_lift_Ok _ (lo, hi)); [done|]. cbn beta match.
    wp_step. apply (wp_lift_Ok _ (hi - lo)); [apply sub64_small; lia|].
    wp_step. wp_by (law_map_fresh s0 (Hint lo) (hi - lo)); try done; try lia.
    { split_and!; [done|done|lia]. }
    intros a s' (Hi & Hfd & Ha0 & Da & Hau & Hfree & Hv).
    destruct (Z.eqb_spec a lo) as [->|Hne].
    + apply wp_ret. split; cbn [taken fst snd]; try done. by apply (law_room s0).
    + wp_step. apply wp_ignore. wp_by (law_unmap s' a (hi - lo)); try done; try lia; [by eapply step_inv|].
      intros ? s'' (Hi' & _ & Hv'). split; [eauto with vm|]. intros x. rewrite Hv', Hv.
      case_decide; [|done]. symmetry. by apply Hfree.
Qed.

(** A successful load: where the image went, and what every address shows. *)
Record loaded_ok (ld : Loaded) (s : S) : Prop := {
  ld_mapped : allocated ld = false;
  ld_plan : exists p, placement_ok page_size img p /\ plan img page_size p = Ok (lplan ld) /\
              (p = Fixed <-> e_type (ehdr img) <> ET_DYN);
  ld_inv : vm_step s0 s;
  ld_free : forall x, within (reserve_addr (lplan ld)) (reserve_len (lplan ld)) x -> view s0 x = None;
  ld_segment : forall ph x, ph ∈ load_phdrs img -> in_seg (lplan ld) ph x ->
    view s x = Some (prot_of ph, seg_byte (lplan ld) data ph x);
  ld_gap : forall x, within (reserve_addr (lplan ld)) (reserve_len (lplan ld)) x ->
    (forall ph, ph ∈ load_phdrs img -> ~ in_seg (lplan ld) ph x) -> view s x = Some (PROT_NONE, x00);
  ld_frame : forall x, ~ within (reserve_addr (lplan ld)) (reserve_len (lplan ld)) x -> view s x = view s0 x;
  ld_fd : fd_data s = fd_data s0
}.

(** A failed load: either everything is as before, or planning failed after the
    reservation was taken, and the reservation stays behind. *)
Definition load_failed (s : S) : Prop :=
  untouched s \/
  exists p, placement_ok page_size img p /\ plan img page_size p = Err ENOMEM /\ vm_step s0 s /\
    (forall x, within (taken p).1 (taken p).2 x -> view s0 x = None) /\
    forall x, view s x = if decide (within (taken p).1 (taken p).2 x) then Some (PROT_NONE, x00) else view s0 x.

Lemma plan_outcome p : placement_ok page_size img p ->
  (exists pl, plan img page_size p = Ok pl) \/ plan img page_size p = Err ENOMEM.
Proof.
  pose proof law_page as Hpp. pose proof law_page_u64 as Hpu. intros Hp. destruct p as [|raw].
  - destruct (seg_align_eq page_size img Hpp Hpu wf) as (a & Ha & _).
    rewrite (plan_fixed_eq page_size img Hpp Hpu wf lo hi a span Ha). case_match; eauto.
  - by apply plan_at_outcome.
Qed.

Lemma plan_taken p pl :
  placement_ok page_size img p -> plan img page_size p = Ok pl ->
  plan_ok page_size img pl /\ (reserve_addr pl, reserve_len pl) = taken p.
Proof.
  pose proof law_page as Hpp. pose proof law_page_u64 as Hpu. intros Hp Hpl.
  destruct (plan_inv page_size img Hpp Hpu wf p pl Hp Hpl) as (Hok & _ & Hs & Hk).
  split; [done|]. rewrite span in Hs. injection Hs as Hlo Hhi. destruct p as [|raw]; cbn [taken].
  - destruct Hk as (? & -> & ->). f_equal; lia.
  - destruct Hk as (-> & Hl & _). rewrite resv in Hl. by injection Hl as ->.
Qed.

Lemma load_mapped_wp : wp (load_mapped img fd page_size) loaded_ok load_failed s0.
Proof.
  destruct need_facts as (Hn & Dn & H0 & Dlo & Dspan & Hu). unfold load_mapped.
  wp_step. apply (wp_lift_Ok _ (lo, hi)); [done|]. cbn beta match.
  wp_step. apply (wp_lift_Ok _ n); [done|].
  wp_step. wp_by wp_reserve; [|by left]. intros p s1 [Hi1 Hfd1 Hp Hkind Hmax Hfree Hv1].
  wp_step. destruct (plan_outcome p Hp) as [(pl & Hpl)|Herr].
  2: { apply wp_lift; rewrite Herr; try done. intros e _. right. by exists p. }
  apply (wp_lift_Ok _ pl); [done|]. destruct (plan_taken p pl Hp Hpl) as [Hok Ht].
  rewrite <- Ht in *. cbn [fst snd] in *.
  assert (Hlen : 0 < reserve_len pl) by (destruct p; injection Ht as _ ->; lia).
  wp_step. apply wp_on_err. cbn [lplan].
  assert (Hfds : fd_data s1 fd = Some data) by (by rewrite Hfd1).
  assert (Hheld : forall x, within (reserve_addr pl) (reserve_len pl) x -> is_Some (view s1 x))
    by (intros x Hx; by rewrite Hv1, decide_True).
  wp_by (wp_fill_mapped img pl fd data wf Hok Hmax covered s1 (step_inv _ _ Hi1) Hfds Hheld).
  - intros ? s2 [Hi2 Hfd2 Hv2]. apply wp_ret. split; cbn [lplan allocated]; try done.
    + by exists p.
    + eauto with vm.
    + intros ph x Hph Hx. rewrite Hv2. apply overlay_unique; [done|done|].
      intros q Hq Hqx. by apply (load_unique img pl wf Hok x ph q).
    + intros x Hx Hno. by rewrite Hv2, overlay_out, Hv1, decide_True.
    + intros x Hx. rewrite Hv2, overlay_out, Hv1, decide_False; [done|done|].
      intros ph Hph Hin. by apply Hx, (in_seg_reserve img pl Hok ph).
    + by rewrite Hfd2.
  - intros s2 [Hi2 Hv2].
    wp_by (wp_unload_mapped img pl Hok s0 s2 mappable (step_trans _ _ _ Hi1 Hi2) Hlen); try done.
    + intros x Hx. rewrite Hv2, Hv1 by done. by rewrite decide_False.
    + intros ? s3 H3. by left.
    + intros s3 H3. by left.
Qed.
End Mapped.

(** ** Loading by copying *)

(** More fuel than there are chunks left makes no difference. *)
Lemma copy_fuel {S} {vm : Vm S} src ph vaddr n m cur s :
  0 <= cur -> p_filesz ph - cur <= Z.of_nat n * COPY_CHUNK -> (n <= m)%nat ->
  copy_chunks src ph vaddr m cur s = copy_chunks src ph vaddr n cur s.
Proof.
  revert m cur s. induction n as [|n IH]; intros m cur s Hc Hn Hm.
  - assert (Hge : (cur <? p_filesz ph) = false) by (apply Z.ltb_ge; lia). by destruct m; cbn; rewrite Hge.
  - destruct m as [|m]; [lia|]. cbn [copy_chunks]. destruct (Z.ltb_spec cur (p_filesz ph)) as [Hlt|]; [|done].
    unfold mbind, stM_bind, lift. rewrite sub64_small by lia.
    destruct (add64 (p_offset ph) cur) as [off| |]; [|done|done].
    destruct (read_exact_at src off _) as [buf| |]; [|done|done].
    destruct (add64 vaddr cur) as [addr| |]; [|done|done].
    destruct (vm_write addr buf s) as [[u|e|] s1]; [|done|done].
    destruct (add64 cur _) as [next| |] eqn:Hnext; [|done|done].
    apply add64_Ok in Hnext as [-> _]. apply IH; [unfold COPY_CHUNK; lia| |lia].
    unfold COPY_CHUNK in *. lia.
Qed.

(** C22. The copy loop terminates: whatever the source and the address space
    answer, it makes at most one turn per chunk of the file, so the bound the
    model runs it with is never what stops it -- a larger bound gives the same
    outcome and the same state. *)
Theorem copy_loop_bounded {S} {vm : Vm S} src ph vaddr fuel s :
  0 <= p_filesz ph -> (chunk_fuel ph <= fuel)%nat ->
  copy_chunks src ph vaddr fuel 0 s = copy_chunks src ph vaddr (chunk_fuel ph) 0 s.
Proof.
  intros Hf Hfuel. apply copy_fuel; [done| |done]. unfold chunk_fuel, COPY_CHUNK.
  change (64 * 1024) with 65536. pose proof (Z.div_mod (p_filesz ph) 65536 ltac:(done)).
  pose proof (Z.mod_pos_bound (p_filesz ph) 65536 ltac:(done)). pose proof (Z.div_pos (p_filesz ph) 65536 Hf ltac:(done)).
  rewrite Nat2Z.inj_succ, Z2Nat.id by done. lia.
Qed.

Section Chunks.
Context {S : Type} {vm : Vm S} {laws : VmLaws S}.
Variables (src : ImageSource) (data : list byte) (ph : Phdr) (vaddr ra rl : Z).
Hypothesis src_ok : serves src data.
Hypothesis ph_range : phdr_range ph.
Hypothesis file_fits : fend ph < 2 ^ 64.
Hypothesis low : 0 <= ra <= vaddr.
Hypothesis high : vaddr + p_filesz ph <= ra + rl.
Hypothesis room_u64 : ra + rl < 2 ^ 64.

(** Bytes may change, nothing else does. *)
Record same_shape (s s' : S) : Prop := {
  sh_inv : vm_step s s';
  sh_fd : fd_data s' = fd_data s;
  sh_region : forall b bl, region s b bl <-> region s' b bl
}.

Record copied (cur : Z) (s s' : S) : Prop := {
  cp_shape : same_shape s s';
  cp_view : forall x, view s' x =
    if decide (vaddr + cur <= x < vaddr + p_filesz ph)
    then (fun c : cell => (c.1, file_byte data (p_offset ph + (x - vaddr)))) <$> view s x
    else view s x
}.

Definition copy_frame (s s' : S) : Prop :=
  vm_step s s' /\ forall x, ~ within ra rl x -> view s' x = view s x.

Lemma writable_fmap (c : option cell) b :
  writable ((fun d : cell => (d.1, b)) <$> c) <-> writable c.
Proof. by destruct c as [[p q]|]. Qed.

(** What a chunk written at its place shows. *)
Lemma chunk_cells cur m (s s1 : S) :
  0 <= cur /\ 0 < m /\ 0 <= p_offset ph -> p_offset ph + cur + m <= Z.of_nat (length data) ->
  (forall x, view s1 x =
     match (if decide (vaddr + cur <= x)
            then take (Z.to_nat m) (drop (Z.to_nat (p_offset ph + cur)) data) !! Z.to_nat (x - (vaddr + cur)) else None) with
     | Some b => (fun c : cell => (c.1, b)) <$> view s x
     | None => view s x
     end) ->
  forall x, view s1 x =
    if decide (vaddr + cur <= x < vaddr + cur + m)
    then (fun c : cell => (c.1, file_byte data (p_offset ph + (x - vaddr)))) <$> view s x
    else view s x.
Proof.
  intros (Hc & Hm & Ho) Hin Hv x. rewrite Hv.
  destruct (decide (vaddr + cur <= x)) as [Hx|Hx]; [|by rewrite decide_False by lia].
  destruct (decide (x < vaddr + cur + m)) as [Hx2|Hx2].
  - rewrite decide_True by lia. rewrite lookup_take_lt, lookup_drop by lia. unfold file_byte.
    replace (Z.to_nat (p_offset ph + cur) + Z.to_nat (x - (vaddr + cur)))%nat
      with (Z.to_nat (p_offset ph + (x - vaddr))) by lia.
    destruct (lookup_lt_is_Some_2 data (Z.to_nat (p_offset ph + (x - vaddr)))) as [b Hb]; [lia|]. by rewrite Hb.
  - rewrite decide_False by lia. rewrite lookup_take_ge by lia. done.
Qed.

Lemma wp_copy_chunks fuel cur s :
  0 <= cur -> p_filesz ph - cur <= Z.of_nat fuel * COPY_CHUNK ->
  vm_inv s -> region s ra rl -> (forall x, within ra rl x -> writable (view s x)) ->
  wp (copy_chunks src ph vaddr fuel cur) (fun _ => copied cur s) (copy_frame s) s.
Proof.
  destruct ph_range as [_ _ [Ho _] _ _ [Hf _] _ _]. unfold fend in file_fits.
  revert cur s. induction fuel as [|fuel IH]; intros cur s Hc Hfuel Hi Hreg Hw; cbn [copy_chunks].
  - destruct (Z.ltb_spec cur (p_filesz ph)); [lia|]. apply wp_ret.
    split; [by split; [apply step_refl| |]|]. intros x. by rewrite decide_False by lia.
  - destruct (Z.ltb_spec cur (p_filesz ph)) as [Hlt|Hge].
    2: { apply wp_ret. split; [by split; [apply step_refl| |]|]. intros x. by rewrite decide_False by lia. }
    set (m := Z.min COPY_CHUNK (p_filesz ph - cur)).
    assert (Hm : 0 < m <= p_filesz ph - cur) by (unfold m, COPY_CHUNK; lia).
    wp_step. apply (wp_lift_Ok _ (p_filesz ph - cur)); [apply sub64_small; lia|]. fold m.
    wp_step. apply (wp_lift_Ok _ (p_offset ph + cur)); [apply add64_small; lia|].
    pose proof (src_ok (p_offset ph + cur) (Z.to_nat m) ltac:(unfold u64; lia) ltac:(lia)) as Hread.
    rewrite Z2Nat.id in Hread by lia. wp_step.
    destruct (Z.leb_spec (p_offset ph + cur + m) (Z.of_nat (length data))) as [Hin|Hout].
    2: { destruct Hread as [e He]. apply wp_lift; rewrite He; try done. }
    set (buf := take (Z.to_nat m) (drop (Z.to_nat (p_offset ph + cur)) data)) in Hread.
    assert (Hbuf : length buf = Z.to_nat m) by (apply length_take_drop; lia).
    apply (wp_lift_Ok _ buf); [done|].
    wp_step. apply (wp_lift_Ok _ (vaddr + cur)); [apply add64_small; lia|].
    wp_step. wp_by (law_write s ra rl (vaddr + cur) buf); try done; try lia.
    { intros Hnil. rewrite Hnil in Hbuf. cbn in Hbuf. lia. }
    + intros ? s1 (Hi1 & Hfd1 & Hreg1 & Hv1).
      wp_step. apply (wp_lift_Ok _ (cur + m)); [apply add64_small; lia|].
      pose proof (chunk_cells cur m s s1 ltac:(lia) Hin Hv1) as Hcell.
      eapply wp_mono.
      * apply (IH (cur + m) s1); [lia| |by eapply step_inv|by apply Hreg1|].
        -- rewrite Nat2Z.inj_succ in Hfuel. unfold m, COPY_CHUNK in *. lia.
        -- intros x Hx. rewrite Hcell. case_decide; [apply writable_fmap|]; by apply Hw.
      * intros ? s2 [[Hi2 Hfd2 Hreg2] Hv2]. split; [split; [eauto with vm|congruence|]|].
        -- intros b bl. by rewrite Hreg1.
        -- intros x. rewrite Hv2, Hcell. repeat case_decide; try lia; done.
      * intros s2 [Hi2 Hv2]. split; [eauto with vm|]. intros x Hx. rewrite Hv2, Hcell by done.
        unfold within in Hx. by rewrite decide_False by lia.
    + intros s1 [Hi1 Hv1]. split; [done|]. intros x Hx. apply Hv1. unfold within in *. lia.
Qed.
End Chunks.

Section Copy.
Context {S : Type} {vm : Vm S} {laws : VmLaws S} {heap : Heap}.
Variables (img : Image) (src : ImageSource) (data : list byte) (pl : LoadPlan).
Hypothesis wf : Image_wf page_size img.
Hypothesis ok : plan_ok page_size img pl.
Hypothesis src_ok : serves src data.

Abbreviation ra := (reserve_addr pl).
Abbreviation rl := (reserve_len pl).

(** The part of a segment the copy path writes: from its first byte to the end
    of its last page. *)
Definition in_data (ph : Phdr) (x : Z) : Prop :=
  p_vaddr ph + bias pl <= x < seg_end page_size (bias pl) ph.

(** The block is one writable mapping. *)
Record rw_block (s : S) : Prop := {
  bk_inv : vm_inv s;
  bk_region : region s ra rl;
  bk_writable : forall x, within ra rl x -> writable (view s x)
}.

Record seg_copied (ph : Phdr) (s s' : S) : Prop := {
  sc_block : rw_block s';
  sc_step : vm_step s s';
  sc_fd : fd_data s' = fd_data s;
  sc_view : forall x, snd <$> view s' x =
    if decide (in_data ph x) then Some (seg_byte pl data ph x) else snd <$> view s x;
  sc_frame : forall x, ~ within ra rl x -> view s' x = view s x
}.

Definition block_frame (s s' : S) : Prop := copy_frame ra rl s s'.

Lemma seg_inside ph : ph ∈ load_phdrs img ->
  ra <= seg_start page_size (bias pl) ph /\ seg_end page_size (bias pl) ph <= ra + rl /\
  0 <= ra /\ ra + rl < 2 ^ 64 /\
  seg_start page_size (bias pl) ph <= p_vaddr ph + bias pl /\
  p_vaddr ph + bias pl <= seg_fend (bias pl) ph <= seg_end page_size (bias pl) ph /\
  p_vaddr ph + bias pl + p_memsz ph <= seg_end page_size (bias pl) ph.
Proof.
  intros Hph. destruct (po_inside _ _ _ ok ph Hph). destruct (po_bounds _ _ _ ok) as [[? ?] ?].
  pose proof (po_room _ _ _ ok).
  destruct (seg_order_of page_size img pl law_page wf ok ph Hph) as (O1 & O2 & _).
  pose proof (rup_bounds page_size (page_pos page_size law_page) (p_vaddr ph + bias pl + p_memsz ph)).
  unfold seg_vaddr, seg_end in *. lia.
Qed.

Lemma writable_Some s x : rw_block s -> within ra rl x -> exists p b, view s x = Some (p, b).
Proof.
  intros [_ _ Hw] Hx. specialize (Hw x Hx). destruct (view s x) as [[p b]|]; [eauto|done].
Qed.

(** The state after the file data, before the rest of the segment is cleared. *)
Record data_copied (ph : Phdr) (s s' : S) : Prop := {
  dc_block : rw_block s';
  dc_step : vm_step s s';
  dc_fd : fd_data s' = fd_data s;
  dc_view : forall x, snd <$> view s' x =
    if decide (p_vaddr ph + bias pl <= x < seg_fend (bias pl) ph)
    then Some (seg_byte pl data ph x) else snd <$> view s x;
  dc_frame : forall x, ~ within ra rl x -> view s' x = view s x
}.

Lemma wp_copy_data ph s :
  ph ∈ load_phdrs img -> rw_block s ->
  wp (copy_chunks src ph (p_vaddr ph + bias pl) (chunk_fuel ph) 0)
    (fun _ => data_copied ph s) (block_frame s) s.
Proof.
  intros Hph Hb. pose proof Hb as [Hinv Hreg Hw].
  destruct (seg_inside ph Hph) as (I1 & I2 & I3 & I4 & I5 & I6 & I7).
  destruct (load_phdr_in page_size img wf ph Hph) as [Hr Hl].
  pose proof Hr as [_ _ _ _ _ [Hf0 _] _ _]. pose proof Hl as [_ _ _ Hfe _ _].
  unfold seg_fend in *.
  wp_by (wp_copy_chunks src data ph (p_vaddr ph + bias pl) ra rl src_ok Hr Hfe); try done; try lia.
  { unfold chunk_fuel, COPY_CHUNK. rewrite Nat2Z.inj_succ, Z2Nat.id by (apply Z.div_pos; lia).
    pose proof (Z.mod_pos_bound (p_filesz ph) (64 * 1024) ltac:(lia)).
    pose proof (Z.div_mod (p_filesz ph) (64 * 1024) ltac:(lia)). lia. }
  intros ? s1 [[Hi1 Hfd1 Hreg1] Hv1]. split; [split; [by eapply step_inv|by apply Hreg1|]|done|done| |].
  - intros x Hx. rewrite Hv1. case_decide; [apply writable_fmap|]; auto.
  - intros x. unfold seg_fend. rewrite Hv1, Z.add_0_r. repeat case_decide; try lia; [|done].
    destruct (writable_Some s x Hb) as (p & b & ->); [unfold within; lia|]. cbn.
    unfold seg_byte, seg_fend. by rewrite (proj2 (Z.ltb_lt 0 _)), (proj2 (Z.ltb_lt x _)) by lia.
  - intros x Hx. rewrite Hv1, decide_False; [done|]. unfold within in *. lia.
Qed.

Lemma wp_clear_rest ph s s1 :
  ph ∈ load_phdrs img -> seg_fend (bias pl) ph < seg_end page_size (bias pl) ph -> data_copied ph s s1 ->
  wp (vm_zero (seg_fend (bias pl) ph) (seg_end page_size (bias pl) ph - seg_fend (bias pl) ph))
    (fun _ => seg_copied ph s) (block_frame s) s1.
Proof.
  intros Hph Hlt [Hb1 Hs1 Hfd1 Hv1 Hout]. pose proof Hb1 as [Hi1 Hreg1 Hw1].
  destruct (seg_inside ph Hph) as (I1 & I2 & I3 & I4 & I5 & I6 & I7).
  wp_by (law_zero s1 ra rl); try done; try lia.
  - intros ? s2 (Hi2 & Hfd2 & Hreg2 & Hv2). split.
    + split; [by eapply step_inv|by apply Hreg2|]. intros x Hx. rewrite Hv2.
      case_decide; [apply writable_fmap|]; auto.
    + eauto with vm.
    + congruence.
    + intros x. rewrite Hv2. unfold within, in_data.
      destruct (decide (seg_fend (bias pl) ph <= x < seg_end page_size (bias pl) ph)) as [Hx|Hx].
      * rewrite !decide_True by lia.
        destruct (writable_Some s1 x Hb1) as (p & b & ->); [unfold within; lia|]. cbn.
        unfold seg_byte. by rewrite (proj2 (Z.ltb_ge x _)), andb_false_r by lia.
      * rewrite decide_False by lia. rewrite Hv1. by repeat case_decide; try lia.
    + intros x Hx. rewrite Hv2, decide_False; [by apply Hout|]. unfold within in *. lia.
  - intros s2 [Hi2 Hv2]. split; [eauto with vm|]. intros x Hx. rewrite Hv2; [by apply Hout|].
    unfold within in *. lia.
Qed.

Lemma wp_fill_copied_seg i s :
  i ∈ loads img -> rw_block s ->
  wp (fill_copied_seg img src pl (seg_plan page_size (bias pl) i (phdrs img !!! i)))
    (fun _ => seg_copied (phdrs img !!! i) s) (block_frame s) s.
Proof.
  intros Hi Hb. unfold fill_copied_seg. cbn [idx seg_plan].
  assert (Hph : phdrs img !!! i ∈ load_phdrs img) by (apply list_elem_of_fmap; eauto).
  set (ph := phdrs img !!! i) in *.
  destruct (seg_inside ph Hph) as (I1 & I2 & I3 & I4 & I5 & I6 & I7).
  destruct (load_phdr_in page_size img wf ph Hph) as [[_ _ _ [Hv0 _] _ [Hf0 _] [Hm0 _] _] _].
  pose proof (plan_placed page_size img pl law_page ok ph Hph) as Hpl.
  pose proof (room_above page_size img law_page law_page_u64 wf (vend ph + bias pl) (end_ pl)
    (pl_hi _ _ _ _ Hpl) (pl_end _ _ _ _ Hpl) (pl_u64 _ _ _ _ Hpl)) as Hroom.
  pose proof (po_bias_nonneg _ _ _ ok) as Hb0. unfold vend in *.
  wp_step. apply (wp_lift_Ok _ ph); [by apply (index_load page_size)|].
  wp_step. apply (wp_lift_Ok _ (p_vaddr ph + bias pl)); [apply add64_small; lia|].
  wp_step. wp_by (wp_copy_data ph s Hph Hb); [|done]. intros ? s1 Hs1.
  wp_step. apply (wp_lift_Ok _ (p_vaddr ph + bias pl + p_memsz ph)); [apply add64_small; lia|].
  wp_step. eapply wp_lift_Ok; [apply (align_up_eq page_size law_page law_page_u64); lia|].
  rewrite (proj2 (Z.ltb_lt _ _)) by lia.
  wp_step. eapply wp_lift_Ok; [done|].
  change (rup (p_vaddr ph + bias pl + p_memsz ph) page_size) with (seg_end page_size (bias pl) ph) in *.
  wp_step. apply (wp_lift_Ok _ (seg_fend (bias pl) ph)); [apply add64_small; unfold seg_fend in *; lia|].
  destruct (Z.ltb_spec (seg_fend (bias pl) ph) (seg_end page_size (bias pl) ph)) as [Hlt|Hge].
  - wp_step. eapply wp_lift_Ok; [apply sub64_small; lia|]. by apply wp_clear_rest.
  - apply wp_ret. destruct Hs1 as [? ? ? Hv1 ?]. split; try done.
    intros x. rewrite Hv1. unfold in_data. by repeat case_decide; try lia.
Qed.

(** ** The whole block *)

Definition written (phs : list Phdr) (old : Z -> option byte) (x : Z) : option byte :=
  foldl (fun acc ph => if decide (in_data ph x) then Some (seg_byte pl data ph x) else acc) (old x) phs.

Record block_copied (phs : list Phdr) (s s' : S) : Prop := {
  bc_block : rw_block s';
  bc_step : vm_step s s';
  bc_view : forall x, snd <$> view s' x = written phs (fun x => snd <$> view s x) x;
  bc_frame : forall x, ~ within ra rl x -> view s' x = view s x
}.

Lemma wp_copy_segments s :
  rw_block s ->
  wp (for_each (fill_copied_seg img src pl) (segments pl))
    (fun _ => block_copied (load_phdrs img) s) (block_frame s) s.
Proof.
  intros Hb. eapply wp_mono; [|intros ? s'|done].
  - apply (wp_for_each _ (fun pre s' => block_copied (take (length pre) (load_phdrs img)) s s') (block_frame s)).
    + intros pre seg post s1 Hseg [Hb1 Hs1 Hv1 Hf1].
      assert (Hk : segments pl !! length pre = Some seg) by (rewrite Hseg; by apply list_lookup_middle).
      destruct (segments_lookup page_size img pl ok _ _ Hk) as (i & ph & Hi & Hph & <- & ->).
      wp_by (wp_fill_copied_seg i s1); try done; [by eapply list_elem_of_lookup_2| |].
      * intros ? s2 [Hb2 Hs2 _ Hv2 Hf2]. split; [done|eauto with vm| |].
        -- intros x. rewrite length_app, Nat.add_1_r, (take_S_r _ _ _ Hph). unfold written.
           rewrite foldl_app. cbn [foldl]. rewrite Hv2, Hv1. done.
        -- intros x Hx. by rewrite Hf2, Hf1.
      * intros s2 [Hi2 Hf2]. split; [eauto with vm|]. intros x Hx. by rewrite Hf2, Hf1.
    + split; [done|by apply step_refl, Hb|done|done].
  - cbn beta. rewrite (po_segments _ _ _ ok), length_fmap.
    rewrite take_ge; [done|]. unfold load_phdrs. by rewrite length_fmap.
Qed.

(** After the cache maintenance and the protections: the same bytes. *)
Record same_bytes (s s' : S) : Prop := {
  sb_inv : vm_step s s';
  sb_region : region s' ra rl;
  sb_view : forall x, snd <$> view s' x = snd <$> view s x;
  sb_frame : forall x, ~ within ra rl x -> view s' x = view s x
}.

Lemma wp_sync_ranges rs s s1 :
  same_bytes s s1 ->
  wp (for_each (fun r : Z * Z => vm_icache_sync r.1 r.2) rs) (fun _ => same_bytes s) (block_frame s) s1.
Proof.
  intros H1. apply (wp_for_each _ (fun _ => same_bytes s) (block_frame s)); [|done].
  intros pre r post s2 _ [Hi Hr Hv Hf]. wp_by (law_icache s2); [by eapply step_inv| |done].
  intros ? s3 (Hi3 & _ & Hr3 & Hv3).
  split; [eauto with vm|by apply Hr3| |]; intros x; [|intros Hx]; rewrite Hv3; auto.
Qed.

Lemma wp_protect_segments s s1 :
  (forall ph, ph ∈ load_phdrs img -> 0 < p_memsz ph) -> same_bytes s s1 ->
  wp (for_each protect_seg (segments pl)) (fun _ => same_bytes s) (block_frame s) s1.
Proof.
  intros Hne H1. apply (wp_for_each _ (fun _ => same_bytes s) (block_frame s)); [|done].
  intros pre seg post s2 Hseg [Hi Hr Hv Hf].
  assert (Hk : segments pl !! length pre = Some seg) by (rewrite Hseg; by apply list_lookup_middle).
  destruct (segments_lookup page_size img pl ok _ _ Hk) as (i & ph & _ & Hph & _ & ->).
  apply list_elem_of_lookup_2 in Hph. specialize (Hne ph Hph).
  destruct (seg_inside ph Hph) as (I1 & I2 & I3 & I4 & I5 & I6 & I7). unfold protect_seg.
  wp_step. eapply wp_lift_Ok; [by apply (range_eq page_size img pl law_page wf ok)|].
  rewrite (proj2 (Z.ltb_lt _ _)) by lia. cbn beta match.
  wp_step. eapply wp_lift_Ok; [apply sub64_small; lia|]. apply wp_ignore.
  destruct (seg_pages page_size pl law_page ph) as (D1 & D2 & _).
  wp_by (law_protect_part s2 ra rl); try done; try lia; [by eapply step_inv|by apply Z.divide_sub_r| |].
  - intros ? s3 (Hi3 & _ & Hr3 & Hv3 & Hf3).
    split; [eauto with vm|by apply Hr3| |]; intros x; [|intros Hx]; [by rewrite Hv3|by rewrite Hf3, Hf].
  - intros s3 (Hi3 & _ & Hr3 & Hv3 & Hf3).
    split; [eauto with vm|by apply Hr3| |]; intros x; [|intros Hx]; [by rewrite Hv3|by rewrite Hf3, Hf].
Qed.

Lemma wp_fill_copied s :
  (forall ph, ph ∈ load_phdrs img -> 0 < p_memsz ph) -> rw_block s ->
  wp (fill_copied img src pl)
    (fun _ s' => vm_step s s' /\
       (forall x, snd <$> view s' x = written (load_phdrs img) (fun x => snd <$> view s x) x) /\
       forall x, ~ within ra rl x -> view s' x = view s x)
    (block_frame s) s.
Proof.
  intros Hne Hb. unfold fill_copied.
  destruct (negb _); [by split; [apply step_refl, Hb|]|].
  wp_step. wp_by (wp_copy_segments s Hb); [|done]. intros ? s1 [Hb1 Hs1 Hv1 Hf1].
  assert (Hframe : forall s', block_frame s1 s' -> block_frame s s').
  { intros s' [Hi Hf]. split; [eauto with vm|]. intros x Hx. by rewrite Hf, Hf1. }
  wp_step. eapply wp_lift_Ok.
  { unfold exec_ranges. rewrite (po_segments _ _ _ ok). by apply (exec_ranges_loop_eq page_size img pl law_page wf ok). }
  wp_step. eapply wp_mono; [apply (wp_sync_ranges _ s1 s1); split; [apply step_refl, Hb1|apply Hb1|done|done]| |done].
  intros ? s2 H2.
  wp_by (wp_protect_segments s1 s2 Hne H2); [|done]. intros ? s3 [Hi3 _ Hv3 Hf3].
  split; [eauto with vm|]. split; intros x; [by rewrite Hv3|]. intros Hx. by rewrite Hf3, Hf1.
Qed.
End Copy.

Section Copied.
Context {S : Type} {vm : Vm S} {laws : VmLaws S} {heap : Heap}.
Variables (img : Image) (src : ImageSource) (data : list byte) (lo hi a n : Z) (s0 : S).
Hypothesis wf : Image_wf page_size img.
Hypothesis inv0 : vm_inv s0.
Hypothesis src_ok : serves src data.
Hypothesis span : va_span img page_size = Ok (lo, hi).
Hypothesis nonempty : forall ph, ph ∈ load_phdrs img -> 0 < p_memsz ph.
Hypothesis resv : reservation_len img page_size = Ok n.
Hypothesis align_ok : seg_align img page_size = Ok a.
Hypothesis fits : heap_room s0 a n.

Record copied_ok (ld : Loaded) (s : S) : Prop := {
  cd_alloc : allocated ld = true;
  cd_plan : exists raw, placement_ok page_size img (At raw) /\ plan img page_size (At raw) = Ok (lplan ld);
  cd_len : 0 < reserve_len (lplan ld);
  cd_inv : vm_step s0 s;
  cd_block : block s (reserve_addr (lplan ld)) (reserve_len (lplan ld)) /\
    forall bl, ~ block s0 (reserve_addr (lplan ld)) bl;
  cd_free : forall x, within (reserve_addr (lplan ld)) (reserve_len (lplan ld)) x -> view s0 x = None;
  cd_mapped : forall x, within (reserve_addr (lplan ld)) (reserve_len (lplan ld)) x -> is_Some (view s x);
  cd_segment : forall ph x, ph ∈ load_phdrs img -> in_data (lplan ld) ph x ->
    snd <$> view s x = Some (seg_byte (lplan ld) data ph x);
  cd_frame : forall x, ~ within (reserve_addr (lplan ld)) (reserve_len (lplan ld)) x -> view s x = view s0 x
}.

(** A failed copy: everything as before, or planning failed after the block was
    allocated, and the block stays behind. *)
Definition copy_failed (s : S) : Prop :=
  vm_step s0 s /\
  ((forall x, view s x = view s0 x) \/
   exists raw, placement_ok page_size img (At raw) /\ plan img page_size (At raw) = Err ENOMEM /\
     (forall x, within raw n x -> view s0 x = None /\ exists b, view s x = Some (RW, b)) /\
     forall x, ~ within raw n x -> view s x = view s0 x).

Lemma written_in pl phs old x ph :
  ph ∈ phs -> in_data pl ph x -> (forall q, q ∈ phs -> in_data pl q x -> q = ph) ->
  written data pl phs old x = Some (seg_byte pl data ph x).
Proof.
  unfold written. generalize (old x) as o. intros o Hin Hx Huniq.
  assert (Hgen : forall qs o, (forall q, q ∈ qs -> in_data pl q x -> q = ph) ->
    o = Some (seg_byte pl data ph x) \/ ph ∈ qs ->
    foldl (fun acc q => if decide (in_data pl q x) then Some (seg_byte pl data q x) else acc) o qs
    = Some (seg_byte pl data ph x)).
  { clear -Hx. induction qs as [|q qs IH]; intros o Hq Ho; cbn.
    - destruct Ho as [?|[]%not_elem_of_nil]. done.
    - apply IH; [intros r Hr; apply Hq; by right|].
      destruct (decide (in_data pl q x)) as [Hqx|Hqx].
      + left. by rewrite (Hq q) by (by left || done).
      + destruct Ho as [?|[->|?]%elem_of_cons]; auto. done. }
  auto.
Qed.

Lemma written_some pl phs old x : is_Some (old x) -> is_Some (written data pl phs old x).
Proof.
  unfold written. generalize (old x) as o. induction phs as [|ph phs IH]; intros o Ho; cbn; [done|].
  apply IH. by case_decide.
Qed.

(** In the data of a segment, its bytes: no other segment has a say there. *)
Lemma written_segment pl old ph x :
  plan_ok page_size img pl -> ph ∈ load_phdrs img -> in_data pl ph x ->
  written data pl (load_phdrs img) old x = Some (seg_byte pl data ph x).
Proof.
  intros Hok Hph Hx. apply written_in; [done|done|].
  assert (Hin : forall r, r ∈ load_phdrs img -> in_data pl r x -> in_seg pl r x).
  { intros r Hr Hrx. destruct (seg_inside img pl wf Hok r Hr) as (? & ? & ? & ? & ? & ? & ?).
    unfold in_seg, in_data, within in *. lia. }
  intros r Hr Hrx. by apply (load_unique img pl wf Hok x ph r Hph Hr); apply Hin.
Qed.

(** The length of the block: positive, whole pages. *)
Lemma block_len : 0 < n /\ (page_size | n).
Proof.
  pose proof law_page as Hpp. pose proof law_page_u64 as Hpu.
  destruct (align_facts page_size img Hpp Hpu wf a align_ok) as (Hap & Har & Had).
  destruct (reservation_len_inv page_size img lo hi a span align_ok n resv) as [Hneq _].
  destruct (va_span_ok page_size img Hpp Hpu wf lo hi span) as [D1 D2 [H0 Hlh] Hu Hcov [(q & Hq & Hql) _]].
  pose proof (page_pos page_size Hpp) as Hpos. destruct (Hcov q Hq) as [_ Hc]. specialize (nonempty q Hq).
  pose proof (rdown_bounds page_size Hpos (p_vaddr q)). pose proof (rup_bounds page_size Hpos (vend q)).
  unfold vend, need in *. rewrite Hneq. split; [lia|].
  apply Z.divide_add_r; apply Z.divide_sub_r; try done; apply Z.divide_refl.
Qed.

Lemma load_copied_wp :
  e_type (ehdr img) = ET_DYN ->
  wp (load_copied img src page_size) copied_ok copy_failed s0.
Proof.
  intros Ht. pose proof law_page as Hpp. pose proof law_page_u64 as Hpu.
  destruct (align_facts page_size img Hpp Hpu wf a align_ok) as (Hap & Har & Had).
  destruct block_len as [Hn Dn]. unfold load_copied. rewrite Ht. cbn [Z.eqb Pos.eqb ET_DYN negb].
  wp_step. apply (wp_lift_Ok _ n); [done|]. wp_step. apply (wp_lift_Ok _ a); [done|].
  wp_step. wp_by (law_alloc s0 a n); try done; [|by intros s' [? ?]; split; [|left]].
  intros raw s1 (Hi1 & _ & Hreg1 & Hbk & Hnew & Hr0 & Hra & Hru & Hblock & Hout1).
  assert (Hp : placement_ok page_size img (At raw)).
  { split; [by apply Z.divide_trans with a|]. split; [done|]. by exists n. }
  wp_step. destruct (plan_at_outcome page_size img Hpp Hpu wf raw Hp) as [(pl & Hpl)|Herr].
  2: { apply wp_lift; rewrite Herr; try done. intros e _. split; [done|]. right. exists raw.
       split; [done|]. split; [done|]. by split. }
  apply (wp_lift_Ok _ pl); [done|].
  destruct (plan_inv page_size img Hpp Hpu wf _ pl Hp Hpl) as (Hok & _ & _ & Hraddr & Hrlen & _).
  rewrite resv in Hrlen. injection Hrlen as Hrlen. rewrite Hrlen, <- Hraddr in *.
  assert (Hb : rw_block pl s1).
  { split; [by eapply step_inv|done|]. intros x Hx. destruct (Hblock x Hx) as [_ [b ->]]. done. }
  wp_step. apply wp_on_err. cbn [lplan]. wp_by (wp_fill_copied img src data pl wf Hok src_ok s1 nonempty Hb).
  - intros ? s2 (Hi2 & Hv2 & Hf2). apply wp_ret. split; cbn [lplan allocated]; try done.
    + by exists (reserve_addr pl).
    + eauto with vm.
    + split; [by apply Hi2|done].
    + intros x Hx. by apply Hblock.
    + intros x Hx. apply (fmap_is_Some snd). rewrite Hv2. apply written_some, fmap_is_Some.
      destruct (Hblock x Hx) as [_ [b ->]]. eauto.
    + intros ph x Hph Hx. rewrite Hv2. by apply written_segment.
    + intros x Hx. by rewrite Hf2, Hout1.
  - intros s2 [Hi2 Hf2]. unfold unload. cbn [allocated lplan].
    wp_by (law_free s2 (reserve_addr pl) (reserve_len pl)); try done; try apply Hok;
      [by eapply step_inv|by apply Hi2|].
    intros ? s3 ([Hi3 Hk3] & Hkept & _ & Hv3). split.
    { split; [split; [done|]|].
      - intros b bl Hb0. apply Hk3; [by apply Hi2, Hi1|]. intros ->. by apply (Hnew bl).
      - etrans; [apply Hi1|]. etrans; [apply Hi2|done]. }
    left. intros x. rewrite Hv3. case_decide as Hx.
    + symmetry. by apply Hblock.
    + by rewrite Hf2, Hout1.
Qed.
End Copied.

(** ** The properties of loading *)

Section Claims.
Context {S : Type} {vm : Vm S} {laws : VmLaws S} {heap : Heap}.
Variables (img : Image) (fd : Z) (src : ImageSource) (data : list byte) (lo hi n : Z) (s0 : S).
Hypothesis wf : Image_wf page_size img.
Hypothesis inv0 : vm_inv s0.
Hypothesis span : va_span img page_size = Ok (lo, hi).
Hypothesis resv : reservation_len img page_size = Ok n.

(** C6. Loading with mappings never panics.  When it succeeds, the image sits
    in a range nothing occupied before: every page of every segment has exactly
    the segment's protection and shows its file bytes and zeros after them, the
    rest of the reservation is inaccessible, and no other address changed.  When
    it fails, every address is as before -- unless it is the planning that failed
    after the reservation was taken, which leaves the reservation behind. *)
Theorem load_mapped_spec :
  can_map_files = true -> fd_data s0 fd = Some data -> file_covers img data -> lo < hi -> room s0 n -> room s0 (hi - lo) ->
  match load_mapped img fd page_size s0 with
  | (Ok ld, s) => loaded_ok img data s0 ld s
  | (Err _, s) => load_failed img lo hi n s0 s
  | (Panic, _) => False
  end.
Proof. intros Hcan Hfd Hc Hlt Hr1 Hr2. by apply (load_mapped_wp img fd data lo hi n s0). Qed.

(** C15. Loading by copying (no file mappings, or an image in memory) never
    panics and needs only finitely many chunks.  When it succeeds the block was
    free before, every segment shows its file bytes and zeros after them up to
    the end of its last page, and nothing outside the block changed; when it
    fails the block is freed, unless planning failed. *)
Theorem load_copied_spec a :
  e_type (ehdr img) = ET_DYN -> serves src data -> seg_align img page_size = Ok a ->
  (forall ph, ph ∈ load_phdrs img -> 0 < p_memsz ph) -> heap_room s0 a n ->
  match load_copied img src page_size s0 with
  | (Ok ld, s) => copied_ok img data s0 ld s
  | (Err _, s) => copy_failed img n s0 s
  | (Panic, _) => False
  end.
Proof. intros Ht Hsrc Ha Hne Hr. by apply (load_copied_wp img src data lo hi a n s0). Qed.

(** Unloading undoes a load: after it every address is as it was before
    the image was loaded. *)
Theorem unload_undoes ld s1 :
  can_map_files = true -> fd_data s0 fd = Some data -> file_covers img data -> lo < hi -> room s0 n -> room s0 (hi - lo) ->
  load_mapped img fd page_size s0 = (Ok ld, s1) ->
  exists s2, unload ld s1 = (Ok tt, s2) /\ forall x, view s2 x = view s0 x.
Proof.
  intros Hcan Hfd Hc Hlt Hr1 Hr2 Hld.
  pose proof (load_mapped_wp img fd data lo hi n s0 Hcan wf inv0 Hfd span Hlt resv Hr1 Hr2 Hc) as H.
  unfold wp in H. rewrite Hld in H. destruct H as [Hal (p & Hp & Hpl & _) Hinv Hfree _ _ Hframe _].
  destruct ld as [pl al]. cbn [allocated lplan] in *. subst al.
  destruct (plan_taken img lo hi n s0 wf span resv Hr1 p pl Hp Hpl) as [Hok Ht].
  destruct (need_facts img lo hi n s0 wf span Hlt resv Hr1) as (Hn & _).
  assert (Hlen : 0 < reserve_len pl) by (destruct p; injection Ht as _ ->; lia).
  pose proof (wp_unload_mapped img pl Hok s0 s1 Hcan Hinv Hlen Hframe Hfree) as Hun.
  unfold wp in Hun. revert Hun. unfold unload, ignore. cbn [allocated lplan].
  destruct (vm_unmap _ _ s1) as [[[]|e|] s2]; [| |done]; intros [_ Hv]; by exists s2.
Qed.
End Claims.

(** An image that names its own address is refused with [ENOTSUP] when it
    cannot be mapped there, before anything is allocated. *)
Theorem load_copied_non_pie {S} {vm : Vm S} {heap : Heap} img src (s : S) :
  e_type (ehdr img) <> ET_DYN -> load img src None s = (Err ENOTSUP, s).
Proof.
  intros Ht. unfold load, load_copied. by rewrite (proj2 (Z.eqb_neq _ _) Ht).
Qed.

(** Two images never share an address: whatever was loaded before, the
    reservation of the next image lies in free space, and its load leaves every
    byte and protection of the earlier image alone. *)
Theorem images_disjoint {S} {vm : Vm S} {laws : VmLaws S} {heap : Heap}
    img1 fd1 data1 lo1 hi1 n1 img2 fd2 data2 lo2 hi2 n2 s0 s1 s2 ld1 ld2 x :
  can_map_files = true -> Image_wf page_size img1 -> Image_wf page_size img2 -> vm_inv s0 ->
  va_span img1 page_size = Ok (lo1, hi1) -> lo1 < hi1 -> reservation_len img1 page_size = Ok n1 ->
  va_span img2 page_size = Ok (lo2, hi2) -> lo2 < hi2 -> reservation_len img2 page_size = Ok n2 ->
  fd_data s0 fd1 = Some data1 -> file_covers img1 data1 -> room s0 n1 -> room s0 (hi1 - lo1) ->
  load_mapped img1 fd1 page_size s0 = (Ok ld1, s1) ->
  fd_data s1 fd2 = Some data2 -> file_covers img2 data2 -> room s1 n2 -> room s1 (hi2 - lo2) ->
  load_mapped img2 fd2 page_size s1 = (Ok ld2, s2) ->
  within (reserve_addr (lplan ld1)) (reserve_len (lplan ld1)) x ->
  ~ within (reserve_addr (lplan ld2)) (reserve_len (lplan ld2)) x /\ view s2 x = view s1 x.
Proof.
  intros Hcan Hwf1 Hwf2 Hinv Hs1 Hlt1 Hr1 Hs2 Hlt2 Hr2 Hfd1 Hc1 Hroom1 Hroom1' Hl1 Hfd2 Hc2 Hroom2 Hroom2' Hl2 Hx.
  pose proof (load_mapped_wp img1 fd1 data1 lo1 hi1 n1 s0 Hcan Hwf1 Hinv Hfd1 Hs1 Hlt1 Hr1 Hroom1 Hroom1' Hc1) as H1.
  unfold wp in H1. rewrite Hl1 in H1. destruct H1 as [_ _ Hinv1 _ Hseg1 Hgap1 _ _].
  pose proof (load_mapped_wp img2 fd2 data2 lo2 hi2 n2 s1 Hcan Hwf2 (step_inv _ _ Hinv1) Hfd2 Hs2 Hlt2 Hr2 Hroom2 Hroom2' Hc2) as H2.
  unfold wp in H2. rewrite Hl2 in H2. destruct H2 as [_ _ _ Hfree2 _ _ Hframe2 _].
  assert (Hmap : view s1 x <> None).
  { destruct (decide (Exists (fun ph => in_seg (lplan ld1) ph x) (load_phdrs img1))) as [He|Hne].
    - apply Exists_exists in He as (ph & Hph & Hin). by rewrite (Hseg1 ph x).
    - rewrite Hgap1; [done|done|]. intros ph Hph Hin. apply Hne, Exists_exists. by exists ph. }
  assert (Hno : ~ within (reserve_addr (lplan ld2)) (reserve_len (lplan ld2)) x).
  { intros Hin. by apply Hmap, Hfree2. }
  split; [done|]. by apply Hframe2.
Qed.

(** ** The entry point *)

Section Entry.
Variables (page : Z) (img : Image) (pl : LoadPlan).
Hypothesis page_pow2 : is_power_of_two page = true.
Hypothesis wf : Image_wf page img.
Hypothesis ok : plan_ok page img pl.

Definition entry_in (ph : Phdr) : Prop :=
  is_exec ph = true /\ seg_start page (bias pl) ph <= entry pl < seg_end page (bias pl) ph.

Lemma holds_entry_spec i : i ∈ loads img ->
  exists b, holds_entry (E:=Error) pl (seg_plan page (bias pl) i (phdrs img !!! i)) = Ok b /\
    (b = true <-> entry_in (phdrs img !!! i)).
Proof.
  intros Hi. set (ph := phdrs img !!! i). unfold holds_entry, entry_in.
  rewrite (range_eq page img pl page_pow2 wf ok) by (apply list_elem_of_fmap; eauto).
  cbn [mbind outcome_bind prot seg_plan].
  assert (He : (Z.land (prot_of ph) PROT_EXEC =? 0) = negb (is_exec ph)).
  { unfold prot_of. by destruct (is_read ph), (is_write ph), (is_exec ph). }
  destruct (wf_entry _ _ wf) as [He0 _]. pose proof (po_entry _ _ _ ok).
  pose proof (po_bias_nonneg _ _ _ ok).
  destruct (Z.ltb_spec (seg_start page (bias pl) ph) (seg_end page (bias pl) ph));
    eexists; (split; [done|]); rewrite He;
    (destruct (is_exec ph); cbn [negb andb]; [rewrite andb_true_iff, Z.leb_le, Z.ltb_lt|naive_solver]);
    naive_solver lia.
Qed.

Lemma any_entry_spec l : (forall i, i ∈ l -> i ∈ loads img) ->
  exists b, any_seg (holds_entry (E:=Error) pl)
      ((fun i => seg_plan page (bias pl) i (phdrs img !!! i)) <$> l) = Ok b /\
    (b = true <-> exists i, i ∈ l /\ entry_in (phdrs img !!! i)).
Proof.
  induction l as [|i l IH]; intros Hin.
  { exists false. split; [done|]. split; [done|]. intros (i & Hi & _). by apply not_elem_of_nil in Hi. }
  destruct IH as (b & Hb & Hiff); [intros k Hk; apply Hin; by right|].
  destruct (holds_entry_spec i) as (c & Hc & Hciff); [apply Hin; by left|].
  cbn [fmap list_fmap any_seg]. rewrite Hc. cbn [mbind outcome_bind]. destruct c.
  - exists true. split; [done|]. split; [|done]. intros _. exists i. split; [by left|by apply Hciff].
  - exists b. split; [done|]. rewrite Hiff. split.
    + intros (k & Hk & ?). exists k. split; [by right|done].
    + intros (k & [->|Hk]%elem_of_cons & He); [|by exists k]. by apply Hciff in He.
Qed.

Lemma entry_executable :
  exists b, entry_is_executable (E:=Error) img pl = Ok b /\
  (b = true <-> exists ph, ph ∈ load_phdrs img /\ is_exec ph = true /\
     rdown (p_vaddr ph + bias pl) page <= entry pl < rup (p_vaddr ph + bias pl + p_memsz ph) page).
Proof.
  unfold entry_is_executable. rewrite (po_segments _ _ _ ok).
  destruct (any_entry_spec (loads img) ltac:(done)) as (b & -> & Hiff). cbn [mbind outcome_bind].
  eexists. split; [done|].
  assert (Hne : negb match loads img with [] => true | _ => false end = true).
  { pose proof (wf_some _ _ wf) as Hs. unfold load_phdrs in Hs. by destruct (loads img). }
  rewrite Hne, andb_true_r, Hiff. split.
  - intros (i & Hi & He). exists (phdrs img !!! i). split; [apply list_elem_of_fmap; eauto|done].
  - intros (ph & (i & -> & Hi)%list_elem_of_fmap & He). by exists i.
Qed.

(** [entry_is_executable] holds exactly when the entry point lies in the
    pages of an executable segment; it never panics. *)
Theorem entry_is_executable_spec :
  exists b, entry_is_executable (E:=Error) img pl = Ok b /\
  (b = true <-> exists ph, ph ∈ load_phdrs img /\ is_exec ph = true /\
     rdown (p_vaddr ph + bias pl) page <= entry pl < rup (p_vaddr ph + bias pl + p_memsz ph) page).
Proof. exact entry_executable. Qed.
End Entry.

Lemma entry_is_executable_spec_witness :
  exists b, entry_is_executable (E:=Error) mini_img mini_plan = Ok b /\
  (b = true <-> exists ph, ph ∈ load_phdrs mini_img /\ is_exec ph = true /\
     rdown (p_vaddr ph + 0x10000000) 4096 <= 0x10000400 < rup (p_vaddr ph + 0x10000000 + p_memsz ph) 4096).
Proof. apply (entry_is_executable_spec 4096 mini_img mini_plan eq_refl mini_wf mini_plan_ok). Defined.
