(* ===== verification/Trace.v ===== *)
(** * The reservation is never released

    A recording address space runs the same loader and keeps the state after
    every call.  With it the property the loader was written for can be stated
    and proved: from the moment the reservation is taken until the load returns
    there is no state in which an address of it is free. *)

From Stdlib Require Import Strings.Byte Sorted.
From stdpp Require Import base numbers option strings sets list.
From S2P Require Import Prelude Err Elf ElfFacts Layout LayoutFacts Loader VmSpec LoaderFacts.

(** ** Recording *)

Section Recording.
Context {S : Type} {vm : Vm S}.

Definition record {A : Type} (m : stM Error S A) : stM Error (S * list S) A := fun '(s, tr) =>
  let '(r, s') := m s in (r, (s', s' :: tr)).

Definition recording : Vm (S * list S) := {|
  page_size := page_size;
  can_map_files := can_map_files;
  vm_map w len prot src := record (vm_map w len prot src);
  vm_unmap a len := record (vm_unmap a len);
  vm_protect a len prot := record (vm_protect a len prot);
  vm_write a data := record (vm_write a data);
  vm_zero a len := record (vm_zero a len);
  vm_icache_sync a len := record (vm_icache_sync a len);
  vm_alloc_aligned al len := record (vm_alloc_aligned al len);
  vm_free_aligned a len := record (vm_free_aligned a len)
|}.

(** *** Recording changes nothing but the record *)

Definition erases {A} (m1 : stM Error (S * list S) A) (m2 : stM Error S A) : Prop :=
  forall s tr, exists tr', m1 (s, tr) = ((m2 s).1, ((m2 s).2, tr')).

Lemma erases_record {A} (m : stM Error S A) : erases (record m) m.
Proof. intros s tr. unfold record. destruct (m s). eauto. Qed.

Lemma erases_lift {A} (m : outcome Error A) : erases (lift m) (lift m).
Proof. intros s tr. by exists tr. Qed.

Lemma erases_bind {A B} m1 m2 (f1 : A -> stM Error (S * list S) B) f2 :
  erases m1 m2 -> (forall a, erases (f1 a) (f2 a)) -> erases (m1 ≫= f1) (m2 ≫= f2).
Proof.
  intros Hm Hf s tr. destruct (Hm s tr) as [tr' Ht]. unfold mbind, stM_bind. rewrite Ht.
  destruct (m2 s) as [[a|e|] s']; cbn; [apply Hf|eauto|eauto].
Qed.

Lemma erases_on_err {A} (m1 : stM Error (S * list S) A) m2 c1 c2 :
  erases m1 m2 -> erases c1 c2 -> erases (on_err m1 c1) (on_err m2 c2).
Proof.
  intros Hm Hc s tr. destruct (Hm s tr) as [tr' Ht]. unfold on_err. rewrite Ht.
  destruct (m2 s) as [[a|e|] s']; cbn; [eauto| |eauto].
  destruct (Hc s' tr') as [tr'' Htc]. rewrite Htc. destruct (c2 s') as [[| |] ?]; cbn; eauto.
Qed.

Lemma erases_ignore m1 m2 : erases m1 m2 -> erases (ignore m1) (ignore m2).
Proof.
  intros Hm s tr. destruct (Hm s tr) as [tr' Ht]. unfold ignore. rewrite Ht.
  destruct (m2 s) as [[a|e|] s']; cbn; eauto.
Qed.

Lemma erases_for_each {A} (b1 : A -> stM Error (S * list S) unit) b2 xs :
  (forall x, erases (b1 x) (b2 x)) -> erases (for_each b1 xs) (for_each b2 xs).
Proof.
  intros Hb. induction xs as [|x xs IH]; [intros s tr; by exists tr|].
  cbn [for_each]. by apply erases_bind.
Qed.

Ltac erase :=
  repeat first
    [ apply erases_record
    | apply erases_lift
    | apply (erases_lift (Ok _))
    | apply (erases_lift (Err _))
    | apply erases_bind; [|intros ?]
    | apply erases_on_err
    | apply erases_ignore
    | apply erases_for_each; intros ?
    | match goal with
      | |- erases (match ?x with _ => _ end) _ => destruct x
      end ].

Lemma erases_load_mapped {heap : Heap} img fd page :
  erases (load_mapped (vm:=recording) img fd page) (load_mapped (vm:=vm) img fd page).
Proof.
  unfold load_mapped, reserve_mapped, fill_mapped, fill_mapped_seg, sync_zeroed_seg, unload. erase.
Qed.

(** *** Programs that keep an invariant of the record *)

Context {laws : VmLaws S}.

Definition keeps {A} (I : S * list S -> Prop) (m : stM Error (S * list S) A) : Prop :=
  forall st a st', I st -> m st = (Ok a, st') -> I st'.

Lemma keeps_lift {A} I (m : outcome Error A) : keeps I (lift m).
Proof. intros st a st' HI. unfold lift. by intros [= _ <-]. Qed.

Lemma keeps_ret {A} I (a : A) : keeps I (mret a).
Proof. intros st b st' HI. by intros [= _ <-]. Qed.

Lemma keeps_bind {A B} I m (f : A -> stM Error (S * list S) B) :
  keeps I m -> (forall a, keeps I (f a)) -> keeps I (m ≫= f).
Proof. intros Hm Hf st b st' HI (a & s1 & H1 & H2)%st_bind_Ok. by eapply Hf, H2; eapply Hm. Qed.

Lemma keeps_on_err {A} I (m : stM Error (S * list S) A) c : keeps I m -> keeps I (on_err m c).
Proof.
  intros Hm st a st' HI. unfold on_err. destruct (m st) as [[b|e|] s1] eqn:Hr.
  - intros [= <- <-]. by eapply Hm.
  - by destruct (c s1) as [[| |] ?].
  - done.
Qed.

Lemma keeps_for_each {A} I (body : A -> stM Error (S * list S) unit) xs :
  (forall x, x ∈ xs -> keeps I (body x)) -> keeps I (for_each body xs).
Proof.
  induction xs as [|x xs IH]; intros Hb; cbn [for_each]; [apply keeps_ret|].
  apply keeps_bind; [apply Hb; by left|]. intros _. apply IH. intros y Hy. apply Hb. by right.
Qed.

(** *** Calls confined to the reservation *)

Section Confined.
Variables (fd : Z) (data : list byte) (ra rl : Z).

Definition all_mapped (s : S) : Prop := forall x, within ra rl x -> is_Some (view s x).

Definition held (st : S * list S) : Prop :=
  vm_inv st.1 /\ fd_data st.1 fd = Some data /\ all_mapped st.1 /\ Forall all_mapped st.2 /\ st.2 <> [].

Lemma held_record {A} (m : stM Error S A) :
  (forall s a s', vm_inv s -> fd_data s fd = Some data -> all_mapped s -> m s = (Ok a, s') ->
     vm_inv s' /\ fd_data s' = fd_data s /\ forall x, is_Some (view s x) -> is_Some (view s' x)) ->
  keeps held (record m).
Proof.
  intros Hm [s tr] a [s' tr'] (Hi & Hfd & Hmap & Htr & _). unfold record.
  destruct (m s) as [r s1] eqn:Hr. intros [= -> -> <-].
  destruct (Hm s a s' Hi Hfd Hmap Hr) as (Hi' & Hfd' & Hkeep).
  assert (Hmap' : all_mapped s') by (intros x Hx; by apply Hkeep, Hmap).
  split; [done|]. cbn. split; [by rewrite Hfd'|]. split; [done|]. split; [by constructor|done].
Qed.

Lemma keeps_map_exact a len prot src :
  0 <= a -> (page_size | a) -> (page_size | len) -> 0 < len <= max_len -> a + len < 2 ^ 64 -> prot_ok prot ->
  ra <= a -> a + len <= ra + rl ->
  match src with
  | Anon => True
  | File f off => (0 <= off <= Z.of_nat (length data) /\ off + len < Z.of_nat (length data) + page_size) /\ f = fd
  end ->
  keeps held (vm_map (Vm:=recording) (Exact a) len prot src).
Proof.
  intros H0 Da Dl Hl Hu Hprot Hin1 Hin2 Hsrc. apply held_record. intros s r s' Hi Hfd Hmap Hr.
  pose proof (law_map_exact s a len prot src Hi H0 Da Dl Hl Hu Hprot) as Hlaw.
  unfold wp in Hlaw. rewrite Hr in Hlaw. destruct Hlaw as (_ & Hi' & Hfd' & _ & _ & Hv).
  { intros x Hx. apply Hmap. unfold within in *. lia. }
  { destruct src as [|f off]; [done|]. destruct Hsrc as [? ->]. by exists data. }
  split; [by eapply step_inv|]. split; [done|]. intros x Hx. rewrite Hv. by case_decide.
Qed.

Lemma keeps_zero z zl :
  0 <= z -> 0 < zl -> ra <= z -> z + zl <= ra + rl -> keeps held (vm_zero (Vm:=recording) z zl).
Proof.
  intros Hz Hl Hlo Hhi. apply held_record. intros s [] s' Hi Hfd Hmap Hr.
  assert (Hin : forall x, within z zl x -> is_Some (view s x)) by (intros x Hx; apply Hmap; unfold within in *; lia).
  destruct (law_zero_keeps s z zl s' Hi Hz Hl Hin Hr) as (? & ? & Hv).
  split; [done|]. split; [done|]. intros x. by rewrite Hv.
Qed.

Lemma keeps_protect a len prot : keeps held (vm_protect (Vm:=recording) a len prot).
Proof.
  apply held_record. intros s [] s' Hi Hfd _ Hr.
  destruct (law_protect_keeps s a len prot s' Hi Hr) as (? & ? & Hv).
  split; [done|]. split; [done|]. intros x. by rewrite Hv.
Qed.

Lemma keeps_icache a len : keeps held (vm_icache_sync (Vm:=recording) a len).
Proof.
  apply held_record. intros s [] s' Hi Hfd _ Hr. pose proof (law_icache s a len Hi) as Hlaw.
  unfold wp in Hlaw. rewrite Hr in Hlaw. destruct Hlaw as ([[? _] _] & ? & _ & Hv).
  split; [done|]. split; [done|]. intros x. by rewrite Hv.
Qed.
End Confined.

Section Fill.
Variables (img : Image) (pl : LoadPlan) (fd : Z) (data : list byte).
Hypothesis wf : Image_wf page_size img.
Hypothesis ok : plan_ok page_size img pl.
Hypothesis len_ok : reserve_len pl <= max_len.
Hypothesis covered : file_covers img data.
Abbreviation kept := (held fd data (reserve_addr pl) (reserve_len pl)).

Lemma keeps_file_map ph : ph ∈ load_phdrs img ->
  forall p f, prot_ok p -> seg_file page_size (bias pl) ph = Some f ->
  keeps kept (vm_map (Vm:=recording) (Exact (f_addr f)) (f_len f) p (File fd (f_off f))).
Proof.
  intros Hph p f Hprot. unfold seg_file. destruct (Z.ltb_spec 0 (p_filesz ph)) as [Hf|]; [|done].
  intros [= <-]. cbn [f_addr f_len f_off].
  destruct (seg_facts img pl wf ok len_ok ph Hph) as (H0 & H1 & H2 & H3 & D1 & D2 & D3 & Hlen & _).
  destruct (seg_order_of page_size img pl law_page wf ok ph Hph) as (O1 & _).
  destruct (load_phdr_in page_size img wf ph Hph) as [Hr Hl].
  destruct (seg_offset page_size law_page (bias pl) ph (po_bias _ _ _ ok) Hr Hl Hf) as (Ho & _ & _).
  destruct (po_inside _ _ _ ok ph Hph). destruct (po_bounds _ _ _ ok).
  specialize (covered ph Hph Hf).
  pose proof (rup_bounds page_size (page_pos page_size law_page) (p_vaddr ph + bias pl + p_filesz ph)).
  unfold seg_vaddr, seg_fmap_end, seg_fend, fend in *.
  apply keeps_map_exact; try done; try lia. by apply Z.divide_sub_r.
Qed.

Lemma keeps_anon_map ph : ph ∈ load_phdrs img ->
  forall p a, prot_ok p -> seg_anon page_size (bias pl) ph = Some a ->
  keeps kept (vm_map (Vm:=recording) (Exact (a_addr a)) (a_len a) p Anon).
Proof.
  intros Hph p a Hprot. unfold seg_anon.
  destruct (Z.ltb_spec (seg_file_end page_size (bias pl) ph) (seg_end page_size (bias pl) ph)); [|done].
  intros [= <-]. cbn [a_addr a_len].
  destruct (seg_facts img pl wf ok len_ok ph Hph) as (H0 & H1 & H2 & H3 & D1 & D2 & D3 & Hlen & _).
  assert (Hd : (page_size | seg_file_end page_size (bias pl) ph)) by (unfold seg_file_end; by case_match).
  assert (seg_start page_size (bias pl) ph <= seg_file_end page_size (bias pl) ph)
    by (unfold seg_file_end; case_match; lia).
  destruct (po_inside _ _ _ ok ph Hph). destruct (po_bounds _ _ _ ok).
  apply keeps_map_exact; try done; try lia. by apply Z.divide_sub_r.
Qed.

Lemma keeps_zero_tail ph : ph ∈ load_phdrs img ->
  forall z, seg_zero page_size (bias pl) ph = Some z ->
  keeps kept (vm_zero (Vm:=recording) (a_addr z) (a_len z)).
Proof.
  intros Hph z. unfold seg_zero.
  destruct (_ && _) eqn:Hc; [|done]. intros [= <-]. cbn [a_addr a_len].
  destruct (seg_facts img pl wf ok len_ok ph Hph) as (H0 & H1 & H2 & _).
  destruct (po_inside _ _ _ ok ph Hph). destruct (po_bounds _ _ _ ok). apply keeps_zero; lia.
Qed.

Lemma keeps_fill_mapped : keeps kept (fill_mapped (vm:=recording) img fd pl).
Proof.
  assert (Hseg : forall seg, seg ∈ segments pl ->
    exists i ph, ph ∈ load_phdrs img /\ seg = seg_plan page_size (bias pl) i ph).
  { intros seg (k & Hk)%list_elem_of_lookup.
    destruct (segments_lookup page_size img pl ok _ _ Hk) as (i & ph & _ & Hph & _ & ->).
    apply list_elem_of_lookup_2 in Hph. eauto. }
  unfold fill_mapped. apply keeps_bind; [|intros _]; apply keeps_for_each;
    intros seg (i & ph & Hph & ->)%Hseg.
  - unfold fill_mapped_seg. cbn [file zero anon prot seg_plan].
    apply keeps_bind; [apply keeps_lift|intros _]. apply keeps_bind; [apply keeps_lift|intros _].
    apply keeps_bind; [|intros _; apply keeps_bind; [|intros _; apply keeps_bind; [|intros _]]].
    + destruct (seg_file _ _ ph) as [f|] eqn:Hf; [|apply keeps_ret].
      apply keeps_bind; [apply (keeps_file_map ph); [done| |done]; apply window_prot_ok|intros _; apply keeps_ret].
    + destruct (seg_zero _ _ ph) as [z|] eqn:Hz; [by apply (keeps_zero_tail ph)|apply keeps_ret].
    + destruct (seg_anon _ _ ph) as [a|] eqn:Ha; [|apply keeps_ret].
      apply keeps_bind; [apply (keeps_anon_map ph); [done| |done]; apply prot_of_ok|intros _; apply keeps_ret].
    + destruct (needs_write_window _); [|apply keeps_ret].
      apply keeps_bind; [apply keeps_lift|intros [? ?]]. apply keeps_bind; [apply keeps_lift|intros ?].
      apply keeps_protect.
  - unfold sync_zeroed_seg. apply keeps_bind; [apply keeps_lift|intros ?].
    destruct (is_exec _); [|apply keeps_ret]. cbn [zero seg_plan].
    destruct (seg_zero _ _ ph); [apply keeps_icache|apply keeps_ret].
Qed.
End Fill.

(** A reservation that succeeds is one call. *)
Lemma record_Ok {A} (m : stM Error S A) s tr a s' tr' :
  record m (s, tr) = (Ok a, (s', tr')) <-> m s = (Ok a, s') /\ tr' = s' :: tr.
Proof. unfold record. destruct (m s) as [r s1]. naive_solver. Qed.

Lemma lift_Ok {A} {T} (m : outcome Error A) (s : T) a s' :
  lift m s = (Ok a, s') <-> m = Ok a /\ s' = s.
Proof. unfold lift. naive_solver. Qed.

Lemma reserve_trace img lo n s0 p s1 tr1 :
  reserve_mapped (vm:=recording) img page_size lo n (s0, []) = (Ok p, (s1, tr1)) ->
  reserve_mapped (vm:=vm) img page_size lo n s0 = (Ok p, s1) /\ tr1 = [s1].
Proof.
  unfold reserve_mapped. destruct (e_type (ehdr img) =? ET_DYN).
  - intros (a & [s2 tr2] & [Hm ->]%record_Ok & [= <- <- <-])%st_bind_Ok. split; [|done].
    apply st_bind_Ok. by exists a, s2.
  - intros ([l h] & st2 & [Hm ->]%lift_Ok & Hrest)%st_bind_Ok.
    apply st_bind_Ok in Hrest as (sp & st3 & [Hm3 ->]%lift_Ok & Hrest).
    apply st_bind_Ok in Hrest as (a & [s4 tr4] & [Hm4 ->]%record_Ok & Hrest).
    destruct (a =? lo) eqn:Ha.
    + injection Hrest as <- <- <-. split; [|done].
      apply st_bind_Ok. exists (l, h), s0. split; [by apply lift_Ok|].
      apply st_bind_Ok. exists sp, s0. split; [by apply lift_Ok|].
      apply st_bind_Ok. exists a, s4. split; [done|]. by rewrite Ha.
    + by apply st_bind_Ok in Hrest as (u & st6 & _ & Hbad).
Qed.

(** ** The theorem *)

Section Claim.
Context {heap : Heap}.
Variables (img : Image) (fd : Z) (data : list byte) (lo hi n : Z) (s0 : S).

(** C25. Not even briefly: if loading with mappings succeeds, the same run on
    the recording address space ends in the same result and state, and in the
    state after every single call it made, from the reservation to the end, every
    address of the image's reservation is mapped. *)
Theorem never_unreserved ld s' :
  can_map_files = true -> Image_wf page_size img -> vm_inv s0 -> fd_data s0 fd = Some data -> file_covers img data ->
  va_span img page_size = Ok (lo, hi) -> lo < hi -> reservation_len img page_size = Ok n ->
  room s0 n -> room s0 (hi - lo) ->
  load_mapped img fd page_size s0 = (Ok ld, s') ->
  exists tr, load_mapped (vm:=recording) img fd page_size (s0, []) = (Ok ld, (s', tr)) /\
    tr <> [] /\
    Forall (fun s => forall x, within (reserve_addr (lplan ld)) (reserve_len (lplan ld)) x ->
              is_Some (view s x)) tr.
Proof.
  intros Hcan Hwf Hinv Hfd Hc Hspan Hlt Hresv Hr1 Hr2 Hrun.
  destruct (erases_load_mapped img fd page_size s0 []) as [tr Htr].
  rewrite Hrun in Htr. cbn [fst snd] in Htr. exists tr. split; [done|].
  revert Htr. unfold load_mapped at 1.
  intros ([lo' hi'] & st1 & H1 & Htr)%st_bind_Ok. unfold lift in H1.
  rewrite Hspan in H1. injection H1 as <- <- <-.
  apply st_bind_Ok in Htr as (n' & st1 & H1 & Htr). unfold lift in H1. rewrite Hresv in H1.
  injection H1 as <- <-. apply st_bind_Ok in Htr as (p & [s1 tr1] & Hres & Htr).
  pose proof (wp_reserve img lo hi n s0 Hcan Hwf Hinv Hspan Hlt Hresv Hr1 Hr2) as Hwp.
  pose proof (reserve_trace img lo n s0 p s1 tr1 Hres) as Hs1.
  destruct Hs1 as [Hs1 ->]. unfold wp in Hwp. rewrite Hs1 in Hwp.
  destruct Hwp as [Hi1 Hfd1 Hp Hkind Hmax Hfree Hv1].
  apply st_bind_Ok in Htr as (pl & st2 & Hpl & Htr). unfold lift in Hpl. injection Hpl as Hpl <-.
  destruct (plan_taken img lo hi n s0 Hwf Hspan Hresv Hr1 p pl Hp Hpl) as [Hok Ht].
  rewrite <- Ht in *. cbn [fst snd] in *.
  apply st_bind_Ok in Htr as (u & [s2 tr2] & Hfill & Hend). injection Hend as Hld _ <-.
  subst ld. cbn [lplan] in *.
  assert (Hmap1 : all_mapped (reserve_addr pl) (reserve_len pl) s1)
    by (intros x Hx; by rewrite Hv1, decide_True).
  destruct (keeps_on_err _ _ (unload (vm:=recording) (MkLoaded pl false))
    (keeps_fill_mapped img pl fd data Hwf Hok Hmax Hc) (s1, [s1]) u (s2, tr2)) as (_ & _ & _ & Hall & Hne);
    [|done|done].
  split; [by eapply step_inv|]. cbn [fst snd]. split; [by rewrite Hfd1|]. split; [done|]. by repeat constructor.
Qed.
End Claim.
End Recording.
