(* ===== verification/FakeVm.v ===== *)
(** * The model address space of the test suite ([rust/src/testutil.rs], [mod vm])

    [FakeVm] mimics Unikraft's allocator: placement is first-fit from a fixed
    base.  Its [BTreeMap]s are lists in ascending key order. *)

From Stdlib Require Import Strings.Byte.
From stdpp Require Import base numbers option strings sets list.
From S2P Require Import Prelude Err Elf Layout Loader.

(** ** [BTreeMap<u64, _>] *)

Section BTree.
Context {A : Type}.
Implicit Types (l : list (Z * A)).

Fixpoint bt_get (k : Z) l : option A :=
  match l with
  | [] => None
  | (j, v) :: l => if k =? j then Some v else bt_get k l
  end.

(** [insert]: replaces the value of an existing key. *)
Fixpoint bt_insert (k : Z) (v : A) l : list (Z * A) :=
  match l with
  | [] => [(k, v)]
  | (j, w) :: l =>
    if k <? j then (k, v) :: (j, w) :: l
    else if k =? j then (k, v) :: l
    else (j, w) :: bt_insert k v l
  end.

Fixpoint bt_remove (k : Z) l : list (Z * A) :=
  match l with
  | [] => []
  | (j, w) :: l => if k =? j then l else (j, w) :: bt_remove k l
  end.

(** [*get_mut(k) = v]. *)
Definition bt_set (k : Z) (v : A) l : list (Z * A) :=
  (fun e => if e.1 =? k then (e.1, v) else e) <$> l.

(** [range(..=k).next_back()]. *)
Fixpoint bt_last_le (k : Z) l : option (Z * A) :=
  match l with
  | [] => None
  | (j, w) :: l =>
    match bt_last_le k l with
    | Some e => Some e
    | None => if j <=? k then Some (j, w) else None
    end
  end.
End BTree.

(** ** State *)

Record Region : Type := MkRegion {
  r_len : Z;
  r_prot : Z;
  r_data : list byte;
  r_file : option (Z * Z)
}.

Inductive Op : Type :=
| OpMap (addr len prot : Z)
| OpUnmap (addr len : Z)
| OpProtect (addr len prot : Z)
| OpZero (addr len : Z)
| OpIcache (addr len : Z).

(** [State], with the thread-local [FILES] next to it. *)
Record State : Type := MkState {
  st_base : Z;
  st_regions : list (Z * Region);
  st_log : list Op;
  st_heap : Z;
  st_files : list (Z * list byte)
}.

Definition fake_page : Z := 4096.

(** [FakeVm::new]. *)
Definition fake_new : State := MkState 0x10000000 [] [] 0x800000000000 [].

Definition set_regions (l : list (Z * Region)) (s : State) : State :=
  MkState (st_base s) l (st_log s) (st_heap s) (st_files s).
Definition push_log (o : Op) (s : State) : State :=
  MkState (st_base s) (st_regions s) (st_log s ++ [o]) (st_heap s) (st_files s).
Definition set_heap (h : Z) (s : State) : State :=
  MkState (st_base s) (st_regions s) (st_log s) h (st_files s).

(** [install] and [find_fd]. *)
Definition install (fd : Z) (bytes : list byte) (s : State) : State :=
  MkState (st_base s) (st_regions s) (st_log s) (st_heap s) (bt_insert fd bytes (st_files s)).
Definition find_fd (data : list byte) (s : State) : option Z :=
  fst <$> head (filter (fun e => e.2 = data) (st_files s)).

(** ** Observations *)

Definition ops (s : State) : list Op := st_log s.
Definition region_list (s : State) : list (Z * Z * Z) :=
  (fun e => (e.1, r_len e.2, r_prot e.2)) <$> st_regions s.

(** [data[o..o + n]] with a [u64] length. *)
Definition sub_data {E : Type} (d : list byte) (o n : Z) : outcome E (list byte) :=
  slice d (Z.to_nat o) (Z.to_nat n).

Definition fake_read (s : State) (addr len : Z) : outcome Error (list byte) :=
  match bt_last_le addr (st_regions s) with
  | None => Panic
  | Some (start, r) =>
    stop ← add64 addr len;
    rend ← add64 start (r_len r);
    if rend <? stop then Panic else sub_data (r_data r) (addr - start) len
  end.

Definition prot_at (s : State) (addr : Z) : outcome Error Z :=
  match bt_last_le addr (st_regions s) with
  | None => Panic
  | Some (start, r) =>
    rend ← add64 start (r_len r);
    if addr <? rend then Ok (r_prot r) else Panic
  end.

Definition is_mapped (s : State) (addr : Z) : outcome Error bool :=
  match bt_last_le addr (st_regions s) with
  | None => Ok false
  | Some (start, r) => rend ← add64 start (r_len r); Ok (addr <? rend)
  end.

(** ** Carving a range out *)

(** The keys of the regions that meet [addr, end). *)
Fixpoint hits (addr stop : Z) (l : list (Z * Region)) : outcome Error (list Z) :=
  match l with
  | [] => Ok []
  | (s, r) :: l =>
    if s <? stop then
      e ← add64 s (r_len r);
      rest ← hits addr stop l;
      Ok (if addr <? e then s :: rest else rest)
    else Ok []
  end.

(** The body of the loop of [punch]. *)
Definition punch_one (addr stop s : Z) (l : list (Z * Region)) : outcome Error (list (Z * Region)) :=
  match bt_get s l with
  | None => Panic
  | Some r =>
    let l := bt_remove s l in
    e ← add64 s (r_len r);
    l ← (if s <? addr then
           d ← sub_data (r_data r) 0 (addr - s);
           Ok (bt_insert s (MkRegion (addr - s) (r_prot r) d (r_file r)) l)
         else Ok l);
    if stop <? e then
      o ← sub64 stop s;
      d ← (if Z.of_nat (length (r_data r)) <? o then Panic else Ok (drop (Z.to_nat o) (r_data r)));
      f ← match r_file r with
          | None => Ok None
          | Some (fd, off) => off ← add64 off o; Ok (Some (fd, off))
          end;
      Ok (bt_insert stop (MkRegion (e - stop) (r_prot r) d f) l)
    else Ok l
  end.

Fixpoint punch_all (addr stop : Z) (hs : list Z) (l : list (Z * Region)) :
    outcome Error (list (Z * Region)) :=
  match hs with
  | [] => Ok l
  | s :: hs => l ← punch_one addr stop s l; punch_all addr stop hs l
  end.

Definition punch (addr len : Z) (l : list (Z * Region)) : outcome Error (list (Z * Region)) :=
  stop ← add64 addr len;
  hs ← hits addr stop l;
  punch_all addr stop hs l.

(** ** Placement *)

Fixpoint first_fit_from (len cur : Z) (l : list (Z * Region)) : outcome Error Z :=
  match l with
  | [] => Ok cur
  | (s, r) :: l =>
    e ← add64 s (r_len r);
    if e <=? cur then first_fit_from len cur l
    else
      c ← add64 cur len;
      if c <=? s then Ok cur else first_fit_from len e l
  end.

Definition first_fit (s : State) (len : Z) : outcome Error Z :=
  first_fit_from len (st_base s) (st_regions s).

Definition would_place (s : State) (len : Z) : outcome Error Z := first_fit s len.

(** Whether [[a, stop)] is free: [range(..stop).all(..)], which stops at the
    first region that is in the way. *)
Fixpoint all_clear (a stop : Z) (l : list (Z * Region)) : outcome Error bool :=
  match l with
  | [] => Ok true
  | (s, r) :: l =>
    if s <? stop then
      e ← add64 s (r_len r);
      if (e <=? a) || (stop <=? s) then all_clear a stop l else Ok false
    else Ok true
  end.

(** ** The operations *)

(** [vec![0u8; len as usize]]: a capacity beyond [isize::MAX] panics. *)
Definition zeroed {E : Type} (len : Z) : outcome E (list byte) :=
  if len <? 2 ^ 63 then Ok (replicate (Z.to_nat len) x00) else Panic.

Definition map_data (files : list (Z * list byte)) (len : Z) (src : MapSrc) : outcome Error (list byte) :=
  match src with
  | Anon => zeroed len
  | File fd off =>
    match bt_get fd files with
    | None => Panic
    | Some file =>
      d ← zeroed len;
      let n := Z.min len (saturating_sub (Z.of_nat (length file)) off) in
      s ← sub_data file off n;
      Ok (s ++ drop (Z.to_nat n) d)
    end
  end.

Definition fake_map (at_ : Where) (len prot : Z) (src : MapSrc) : stM Error State Z := fun s =>
  if negb (len mod fake_page =? 0) then (Panic, s) else
  match (match at_ with
         | Anywhere => a ← first_fit s len; Ok (a, st_regions s)
         | Hint a =>
           stop ← add64 a len;
           free ← all_clear a stop (st_regions s);
           a ← (if (free : bool) then Ok a else first_fit s len);
           Ok (a, st_regions s)
         | Exact a => l ← punch a len (st_regions s); Ok (a, l)
         end) with
  | Ok (addr, l) =>
    if negb (addr mod fake_page =? 0) then (Panic, set_regions l s) else
    match map_data (st_files s) len src with
    | Ok d =>
      let f := match src with Anon => None | File fd off => Some (fd, off) end in
      (Ok addr, push_log (OpMap addr len prot)
                  (set_regions (bt_insert addr (MkRegion len prot d f) l) s))
    | Err e => (Err e, set_regions l s)
    | Panic => (Panic, set_regions l s)
    end
  | Err e => (Err e, s)
  | Panic => (Panic, s)
  end.

Definition fake_unmap (addr len : Z) : stM Error State unit := fun s =>
  match punch addr len (st_regions s) with
  | Ok l => (Ok tt, push_log (OpUnmap addr len) (set_regions l s))
  | Err e => (Err e, s)
  | Panic => (Panic, s)
  end.

Definition set_prot (prot : Z) (r : Region) : Region :=
  MkRegion (r_len r) prot (r_data r) (r_file r).

(** [for s in hits { regions.get_mut(&s).unwrap().prot = prot }]. *)
Fixpoint protect_all (prot : Z) (hs : list Z) (l : list (Z * Region)) :
    outcome Error (list (Z * Region)) :=
  match hs with
  | [] => Ok l
  | s :: hs =>
    match bt_get s l with
    | None => Panic
    | Some r => protect_all prot hs (bt_set s (set_prot prot r) l)
    end
  end.

Definition fake_protect (addr len prot : Z) : stM Error State unit := fun s =>
  match (stop ← add64 addr len;
         hs ← hits addr stop (st_regions s);
         if bool_decide (hs = []) then Panic
         else protect_all prot hs (st_regions s)) with
  | Ok l => (Ok tt, push_log (OpProtect addr len prot) (set_regions l s))
  | Err e => (Err e, s)
  | Panic => (Panic, s)
  end.

(** The region a write goes to: it must hold the whole range and be writable. *)
Definition target_region (addr len : Z) (l : list (Z * Region)) : outcome Error (Z * Region) :=
  match bt_last_le addr l with
  | None => Panic
  | Some (start, r) =>
    stop ← add64 addr len;
    rend ← add64 start (r_len r);
    if rend <? stop then Panic
    else if Z.land (r_prot r) PROT_WRITE =? 0 then Panic
    else Ok (start, r)
  end.

(** [r.data[o..o + d.len()].copy_from_slice(d)]. *)
Definition patch_region (o : Z) (d : list byte) (r : Region) : outcome Error Region :=
  if (Z.to_nat o + length d <=? length (r_data r))%nat
  then Ok (MkRegion (r_len r) (r_prot r)
             (take (Z.to_nat o) (r_data r) ++ d ++ drop (Z.to_nat o + length d) (r_data r)) (r_file r))
  else Panic.

Definition put (addr : Z) (d : list byte) (l : list (Z * Region)) : outcome Error (list (Z * Region)) :=
  '(start, r) ← target_region addr (Z.of_nat (length d)) l;
  r' ← patch_region (addr - start) d r;
  Ok (bt_set start r' l).

Definition fake_write (addr : Z) (d : list byte) : stM Error State unit := fun s =>
  match put addr d (st_regions s) with
  | Ok l => (Ok tt, set_regions l s)
  | Err e => (Err e, s)
  | Panic => (Panic, s)
  end.

Definition fake_zero (addr len : Z) : stM Error State unit := fun s =>
  match put addr (replicate (Z.to_nat len) x00) (st_regions s) with
  | Ok l => (Ok tt, push_log (OpZero addr len) (set_regions l s))
  | Err e => (Err e, s)
  | Panic => (Panic, s)
  end.

Definition fake_icache_sync (addr len : Z) : stM Error State unit := fun s =>
  (Ok tt, push_log (OpIcache addr len) s).

Definition fake_alloc_aligned (align len : Z) : stM Error State Z := fun s =>
  match (h ← add64 (st_heap s) align;
         h ← sub64 h 1;
         m ← sub64 align 1;
         let addr := Z.land h (not64 m) in
         stop ← add64 addr len;
         d ← zeroed len;
         Ok (addr, stop, d)) with
  | Ok (addr, stop, d) =>
    (Ok addr, push_log (OpMap addr len RW)
       (set_regions (bt_insert addr (MkRegion len RW d None) (st_regions s)) (set_heap stop s)))
  | Err e => (Err e, s)
  | Panic => (Panic, s)
  end.

(** [can_map_files] is set by [no_files]. *)
Definition FakeVm (can_map : bool) : Vm State := {|
  page_size := fake_page;
  can_map_files := can_map;
  vm_map := fake_map;
  vm_unmap := fake_unmap;
  vm_protect := fake_protect;
  vm_write := fake_write;
  vm_zero := fake_zero;
  vm_icache_sync := fake_icache_sync;
  vm_alloc_aligned := fake_alloc_aligned;
  vm_free_aligned := fake_unmap
|}.
