(* ===== verification/FakeVmFacts.v ===== *)
(** * The model address space satisfies the laws

    [FakeVm] implements [VmLaws], so everything proved of the loader holds on
    it; the witnesses run the loader there. *)

From Stdlib Require Import Strings.Byte Sorted.
From stdpp Require Import base numbers option strings sets list.
From S2P Require Import Prelude Err Elf Layout Loader VmSpec FakeVm.

(** ** Ordered maps *)

Section BTreeFacts.
Context {A : Type}.
Implicit Types (pre post l : list (Z * A)).

Definition below (k : Z) l : Prop := Forall (fun e => e.1 < k) l.
Definition above (k : Z) l : Prop := Forall (fun e => k < e.1) l.

Lemma bt_get_mid k v pre post : below k pre -> bt_get k (pre ++ (k, v) :: post) = Some v.
Proof.
  induction 1 as [|[j w] pre Hj _ IH]; cbn in *; [by rewrite Z.eqb_refl|].
  by rewrite (proj2 (Z.eqb_neq _ _)) by lia.
Qed.

Lemma bt_remove_mid k v pre post : below k pre -> bt_remove k (pre ++ (k, v) :: post) = pre ++ post.
Proof.
  induction 1 as [|[j w] pre Hj _ IH]; cbn in *; [by rewrite Z.eqb_refl|].
  rewrite (proj2 (Z.eqb_neq _ _)) by lia. by rewrite IH.
Qed.

Lemma bt_insert_mid k v pre post :
  below k pre -> above k post -> bt_insert k v (pre ++ post) = pre ++ (k, v) :: post.
Proof.
  intros Hpre Hpost. induction Hpre as [|[j w] pre Hj _ IH]; cbn in *.
  - destruct Hpost as [|[j w] post Hj _]; [done|]. cbn in *.
    by rewrite (proj2 (Z.ltb_lt _ _)) by lia.
  - rewrite (proj2 (Z.ltb_ge _ _)), (proj2 (Z.eqb_neq _ _)) by lia. by rewrite IH.
Qed.

Lemma bt_get_In k v l : bt_get k l = Some v -> (k, v) ∈ l.
Proof.
  induction l as [|[j w] l IH]; cbn; [done|]. destruct (Z.eqb_spec k j) as [->|].
  - intros [= ->]. by left.
  - intros H. right. auto.
Qed.

(** Every ordered list splits at a key that is not in it. *)
Lemma split_at k l :
  StronglySorted (fun a b => a.1 < b.1) l -> (forall v, (k, v) ∉ l) ->
  exists pre post, l = pre ++ post /\ below k pre /\ above k post.
Proof.
  intros Hs Hk. induction Hs as [|[j w] l Hs IH Hj]; [exists [], []; by repeat constructor|].
  destruct (Z.lt_trichotomy j k) as [Hlt|[->|Hgt]].
  - destruct IH as (pre & post & -> & Hpre & Hpost).
    { intros v Hv. apply (Hk v). by right. }
    exists ((j, w) :: pre), post. split; [done|]. split; [by constructor|done].
  - exfalso. apply (Hk w). by left.
  - exists [], ((j, w) :: l). split; [done|]. split; [constructor|]. constructor; [done|].
    eapply Forall_impl; [exact Hj|]. cbn. intros e. lia.
Qed.

Lemma bt_last_le_mid k v x pre post :
  k <= x -> Forall (fun e => x < e.1) post -> bt_last_le x (pre ++ (k, v) :: post) = Some (k, v).
Proof.
  intros Hk Hpost. induction pre as [|[j w] pre IH]; cbn.
  - replace (bt_last_le x post) with (@None (Z * A)); [by rewrite (proj2 (Z.leb_le _ _)) by lia|].
    induction Hpost as [|[j w] post Hj _ IH]; cbn in *; [done|]. rewrite <- IH.
    by rewrite (proj2 (Z.leb_gt _ _)) by lia.
  - by rewrite IH.
Qed.
End BTreeFacts.

Lemma filter_none {A} (P : A -> Prop) `{forall x, Decision (P x)} l :
  (forall x, x ∈ l -> ~ P x) -> filter P l = [].
Proof.
  induction l as [|x l IH]; intros Hno; [done|]. rewrite filter_cons, decide_False by (apply Hno; by left).
  apply IH. intros y Hy. apply Hno. by right.
Qed.

(** ** Well-formed region lists *)

Record reg_ok (e : Z * Region) : Prop := {
  rk_addr : 0 <= e.1;
  rk_page : (fake_page | e.1);
  rk_len : 0 < r_len e.2 < 2 ^ 63;
  rk_len_page : (fake_page | r_len e.2);
  rk_end : e.1 + r_len e.2 < 2 ^ 64;
  rk_data : Z.of_nat (length (r_data e.2)) = r_len e.2;
  rk_file : match r_file e.2 with Some (_, off) => 0 <= off /\ off + r_len e.2 < 2 ^ 64 | None => True end
}.

Definition reg_before (p q : Z * Region) : Prop := p.1 + r_len p.2 <= q.1.

Record regs_ok (l : list (Z * Region)) : Prop := {
  rg_sorted : StronglySorted reg_before l;
  rg_each : Forall reg_ok l
}.

Definition inside (e : Z * Region) (x : Z) : Prop := within e.1 (r_len e.2) x.
#[global] Instance inside_dec e x : Decision (inside e x).
Proof. unfold inside. apply _. Defined.

Definition cell_of (e : Z * Region) (x : Z) : cell := (r_prot e.2, r_data e.2 !!! Z.to_nat (x - e.1)).

Fixpoint cell_at (l : list (Z * Region)) (x : Z) : option cell :=
  match l with
  | [] => None
  | e :: l => if decide (inside e x) then Some (cell_of e x) else cell_at l x
  end.

Lemma cell_at_None l x : cell_at l x = None <-> forall e, e ∈ l -> ~ inside e x.
Proof.
  induction l as [|e l IH]; cbn.
  - split; [|done]. intros _ e He. by apply not_elem_of_nil in He.
  - case_decide as Hd.
    + split; [done|]. intros H. exfalso. by apply (H e (list_elem_of_here _ _)).
    + rewrite IH. split.
      * intros H f [->|Hf]%elem_of_cons; auto.
      * intros H f Hf. apply H. by right.
Qed.

Lemma regs_ok_cons e l :
  regs_ok (e :: l) <-> reg_ok e /\ regs_ok l /\ Forall (reg_before e) l.
Proof.
  split.
  - intros [Hs He]. apply StronglySorted_inv in Hs as [? ?]. apply Forall_cons in He as [? ?].
    split; [done|]. split; [by split|done].
  - intros (He & [Hs Hf] & Hb). split; constructor; done.
Qed.

Lemma cell_at_in l e x : regs_ok l -> e ∈ l -> inside e x -> cell_at l x = Some (cell_of e x).
Proof.
  induction l as [|f l IH]; intros Hok He Hx; [by apply not_elem_of_nil in He|].
  apply regs_ok_cons in Hok as (Hf & Hok & Hb). cbn.
  apply elem_of_cons in He as [->|He]; [by rewrite decide_True|].
  rewrite decide_False; [auto|]. rewrite Forall_forall in Hb. specialize (Hb e He).
  unfold inside, within, reg_before in *. lia.
Qed.

Lemma cell_at_Some l x c :
  regs_ok l -> cell_at l x = Some c <-> exists e, e ∈ l /\ inside e x /\ c = cell_of e x.
Proof.
  intros Hok. split.
  - intros Hc. assert (Hex : exists e, e ∈ l /\ inside e x).
    { clear Hok. induction l as [|e l IH]; cbn in Hc; [done|]. case_decide.
      - exists e. split; [by left|done].
      - destruct (IH Hc) as (f & ? & ?). exists f. split; [by right|done]. }
    destruct Hex as (e & He & Hx). exists e. split; [done|]. split; [done|].
    rewrite (cell_at_in l e x) in Hc by done. by injection Hc.
  - intros (e & He & Hx & ->). by apply cell_at_in.
Qed.

Lemma reg_lookup l e : regs_ok l -> e ∈ l -> reg_ok e.
Proof. intros [_ He] Hin. rewrite Forall_forall in He. auto. Qed.

Lemma regs_keys l : regs_ok l -> StronglySorted (fun a b => a.1 < b.1) l.
Proof.
  induction l as [|e l IH]; intros Hok; [constructor|].
  apply regs_ok_cons in Hok as (He & Hok & Hb). constructor; [auto|].
  eapply Forall_impl; [exact Hb|]. intros f. unfold reg_before. pose proof (rk_len _ He). lia.
Qed.

Lemma regs_ok_split pre e post :
  regs_ok (pre ++ e :: post) ->
  reg_ok e /\ below e.1 pre /\ above e.1 post /\ Forall (fun f => reg_before f e) pre /\
  Forall (reg_before e) post.
Proof.
  induction pre as [|f pre IH]; cbn; intros Hok.
  - apply regs_ok_cons in Hok as (He & Hok & Hb). split; [done|]. split; [constructor|]. split; [|by split].
    eapply Forall_impl; [exact Hb|]. intros g. unfold reg_before. pose proof (rk_len _ He). lia.
  - apply regs_ok_cons in Hok as (Hf & Hok & Hb).
    destruct (IH Hok) as (He & H1 & H2 & H3 & H4). split; [done|].
    apply Forall_app in Hb as [_ [Hbe _]%Forall_cons]. pose proof (rk_len _ Hf).
    split; [constructor; [unfold reg_before in Hbe; lia|done]|]. split; [done|].
    split; [by constructor|done].
Qed.

Lemma regs_ok_app l1 l2 :
  regs_ok (l1 ++ l2) <-> regs_ok l1 /\ regs_ok l2 /\ forall e f, e ∈ l1 -> f ∈ l2 -> reg_before e f.
Proof.
  induction l1 as [|e l1 IH]; cbn.
  - split; [|naive_solver]. intros H. split; [by repeat constructor|]. split; [done|].
    intros e f He. by apply not_elem_of_nil in He.
  - rewrite !regs_ok_cons, IH, Forall_app, !Forall_forall. split.
    + intros (He & (H1 & H2 & H3) & Hb1 & Hb2). split_and!; try done.
      intros g f [->|Hg]%elem_of_cons Hf; auto.
    + intros ((He & H1 & Hb) & H2 & H3). split_and!; try done.
      * intros g f Hg Hf. apply H3; [by right|done].
      * intros f Hf. apply H3; [by left|done].
Qed.

(** ** Carving *)

Section Carve.
Variables (addr stop : Z).
Hypothesis order : addr < stop.
Hypothesis addr_page : (fake_page | addr).
Hypothesis stop_page : (fake_page | stop).
Hypothesis addr_nonneg : 0 <= addr.

Definition hit (e : Z * Region) : Prop := e.1 < stop /\ addr < e.1 + r_len e.2.
#[local] Instance hit_dec e : Decision (hit e).
Proof. unfold hit. apply _. Defined.

Definition left_piece (e : Z * Region) : list (Z * Region) :=
  if e.1 <? addr
  then [(e.1, MkRegion (addr - e.1) (r_prot e.2) (take (Z.to_nat (addr - e.1)) (r_data e.2)) (r_file e.2))]
  else [].
Definition right_piece (e : Z * Region) : list (Z * Region) :=
  if stop <? e.1 + r_len e.2
  then [(stop, MkRegion (e.1 + r_len e.2 - stop) (r_prot e.2) (drop (Z.to_nat (stop - e.1)) (r_data e.2))
                ((fun '(fd, off) => (fd, off + (stop - e.1))) <$> r_file e.2))]
  else [].
Definition carve (e : Z * Region) : list (Z * Region) :=
  if decide (hit e) then left_piece e ++ right_piece e else [e].

(** A piece of a region: inside it, outside the carved range, same cells. *)
Record piece (e f : Z * Region) : Prop := {
  pc_ok : reg_ok f;
  pc_low : e.1 <= f.1;
  pc_high : f.1 + r_len f.2 <= e.1 + r_len e.2;
  pc_out : f.1 + r_len f.2 <= addr \/ stop <= f.1;
  pc_cell : forall x, inside f x -> cell_of f x = cell_of e x
}.

Lemma carve_pieces e f : reg_ok e -> f ∈ carve e -> piece e f.
Proof.
  intros [H0 Dp Hl Dl Hend Hd Hf]. unfold carve, left_piece, right_piece.
  destruct (decide (hit e)) as [[Hh1 Hh2]|Hno].
  2: { intros ->%list_elem_of_singleton. unfold hit in Hno. split; try done; try lia. }
  intros [Hin|Hin]%elem_of_app.
  - destruct (Z.ltb_spec e.1 addr) as [Hlt|]; [|by apply not_elem_of_nil in Hin].
    apply list_elem_of_singleton in Hin as ->. split; cbn; try lia.
    + split; cbn; try done; try lia.
      * by apply Z.divide_sub_r.
      * rewrite length_take. lia.
      * destruct (r_file e.2) as [[fd off]|]; [lia|done].
    + intros x Hx. unfold cell_of, inside, within in *. cbn in *. f_equal.
      rewrite !list_lookup_total_alt, lookup_take_lt by lia. done.
  - destruct (Z.ltb_spec stop (e.1 + r_len e.2)) as [Hlt|]; [|by apply not_elem_of_nil in Hin].
    apply list_elem_of_singleton in Hin as ->. split; cbn; try lia.
    + split; cbn; try done; try lia.
      * apply Z.divide_sub_r; [by apply Z.divide_add_r|done].
      * rewrite length_drop. lia.
      * destruct (r_file e.2) as [[fd off]|]; cbn; [lia|done].
    + intros x Hx. unfold cell_of, inside, within in *. cbn in *. f_equal.
      rewrite !list_lookup_total_alt, lookup_drop. do 2 f_equal. lia.
Qed.

Lemma carve_cover e x : inside e x -> ~ (addr <= x < stop) -> exists f, f ∈ carve e /\ inside f x.
Proof.
  intros Hx Hout. unfold carve. case_decide as Hh; [|exists e; split; [by left|done]].
  unfold inside, within, hit in *. unfold left_piece, right_piece.
  destruct (Z.lt_ge_cases x addr) as [Hlt|Hge].
  - rewrite (proj2 (Z.ltb_lt e.1 addr)) by lia. eexists. split; [by left|]. cbn. lia.
  - rewrite (proj2 (Z.ltb_lt stop (e.1 + r_len e.2))) by lia. eexists.
    split; [apply elem_of_app; right; by left|]. cbn. lia.
Qed.

Lemma carve_ok e : reg_ok e -> regs_ok (carve e).
Proof.
  intros He. assert (Hall : Forall reg_ok (carve e)).
  { apply Forall_forall. intros f Hf. by destruct (carve_pieces e f He Hf). }
  split; [|done]. unfold carve, left_piece, right_piece. case_decide; [|by repeat constructor].
  destruct (_ <? addr), (stop <? _); repeat constructor. unfold reg_before. cbn. lia.
Qed.

Lemma carve_list_ok l : regs_ok l -> regs_ok (l ≫= carve).
Proof.
  induction l as [|e l IH]; intros Hok; [done|]. cbn.
  apply regs_ok_cons in Hok as (He & Hok & Hb). apply regs_ok_app.
  split; [by apply carve_ok|]. split; [auto|]. intros f g Hf Hg.
  apply list_elem_of_bind in Hg as (e' & Hg & He').
  destruct (carve_pieces e f He Hf) as [_ _ Hh _ _].
  destruct (carve_pieces e' g (reg_lookup l e' Hok He') Hg) as [_ Hlo _ _ _].
  rewrite Forall_forall in Hb. specialize (Hb e' He'). unfold reg_before in *. lia.
Qed.

Lemma carve_cell l x :
  regs_ok l -> cell_at (l ≫= carve) x = if decide (addr <= x < stop) then None else cell_at l x.
Proof.
  intros Hok. pose proof (carve_list_ok l Hok) as Hok'. case_decide as Hd.
  - apply cell_at_None. intros f (e & Hf & He)%list_elem_of_bind Hx.
    destruct (carve_pieces e f (reg_lookup l e Hok He) Hf) as [_ _ _ Ho _].
    unfold inside, within in Hx. lia.
  - destruct (cell_at l x) as [c|] eqn:Hc.
    + apply cell_at_Some in Hc as (e & He & Hx & ->); [|done].
      destruct (carve_cover e x Hx Hd) as (f & Hf & Hfx).
      destruct (carve_pieces e f (reg_lookup l e Hok He) Hf) as [_ _ _ _ Hcell].
      rewrite <- (Hcell x Hfx). apply cell_at_in; [done| |done].
      apply list_elem_of_bind. by exists e.
    + rewrite cell_at_None in Hc. apply cell_at_None. intros f (e & Hf & He)%list_elem_of_bind Hx.
      destruct (carve_pieces e f (reg_lookup l e Hok He) Hf) as [_ Hlo Hhi _ _].
      apply (Hc e He). unfold inside, within in *. lia.
Qed.

Lemma carve_keeps l e : regs_ok l -> e ∈ l -> e.1 + r_len e.2 <= addr \/ stop <= e.1 -> e ∈ l ≫= carve.
Proof.
  intros Hok He Hd. apply list_elem_of_bind. exists e. split; [|done].
  unfold carve. rewrite decide_False; [by left|]. unfold hit. lia.
Qed.

Lemma carve_disjoint l f : regs_ok l -> f ∈ l ≫= carve -> f.1 + r_len f.2 <= addr \/ stop <= f.1.
Proof.
  intros Hok (e & Hf & He)%list_elem_of_bind.
  by destruct (carve_pieces e f (reg_lookup l e Hok He) Hf).
Qed.

(** The loop of [punch] computes the carving. *)

Lemma hits_eq l : regs_ok l -> hits addr stop l = Ok (fst <$> filter hit l).
Proof.
  induction l as [|[s r] l IH]; intros Hok; [done|].
  apply regs_ok_cons in Hok as (He & Hok & Hb). pose proof (rk_end _ He) as Hend. cbn in Hend.
  cbn [hits]. destruct (Z.ltb_spec s stop) as [Hlt|Hge].
  - rewrite add64_small by done. cbn [mbind outcome_bind]. rewrite IH by done. cbn [mbind outcome_bind].
    rewrite filter_cons. destruct (Z.ltb_spec addr (s + r_len r)).
    + by rewrite decide_True.
    + rewrite decide_False; [done|]. unfold hit. cbn. lia.
  - replace (filter hit ((s, r) :: l)) with (@nil (Z * Region)); [done|]. symmetry.
    apply filter_none. rewrite Forall_forall in Hb. pose proof (rk_len _ He) as Hlen. cbn in Hlen.
    intros f [->|Hf]%elem_of_cons; unfold hit; cbn; [lia|].
    specialize (Hb f Hf). unfold reg_before in Hb. cbn in Hb. lia.
Qed.

Lemma punch_one_eq pre e post :
  regs_ok (pre ++ e :: post) -> hit e ->
  punch_one addr stop e.1 (pre ++ e :: post) = Ok (pre ++ carve e ++ post).
Proof.
  intros Hok Hh. destruct (regs_ok_split pre e post Hok) as (He & Hpre & Hpost & _ & Hafter).
  destruct e as [s r]. cbn [fst snd] in *. unfold hit in Hh. cbn in Hh.
  pose proof He as [H0 _ Hl _ Hend Hd Hf]. cbn in *.
  unfold punch_one. rewrite bt_get_mid, bt_remove_mid by done.
  rewrite add64_small by done. cbn [mbind outcome_bind].
  unfold carve. rewrite decide_True by done. unfold left_piece, right_piece. cbn [fst snd].
  assert (Hslice : forall E, sub_data (E:=E) (r_data r) 0 (addr - s) = Ok (take (Z.to_nat (addr - s)) (r_data r)) \/ addr <= s).
  { intros E. destruct (Z.le_gt_cases addr s); [by right|left]. unfold sub_data. apply slice_Ok.
    split; [lia|done]. }
  assert (Hright : forall f, below stop f -> stop < s + r_len r ->
    forall v, bt_insert stop v (pre ++ f ++ post) = pre ++ (f ++ [(stop, v)]) ++ post).
  { intros f Hfc Hst v. rewrite <- !app_assoc. cbn [app]. rewrite (app_assoc pre f post), (app_assoc pre f (_ :: _)).
    apply bt_insert_mid.
    - apply Forall_app. split; [eapply Forall_impl; [exact Hpre|]; cbn; intros; lia|done].
    - eapply Forall_impl; [exact Hafter|]. unfold reg_before. cbn. intros. lia. }
  assert (Hleft : forall v, bt_insert s v (pre ++ post) = pre ++ [(s, v)] ++ post) by (intros v; by apply bt_insert_mid).
  destruct (Z.ltb_spec s addr) as [Hlt|Hge].
  - destruct (Hslice Error) as [->|]; [|lia]. cbn [mbind outcome_bind]. rewrite Hleft.
    destruct (Z.ltb_spec stop (s + r_len r)) as [Hst|]; [|by rewrite app_nil_r].
    rewrite sub64_small by lia. cbn [mbind outcome_bind].
    rewrite (proj2 (Z.ltb_ge (Z.of_nat (length (r_data r))) _)) by lia. cbn [mbind outcome_bind].
    destruct (r_file r) as [[fd off]|]; [rewrite add64_small by lia|]; cbn [mbind outcome_bind];
      (rewrite Hright; [done|apply Forall_singleton; cbn; lia|done]).
  - cbn [mbind outcome_bind].
    destruct (Z.ltb_spec stop (s + r_len r)) as [Hst|]; [|done].
    rewrite sub64_small by lia. cbn [mbind outcome_bind].
    rewrite (proj2 (Z.ltb_ge (Z.of_nat (length (r_data r))) _)) by lia. cbn [mbind outcome_bind].
    destruct (r_file r) as [[fd off]|]; [rewrite add64_small by lia|]; cbn [mbind outcome_bind];
      (rewrite (Hright []); [done|constructor|done]).
Qed.

Lemma punch_all_eq done_ rest :
  regs_ok (done_ ++ rest) ->
  punch_all addr stop (fst <$> filter hit rest) (done_ ++ rest) = Ok (done_ ++ (rest ≫= carve)).
Proof.
  revert done_. induction rest as [|e rest IH]; intros done_ Hok; [done|].
  assert (Hnext : regs_ok ((done_ ++ carve e) ++ rest)).
  { apply regs_ok_app in Hok as (H1 & H2 & H3). apply regs_ok_cons in H2 as (He & H2 & Hb).
    rewrite <- app_assoc. apply regs_ok_app. split; [done|]. split.
    - apply regs_ok_app. split; [by apply carve_ok|]. split; [done|]. intros f g Hf Hg.
      destruct (carve_pieces e f He Hf) as [_ _ Hh _ _]. rewrite Forall_forall in Hb.
      specialize (Hb g Hg). unfold reg_before in *. lia.
    - intros f g Hf [Hg|Hg]%elem_of_app.
      + destruct (carve_pieces e g He Hg) as [_ Hlo _ _ _].
        specialize (H3 f e Hf (list_elem_of_here _ _)). unfold reg_before in *. lia.
      + apply H3; [done|by right]. }
  rewrite filter_cons. destruct (decide (hit e)) as [Hh|Hno].
  - cbn [fmap list_fmap punch_all]. rewrite punch_one_eq by done. cbn [mbind outcome_bind].
    rewrite app_assoc, IH by done. cbn. by rewrite app_assoc.
  - cbn [mbind list_bind]. unfold carve at 1. rewrite decide_False by done.
    assert (Hc : carve e = [e]) by (unfold carve; by rewrite decide_False).
    rewrite Hc in Hnext. specialize (IH (done_ ++ [e]) Hnext).
    rewrite <- !app_assoc in IH. exact IH.
Qed.
End Carve.

Section Punch.
Variables (addr len : Z) (l : list (Z * Region)).
Hypothesis addr_page : (fake_page | addr).
Hypothesis len_page : (fake_page | len).
Hypothesis addr_nonneg : 0 <= addr.
Hypothesis len_pos : 0 < len.
Hypothesis room : addr + len < 2 ^ 64.
Hypothesis ok : regs_ok l.

(** [punch] empties exactly the range it is given, never panics on a
    well-formed list, and leaves other regions alone. *)
Lemma punch_spec :
  exists l', punch addr len l = Ok l' /\ regs_ok l' /\
    (forall x, cell_at l' x = if decide (within addr len x) then None else cell_at l x) /\
    (forall e, e ∈ l' -> e.1 + r_len e.2 <= addr \/ addr + len <= e.1) /\
    (forall e, e ∈ l -> e.1 + r_len e.2 <= addr \/ addr + len <= e.1 -> e ∈ l').
Proof.
  assert (Hd : (fake_page | addr + len)) by (by apply Z.divide_add_r).
  assert (Hlt : addr < addr + len) by lia.
  exists (l ≫= carve addr (addr + len)). split.
  { unfold punch. rewrite add64_small by done. cbn [mbind outcome_bind].
    rewrite hits_eq by done. cbn [mbind outcome_bind].
    apply (punch_all_eq addr (addr + len) Hlt addr_page Hd addr_nonneg [] l ok). }
  split; [by apply carve_list_ok|]. split; [|split].
  - intros x. rewrite (carve_cell addr (addr + len)) by done. done.
  - intros e He. by apply (carve_disjoint addr (addr + len) Hlt addr_page Hd addr_nonneg l).
  - intros e He Hout. by apply (carve_keeps addr (addr + len)).
Qed.
End Punch.

(** ** Inserting into free space *)

Lemma insert_free a r l :
  regs_ok l -> reg_ok (a, r) -> (forall e, e ∈ l -> e.1 + r_len e.2 <= a \/ a + r_len r <= e.1) ->
  regs_ok (bt_insert a r l) /\
  (forall e, e ∈ bt_insert a r l <-> e = (a, r) \/ e ∈ l) /\
  (forall x, cell_at (bt_insert a r l) x =
     if decide (within a (r_len r) x) then Some (cell_of (a, r) x) else cell_at l x).
Proof.
  intros Hok Hr Hfree. pose proof (rk_len _ Hr) as Hlen. cbn in Hlen.
  destruct (split_at a l (regs_keys l Hok)) as (pre & post & -> & Hpre & Hpost).
  { intros v Hv. specialize (Hfree _ Hv). pose proof (rk_len _ (reg_lookup _ _ Hok Hv)) as Hl.
    cbn in *. lia. }
  rewrite bt_insert_mid by done. unfold below, above in *. rewrite Forall_forall in Hpre, Hpost.
  assert (Hok' : regs_ok (pre ++ (a, r) :: post)).
  { apply regs_ok_app in Hok as (H1 & H2 & H3). apply regs_ok_app. split; [done|]. split.
    - apply regs_ok_cons. split; [done|]. split; [done|]. apply Forall_forall. intros e He.
      specialize (Hpost e He). destruct (Hfree e) as [Hb|Hb]; [apply elem_of_app; by right| |done].
      pose proof (rk_len _ (reg_lookup _ _ H2 He)). unfold reg_before. cbn in *. lia.
    - intros e f He [->|Hf]%elem_of_cons; [|by apply H3].
      specialize (Hpre e He). destruct (Hfree e) as [Hb|Hb]; [apply elem_of_app; by left|done|].
      cbn in *. lia. }
  assert (Hin : forall e, e ∈ pre ++ (a, r) :: post <-> e = (a, r) \/ e ∈ pre ++ post) by set_solver.
  split; [done|]. split; [done|]. intros x. case_decide as Hx.
  - by apply cell_at_in; [done|apply Hin; left|].
  - destruct (cell_at (pre ++ post) x) as [c|] eqn:Hc.
    + apply cell_at_Some in Hc as (e & He & Hex & ->); [|done].
      apply cell_at_in; [done|apply Hin; by right|done].
    + rewrite cell_at_None in Hc. apply cell_at_None. intros e [->|He]%Hin; auto.
Qed.

(** ** Placement *)

Lemma first_fit_spec len cur l :
  regs_ok l -> 0 < len -> 0 <= cur -> (fake_page | cur) -> cur + len < 2 ^ 64 ->
  (forall e, e ∈ l -> e.1 + r_len e.2 + len < 2 ^ 64) ->
  exists a, first_fit_from len cur l = Ok a /\ cur <= a /\ (fake_page | a) /\ a + len < 2 ^ 64 /\
    forall e, e ∈ l -> e.1 + r_len e.2 <= a \/ a + len <= e.1.
Proof.
  revert cur. induction l as [|[s r] l IH]; intros cur Hok Hl H0 Hp Hroom Hall; cbn [first_fit_from].
  { exists cur. split_and!; try done; try lia. intros e He. by apply not_elem_of_nil in He. }
  pose proof Hok as Hok0. apply regs_ok_cons in Hok as (He & Hok & Hb).
  pose proof He as [E0 Ep El Elp Eend _ _]. cbn [fst snd] in *. rewrite Forall_forall in Hb.
  rewrite (add64_small s) by done. cbn [mbind outcome_bind].
  assert (Hall' : forall e, e ∈ l -> e.1 + r_len e.2 + len < 2 ^ 64) by (intros e Hin; apply Hall; by right).
  destruct (Z.leb_spec (s + r_len r) cur) as [Hle|Hgt].
  - destruct (IH cur Hok Hl H0 Hp Hroom Hall') as (a & Ha & H1 & H2 & H3 & H4).
    exists a. split_and!; try done. intros e [->|Hin]%elem_of_cons; [left; cbn; lia|auto].
  - rewrite add64_small by done. cbn [mbind outcome_bind].
    destruct (Z.leb_spec (cur + len) s) as [Hfit|Hno].
    + exists cur. split_and!; try done; try lia. intros e [->|Hin]%elem_of_cons; [right; cbn; lia|].
      specialize (Hb e Hin). unfold reg_before in Hb. cbn in Hb. right. lia.
    + specialize (Hall (s, r) (list_elem_of_here _ _)) as Hthis. cbn in Hthis.
      destruct (IH (s + r_len r) Hok Hl ltac:(lia) ltac:(by apply Z.divide_add_r) Hthis Hall')
        as (a & Ha & H1 & H2 & H3 & H4).
      exists a. split_and!; try done; try lia. intros e [->|Hin]%elem_of_cons; [left; cbn; lia|auto].
Qed.

Lemma all_clear_spec a stop l :
  regs_ok l -> exists b, all_clear a stop l = Ok b /\
    (b = true <-> forall e, e ∈ l -> e.1 + r_len e.2 <= a \/ stop <= e.1).
Proof.
  induction l as [|[s r] l IH]; intros Hok; cbn [all_clear].
  { exists true. split; [done|]. split; [|done]. intros _ e He. by apply not_elem_of_nil in He. }
  apply regs_ok_cons in Hok as (He & Hok & Hb). pose proof (rk_end _ He) as Hend. cbn in Hend.
  pose proof (rk_len _ He) as Hlen. cbn in Hlen. rewrite Forall_forall in Hb.
  destruct (Z.ltb_spec s stop) as [Hlt|Hge].
  - rewrite add64_small by done. cbn [mbind outcome_bind].
    destruct (IH Hok) as (b & Hb' & Hiff). destruct ((s + r_len r <=? a) || (stop <=? s)) eqn:Hc.
    + exists b. split; [done|]. rewrite Hiff. split.
      * intros H e [->|Hin]%elem_of_cons; [cbn; lia|auto].
      * intros H e Hin. apply H. by right.
    + exists false. split; [done|]. split; [done|]. intros H.
      specialize (H (s, r) (list_elem_of_here _ _)). cbn in H. lia.
  - exists true. split; [done|]. split; [|done]. intros _ e [->|Hin]%elem_of_cons; [cbn; lia|].
    specialize (Hb e Hin). unfold reg_before in Hb. cbn in Hb. lia.
Qed.

(** ** Updating regions in place *)

Definition region_in (l : list (Z * Region)) (a len : Z) : Prop :=
  exists r, (a, r) ∈ l /\ r_len r = len.

Section Update.
Variables (h : Z * Region -> Region) (l : list (Z * Region)).
Hypothesis ok : regs_ok l.
Hypothesis same : forall e, e ∈ l -> r_len (h e) = r_len e.2 /\
  length (r_data (h e)) = length (r_data e.2) /\ r_file (h e) = r_file e.2.

Abbreviation updated := ((fun e => (e.1, h e)) <$> l).

Lemma update_ok : regs_ok updated.
Proof.
  revert same. induction l as [|e l' IH]; intros Hs; [done|]. cbn.
  apply regs_ok_cons in ok as (He & Hok & Hb). apply regs_ok_cons.
  destruct (Hs e (list_elem_of_here _ _)) as (H1 & H2 & H3). split; [|split].
  - destruct He. by split; cbn; rewrite ?H1, ?H2, ?H3.
  - apply IH; [done|]. intros f Hf. apply Hs. by right.
  - apply Forall_fmap. eapply Forall_impl; [exact Hb|]. intros f. unfold reg_before. cbn. by rewrite H1.
Qed.

Lemma update_cell e x : e ∈ l -> inside e x -> cell_at updated x = Some (cell_of (e.1, h e) x).
Proof.
  intros He Hx. apply cell_at_in; [apply update_ok|apply list_elem_of_fmap; by exists e|].
  unfold inside in *. cbn. by rewrite (proj1 (same e He)).
Qed.

Lemma update_None x : cell_at updated x = None <-> cell_at l x = None.
Proof.
  rewrite !cell_at_None. split.
  - intros H e He Hx. apply (H (e.1, h e)); [apply list_elem_of_fmap; by exists e|].
    unfold inside in *. cbn. by rewrite (proj1 (same e He)).
  - intros H f (e & -> & He)%list_elem_of_fmap Hx. apply (H e He).
    unfold inside in *. cbn in Hx. by rewrite (proj1 (same e He)) in Hx.
Qed.

Lemma update_regions a len : region_in updated a len <-> region_in l a len.
Proof.
  split.
  - intros (r & (e & Heq & He)%list_elem_of_fmap & <-). injection Heq as -> ->.
    exists e.2. destruct e as [b q]. split; [done|]. symmetry. by apply same.
  - intros (r & He & <-). exists (h (a, r)). split; [|by apply (same (a, r))].
    apply list_elem_of_fmap. by exists (a, r).
Qed.
End Update.

Lemma bt_set_fmap k v (l : list (Z * Region)) :
  bt_set k v l = (fun e => (e.1, if e.1 =? k then v else e.2)) <$> l.
Proof.
  unfold bt_set. apply list_fmap_ext. intros i [j w] _. cbn. by destruct (j =? k).
Qed.

Lemma regs_same_key l e f : regs_ok l -> e ∈ l -> f ∈ l -> e.1 = f.1 -> e = f.
Proof.
  intros Hok (i & Hi)%list_elem_of_lookup (j & Hj)%list_elem_of_lookup Heq.
  pose proof (regs_keys l Hok) as Hs.
  destruct (Nat.lt_trichotomy i j) as [Hlt|[->|Hlt]]; [|congruence|];
    [pose proof (StronglySorted_lookup _ _ _ _ _ _ Hs Hlt Hi Hj)
    |pose proof (StronglySorted_lookup _ _ _ _ _ _ Hs Hlt Hj Hi)]; cbv beta in *; lia.
Qed.

Lemma regs_same_inside l e f x : regs_ok l -> e ∈ l -> f ∈ l -> inside e x -> inside f x -> e = f.
Proof.
  intros Hok (i & Hi)%list_elem_of_lookup (j & Hj)%list_elem_of_lookup He Hf.
  pose proof (rg_sorted _ Hok) as Hs. unfold inside, within in *.
  destruct (Nat.lt_trichotomy i j) as [Hlt|[->|Hlt]]; [|congruence|];
    [pose proof (StronglySorted_lookup _ _ _ _ _ _ Hs Hlt Hi Hj)
    |pose proof (StronglySorted_lookup _ _ _ _ _ _ Hs Hlt Hj Hi)]; unfold reg_before in *; lia.
Qed.

Lemma last_le_inside l e x : regs_ok l -> e ∈ l -> inside e x -> bt_last_le x l = Some e.
Proof.
  intros Hok He Hx. destruct (list_elem_of_split _ _ He) as (pre & post & ->).
  destruct (regs_ok_split pre e post Hok) as (_ & _ & _ & _ & Hafter).
  destruct e as [k r]. unfold inside, within in Hx. cbn in Hx.
  apply bt_last_le_mid; [lia|]. eapply Forall_impl; [exact Hafter|].
  intros f. unfold reg_before. cbn. lia.
Qed.

Lemma last_le_In {A} x (l : list (Z * A)) e : bt_last_le x l = Some e -> e ∈ l.
Proof.
  induction l as [|[j w] l IH]; cbn; [done|]. destruct (bt_last_le x l) as [f|].
  - intros [= ->]. right. auto.
  - destruct (j <=? x); [|done]. intros [= <-]. by left.
Qed.

(** ** Writing *)

Section Put.
Variables (addr : Z) (d : list byte) (l : list (Z * Region)).
Hypothesis ok : regs_ok l.
Hypothesis d_pos : d <> [].

Definition put_region (start : Z) (r : Region) : Region :=
  MkRegion (r_len r) (r_prot r)
    (take (Z.to_nat (addr - start)) (r_data r) ++ d ++
     drop (Z.to_nat (addr - start) + length d) (r_data r)) (r_file r).

(** A write that ends normally changed one region, in place. *)
Lemma put_inv l' : put addr d l = Ok l' ->
  exists start r, (start, r) ∈ l /\ start <= addr /\ addr + Z.of_nat (length d) <= start + r_len r /\
    l' = bt_set start (put_region start r) l.
Proof.
  unfold put, target_region.
  destruct (bt_last_le addr l) as [[start r]|] eqn:Hl; [|done].
  intros ([a q] & Ht & Hp)%bind_Ok.
  apply bind_Ok in Ht as (stop & [-> _]%add64_Ok & Ht). apply bind_Ok in Ht as (rend & [-> _]%add64_Ok & Ht).
  destruct (Z.ltb_spec (start + r_len r) (addr + Z.of_nat (length d))) as [|Hle]; [done|].
  destruct (_ =? 0); [done|]. injection Ht as <- <-.
  apply bind_Ok in Hp as (r' & Hr' & [= <-]). unfold patch_region in Hr'.
  destruct (_ <=? _)%nat eqn:Hfit; [|done]. injection Hr' as <-.
  exists start, r. split; [by apply (last_le_In addr)|]. split; [|by split].
  assert (Hk : forall (m : list (Z * Region)) e, bt_last_le addr m = Some e -> e.1 <= addr).
  { clear. induction m as [|[j w] m IH]; cbn; [done|]. destruct (bt_last_le addr m) as [f|].
    - intros e [= ->]. auto.
    - destruct (Z.leb_spec j addr); [|done]. by intros e [= <-]. }
  by apply (Hk l (start, r)).
Qed.

Lemma put_eq start r :
  (start, r) ∈ l -> start <= addr -> addr + Z.of_nat (length d) <= start + r_len r ->
  Z.testbit (r_prot r) 1 = true ->
  put addr d l = Ok (bt_set start (put_region start r) l).
Proof.
  intros Hin Hlo Hhi Hw. pose proof (reg_lookup _ _ ok Hin) as [_ _ Hl _ Hend Hd _]. cbn in *.
  assert (Hlen : 0 < Z.of_nat (length d)) by (destruct d; [done|cbn; lia]).
  unfold put, target_region. rewrite (last_le_inside l (start, r)); [|done|done|unfold inside, within; cbn; lia].
  rewrite (add64_small addr) by lia. cbn [mbind outcome_bind].
  rewrite (add64_small start) by lia. cbn [mbind outcome_bind].
  rewrite (proj2 (Z.ltb_ge _ _)) by lia.
  assert (Hb : (Z.land (r_prot r) PROT_WRITE =? 0) = false).
  { apply negb_true_iff. change PROT_WRITE with (2 ^ 1). rewrite flag_bit by lia. done. }
  rewrite Hb. cbn [mbind outcome_bind]. unfold patch_region.
  by rewrite (proj2 (Nat.leb_le _ _)) by lia.
Qed.

Section Done.
Variables (start : Z) (r : Region).
Hypothesis r_in : (start, r) ∈ l.
Hypothesis low : start <= addr.
Hypothesis high : addr + Z.of_nat (length d) <= start + r_len r.

Lemma put_same e : e ∈ l ->
  let q := if e.1 =? start then put_region start r else e.2 in
  r_len q = r_len e.2 /\ length (r_data q) = length (r_data e.2) /\ r_file q = r_file e.2.
Proof.
  intros He. cbv zeta. destruct (Z.eqb_spec e.1 start) as [Heq|]; [|done].
  assert (e = (start, r)) as -> by (by apply (regs_same_key l)).
  pose proof (reg_lookup _ _ ok r_in) as [_ _ Hl _ Hend Hd _]. cbn in *.
  split; [done|]. split; [|done]. rewrite !length_app, length_take, length_drop. lia.
Qed.

Lemma put_done :
  regs_ok (bt_set start (put_region start r) l) /\
  (forall a len, region_in (bt_set start (put_region start r) l) a len <-> region_in l a len) /\
  (forall x, cell_at (bt_set start (put_region start r) l) x =
     match (if decide (addr <= x) then d !! Z.to_nat (x - addr) else None) with
     | Some b => (fun c : cell => (c.1, b)) <$> cell_at l x
     | None => cell_at l x
     end).
Proof.
  rewrite bt_set_fmap. split; [by apply update_ok; [|apply put_same]|].
  split; [intros a len; by apply update_regions, put_same|]. intros x.
  pose proof (reg_lookup _ _ ok r_in) as [_ _ Hl _ Hend Hd _]. cbn in Hl, Hend, Hd.
  destruct (cell_at l x) as [c|] eqn:Hc.
  2: { rewrite (proj2 (update_None _ l put_same x) Hc). by case_match. }
  apply cell_at_Some in Hc as (e & He & Hx & ->); [|done].
  rewrite (update_cell _ l ok put_same e x He Hx).
  destruct (Z.eqb_spec e.1 start) as [Heq|Hne].
  - assert (e = (start, r)) as -> by (by apply (regs_same_key l)).
    unfold inside, within in Hx. cbn in Hx. unfold cell_of. cbn [fst snd put_region r_prot r_data].
    rewrite list_lookup_total_alt.
    case_decide as Hge.
    + rewrite lookup_app_r by (rewrite length_take; lia). rewrite length_take.
      replace (Z.to_nat (x - start) - Z.to_nat (addr - start) `min` length (r_data r))%nat
        with (Z.to_nat (x - addr)) by lia.
      destruct (d !! Z.to_nat (x - addr)) as [b|] eqn:Hb.
      * by rewrite (lookup_app_l_Some _ _ _ _ Hb).
      * apply lookup_ge_None in Hb. rewrite lookup_app_r by done. rewrite lookup_drop.
        replace (Z.to_nat (addr - start) + length d + (Z.to_nat (x - addr) - length d))%nat
          with (Z.to_nat (x - start)) by lia. by rewrite <- list_lookup_total_alt.
    + rewrite lookup_app_l by (rewrite length_take; lia). rewrite lookup_take_lt by lia.
      by rewrite <- list_lookup_total_alt.
  - case_decide; [|by destruct e]. destruct (d !! Z.to_nat (x - addr)) as [b|] eqn:Hb; [|by destruct e].
    exfalso. apply lookup_lt_Some in Hb. apply Hne.
    assert (e = (start, r)) as ->; [|done].
    apply (regs_same_inside l e (start, r) x); try done. unfold inside, within. cbn. lia.
Qed.
End Done.
End Put.

(** ** Protecting *)

Definition reprot (prot : Z) (hs : list Z) (e : Z * Region) : Region :=
  if bool_decide (e.1 ∈ hs) then set_prot prot e.2 else e.2.

Lemma reprot_same prot hs e :
  r_len (reprot prot hs e) = r_len e.2 /\
  length (r_data (reprot prot hs e)) = length (r_data e.2) /\ r_file (reprot prot hs e) = r_file e.2.
Proof. unfold reprot. by case_match. Qed.

Lemma reprot_ok prot hs l : regs_ok l -> regs_ok ((fun e => (e.1, reprot prot hs e)) <$> l).
Proof. intros Hok. apply update_ok; [done|]. intros e _. apply reprot_same. Qed.

Lemma protect_all_inv prot hs l l' :
  regs_ok l -> protect_all prot hs l = Ok l' -> l' = (fun e => (e.1, reprot prot hs e)) <$> l.
Proof.
  revert l. induction hs as [|s hs IH]; intros l Hok; cbn [protect_all].
  { intros [= <-]. symmetry. etrans; [|apply list_fmap_id]. apply list_fmap_ext.
    intros i [k r] _. unfold reprot. by rewrite bool_decide_false by apply not_elem_of_nil. }
  destruct (bt_get s l) as [r|] eqn:Hg; [|done]. apply bt_get_In in Hg. intros Hp.
  assert (Hset : bt_set s (set_prot prot r) l = (fun e => (e.1, reprot prot [s] e)) <$> l).
  { rewrite bt_set_fmap. apply list_fmap_ext. intros i e He. apply list_elem_of_lookup_2 in He.
    unfold reprot. f_equal. destruct (Z.eqb_spec e.1 s) as [Heq|Hne].
    - rewrite bool_decide_true by (rewrite Heq; by left). by assert (e = (s, r)) as -> by (by apply (regs_same_key l)).
    - rewrite bool_decide_false; [done|]. by intros ?%list_elem_of_singleton. }
  rewrite Hset in Hp. apply IH in Hp as ->; [|by apply reprot_ok].
  rewrite <- list_fmap_compose. apply list_fmap_ext. intros i e _. cbn. f_equal. unfold reprot. cbn.
  destruct (decide (e.1 = s)) as [->|Hne].
  - rewrite (bool_decide_true (s ∈ [s])), (bool_decide_true (s ∈ s :: hs)) by (by left).
    by case_bool_decide.
  - rewrite (bool_decide_false (e.1 ∈ [s])) by (by intros ?%list_elem_of_singleton).
    assert (Hiff : e.1 ∈ s :: hs <-> e.1 ∈ hs) by (rewrite elem_of_cons; naive_solver).
    by rewrite (bool_decide_ext _ _ Hiff).
Qed.

Lemma protect_all_total prot hs l :
  regs_ok l -> (forall k, k ∈ hs -> exists r, (k, r) ∈ l) -> exists l', protect_all prot hs l = Ok l'.
Proof.
  revert l. induction hs as [|s hs IH]; intros l Hok Hin; cbn [protect_all]; [eauto|].
  destruct (Hin s (list_elem_of_here _ _)) as [r Hr].
  destruct (list_elem_of_split _ _ Hr) as (pre & post & Heq).
  destruct (regs_ok_split pre (s, r) post) as (_ & Hb & _); [by rewrite <- Heq|].
  assert (Hg : bt_get s l = Some r) by (rewrite Heq; by apply bt_get_mid). rewrite Hg.
  assert (Hs : bt_set s (set_prot prot r) l = (fun e => (e.1, reprot prot [s] e)) <$> l).
  { apply (protect_all_inv prot [s]); [done|]. cbn. by rewrite Hg. }
  rewrite Hs. apply IH; [by apply reprot_ok|]. intros k Hk.
  destruct (Hin k) as [q Hq]; [by right|]. eexists. apply list_elem_of_fmap. by exists (k, q).
Qed.

Lemma reprot_bytes prot hs l x : regs_ok l ->
  snd <$> cell_at ((fun e => (e.1, reprot prot hs e)) <$> l) x = snd <$> cell_at l x.
Proof.
  intros Hok. destruct (cell_at l x) as [c|] eqn:Hc.
  - apply cell_at_Some in Hc as (e & He & Hx & ->); [|done].
    rewrite (update_cell _ l Hok (fun e _ => reprot_same prot hs e) e x He Hx).
    unfold cell_of, reprot. cbn. by case_match.
  - by rewrite (proj2 (update_None _ l (fun e _ => reprot_same prot hs e) x) Hc).
Qed.

Section ProtectRun.
Variables (a len prot : Z) (l : list (Z * Region)).
Hypothesis ok : regs_ok l.
Hypothesis a_nonneg : 0 <= a.
Hypothesis len_pos : 0 < len.
Hypothesis room : a + len < 2 ^ 64.

Definition touched : list Z := fst <$> filter (hit a (a + len)) l.

Lemma protect_run :
  (exists e, e ∈ l /\ hit a (a + len) e) ->
  hits a (a + len) l = Ok touched /\ touched <> [] /\
  protect_all prot touched l = Ok ((fun e => (e.1, reprot prot touched e)) <$> l).
Proof.
  intros (e & He & Hh). assert (Hhits : hits a (a + len) l = Ok touched) by (by apply hits_eq).
  split; [done|]. assert (Hin : e.1 ∈ touched).
  { apply list_elem_of_fmap. exists e. split; [done|]. by apply list_elem_of_filter. }
  split; [intros Hnil; rewrite Hnil in Hin; by apply not_elem_of_nil in Hin|].
  destruct (protect_all_total prot touched l ok) as [l' Hl'].
  { intros k (f & -> & [_ Hf]%list_elem_of_filter)%list_elem_of_fmap. exists f.2. by destruct f. }
  rewrite Hl'. f_equal. by apply protect_all_inv.
Qed.

Lemma touched_iff e : e ∈ l -> e.1 ∈ touched <-> hit a (a + len) e.
Proof.
  intros He. split.
  - intros (f & Heq & [Hh Hf]%list_elem_of_filter)%list_elem_of_fmap.
    by rewrite (regs_same_key l e f ok He Hf Heq).
  - intros Hh. apply list_elem_of_fmap. exists e. split; [done|]. by apply list_elem_of_filter.
Qed.

(** When the range is exactly covered by regions that lie inside it. *)
Lemma reprot_exact x :
  (forall y, within a len y -> exists e, e ∈ l /\ inside e y /\ forall z, inside e z -> within a len z) ->
  cell_at ((fun e => (e.1, reprot prot touched e)) <$> l) x =
  if decide (within a len x) then (fun c : cell => (prot, c.2)) <$> cell_at l x else cell_at l x.
Proof.
  intros Hcov. destruct (cell_at l x) as [c|] eqn:Hc.
  2: { rewrite (proj2 (update_None _ l (fun e _ => reprot_same prot touched e) x) Hc). by case_decide. }
  apply cell_at_Some in Hc as (e & He & Hx & ->); [|done].
  rewrite (update_cell _ l ok (fun e _ => reprot_same prot touched e) e x He Hx).
  pose proof (rk_len _ (reg_lookup _ _ ok He)) as Hl.
  unfold reprot. case_decide as Hw.
  - rewrite bool_decide_true; [done|]. apply touched_iff; [done|].
    unfold hit, inside, within in *. lia.
  - rewrite bool_decide_false; [by destruct e|]. intros [Hh1 Hh2]%touched_iff; [|done]. apply Hw.
    destruct (Hcov (Z.max e.1 a)) as (f & Hf & Hfy & Hfin); [unfold within; lia|].
    assert (e = f) as ->.
    { apply (regs_same_inside l e f (Z.max e.1 a)); try done. unfold inside, within. lia. }
    by apply Hfin.
Qed.

(** Outside the touched regions nothing changes. *)
Lemma reprot_frame e x : e ∈ l -> (forall f, f ∈ l -> hit a (a + len) f -> f = e) -> ~ inside e x ->
  cell_at ((fun e => (e.1, reprot prot touched e)) <$> l) x = cell_at l x.
Proof.
  intros He Hone Hx. destruct (cell_at l x) as [c|] eqn:Hc.
  2: by rewrite (proj2 (update_None _ l (fun e _ => reprot_same prot touched e) x) Hc).
  apply cell_at_Some in Hc as (f & Hf & Hfx & ->); [|done].
  rewrite (update_cell _ l ok (fun e _ => reprot_same prot touched e) f x Hf Hfx).
  unfold reprot. rewrite bool_decide_false; [by destruct f|].
  intros Hh%touched_iff; [|done]. apply Hx. by rewrite <- (Hone f Hf Hh).
Qed.
End ProtectRun.

(** ** The laws *)

(** Descriptors are distinct, and files no longer than an [isize]. *)
Definition files_ok (l : list (Z * list byte)) : Prop :=
  NoDup l.*1 /\ forall fd d, bt_get fd l = Some d -> Z.of_nat (length d) < 2 ^ 63.

Record fake_inv (s : State) : Prop := {
  fi_regions : regs_ok (st_regions s);
  fi_base : 0 <= st_base s;
  fi_base_page : (fake_page | st_base s);
  fi_files : files_ok (st_files s)
}.

Definition fake_view (s : State) : Z -> option cell := cell_at (st_regions s).
Definition fake_region (s : State) : Z -> Z -> Prop := region_in (st_regions s).
Definition fake_fd (s : State) (fd : Z) : option (list byte) := bt_get fd (st_files s).

Definition fake_room (s : State) (len : Z) : Prop :=
  len < 2 ^ 63 /\ st_base s + len < 2 ^ 64 /\
  forall e, e ∈ st_regions s -> e.1 + r_len e.2 + len < 2 ^ 64.

Definition fake_heap_room (s : State) (align len : Z) : Prop :=
  len < 2 ^ 63 /\ 0 <= st_heap s /\ st_heap s + align < 2 ^ 64 /\ rup (st_heap s) align + len < 2 ^ 64 /\
  forall e, e ∈ st_regions s ->
    e.1 + r_len e.2 <= rup (st_heap s) align \/ rup (st_heap s) align + len <= e.1.

Definition src_data (s : State) (len : Z) (src : MapSrc) (i : Z) : byte :=
  match src with
  | Anon => x00
  | File fd off => file_byte (default [] (fake_fd s fd)) (off + i)
  end.

Definition src_ok (s : State) (src : MapSrc) : Prop :=
  match src with
  | Anon => True
  | File fd off => exists d, fake_fd s fd = Some d /\ 0 <= off <= Z.of_nat (length d)
  end.

Lemma map_data_spec s len src :
  0 < len < 2 ^ 63 -> src_ok s src ->
  exists d, map_data (st_files s) len src = Ok d /\ Z.of_nat (length d) = len /\
    forall i, 0 <= i < len -> d !!! Z.to_nat i = src_data s len src i.
Proof.
  intros Hl Hsrc.
  assert (Hz : zeroed (E:=Error) len = Ok (replicate (Z.to_nat len) x00))
    by (unfold zeroed; by rewrite (proj2 (Z.ltb_lt _ _)) by lia).
  destruct src as [|fd off]; cbn [map_data src_data].
  - rewrite Hz. eexists. split; [done|]. split; [rewrite length_replicate; lia|].
    intros i Hi. apply lookup_total_replicate_2. lia.
  - destruct Hsrc as (file & Hf & Ho). unfold fake_fd in *. rewrite Hf, Hz. cbn [mbind outcome_bind].
    set (n := Z.min len (saturating_sub (Z.of_nat (length file)) off)).
    assert (Hn : n = Z.min len (Z.of_nat (length file) - off)) by (unfold n, saturating_sub; lia).
    unfold sub_data, slice. rewrite at_least_leb. rewrite (proj2 (Nat.leb_le _ _)) by lia. cbn [mbind outcome_bind].
    eexists. split; [done|].
    rewrite length_app, length_take, !length_drop, length_replicate. split; [lia|].
    intros i Hi. unfold file_byte. cbn [default id]. rewrite list_lookup_total_alt.
    destruct (Z.lt_ge_cases i n).
    + rewrite lookup_app_l by (rewrite length_take, length_drop; lia).
      rewrite lookup_take_lt, lookup_drop by lia.
      replace (Z.to_nat off + Z.to_nat i)%nat with (Z.to_nat (off + i)) by lia.
      destruct (lookup_lt_is_Some_2 file (Z.to_nat (off + i))) as [b ->]; [lia|done].
    + rewrite lookup_app_r by (rewrite length_take, length_drop; lia).
      rewrite length_take, length_drop, lookup_drop, lookup_replicate_2 by lia.
      by rewrite (lookup_ge_None_2 file) by lia.
Qed.

(** Mapping into free space. *)
Lemma map_insert s l a len prot src d :
  fake_inv s -> regs_ok l -> 0 <= a -> (fake_page | a) -> (fake_page | len) -> 0 < len < 2 ^ 63 ->
  a + len < 2 ^ 64 -> src_ok s src -> map_data (st_files s) len src = Ok d ->
  Z.of_nat (length d) = len -> (forall i, 0 <= i < len -> d !!! Z.to_nat i = src_data s len src i) ->
  (forall e, e ∈ l -> e.1 + r_len e.2 <= a \/ a + len <= e.1) ->
  let r := MkRegion len prot d (match src with Anon => None | File fd off => Some (fd, off) end) in
  let l' := bt_insert a r l in
  regs_ok l' /\ (forall e, e ∈ l -> e ∈ l') /\ region_in l' a len /\
  forall x, cell_at l' x =
    if decide (within a len x) then Some (prot, src_data s len src (x - a)) else cell_at l x.
Proof.
  intros Hinv Hok H0 Hp Hlp Hl Hend Hsrc _ Hd Hbytes Hfree. cbv zeta.
  set (r := MkRegion len prot d _).
  assert (Hr : reg_ok (a, r)).
  { split; cbn; try done. destruct src as [|fd off]; [done|]. destruct Hsrc as (file & Hf & Ho).
    pose proof (proj2 (fi_files _ Hinv) fd file Hf). lia. }
  destruct (insert_free a r l Hok Hr Hfree) as (Hok' & Hin & Hcell).
  split; [done|]. split; [intros e He; apply Hin; by right|].
  split; [exists r; split; [apply Hin; by left|done]|].
  intros x. rewrite Hcell. cbn [r_len r]. case_decide as Hx; [|done].
  unfold cell_of. cbn [fst snd r_prot r_data r]. unfold within in Hx. by rewrite Hbytes by lia.
Qed.

Lemma page_mod x : (fake_page | x) -> negb (x mod fake_page =? 0) = false.
Proof. intros Hd. by rewrite (proj2 (Z.mod_divide x fake_page ltac:(done)) Hd). Qed.

Lemma fake_map_fresh s w len prot :
  fake_inv s -> fake_room s len -> (fake_page | len) -> 0 < len ->
  match w with Anywhere => True | Hint a => 0 <= a /\ (fake_page | a) /\ a + len < 2 ^ 64 | Exact _ => False end ->
  wp (fake_map w len prot Anon)
    (fun a s' => fake_inv s' /\ fake_fd s' = fake_fd s /\
       0 <= a /\ (fake_page | a) /\ a + len < 2 ^ 64 /\
       (forall x, within a len x -> fake_view s x = None) /\
       forall x, fake_view s' x = if decide (within a len x) then Some (prot, x00) else fake_view s x)
    (fun s' => fake_inv s' /\ forall x, fake_view s' x = fake_view s x) s.
Proof.
  intros Hinv (Hlen & Hbase & Hroom) Hlp Hl Hw. pose proof Hinv as [Hok Hb0 Hbp Hfiles].
  destruct (map_data_spec s len Anon ltac:(lia) I) as (d & Hd & Hdl & Hbytes).
  destruct (first_fit_spec len (st_base s) (st_regions s) Hok Hl Hb0 Hbp Hbase Hroom)
    as (ff & Hff & F1 & F2 & F3 & F4).
  assert (Hplace : exists a, 0 <= a /\ (fake_page | a) /\ a + len < 2 ^ 64 /\
    (forall e, e ∈ st_regions s -> e.1 + r_len e.2 <= a \/ a + len <= e.1) /\
    (match w with
     | Anywhere => a ← first_fit s len; Ok (a, st_regions s)
     | Hint a =>
       stop ← add64 a len;
       free ← all_clear a stop (st_regions s);
       a ← (if (free : bool) then Ok a else first_fit s len);
       Ok (a, st_regions s)
     | Exact a => l ← punch a len (st_regions s); Ok (a, l)
     end) = Ok (a, st_regions s)).
  { unfold first_fit. destruct w as [|h|]; [| |done].
    - exists ff. rewrite Hff. split_and!; try done. lia.
    - destruct Hw as (Hh0 & Hhp & Hhe). rewrite add64_small by done. cbn [mbind outcome_bind].
      destruct (all_clear_spec h (h + len) (st_regions s) Hok) as (b & -> & Hiff). cbn [mbind outcome_bind].
      destruct b.
      + exists h. split_and!; try done. by apply Hiff.
      + exists ff. rewrite Hff. split_and!; try done. lia. }
  destruct Hplace as (a & Ha0 & Hap & Hae & Hfree & Heq).
  unfold wp, fake_map. rewrite page_mod by done. rewrite Heq, page_mod by done. rewrite Hd.
  destruct (map_insert s (st_regions s) a len prot Anon d) as (Hok' & _ & _ & Hcell); try done; try lia.
  unfold fake_view, fake_fd, push_log, set_regions. cbn [st_regions st_files st_base] in *.
  split_and!; try done.
  intros x Hx. apply cell_at_None. intros e He Hin. specialize (Hfree e He).
  unfold inside, within in *. lia.
Qed.

Lemma fake_map_exact s a len prot src :
  fake_inv s -> 0 <= a -> (fake_page | a) -> (fake_page | len) -> 0 < len <= 2 ^ 63 - 1 ->
  a + len < 2 ^ 64 -> src_ok s src ->
  wp (fake_map (Exact a) len prot src)
    (fun r s' => r = a /\ fake_inv s' /\ fake_fd s' = fake_fd s /\ fake_region s' a len /\
       (forall b bl, fake_region s b bl -> b + bl <= a \/ a + len <= b -> fake_region s' b bl) /\
       forall x, fake_view s' x =
         if decide (within a len x) then Some (prot, src_data s len src (x - a)) else fake_view s x)
    (fun s' => fake_inv s' /\ forall x, ~ within a len x -> fake_view s' x = fake_view s x) s.
Proof.
  intros Hinv H0 Hp Hlp Hl Hend Hsrc. pose proof Hinv as [Hok Hb0 Hbp Hfiles].
  destruct (map_data_spec s len src ltac:(lia) Hsrc) as (d & Hd & Hdl & Hbytes).
  destruct (punch_spec a len (st_regions s)) as (l & Hpunch & Hokl & Hcl & Hdis & Hkeep); try done; try lia.
  unfold wp, fake_map. rewrite page_mod by done. rewrite Hpunch. cbn [mbind outcome_bind].
  rewrite page_mod by done. rewrite Hd.
  destruct (map_insert s l a len prot src d) as (Hok' & Hmono & Hreg & Hcell); try done; try lia.
  unfold fake_view, fake_fd, fake_region, push_log, set_regions. cbn [st_regions st_files st_base] in *.
  split_and!; try done.
  - intros b bl (r & Hr & <-) Hout. exists r. split; [|done]. apply Hmono, Hkeep; [done|]. cbn. lia.
  - intros x. rewrite Hcell, Hcl. by case_decide.
Qed.

Lemma writable_region s a len :
  fake_inv s -> fake_region s a len -> (forall x, within a len x -> writable (fake_view s x)) ->
  exists r, (a, r) ∈ st_regions s /\ r_len r = len /\ Z.testbit (r_prot r) 1 = true.
Proof.
  intros [Hok _ _ _] (r & Hr & <-) Hw. exists r. split; [done|]. split; [done|].
  pose proof (rk_len _ (reg_lookup _ _ Hok Hr)) as Hl. cbn in Hl.
  specialize (Hw a ltac:(unfold within; lia)). unfold fake_view in Hw.
  by rewrite (cell_at_in _ (a, r) a Hok Hr) in Hw by (unfold inside, within; cbn; lia).
Qed.

(** Writes and clearing, with the log entry they append. *)
Lemma put_wp s a len w d lg :
  fake_inv s -> fake_region s a len -> a <= w -> d <> [] -> w + Z.of_nat (length d) <= a + len ->
  (forall x, within a len x -> writable (fake_view s x)) ->
  exists l, put w d (st_regions s) = Ok l /\
    let s' := MkState (st_base s) l lg (st_heap s) (st_files s) in
    fake_inv s' /\ fake_fd s' = fake_fd s /\
    (forall b bl, fake_region s b bl <-> fake_region s' b bl) /\
    forall x, fake_view s' x =
      match (if decide (w <= x) then d !! Z.to_nat (x - w) else None) with
      | Some b => (fun c : cell => (c.1, b)) <$> fake_view s x
      | None => fake_view s x
      end.
Proof.
  intros Hinv Hreg Hlo Hd Hhi Hw.
  destruct (writable_region s a len Hinv Hreg Hw) as (r & Hr & Hrl & Hbit).
  pose proof Hinv as [Hok Hb0 Hbp Hfiles]. rewrite <- Hrl in Hhi.
  rewrite (put_eq w d (st_regions s) Hok Hd a r) by done.
  destruct (put_done w d (st_regions s) Hok a r Hr Hlo Hhi) as (Hok' & Hregs & Hcell).
  eexists. split; [done|]. cbv zeta.
  unfold fake_view, fake_fd, fake_region. cbn [st_regions st_files st_base].
  by split_and!.
Qed.

Lemma fake_zero_law s a len z zl :
  fake_inv s -> fake_region s a len -> a <= z -> 0 < zl -> z + zl <= a + len ->
  (forall x, within a len x -> writable (fake_view s x)) ->
  wp (fake_zero z zl)
    (fun _ s' => fake_inv s' /\ fake_fd s' = fake_fd s /\
       (forall b bl, fake_region s b bl <-> fake_region s' b bl) /\
       forall x, fake_view s' x =
         if decide (within z zl x) then (fun c : cell => (c.1, x00)) <$> fake_view s x else fake_view s x)
    (fun s' => fake_inv s' /\ forall x, ~ within z zl x -> fake_view s' x = fake_view s x) s.
Proof.
  intros Hinv Hreg Hlo Hl Hhi Hw.
  destruct (put_wp s a len z (replicate (Z.to_nat zl) x00) (st_log s ++ [OpZero z zl])) as
    (l & Hput & Hi & Hfd & Hr & Hv); try done.
  { intros Hnil. apply (f_equal length) in Hnil. rewrite length_replicate in Hnil. cbn in Hnil. lia. }
  { rewrite length_replicate. lia. }
  unfold wp, fake_zero. rewrite Hput. split_and!; try done.
  intros x. etrans; [apply Hv|]. unfold within. destruct (decide (z <= x)) as [Hx|Hx].
  - destruct (decide (x < z + zl)).
    + rewrite lookup_replicate_2 by lia. by rewrite decide_True by lia.
    + rewrite (lookup_ge_None_2 _ (Z.to_nat (x - z))) by (rewrite length_replicate; lia).
      by rewrite decide_False by lia.
  - by rewrite decide_False by lia.
Qed.

Lemma fake_write_law s a len w d :
  fake_inv s -> fake_region s a len -> a <= w -> d <> [] -> w + Z.of_nat (length d) <= a + len ->
  (forall x, within a len x -> writable (fake_view s x)) ->
  wp (fake_write w d)
    (fun _ s' => fake_inv s' /\ fake_fd s' = fake_fd s /\
       (forall b bl, fake_region s b bl <-> fake_region s' b bl) /\
       forall x, fake_view s' x =
         match (if decide (w <= x) then d !! Z.to_nat (x - w) else None) with
         | Some b => (fun c : cell => (c.1, b)) <$> fake_view s x
         | None => fake_view s x
         end)
    (fun s' => fake_inv s' /\ forall x, ~ within w (Z.of_nat (length d)) x -> fake_view s' x = fake_view s x) s.
Proof.
  intros Hinv Hreg Hlo Hd Hhi Hw.
  destruct (put_wp s a len w d (st_log s)) as (l & Hput & Hs); try done.
  unfold wp, fake_write. by rewrite Hput.
Qed.

(** What protecting a range does, whatever it covers. *)
Lemma protect_state s l prot hs lg :
  fake_inv s -> l = (fun e => (e.1, reprot prot hs e)) <$> st_regions s ->
  let s' := MkState (st_base s) l lg (st_heap s) (st_files s) in
  fake_inv s' /\ fake_fd s' = fake_fd s /\
  (forall b bl, fake_region s b bl <-> fake_region s' b bl) /\
  (forall x, snd <$> fake_view s' x = snd <$> fake_view s x).
Proof.
  intros [Hok Hb0 Hbp Hfiles] ->. cbv zeta. unfold fake_view, fake_fd, fake_region. cbn [st_regions st_files].
  split; [split; cbn; try done; by apply reprot_ok|]. split; [done|]. split.
  - intros b bl. symmetry. apply update_regions. intros e _. apply reprot_same.
  - intros x. by apply reprot_bytes.
Qed.

Lemma fake_protect_run s a len prot :
  fake_inv s -> 0 <= a -> 0 < len -> a + len < 2 ^ 64 ->
  (exists e, e ∈ st_regions s /\ hit a (a + len) e) ->
  fake_protect a len prot s =
  (Ok tt, push_log (OpProtect a len prot)
     (set_regions ((fun e => (e.1, reprot prot (touched a len (st_regions s)) e)) <$> st_regions s) s)).
Proof.
  intros [Hok _ _ _] H0 Hl Hroom Hex.
  destruct (protect_run a len prot (st_regions s) Hok) as (Hh & Hne & Hp); try done.
  unfold fake_protect. rewrite add64_small by done. cbn [mbind outcome_bind].
  rewrite Hh. cbn [mbind outcome_bind]. rewrite bool_decide_false by done. by rewrite Hp.
Qed.

Lemma fake_protect_law s a l1 l2 prot :
  fake_inv s -> fake_region s a l1 -> 0 < l1 -> 0 <= l2 -> (0 < l2 -> fake_region s (a + l1) l2) ->
  wp (fake_protect a (l1 + l2) prot)
    (fun _ s' => fake_inv s' /\ fake_fd s' = fake_fd s /\
       (forall b bl, fake_region s b bl <-> fake_region s' b bl) /\
       forall x, fake_view s' x =
         if decide (within a (l1 + l2) x) then (fun c : cell => (prot, c.2)) <$> fake_view s x
         else fake_view s x)
    (fun s' => fake_inv s' /\ forall x, ~ within a (l1 + l2) x -> fake_view s' x = fake_view s x) s.
Proof.
  intros Hinv (r1 & Hr1 & Hl1) H1 H2 Hsecond. pose proof Hinv as [Hok _ _ _].
  pose proof (reg_lookup _ _ Hok Hr1) as [E0 _ El _ Eend _ _]. cbn in E0, El, Eend.
  assert (Hend : a + (l1 + l2) < 2 ^ 64).
  { destruct (decide (0 < l2)) as [Hp|]; [|lia]. destruct (Hsecond Hp) as (r2 & Hr2 & <-).
    pose proof (rk_end _ (reg_lookup _ _ Hok Hr2)). cbn in *. lia. }
  unfold wp. rewrite (fake_protect_run s a (l1 + l2) prot); try done; try lia.
  2: { exists (a, r1). split; [done|]. unfold hit. cbn. lia. }
  destruct (protect_state s _ prot (touched a (l1 + l2) (st_regions s))
    (st_log s ++ [OpProtect a (l1 + l2) prot]) Hinv eq_refl) as (Hi & Hfd & Hreg & _).
  split_and!; try done. intros x. apply reprot_exact; try done; [lia|].
  intros y Hy. destruct (decide (y < a + l1)).
  - exists (a, r1). split; [done|]. unfold inside, within in *. cbn. split; [lia|]. intros z. lia.
  - destruct Hsecond as (r2 & Hr2 & Hl2); [unfold within in Hy; lia|].
    exists (a + l1, r2). split; [done|]. unfold inside, within in *. cbn. split; [lia|]. intros z. lia.
Qed.

Lemma fake_protect_part s a len z zl prot :
  fake_inv s -> fake_region s a len -> a <= z -> 0 < zl -> z + zl <= a + len ->
  let post s' := fake_inv s' /\ fake_fd s' = fake_fd s /\
       (forall b bl, fake_region s b bl <-> fake_region s' b bl) /\
       (forall x, snd <$> fake_view s' x = snd <$> fake_view s x) /\
       (forall x, ~ within a len x -> fake_view s' x = fake_view s x) in
  wp (fake_protect z zl prot) (fun _ => post) post s.
Proof.
  intros Hinv (r & Hr & Hl) Hlo Hz Hhi. pose proof Hinv as [Hok _ _ _].
  pose proof (reg_lookup _ _ Hok Hr) as [E0 _ El _ Eend _ _]. cbn in E0, El, Eend.
  cbv zeta. unfold wp. rewrite (fake_protect_run s z zl prot); try done; try lia.
  2: { exists (a, r). split; [done|]. unfold hit. cbn. lia. }
  destruct (protect_state s _ prot (touched z zl (st_regions s))
    (st_log s ++ [OpProtect z zl prot]) Hinv eq_refl) as (Hi & Hfd & Hreg & Hb).
  split_and!; try done. intros x Hx.
  apply (reprot_frame z zl prot (st_regions s) Hok) with (e := (a, r)); try done.
  - intros f Hf [Hh1 Hh2].
    apply (regs_same_inside (st_regions s) f (a, r) (Z.max f.1 z)); try done;
      pose proof (rk_len _ (reg_lookup _ _ Hok Hf)); unfold inside, within; cbn; lia.
  - unfold inside. cbn. by rewrite Hl.
Qed.

Lemma fake_unmap_law s a len :
  fake_inv s -> 0 <= a -> (fake_page | a) -> (fake_page | len) -> 0 < len -> a + len < 2 ^ 64 ->
  wp (fake_unmap a len)
    (fun _ s' => fake_inv s' /\ fake_fd s' = fake_fd s /\
       forall x, fake_view s' x = if decide (within a len x) then None else fake_view s x)
    (fun _ => False) s.
Proof.
  intros [Hok Hb0 Hbp Hfiles] H0 Hp Hlp Hl Hend.
  destruct (punch_spec a len (st_regions s)) as (l & Hpunch & Hokl & Hcl & _); try done.
  unfold wp, fake_unmap. by rewrite Hpunch.
Qed.

(** The allocator only moves up: a block starts below its pointer. *)
Definition fake_block (s : State) (a _ : Z) : Prop := a < st_heap s.
Definition fake_step (s s' : State) : Prop :=
  (fake_inv s' /\ forall b bl, fake_block s b bl -> fake_block s' b bl) /\ st_base s' = st_base s.

(** Calls that do not allocate leave the pointer alone. *)
Definition fixed (s s' : State) : Prop := st_heap s' = st_heap s /\ st_base s' = st_base s.
Lemma wp_steps {A} (m : stM Error State A) (P P' : A -> State -> Prop) (Q Q' : State -> Prop) s :
  fixed s (m s).2 -> wp m P Q s ->
  (forall a s', fixed s s' -> P a s' -> P' a s') ->
  (forall s', fixed s s' -> Q s' -> Q' s') -> wp m P' Q' s.
Proof. unfold wp. destruct (m s) as [[] s']; cbn; auto. Qed.

Lemma fake_step_of s s' : fixed s s' -> fake_inv s' -> fake_step s s'.
Proof. intros [Hh Hb] Hi. split; [split; [done|]|done]. unfold fake_block. by rewrite Hh. Qed.

Lemma fake_map_heap w len prot src s : fixed s (fake_map w len prot src s).2.
Proof. unfold fake_map. destruct (negb _); [done|]. by repeat case_match. Qed.
Lemma fake_unmap_heap a len s : fixed s (fake_unmap a len s).2.
Proof. unfold fake_unmap. by case_match. Qed.
Lemma fake_protect_heap a len prot s : fixed s (fake_protect a len prot s).2.
Proof. unfold fake_protect. by case_match. Qed.
Lemma fake_write_heap a d s : fixed s (fake_write a d s).2.
Proof. unfold fake_write. by case_match. Qed.
Lemma fake_zero_heap a len s : fixed s (fake_zero a len s).2.
Proof. unfold fake_zero. by case_match. Qed.

Lemma fake_alloc_law s align len :
  fake_inv s -> fake_heap_room s align len -> is_power_of_two align = true ->
  fake_page <= align < 2 ^ 64 -> (fake_page | len) -> 0 < len ->
  wp (fake_alloc_aligned align len)
    (fun a s' => fake_step s s' /\ fake_fd s' = fake_fd s /\ fake_region s' a len /\
       fake_block s' a len /\ (forall bl, ~ fake_block s a bl) /\
       0 <= a /\ (align | a) /\ a + len < 2 ^ 64 /\
       (forall x, within a len x -> fake_view s x = None /\ exists b, fake_view s' x = Some (RW, b)) /\
       forall x, ~ within a len x -> fake_view s' x = fake_view s x)
    (fun s' => fake_step s s' /\ forall x, fake_view s' x = fake_view s x) s.
Proof.
  intros Hinv (Hlen & Hh0 & Hha & Hend & Hfree) Hpow Hal Hlp Hl. pose proof Hinv as [Hok Hb0 Hbp Hfiles].
  assert (Hap : (fake_page | align)) by (apply power_of_two_divide; [done|done|lia]).
  assert (Hpos : 0 < align) by (unfold fake_page in *; lia).
  destruct (map_data_spec s len Anon ltac:(lia) I) as (d & Hd & Hdl & Hbytes).
  pose proof (rup_bounds align Hpos (st_heap s)) as Hru. pose proof (rup_divide align Hpos (st_heap s)) as Hdiv.
  assert (Haddr : Z.land (st_heap s + align - 1) (not64 (align - 1)) = rup (st_heap s) align).
  { destruct (pow2_u64 align Hpow ltac:(lia)) as (k & Hk & ->). rewrite land_not64_pow2; [|lia|unfold u64; lia].
    unfold rup. f_equal. lia. }
  assert (Hap2 : (fake_page | rup (st_heap s) align)) by (by apply Z.divide_trans with align).
  unfold wp, fake_alloc_aligned. rewrite add64_small by done. cbn [mbind outcome_bind].
  rewrite (sub64_small (st_heap s + align)) by (unfold fake_page in *; lia). cbn [mbind outcome_bind].
  rewrite sub64_small by lia. cbn [mbind outcome_bind]. rewrite Haddr.
  rewrite add64_small by done. cbn [mbind outcome_bind]. cbn [map_data] in Hd. unfold zeroed in *.
  rewrite (proj2 (Z.ltb_lt _ _)) in * by lia. cbn [mbind outcome_bind]. injection Hd as Hd. rewrite Hd.
  destruct (map_insert s (st_regions s) (rup (st_heap s) align) len RW Anon d) as (Hok' & _ & Hreg & Hcell);
    try done; try lia.
  { cbn. unfold zeroed. rewrite (proj2 (Z.ltb_lt _ _)) by lia. by rewrite Hd. }
  unfold fake_step, fake_block, fake_view, fake_fd, fake_region, push_log, set_regions, set_heap.
  cbn [st_regions st_files st_base st_heap] in *.
  split_and!; try done; try lia; try (intros; lia).
  - intros x Hx. split.
    + apply cell_at_None. intros e He Hin. specialize (Hfree e He). unfold inside, within in *. lia.
    + rewrite Hcell, decide_True by done. eauto.
  - intros x Hx. by rewrite Hcell, decide_False.
Qed.

Lemma fake_zero_keeps s z zl s' :
  fake_inv s -> 0 <= z -> 0 < zl -> fake_zero z zl s = (Ok tt, s') ->
  fake_inv s' /\ fake_fd s' = fake_fd s /\ forall x, is_Some (fake_view s' x) <-> is_Some (fake_view s x).
Proof.
  intros [Hok Hb0 Hbp Hfiles] Hz Hl. unfold fake_zero.
  destruct (put _ _ _) as [l| |] eqn:Hput; [|done|done]. intros [= <-].
  apply put_inv in Hput as (start & r & Hr & Hlo & Hhi & ->).
  destruct (put_done z (replicate (Z.to_nat zl) x00) (st_regions s) Hok start r Hr Hlo Hhi) as (Hok' & _ & Hcell).
  split; [by split|]. split; [done|]. intros x. unfold fake_view, push_log, set_regions. cbn [st_regions].
  rewrite Hcell. case_match; [|done]. by rewrite fmap_is_Some.
Qed.

Lemma fake_protect_keeps s a len prot s' :
  fake_inv s -> fake_protect a len prot s = (Ok tt, s') ->
  fake_inv s' /\ fake_fd s' = fake_fd s /\ forall x, is_Some (fake_view s' x) <-> is_Some (fake_view s x).
Proof.
  intros Hinv. unfold fake_protect.
  destruct (_ ≫= _) as [l| |] eqn:Hrun; [|done|done]. intros [= <-].
  apply bind_Ok in Hrun as (stop & _ & Hrun). apply bind_Ok in Hrun as (hs & _ & Hrun).
  destruct (bool_decide (hs = [])); [done|]. apply protect_all_inv in Hrun; [|apply Hinv].
  destruct (protect_state s l prot hs (st_log s ++ [OpProtect a len prot]) Hinv Hrun) as (Hi & Hfd & _ & Hb).
  split; [done|]. split; [done|]. intros x. specialize (Hb x).
  unfold push_log, set_regions in *. cbn [st_base st_regions st_log st_heap st_files] in *.
  rewrite !is_Some_alt.
  destruct (fake_view (MkState _ _ _ _ _) x), (fake_view s x); naive_solver.
Qed.

Ltac by_steps law heap :=
  eapply wp_steps; [apply heap|eapply law; done|..]; cbv beta; intros; destruct_and?; split_and?;
  try done; try (apply fake_step_of; done).

#[global] Instance FakeVm_laws can_map : VmLaws State (vm:=FakeVm can_map).
Proof.
  refine {| vm_inv := fake_inv; view := fake_view; region := fake_region; fd_data := fake_fd; block := fake_block;
            vm_kept := fun s s' => st_base s' = st_base s;
            max_len := 2 ^ 63 - 1; room := fake_room; heap_room := fake_heap_room |}.
  - split; [done|]. intros s1 s2 s3. congruence.
  - done.
  - done.
  - intros s len [Hl _]. lia.
  - intros s a len [Hok _ _ _] (r & Hr & <-) x Hx. eexists.
    by apply (cell_at_in _ (a, r)).
  - intros s w len prot Hi Hr Hd Hl _ Hw. by_steps fake_map_fresh fake_map_heap.
  - intros s a len prot src Hi H0 Da Dl Hl Hu _ _ Hsrc.
    assert (src_ok s src) by (destruct src; [done|]; destruct Hsrc as (d & ? & ? & ?); by exists d).
    by_steps fake_map_exact fake_map_heap.
  - intros. by_steps fake_zero_law fake_zero_heap.
  - intros. by_steps fake_write_law fake_write_heap.
  - intros. by_steps fake_protect_law fake_protect_heap.
  - intros s a len z zl prot Hi Hr Hz Hl Hend _ _. cbv zeta. by_steps fake_protect_part fake_protect_heap.
  - intros s z zl s' Hi Hz Hl _. by apply fake_zero_keeps.
  - apply fake_protect_keeps.
  - intros. by_steps fake_unmap_law fake_unmap_heap.
  - intros s a len [Hok Hb0 Hbp Hfiles]. cbn. split; [|done]. split; [by split|done].
  - apply fake_alloc_law.
  - intros s a len Hi _ H0 Da Dl Hl Hu. eapply wp_steps; [apply fake_unmap_heap|by apply fake_unmap_law| |done].
    intros ? s' [Hh Hb] (Hi' & Hfd & Hv). split; [|done]. split; [done|]. unfold fake_block. intros b bl Hlt _. by rewrite Hh.
Defined.
