(* ===== verification/FakeRun.v ===== *)
(** * Loading on the model address space

    On [FakeVm] no call fails, so the loader's theorems become total: a
    well-formed image loads.  The file also holds the witnesses of the loader's
    properties, and the leak when planning fails. *)

From Stdlib Require Import Strings.Byte Sorted.
From stdpp Require Import base numbers option strings sets list.
From S2P Require Import Prelude Err Elf TestImage ElfFacts Layout LayoutFacts Loader VmSpec LoaderFacts.
From S2P Require Import Trace FakeVm FakeVmFacts.

(** ** Calls that cannot return an error *)

Definition no_err {A : Type} (m : outcome Error A) : Prop := forall e, m <> Err e.

Lemma no_err_bind {A B} (m : outcome Error A) (f : A -> outcome Error B) :
  no_err m -> (forall a, no_err (f a)) -> no_err (m ≫= f).
Proof. intros Hm Hf e. destruct m as [a|e'|]; cbn; [apply Hf|by destruct (Hm e')|done]. Qed.

Lemma no_err_ok {A} (a : A) : no_err (Ok a).
Proof. done. Qed.
Lemma no_err_panic {A} : no_err (@Panic Error A).
Proof. done. Qed.
Lemma no_err_add64 a b : no_err (add64 a b).
Proof. intros e. unfold add64. by case_match. Qed.
Lemma no_err_sub64 a b : no_err (sub64 a b).
Proof. intros e. unfold sub64. by case_match. Qed.
Lemma no_err_slice {A} (l : list A) o n : no_err (slice l o n).
Proof. intros e. unfold slice. by case_match. Qed.
Lemma no_err_index {A} (l : list A) i : no_err (index l i).
Proof. intros e. unfold index. by case_match. Qed.

Create HintDb noerr.
#[global] Hint Resolve no_err_ok no_err_panic no_err_add64 no_err_sub64 no_err_slice no_err_index : noerr.

Ltac no_err_tac :=
  repeat first
    [ solve [eauto with noerr]
    | apply no_err_bind; [|intros ?]
    | match goal with
      | |- no_err (match ?x with _ => _ end) => destruct x
      | |- no_err (let (_, _) := ?x in _) => destruct x
      end ].

Lemma no_err_hits a stop l : no_err (hits a stop l).
Proof. induction l as [|[s r] l IH]; cbn [hits]; no_err_tac. Qed.
#[global] Hint Resolve no_err_hits : noerr.

Lemma no_err_punch a len l : no_err (punch a len l).
Proof.
  unfold punch. no_err_tac.
  match goal with |- no_err (punch_all _ _ ?hs _) => generalize l; induction hs as [|s hs IH] end;
    intros m; cbn [punch_all]; unfold punch_one, sub_data; no_err_tac.
Qed.

Lemma no_err_first_fit len cur l : no_err (first_fit_from len cur l).
Proof. revert cur. induction l as [|[s r] l IH]; intros cur; cbn [first_fit_from]; no_err_tac. Qed.

Lemma no_err_all_clear a stop l : no_err (all_clear a stop l).
Proof. induction l as [|[s r] l IH]; cbn [all_clear]; no_err_tac. Qed.

Lemma no_err_map_data files len src : no_err (map_data files len src).
Proof. unfold map_data, zeroed, sub_data. no_err_tac. Qed.

Lemma no_err_put a d l : no_err (put a d l).
Proof. unfold put, target_region, patch_region. no_err_tac. Qed.

Lemma no_err_protect_all prot hs l : no_err (protect_all prot hs l).
Proof. revert l. induction hs as [|s hs IH]; intros l; cbn [protect_all]; no_err_tac. Qed.

#[global] Hint Resolve no_err_punch no_err_first_fit no_err_all_clear no_err_map_data no_err_put
  no_err_protect_all : noerr.

(** The same for stateful programs. *)
Definition never_err {A : Type} (m : stM Error State A) : Prop := forall s, no_err (m s).1.

Lemma never_err_bind {A B} (m : stM Error State A) (f : A -> stM Error State B) :
  never_err m -> (forall a, never_err (f a)) -> never_err (m ≫= f).
Proof.
  intros Hm Hf s e. unfold mbind, stM_bind. specialize (Hm s). destruct (m s) as [[a|e'|] s']; cbn.
  - apply Hf.
  - intros [= ->]. by apply (Hm e).
  - done.
Qed.

Lemma never_err_lift {A} (m : outcome Error A) : no_err m -> never_err (lift m).
Proof. intros Hm s. apply Hm. Qed.

Lemma never_err_ret {A} (a : A) : never_err (mret a).
Proof. intros s. apply no_err_ok. Qed.

Lemma never_err_for_each {A} (body : A -> stM Error State unit) xs :
  (forall x, never_err (body x)) -> never_err (for_each body xs).
Proof.
  intros Hb. induction xs as [|x xs IH]; cbn [for_each]; [apply never_err_ret|].
  apply never_err_bind; [apply Hb|]. intros _. apply IH.
Qed.

Lemma never_err_map w len prot src : never_err (fake_map w len prot src).
Proof.
  intros s. unfold fake_map. destruct (negb _); [done|].
  match goal with |- no_err (match ?m with _ => _ end).1 => assert (Hm : no_err m) end.
  { unfold first_fit. destruct w; no_err_tac. }
  destruct (match w with Anywhere => _ | Hint _ => _ | Exact _ => _ end) as [[a l]|e|];
    [|by destruct (Hm e)|done].
  destruct (negb _); [done|]. pose proof (no_err_map_data (st_files s) len src) as Hd.
  destruct (map_data _ _ _) as [|e|]; [done|by destruct (Hd e)|done].
Qed.

Lemma never_err_zero a len : never_err (fake_zero a len).
Proof.
  intros s. unfold fake_zero. pose proof (no_err_put a (replicate (Z.to_nat len) x00) (st_regions s)) as Hp.
  destruct (put _ _ _) as [|e|]; [done|by destruct (Hp e)|done].
Qed.

Lemma never_err_protect a len prot : never_err (fake_protect a len prot).
Proof.
  intros s. unfold fake_protect.
  match goal with |- no_err (match ?m with _ => _ end).1 => assert (Hm : no_err m) by no_err_tac; destruct m as [|e|] end;
    [done|by destruct (Hm e)|done].
Qed.

Lemma never_err_icache a len : never_err (fake_icache_sync a len).
Proof. done. Qed.

Lemma no_err_range seg : no_err (range seg).
Proof. unfold range. no_err_tac. Qed.

Lemma fill_mapped_never_err img fd pl can : never_err (fill_mapped (vm:=FakeVm can) img fd pl).
Proof.
  unfold fill_mapped. apply never_err_bind; [|intros _]; apply never_err_for_each; intros seg.
  - unfold fill_mapped_seg. cbn [vm_map vm_zero vm_protect FakeVm].
    repeat first
      [ apply never_err_map | apply never_err_zero | apply never_err_protect | apply never_err_ret
      | apply never_err_lift; first [apply no_err_range | solve [eauto with noerr]]
      | apply never_err_bind; [|intros ?]
      | match goal with |- never_err (match ?x with _ => _ end) => destruct x end ].
  - unfold sync_zeroed_seg. cbn [vm_icache_sync FakeVm].
    apply never_err_bind; [apply never_err_lift; eauto with noerr|intros ?].
    destruct (is_exec _); [|apply never_err_ret]. destruct (zero seg); [apply never_err_icache|apply never_err_ret].
Qed.

(** ** A well-formed image loads *)

Lemma plan_at_total {heap : Heap} page img raw hi n :
  is_power_of_two page = true -> page < 2 ^ 64 -> Image_wf page img ->
  va_span img page = Ok (0, hi) -> reservation_len img page = Ok n ->
  placement_ok page img (At raw) -> e_entry (ehdr img) < hi ->
  try_reserve (Z.of_nat (length (loads img))) = true ->
  exists pl, plan img page (At raw) = Ok pl.
Proof.
  intros Hpp Hpu Hwf Hspan Hresv (Hraw & H0 & n' & Hn & Hroom) Hent Hheap.
  destruct (seg_align_eq page img Hpp Hpu Hwf) as (a & Ha & _ & Hap & _).
  destruct (reservation_len_inv page img 0 hi a Hspan Ha n' Hn) as [-> _].
  rewrite (plan_at_eq page img Hpp Hpu Hwf 0 hi a Hspan Ha raw) by done.
  destruct (base_room page img Hpp Hpu Hwf 0 hi a Ha raw Hraw) as (H1 & H2 & _).
  rewrite (proj2 (Z.ltb_ge _ _)) by lia. rewrite Hheap. cbn [negb].
  rewrite (proj2 (Z.ltb_lt (e_entry (ehdr img) + _) _)) by lia. eauto.
Qed.

Section Total.
Context {heap : Heap}.
Variables (img : Image) (fd : Z) (data : list byte) (hi n : Z) (s0 : State).
Hypothesis wf : Image_wf fake_page img.
Hypothesis inv0 : fake_inv s0.
Hypothesis fd0 : fake_fd s0 fd = Some data.
Hypothesis covered : file_covers img data.
Hypothesis span : va_span img fake_page = Ok (0, hi).
Hypothesis nonempty : 0 < hi.
Hypothesis resv : reservation_len img fake_page = Ok n.
Hypothesis room_n : fake_room s0 n.
Hypothesis room_hi : fake_room s0 hi.
Hypothesis pie : e_type (ehdr img) = ET_DYN.
Hypothesis entry_in : e_entry (ehdr img) < hi.
Hypothesis granted : try_reserve (Z.of_nat (length (loads img))) = true.

#[local] Instance fvm : Vm State := FakeVm true.

Lemma fake_reserve : exists raw s1,
  reserve_mapped img fake_page 0 n s0 = (Ok (At raw), s1) /\ placement_ok fake_page img (At raw).
Proof.
  pose proof (wp_reserve img 0 hi n s0 eq_refl wf inv0 span nonempty resv room_n
    ltac:(by rewrite Z.sub_0_r)) as Hwp.
  unfold wp in Hwp. revert Hwp. unfold reserve_mapped. rewrite pie. cbn [Z.eqb Pos.eqb ET_DYN].
  change (vm_map Anywhere n PROT_NONE Anon) with (fake_map Anywhere n PROT_NONE Anon).
  unfold mbind, stM_bind. pose proof (never_err_map Anywhere n PROT_NONE Anon s0) as Hne.
  destruct (fake_map Anywhere n PROT_NONE Anon s0) as [[raw|e|] s1]; [|by destruct (Hne e)|done].
  intros [_ _ Hp _ _ _ _]. by exists raw, s1.
Qed.

(** On the model address space a position-independent image linked at zero, whose
    entry point lies in it, always loads. *)
Lemma fake_load_ok : exists ld s1,
  load_mapped img fd fake_page s0 = (Ok ld, s1) /\ loaded_ok img data s0 ld s1.
Proof.
  pose proof (load_mapped_wp img fd data 0 hi n s0 eq_refl wf inv0 fd0 span nonempty resv room_n
    ltac:(by rewrite Z.sub_0_r) covered) as Hwp. unfold wp in Hwp.
  destruct fake_reserve as (raw & s1 & Hres & Hp).
  destruct (plan_at_total fake_page img raw hi n eq_refl eq_refl wf span resv Hp entry_in granted) as [pl Hpl].
  change (page_size (Vm:=fvm)) with fake_page in Hwp.
  assert (Hok : no_err (load_mapped img fd fake_page s0).1).
  { unfold load_mapped. unfold mbind, stM_bind at 1, lift at 1. rewrite span.
    unfold stM_bind at 1, lift at 1. rewrite resv. unfold stM_bind at 1. rewrite Hres.
    unfold stM_bind at 1, lift at 1. rewrite Hpl. unfold stM_bind, on_err. cbn [lplan].
    pose proof (fill_mapped_never_err img fd pl true s1) as Hf.
    change (FakeVm true) with fvm in Hf. intros e.
    destruct (fill_mapped img fd pl s1) as [[u|e'|] s2]; [done|by destruct (Hf e')|done]. }
  destruct (load_mapped img fd fake_page s0) as [[ld|e|] s2]; [eauto|by destruct (Hok e)|done].
Qed.
End Total.

(** When planning fails after the reservation was taken, [load_mapped]
    returns the error and keeps the reservation: the address space is the one
    right after the reserving call. *)
Theorem plan_failure_keeps_reservation {S} {vm : Vm S} {heap : Heap} img fd page lo hi n p e (s0 s1 : S) :
  va_span img page = Ok (lo, hi) -> reservation_len img page = Ok n ->
  reserve_mapped img page lo n s0 = (Ok p, s1) -> plan img page p = Err e ->
  load_mapped img fd page s0 = (Err e, s1).
Proof.
  intros Hspan Hresv Hres Hpl. unfold load_mapped, mbind, stM_bind, lift.
  by rewrite Hspan, Hresv, Hres, Hpl.
Qed.

(** ** Witnesses *)

Definition fake0 : State := install 3 mini_bytes fake_new.

Lemma fake0_inv : fake_inv fake0.
Proof.
  split; [split; constructor|done|by exists 0x10000|]. split; [by apply NoDup_singleton|].
  intros fd d. cbn. destruct (fd =? 3); [|done]. by intros [= <-].
Qed.

Lemma fake_room_new len : len < 2 ^ 60 -> fake_room fake0 len.
Proof.
  intros Hl. split; [lia|]. split; [cbn; lia|]. intros e He. by apply not_elem_of_nil in He.
Qed.

Lemma mini_covered : file_covers mini_img mini_bytes.
Proof.
  intros ph Hph _. unfold load_phdrs in Hph. cbn in Hph.
  repeat (apply elem_of_cons in Hph as [->|Hph]; [by vm_compute|]). by apply not_elem_of_nil in Hph.
Qed.

Lemma mini_loads : exists ld s1,
  load_mapped (vm:=FakeVm true) (heap:=plenty) mini_img 3 4096 fake0 = (Ok ld, s1) /\
  loaded_ok (vm:=FakeVm true) (heap:=plenty) mini_img mini_bytes fake0 ld s1.
Proof.
  apply (fake_load_ok (heap:=plenty) mini_img 3 mini_bytes 0x3000 0x3000 fake0 mini_wf fake0_inv eq_refl
           mini_covered); try done; by apply fake_room_new.
Qed.

Lemma load_mapped_spec_witness :
  match load_mapped (vm:=FakeVm true) (heap:=plenty) mini_img 3 4096 fake0 with
  | (Ok ld, s) => loaded_ok (vm:=FakeVm true) (heap:=plenty) mini_img mini_bytes fake0 ld s
  | (Err _, s) => load_failed (vm:=FakeVm true) (heap:=plenty) mini_img 0 0x3000 0x3000 fake0 s
  | (Panic, _) => False
  end.
Proof.
  apply (load_mapped_spec (vm:=FakeVm true) (laws:=FakeVm_laws true) (heap:=plenty) mini_img 3 mini_bytes 0 0x3000 0x3000 fake0
           mini_wf fake0_inv eq_refl eq_refl eq_refl eq_refl mini_covered); [done| |]; by apply fake_room_new.
Defined.

Lemma unload_undoes_witness :
  exists ld s1 s2, load_mapped (vm:=FakeVm true) (heap:=plenty) mini_img 3 4096 fake0 = (Ok ld, s1) /\
    unload (vm:=FakeVm true) ld s1 = (Ok tt, s2) /\ forall x, fake_view s2 x = fake_view fake0 x.
Proof.
  destruct mini_loads as (ld & s1 & Hld & _).
  destruct (unload_undoes (vm:=FakeVm true) (laws:=FakeVm_laws true) (heap:=plenty) mini_img 3 mini_bytes 0 0x3000 0x3000 fake0
           mini_wf fake0_inv eq_refl eq_refl ld s1 eq_refl eq_refl mini_covered) as (s2 & Hun & Hv);
    [done|by apply fake_room_new|by apply fake_room_new|done|].
  exists ld, s1, s2. auto.
Defined.

Lemma never_unreserved_witness :
  exists ld s1 tr, load_mapped (vm:=FakeVm true) (heap:=plenty) mini_img 3 4096 fake0 = (Ok ld, s1) /\
    load_mapped (vm:=recording (vm:=FakeVm true)) (heap:=plenty) mini_img 3 4096 (fake0, []) = (Ok ld, (s1, tr)) /\
    tr <> [] /\
    Forall (fun s => forall x, within (reserve_addr (lplan ld)) (reserve_len (lplan ld)) x ->
              is_Some (fake_view s x)) tr.
Proof.
  destruct mini_loads as (ld & s1 & Hld & _).
  destruct (never_unreserved (vm:=FakeVm true) (laws:=FakeVm_laws true) (heap:=plenty) mini_img 3 mini_bytes 0 0x3000 0x3000 fake0 ld s1
           eq_refl mini_wf fake0_inv eq_refl mini_covered eq_refl) as (tr & Htr & Hne & Hall);
    [done|done|by apply fake_room_new|by apply fake_room_new|done|].
  exists ld, s1, tr. auto.
Defined.

Lemma load_copied_non_pie_witness :
  load (vm:=FakeVm false) (heap:=plenty) mini_exec_img (slice_source mini_exec_bytes) None fake0
  = (Err ENOTSUP, fake0).
Proof. by apply (load_copied_non_pie (vm:=FakeVm false) (heap:=plenty)). Defined.

(** *** Two images *)

Abbreviation mini_run := (load_mapped (vm:=FakeVm true) (heap:=plenty) mini_img 3 4096 fake0).
Definition mini_s1 : State := mini_run.2.

Lemma mini_run_ok : exists ld, mini_run = (Ok ld, mini_s1) /\
  loaded_ok (vm:=FakeVm true) (heap:=plenty) mini_img mini_bytes fake0 ld mini_s1.
Proof.
  destruct mini_loads as (ld & s1 & Hld & Hok). exists ld. unfold mini_s1. rewrite Hld. by split.
Qed.

Lemma mini_s1_room : fake_room mini_s1 0x3000.
Proof.
  assert (Hb : forallb (fun e => e.1 + r_len e.2 + 0x3000 <? 2 ^ 64) (st_regions mini_s1) = true)
    by (vm_compute; reflexivity).
  split; [done|]. split; [by vm_compute|]. intros e He.
  rewrite forallb_forall in Hb. apply Z.ltb_lt, Hb. by apply list_elem_of_In.
Qed.

Lemma mini_s1_fd : fake_fd mini_s1 3 = Some mini_bytes.
Proof. vm_compute. reflexivity. Qed.

Lemma mini_loads_again : exists ld s2,
  load_mapped (vm:=FakeVm true) (heap:=plenty) mini_img 3 4096 mini_s1 = (Ok ld, s2).
Proof.
  destruct mini_run_ok as (ld & _ & [_ _ Hinv _ _ _ _ _]).
  destruct (fake_load_ok (heap:=plenty) mini_img 3 mini_bytes 0x3000 0x3000 mini_s1 mini_wf (step_inv _ _ Hinv)
    mini_s1_fd mini_covered eq_refl eq_refl eq_refl mini_s1_room mini_s1_room eq_refl eq_refl eq_refl)
    as (ld2 & s2 & Hld2 & _).
  exists ld2, s2. exact Hld2.
Qed.

Lemma images_disjoint_witness : exists ld1 ld2 s2,
  load_mapped (vm:=FakeVm true) (heap:=plenty) mini_img 3 4096 fake0 = (Ok ld1, mini_s1) /\
  load_mapped (vm:=FakeVm true) (heap:=plenty) mini_img 3 4096 mini_s1 = (Ok ld2, s2) /\
  forall x, within (reserve_addr (lplan ld1)) (reserve_len (lplan ld1)) x ->
    ~ within (reserve_addr (lplan ld2)) (reserve_len (lplan ld2)) x /\
    fake_view s2 x = fake_view mini_s1 x.
Proof.
  destruct mini_run_ok as (ld1 & H1 & _), mini_loads_again as (ld2 & s2 & H2).
  exists ld1, ld2, s2. split; [exact H1|]. split; [exact H2|]. intros x Hx.
  exact (images_disjoint (vm:=FakeVm true) (laws:=FakeVm_laws true) (heap:=plenty)
    mini_img 3 mini_bytes 0 0x3000 0x3000 mini_img 3 mini_bytes 0 0x3000 0x3000 fake0 mini_s1 s2 ld1 ld2 x
    eq_refl mini_wf mini_wf fake0_inv eq_refl eq_refl eq_refl eq_refl eq_refl eq_refl eq_refl mini_covered
    (fake_room_new 0x3000 eq_refl) (fake_room_new 0x3000 eq_refl) H1 mini_s1_fd mini_covered
    mini_s1_room mini_s1_room H2 Hx).
Defined.

(** *** The copy path *)

Lemma load_copied_spec_witness :
  match load_copied (vm:=FakeVm false) (heap:=plenty) mini_img (slice_source mini_bytes) 4096 fake0 with
  | (Ok ld, s) => copied_ok (vm:=FakeVm false) (heap:=plenty) mini_img mini_bytes fake0 ld s
  | (Err _, s) => copy_failed (vm:=FakeVm false) (heap:=plenty) mini_img 0x3000 fake0 s
  | (Panic, _) => False
  end.
Proof.
  apply (load_copied_spec (vm:=FakeVm false) (laws:=FakeVm_laws false) (heap:=plenty)
    mini_img (slice_source mini_bytes) mini_bytes 0 0x3000 0x3000 fake0
    mini_wf fake0_inv eq_refl eq_refl 4096 eq_refl); try done.
  - by apply slice_source_serves.
  - intros ph Hph. unfold load_phdrs in Hph. cbn in Hph.
    repeat (apply elem_of_cons in Hph as [->|Hph]; [by vm_compute|]). by apply not_elem_of_nil in Hph.
  - split; [done|]. split; [done|]. split; [done|]. split; [by vm_compute|].
    intros e He. by apply not_elem_of_nil in He.
Defined.

Lemma copy_loop_bounded_witness :
  copy_chunks (vm:=FakeVm false) (slice_source mini_bytes) (mini_img.(phdrs) !!! 0%nat) 0x10000000 7 0 fake0 =
  copy_chunks (vm:=FakeVm false) (slice_source mini_bytes) (mini_img.(phdrs) !!! 0%nat) 0x10000000
    (chunk_fuel (mini_img.(phdrs) !!! 0%nat)) 0 fake0.
Proof.
  apply (copy_loop_bounded (vm:=FakeVm false) (slice_source mini_bytes)); [by vm_compute|].
  apply Nat.leb_le. vm_compute. reflexivity.
Defined.

(** ** A failed load that leaves its reservation behind

    The entry point of this image is the last address there is: the parser
    accepts it, and the bias takes it over the end of the address space. *)

Definition leak_bytes : list byte := Eval vm_compute in
  tiny (target:=x86_target)
    (with_entry (2 ^ 64 - 1) (with_phdrs (mini_phdrs 0 0xc0) (builder_new (target:=x86_target)))) 192.
Definition leak_img : Image := Eval vm_compute in parsed leak_bytes.

Lemma plan_failure_keeps_reservation_witness :
  load_mapped (vm:=FakeVm true) (heap:=plenty) leak_img 3 4096 fake0
  = (Err ENOMEM, (reserve_mapped (vm:=FakeVm true) leak_img 4096 0 0x3000 fake0).2).
Proof.
  apply (plan_failure_keeps_reservation (vm:=FakeVm true) (heap:=plenty) leak_img 3 4096 0 0x3000 0x3000
           (At 0x10000000) ENOMEM fake0); by vm_compute.
Defined.

