(* ===== verification/Auxv.v ===== *)
(** * The initial process stack ([rust/src/auxv.rs])

    [argc], [argv], [envp] and the auxiliary vector, laid out from the top of a
    stack downwards.  The stack is behind the [StackWriter] trait. *)

From Stdlib Require Import Strings.Byte.
From stdpp Require Import base numbers option strings sets list.
From S2P Require Import Prelude Err.

Definition AT_NULL : Z := 0.
Definition AT_IGNORE : Z := 1.
Definition AT_EXECFD : Z := 2.
Definition AT_PHDR : Z := 3.
Definition AT_PHENT : Z := 4.
Definition AT_PHNUM : Z := 5.
Definition AT_PAGESZ : Z := 6.
Definition AT_BASE : Z := 7.
Definition AT_FLAGS : Z := 8.
Definition AT_ENTRY : Z := 9.
Definition AT_NOTELF : Z := 10.
Definition AT_UID : Z := 11.
Definition AT_EUID : Z := 12.
Definition AT_GID : Z := 13.
Definition AT_EGID : Z := 14.
Definition AT_PLATFORM : Z := 15.
Definition AT_HWCAP : Z := 16.
Definition AT_CLKTCK : Z := 17.
Definition AT_SECURE : Z := 23.
Definition AT_BASE_PLATFORM : Z := 24.
Definition AT_RANDOM : Z := 25.
Definition AT_HWCAP2 : Z := 26.
Definition AT_EXECFN : Z := 31.
Definition AT_SYSINFO : Z := 32.
Definition AT_SYSINFO_EHDR : Z := 33.
Definition AT_MINSIGSTKSZ : Z := 51.

Definition ARG_MAX : Z := 4096 * 32.
Definition SP_ALIGN : Z := 16.

(** [trait StackWriter]; [write] takes [&mut self]. *)
Class StackWriter (W : Type) : Type := {
  sw_top : W -> Z;
  sw_bottom : W -> Z;
  sw_write : Z -> list byte -> stM Error W unit
}.

Record AuxvSpec : Type := MkAuxvSpec {
  phdr : option Z;
  phent : Z;
  phnum : Z;
  base : Z;
  entry : Z;
  pagesz : Z;
  uid : Z;
  gid : Z;
  hwcap : Z;
  hwcap2 : Z;
  clktck : Z;
  secure : bool;
  random : list byte;
  platform : list byte;
  execfn : list byte;
  sysinfo_ehdr : option Z;
  minsigstksz : option Z
}.

(** [impl Default for AuxvSpec]. *)
Definition AuxvSpec_default : AuxvSpec :=
  MkAuxvSpec None 0 0 0 0 4096 0 0 0 0 100 false (replicate 16 x00) [] [] None None.

Record StackLayout : Type := MkStackLayout { sp : Z; argc_at : Z; low_water : Z }.

(** The loop of [check_arg_env_size]. *)
Fixpoint arg_env_len (len : Z) (strs : list (list byte)) : Res Z :=
  match strs with
  | [] => Ok len
  | s :: strs =>
    n ← add64 (Z.of_nat (length s)) 1;
    len ← ok_or (l ← checked_add len n; checked_add l 8) E2BIG;
    arg_env_len len strs
  end.

Definition check_arg_env_size (argv envp : list (list byte)) (stack_size : Z) : Res Z :=
  len ← arg_env_len 0 (argv ++ envp);
  let budget := Z.max ARG_MAX (stack_size / 4) in
  if budget <? len then Err E2BIG else Ok len.

Definition align_sp {E : Type} (v a : Z) : outcome E Z :=
  m ← sub64 a 1;
  Ok (Z.land v (not64 m)).

Section Build.
Context {W : Type} {writer : StackWriter W} {heap : Heap}.

(** [struct Pusher]: the writer and the stack pointer. *)
Definition Pusher : Type := (W * Z)%type.

Definition push_bytes (data : list byte) : stM Error Pusher Z := fun '(w, sp) =>
  match checked_sub sp (Z.of_nat (length data)) with
  | None => (Err E2BIG, (w, sp))
  | Some sp' =>
    if sp' <? sw_bottom w then (Err E2BIG, (w, sp'))
    else
      match sw_write sp' data w with
      | (Ok _, w') => (Ok sp', (w', sp'))
      | (Err e, w') => (Err e, (w', sp'))
      | (Panic, w') => (Panic, (w', sp'))
      end
  end.

Definition push_cstr (s : list byte) : stM Error Pusher Z :=
  at_ ← push_bytes [x00];
  match s with
  | [] => mret at_
  | _ => push_bytes s
  end.

Definition align_pusher (a : Z) : stM Error Pusher unit := fun '(w, sp) =>
  match align_sp (E:=Error) sp a with
  | Ok sp' => (Ok tt, (w, sp'))
  | Err e => (Err e, (w, sp))
  | Panic => (Panic, (w, sp))
  end.

(** [for s in strs { v.push(p.push_cstr(s)?) }]. *)
Fixpoint push_cstrs (strs : list (list byte)) : stM Error Pusher (list Z) :=
  match strs with
  | [] => mret []
  | s :: strs =>
    a ← push_cstr s;
    rest ← push_cstrs strs;
    mret (a :: rest)
  end.

(** The strings of one vector: pushed last to first, addresses in order. *)
Definition push_vector (strs : list (list byte)) : stM Error Pusher (list Z) :=
  if negb (try_reserve (Z.of_nat (length strs))) then fail ENOMEM else
  addrs ← push_cstrs (reverse strs);
  mret (reverse addrs).

(** The entries [put] collects, [AT_NULL] included. *)
Definition auxv_entries (aux : AuxvSpec) (platform_at execfn_at : option Z) (random_at : Z) :
    list (Z * Z) :=
  match phdr aux with
  | Some a => [(AT_PHDR, a); (AT_PHENT, phent aux); (AT_PHNUM, phnum aux)]
  | None => []
  end ++
  [ (AT_PAGESZ, pagesz aux); (AT_BASE, base aux); (AT_FLAGS, 0); (AT_ENTRY, entry aux);
    (AT_UID, uid aux); (AT_EUID, uid aux); (AT_GID, gid aux); (AT_EGID, gid aux);
    (AT_SECURE, if secure aux then 1 else 0); (AT_CLKTCK, clktck aux);
    (AT_HWCAP, hwcap aux); (AT_HWCAP2, hwcap2 aux); (AT_RANDOM, random_at) ] ++
  match platform_at with Some a => [(AT_PLATFORM, a)] | None => [] end ++
  match execfn_at with Some a => [(AT_EXECFN, a)] | None => [] end ++
  match sysinfo_ehdr aux with Some v => [(AT_SYSINFO_EHDR, v)] | None => [] end ++
  match minsigstksz aux with Some v => [(AT_MINSIGSTKSZ, v)] | None => [] end ++
  [(AT_NULL, 0)].

(** [let block = ...]. *)
Definition block_size (nargv nenvp nav : Z) : Res Z :=
  a ← add64 1 nargv;
  a ← add64 a 1;
  a ← add64 a nenvp;
  a ← add64 a 1;
  a ← mul64 a 8;
  b ← mul64 nav 16;
  add64 a b.

(** The closure [word]; [at_] is the second part of the state. *)
Definition word (v : Z) : stM Error (W * Z) unit := fun '(w, at_) =>
  match sw_write at_ (to_le_bytes 8 v) w with
  | (Ok _, w') =>
    match add64 (E:=Error) at_ 8 with
    | Ok at' => (Ok tt, (w', at'))
    | Err e => (Err e, (w', at_))
    | Panic => (Panic, (w', at_))
    end
  | (Err e, w') => (Err e, (w', at_))
  | (Panic, w') => (Panic, (w', at_))
  end.

(** The pointer block, low to high. *)
Definition put_block (argc : Z) (argv_at envp_at : list Z) (av : list (Z * Z)) : stM Error (W * Z) unit :=
  _ ← word argc;
  _ ← for_each word argv_at;
  _ ← word 0;
  _ ← for_each word envp_at;
  _ ← word 0;
  for_each (fun e : Z * Z => _ ← word e.1; word e.2) av.

(** The blobs above the vectors: platform, then execfn and the random bytes. *)
Definition push_execfn_random (aux : AuxvSpec) : stM Error Pusher (option Z * Z) :=
  execfn_at ← push_cstr (execfn aux);
  _ ← align_pusher SP_ALIGN;
  random_at ← push_bytes (random aux);
  mret (Some execfn_at, random_at).

Definition push_blobs (aux : AuxvSpec) : stM Error Pusher (option Z * option Z * Z) :=
  platform_at ← match platform aux with
                | [] => mret None
                | p => a ← push_cstr p; mret (Some a)
                end;
  '(execfn_at, random_at) ← push_execfn_random aux;
  mret (platform_at, execfn_at, random_at).

(** The last part: the pointer block below everything pushed so far. *)
Definition write_block (argc : Z) (argv_at envp_at : list Z) (av : list (Z * Z)) (block : Z) :
    stM Error Pusher StackLayout := fun '(w, psp) =>
  match (d ← ok_or (checked_sub psp block) E2BIG; align_sp d SP_ALIGN) with
  | Ok sp =>
    if sp <? sw_bottom w then (Err E2BIG, (w, psp))
    else
      match put_block argc argv_at envp_at av (w, sp) with
      | (Ok _, (w', _)) => (Ok (MkStackLayout sp sp sp), (w', psp))
      | (Err e, (w', _)) => (Err e, (w', psp))
      | (Panic, (w', _)) => (Panic, (w', psp))
      end
  | Err e => (Err e, (w, psp))
  | Panic => (Panic, (w, psp))
  end.

(** From the strings on, on a pusher. *)
Definition build_from (argv envp : list (list byte)) (aux : AuxvSpec) : stM Error Pusher StackLayout :=
  '(platform_at, execfn_at, random_at) ← push_blobs aux;
  envp_at ← push_vector envp;
  argv_at ← push_vector argv;
  let av := auxv_entries aux platform_at execfn_at random_at in
  block ← lift (block_size (Z.of_nat (length argv)) (Z.of_nat (length envp)) (Z.of_nat (length av)));
  write_block (Z.of_nat (length argv)) argv_at envp_at av block.

Definition build_stack (argv envp : list (list byte)) (aux : AuxvSpec) : stM Error W StackLayout := fun w =>
  match (stack_size ← sub64 (sw_top w) (sw_bottom w);
         _ ← check_arg_env_size argv envp stack_size;
         align_sp (sw_top w) SP_ALIGN) with
  | Ok sp => let '(r, (w', _)) := build_from argv envp aux (w, sp) in (r, w')
  | Err e => (Err e, w)
  | Panic => (Panic, w)
  end.
End Build.
