(* ===== verification/AuxvFacts.v ===== *)
(** * Properties of the initial stack

    Against the laws of a stack writer: every write stays inside the stack, the
    layout can be read back, and the auxiliary vector says what it should. *)

From Stdlib Require Import Strings.Byte.
From stdpp Require Import base numbers option strings sets list.
From S2P Require Import Prelude Err Elf VmSpec Auxv.

(** ** What a stack writer promises *)

Class StackLaws (W : Type) {writer : StackWriter W} : Type := {
  sw_inv : W -> Prop;
  sw_mem : W -> Z -> byte;
  law_bounds w : sw_inv w -> 0 <= sw_bottom w <= sw_top w /\ sw_top w < 2 ^ 64;
  law_sw_write w a d :
    sw_inv w -> sw_bottom w <= a -> a + Z.of_nat (length d) <= sw_top w ->
    exists w', sw_write a d w = (Ok tt, w') /\ sw_inv w' /\
      sw_top w' = sw_top w /\ sw_bottom w' = sw_bottom w /\
      forall x, sw_mem w' x =
        if decide (within a (Z.of_nat (length d)) x) then d !!! Z.to_nat (x - a) else sw_mem w x
}.

(** ** The size check *)

Definition arg_env_total (strs : list (list byte)) : Z :=
  foldr (fun s n => Z.of_nat (length s) + 9 + n) 0 strs.

Lemma arg_env_total_nonneg strs : 9 * Z.of_nat (length strs) <= arg_env_total strs.
Proof. induction strs; cbn [arg_env_total foldr length] in *; unfold arg_env_total in *; lia. Qed.

Lemma arg_env_len_eq len strs :
  0 <= len -> Forall (fun s => Z.of_nat (length s) < 2 ^ 63) strs ->
  arg_env_len len strs =
  if len + arg_env_total strs <? 2 ^ 64 then Ok (len + arg_env_total strs)
  else match strs with [] => Ok len | _ => Err E2BIG end.
Proof.
  intros Hlen Hs. revert len Hlen. induction Hs as [|s strs Hs _ IH]; intros len Hlen; cbn [arg_env_len].
  { cbn [arg_env_total foldr]. rewrite Z.add_0_r. by destruct (len <? 2 ^ 64). }
  rewrite add64_small by lia. cbn [mbind outcome_bind option_bind].
  change (arg_env_total (s :: strs)) with (Z.of_nat (length s) + 9 + arg_env_total strs).
  pose proof (arg_env_total_nonneg strs).
  unfold checked_add. destruct (Z.ltb_spec (len + (Z.of_nat (length s) + 1)) (2 ^ 64)); cbn [mbind option_bind].
  - destruct (Z.ltb_spec (len + (Z.of_nat (length s) + 1) + 8) (2 ^ 64)); cbn [ok_or mbind outcome_bind].
    + rewrite IH by lia.
      replace (len + (Z.of_nat (length s) + 1) + 8 + arg_env_total strs)
        with (len + (Z.of_nat (length s) + 9 + arg_env_total strs)) by lia.
      destruct (Z.ltb_spec (len + (Z.of_nat (length s) + 9 + arg_env_total strs)) (2 ^ 64)); [done|].
      destruct strs; [|done]. cbn [arg_env_total foldr] in *. lia.
    + by rewrite (proj2 (Z.ltb_ge _ _)) by lia.
  - by rewrite (proj2 (Z.ltb_ge _ _)) by lia.
Qed.

(** C39. The size check accepts exactly the vectors whose strings,
    terminators and pointers together fit the budget -- a quarter of the stack,
    and at least [ARG_MAX] -- and returns their size; anything larger, overflow
    included, is [E2BIG]. *)
Theorem check_arg_env_size_spec argv envp stack_size :
  0 <= stack_size < 2 ^ 64 -> Forall (fun s => Z.of_nat (length s) < 2 ^ 63) (argv ++ envp) ->
  check_arg_env_size argv envp stack_size =
  if arg_env_total (argv ++ envp) <=? Z.max ARG_MAX (stack_size / 4)
  then Ok (arg_env_total (argv ++ envp)) else Err E2BIG.
Proof.
  intros Hsz Hs. unfold check_arg_env_size. rewrite arg_env_len_eq by done. rewrite Z.add_0_l.
  pose proof (Z.div_lt_upper_bound stack_size 4 (2 ^ 62) ltac:(lia) ltac:(lia)).
  pose proof (arg_env_total_nonneg (argv ++ envp)). unfold ARG_MAX.
  destruct (Z.ltb_spec (arg_env_total (argv ++ envp)) (2 ^ 64)).
  - cbn [mbind outcome_bind].
    destruct (Z.ltb_spec (Z.max (4096 * 32) (stack_size / 4)) (arg_env_total (argv ++ envp))),
      (Z.leb_spec (arg_env_total (argv ++ envp)) (Z.max (4096 * 32) (stack_size / 4))); try lia; done.
  - rewrite (proj2 (Z.leb_gt _ _)) by lia. destruct (argv ++ envp); [cbn in *; lia|done].
Qed.

Lemma check_arg_env_size_spec_witness :
  check_arg_env_size [[x2f; x61]] [] 65536 = Ok 11.
Proof.
  rewrite check_arg_env_size_spec; [reflexivity|lia|].
  constructor; [cbn; lia|constructor].
Defined.

(** ** Programs on a stack *)

Section Layout.
Context {W : Type} {writer : StackWriter W} {laws : StackLaws W} {heap : Heap}.
Implicit Types (w : W).

(** [w'] is [w] after writes to [[lo, hi)] only. *)
Record wrote (lo hi : Z) (w w' : W) : Prop := {
  wr_inv : sw_inv w';
  wr_top : sw_top w' = sw_top w;
  wr_bottom : sw_bottom w' = sw_bottom w;
  wr_frame : forall x, x < lo \/ hi <= x -> sw_mem w' x = sw_mem w x
}.

Lemma wrote_refl lo hi w : sw_inv w -> wrote lo hi w w.
Proof. by split. Qed.

Lemma wrote_trans lo1 hi1 lo2 hi2 w w1 w2 :
  wrote lo1 hi1 w w1 -> wrote lo2 hi2 w1 w2 -> wrote (Z.min lo1 lo2) (Z.max hi1 hi2) w w2.
Proof.
  intros [I1 T1 B1 F1] [I2 T2 B2 F2]. split; [done|congruence|congruence|].
  intros x Hx. rewrite F2, F1 by lia. done.
Qed.

Lemma wrote_weaken lo hi lo' hi' w w' : wrote lo hi w w' -> lo' <= lo -> hi <= hi' -> wrote lo' hi' w w'.
Proof. intros [I T B F] H1 H2. split; try done. intros x Hx. apply F. lia. Qed.

Definition bytes_at (w : W) (a : Z) (d : list byte) : Prop :=
  forall i b, d !! i = Some b -> sw_mem w (a + Z.of_nat i) = b.

Lemma bytes_persist lo hi w w' a d :
  wrote lo hi w w' -> bytes_at w a d -> hi <= a \/ a + Z.of_nat (length d) <= lo -> bytes_at w' a d.
Proof.
  intros [_ _ _ F] Hb Hd i b Hi. pose proof (lookup_lt_Some _ _ _ Hi).
  rewrite F by lia. by apply Hb.
Qed.

Lemma bytes_app w a d1 d2 :
  bytes_at w a d1 -> bytes_at w (a + Z.of_nat (length d1)) d2 -> bytes_at w a (d1 ++ d2).
Proof.
  intros H1 H2 i b [Hi|[Hge Hi]]%lookup_app_Some; [by apply H1|].
  specialize (H2 _ _ Hi). rewrite <- H2. f_equal. lia.
Qed.

Lemma write_bytes w a d :
  sw_inv w -> sw_bottom w <= a -> a + Z.of_nat (length d) <= sw_top w ->
  exists w', sw_write a d w = (Ok tt, w') /\ wrote a (a + Z.of_nat (length d)) w w' /\ bytes_at w' a d.
Proof.
  intros Hi Hb Ht. destruct (law_sw_write w a d Hi Hb Ht) as (w' & Hw & Hi' & T & B & M).
  exists w'. split; [done|]. split.
  - split; try done. intros x Hx. rewrite M, decide_False; [done|]. unfold within. lia.
  - intros i b Hib. pose proof (lookup_lt_Some _ _ _ Hib). rewrite M, decide_True by (unfold within; lia).
    replace (Z.to_nat (a + Z.of_nat i - a)) with i by lia. by apply list_lookup_total_correct.
Qed.

(** The ways a layout may fail, having written inside the stack only. *)
Definition too_big (w : W) (e : Error) (st : W * Z) : Prop :=
  (e = E2BIG \/ e = ENOMEM) /\ wrote (sw_bottom w) (sw_top w) w st.1.

(** A pusher that moved down from [sp] and wrote only what it passed over. *)
Record grown (w : W) (sp : Z) (st : W * Z) : Prop := {
  gr_down : st.2 <= sp;
  gr_bottom : sw_bottom w <= st.2;
  gr_wrote : wrote st.2 sp w st.1
}.

Lemma grown_too_big w sp st e :
  sp <= sw_top w -> grown w sp st -> e = E2BIG \/ e = ENOMEM -> too_big w e st.
Proof. intros Ht [H1 H2 H3] He. split; [done|]. eapply wrote_weaken; [exact H3|lia|lia]. Qed.

Lemma too_big_trans w sp (st : W * Z) e st' :
  sp <= sw_top w -> wrote (sw_bottom w) sp w st.1 -> too_big st.1 e st' -> too_big w e st'.
Proof.
  intros Ht H1 [He H2]. split; [done|]. pose proof H1 as [_ T B _].
  eapply wrote_weaken; [exact (wrote_trans _ _ _ _ _ _ _ H1 H2)|rewrite B; lia|rewrite T; lia].
Qed.

Lemma push_bytes_wpe d w sp :
  sw_inv w -> sp <= sw_top w ->
  wpe (push_bytes d)
    (fun a st => a = st.2 /\ st.2 = sp - Z.of_nat (length d) /\ grown w sp st /\ bytes_at st.1 a d)
    (fun e st => e = E2BIG /\ st.1 = w) (w, sp).
Proof.
  intros Hi Ht. unfold wpe, push_bytes. unfold checked_sub.
  destruct (Z.leb_spec (Z.of_nat (length d)) sp) as [Hle|]; [|done].
  destruct (Z.ltb_spec (sp - Z.of_nat (length d)) (sw_bottom w)) as [|Hb]; [done|].
  destruct (write_bytes w (sp - Z.of_nat (length d)) d Hi Hb ltac:(lia)) as (w' & -> & Hw & Hd).
  split; [done|]. split; [done|]. split; [|done]. split; cbn; [lia|done|].
  by replace sp with (sp - Z.of_nat (length d) + Z.of_nat (length d)) at 2 by lia.
Qed.

(** A NUL-terminated string. *)
Definition cstr_in (w : W) (a : Z) (s : list byte) : Prop := bytes_at w a (s ++ [x00]).

Lemma push_cstr_wpe s w sp :
  sw_inv w -> sp <= sw_top w ->
  wpe (push_cstr s)
    (fun a st => a = st.2 /\ st.2 = sp - (Z.of_nat (length s) + 1) /\ grown w sp st /\ cstr_in st.1 a s)
    (too_big w) (w, sp).
Proof.
  intros Hi Ht. unfold push_cstr. apply wpe_bind.
  eapply wpe_mono; [by apply push_bytes_wpe| |].
  2: { intros e [w1 sp1] [-> H]. cbn in H. subst. split; [by left|]. by apply wrote_refl. }
  intros a [w1 sp1]. cbn [fst snd length]. intros (-> & Hsp1 & Hg & Hz).
  destruct s as [|c s]; [by split_and!|]. pose proof Hg as [G1 G2 G3]. cbn [fst snd] in *.
  pose proof G3 as [I1 T1 B1 _].
  eapply wpe_mono; [apply push_bytes_wpe; [done|lia]| |].
  - intros a [w2 sp2]. cbn [fst snd]. intros (-> & Hsp2 & [G4 G5 G6] & Hs). cbn [fst snd] in *.
    split; [done|]. split; [lia|]. split.
    + split; cbn; [lia|lia|]. eapply wrote_weaken; [exact (wrote_trans _ _ _ _ _ _ _ G3 G6)|lia|lia].
    + apply bytes_app; [done|]. replace (sp2 + Z.of_nat (length (c :: s))) with sp1 by lia.
      eapply bytes_persist; [exact G6|done|lia].
  - intros e [w2 sp2] [-> H]. cbn in H. subst w2. split; [by left|].
    cbn. eapply wrote_weaken; [exact G3|lia|lia].
Qed.

Lemma grown_trans w sp st st' :
  grown w sp st -> grown st.1 st.2 st' -> grown w sp st'.
Proof.
  intros [D1 B1 W1] [D2 B2 W2]. pose proof W1 as [_ _ Hb _]. split; [lia|rewrite <- Hb; lia|].
  eapply wrote_weaken; [exact (wrote_trans _ _ _ _ _ _ _ W1 W2)|lia|lia].
Qed.

Lemma grown_inv w sp st : grown w sp st -> sp <= sw_top w -> sw_inv st.1 /\ st.2 <= sw_top st.1.
Proof. intros [D _ [I T _ _]] Ht. split; [done|]. rewrite T. lia. Qed.

Lemma grown_too_big_trans w sp (st : W * Z) e st' :
  sp <= sw_top w -> grown w sp st -> too_big st.1 e st' -> too_big w e st'.
Proof.
  intros Ht [D B Wr] Hbig. eapply too_big_trans; [exact Ht| |exact Hbig].
  eapply wrote_weaken; [exact Wr|done|lia].
Qed.

(** Strings lying in [[lo, hi)]. *)
Definition strs_in (w : W) (lo hi : Z) (addrs : list Z) (strs : list (list byte)) : Prop :=
  Forall2 (fun a s => lo <= a /\ a + (Z.of_nat (length s) + 1) <= hi /\ cstr_in w a s) addrs strs.

Lemma strs_persist lo hi w w' l h addrs strs :
  wrote lo hi w w' -> hi <= l -> strs_in w l h addrs strs -> strs_in w' l h addrs strs.
Proof.
  intros Hw Hl Hs. eapply Forall2_impl; [exact Hs|]. cbn. intros a s (H1 & H2 & H3).
  split; [done|]. split; [done|]. eapply bytes_persist; [exact Hw|exact H3|lia].
Qed.

Lemma strs_weaken w l h l' h' addrs strs :
  l' <= l -> h <= h' -> strs_in w l h addrs strs -> strs_in w l' h' addrs strs.
Proof. intros Hl Hh Hs. eapply Forall2_impl; [exact Hs|]. cbn.
  intros a s (H1 & H2 & H3). split_and!; [lia|lia|done].
Qed.

Lemma push_cstrs_wpe strs w sp :
  sw_inv w -> sw_bottom w <= sp <= sw_top w ->
  wpe (push_cstrs strs)
    (fun addrs st => grown w sp st /\ strs_in st.1 st.2 sp addrs strs)
    (too_big w) (w, sp).
Proof.
  revert w sp. induction strs as [|s strs IH]; intros w sp Hi [Hb Ht]; cbn [push_cstrs].
  { split; [|constructor]. split; cbn; [lia|done|by apply wrote_refl]. }
  apply wpe_bind. eapply wpe_mono; [by apply push_cstr_wpe| |done].
  intros a [w1 sp1] (-> & Hsp1 & Hg & Hs). cbn [fst snd] in *.
  destruct (grown_inv w sp (w1, sp1) Hg Ht) as [Hi1 Ht1]. cbn [fst snd] in *.
  pose proof Hg as [D1 B1 W1]. cbn [fst snd] in *. pose proof W1 as [_ _ Hbt _].
  apply wpe_bind. eapply wpe_mono; [apply (IH w1 sp1); [done|lia]| |].
  - intros rest [w2 sp2] [Hg2 Hr]. split; [by apply (grown_trans w sp (w1, sp1))|].
    pose proof Hg2 as [D2 B2 W2]. cbn [fst snd] in *. constructor.
    + split; [done|]. split; [lia|]. eapply bytes_persist; [exact W2|exact Hs|lia].
    + eapply strs_weaken; [| |exact Hr]; lia.
  - intros e st Hbig. by apply (grown_too_big_trans w sp (w1, sp1)).
Qed.

Lemma push_vector_wpe strs w sp :
  sw_inv w -> sw_bottom w <= sp <= sw_top w ->
  wpe (push_vector strs)
    (fun addrs st => grown w sp st /\ strs_in st.1 st.2 sp addrs strs)
    (too_big w) (w, sp).
Proof.
  intros Hi Hb. unfold push_vector. destruct (negb _).
  { split; [by right|by apply wrote_refl]. }
  apply wpe_bind. eapply wpe_mono; [by apply push_cstrs_wpe| |done].
  intros addrs st [Hg Hs]. split; [done|]. unfold strs_in in *.
  apply Forall2_reverse in Hs. by rewrite reverse_involutive in Hs.
Qed.

Lemma align_sp_eq v : 0 <= v < 2 ^ 64 -> align_sp (E:=Error) v SP_ALIGN = Ok (rdown v SP_ALIGN).
Proof.
  intros Hv. unfold align_sp, SP_ALIGN. rewrite sub64_small by lia. cbn [mbind outcome_bind].
  change (16 - 1) with (2 ^ 4 - 1). by rewrite (land_not64_pow2 v 4).
Qed.

(** Where the blobs ended up. *)
Record blobs_in (w : W) (lo hi : Z) (aux : AuxvSpec) (platform_at execfn_at : option Z) (random_at : Z) : Prop := {
  bl_platform : match platform_at with
                | Some a => platform aux <> [] /\ lo <= a /\ a + (Z.of_nat (length (platform aux)) + 1) <= hi /\
                            cstr_in w a (platform aux)
                | None => platform aux = []
                end;
  bl_execfn : exists a, execfn_at = Some a /\ lo <= a /\ a + (Z.of_nat (length (execfn aux)) + 1) <= hi /\
                cstr_in w a (execfn aux);
  bl_random : lo <= random_at /\ random_at + Z.of_nat (length (random aux)) <= hi /\
                bytes_at w random_at (random aux)
}.

Lemma blobs_persist lo hi w w' l h aux pa ea ra :
  wrote lo hi w w' -> hi <= l -> blobs_in w l h aux pa ea ra -> blobs_in w' l h aux pa ea ra.
Proof.
  intros Hw Hl [H1 (a & -> & H2 & H3 & H4) (H5 & H6 & H7)]. split.
  - destruct pa as [b|]; [|done]. destruct H1 as (? & ? & ? & Hb).
    split_and!; try done. eapply bytes_persist; [exact Hw|exact Hb|lia].
  - exists a. split_and!; try done. eapply bytes_persist; [exact Hw|exact H4|lia].
  - split_and!; try done. eapply bytes_persist; [exact Hw|exact H7|lia].
Qed.

Lemma blobs_weaken w l h l' h' aux pa ea ra :
  l' <= l -> h <= h' -> blobs_in w l h aux pa ea ra -> blobs_in w l' h' aux pa ea ra.
Proof.
  intros Hl Hh [H1 (a & -> & H2 & H3 & H4) (H5 & H6 & H7)]. split.
  - destruct pa as [b|]; [|done]. destruct H1 as (? & ? & ? & ?). split_and!; try done; lia.
  - exists a. split_and!; try done; lia.
  - split_and!; try done; lia.
Qed.

Lemma push_execfn_random_wpe aux w sp :
  sw_inv w -> sp <= sw_top w ->
  wpe (push_execfn_random aux)
    (fun '(ea, ra) st => grown w sp st /\
       (exists a, ea = Some a /\ st.2 <= a /\ a + (Z.of_nat (length (execfn aux)) + 1) <= sp /\
          cstr_in st.1 a (execfn aux)) /\
       st.2 <= ra /\ ra + Z.of_nat (length (random aux)) <= sp /\ bytes_at st.1 ra (random aux))
    (too_big w) (w, sp).
Proof.
  intros Hi Ht. unfold push_execfn_random.
  apply wpe_bind. eapply wpe_mono; [by apply push_cstr_wpe| |done].
  intros a [w1 sp1] (-> & Hsp1 & Hg1 & Hs). cbn [fst snd] in *.
  pose proof Hg1 as [D1 B1 W1]. cbn [fst snd] in *. pose proof W1 as [I1 T1 Bt1 _].
  destruct (law_bounds w Hi) as [[Hb0 _] Htop].
  pose proof (rdown_bounds SP_ALIGN ltac:(done) sp1).
  apply wpe_bind. unfold wpe at 1. unfold align_pusher. rewrite align_sp_eq by lia.
  apply wpe_bind. eapply wpe_mono; [apply push_bytes_wpe; [done|lia]| |].
  - intros ra [w2 sp2] (-> & Hsp2 & [D2 B2 W2] & Hr). cbn [fst snd] in *. cbn.
    assert (Wall : wrote sp2 sp w w2)
      by (eapply wrote_weaken; [exact (wrote_trans _ _ _ _ _ _ _ W1 W2)|lia|lia]).
    split; [split; cbn; [lia|lia|done]|]. split; [|split_and!; try done; lia].
    exists sp1. split_and!; try done; try lia. eapply bytes_persist; [exact W2|exact Hs|lia].
  - intros e [w2 sp2] [-> Hw2]. cbn in Hw2. subst w2. split; [by left|]. cbn.
    eapply wrote_weaken; [exact W1|lia|lia].
Qed.

Lemma push_blobs_wpe aux w sp :
  sw_inv w -> sp <= sw_top w ->
  wpe (push_blobs aux)
    (fun '(pa, ea, ra) st => grown w sp st /\ blobs_in st.1 st.2 sp aux pa ea ra)
    (too_big w) (w, sp).
Proof.
  intros Hi Ht. unfold push_blobs. destruct (platform aux) as [|c s] eqn:Hp.
  - apply wpe_bind. cbn. apply wpe_bind.
    eapply wpe_mono; [by apply push_execfn_random_wpe| |done].
    intros [ea ra] [w1 sp1] (Hg & He & Hr). cbn. split; [done|]. by split.
  - apply wpe_bind. apply wpe_bind. eapply wpe_mono; [by apply push_cstr_wpe| |done].
    intros a [w1 sp1] (-> & Hsp1 & Hg1 & Hs). cbn [fst snd] in *. cbn.
    destruct (grown_inv w sp (w1, sp1) Hg1 Ht) as [I1 T1].
    apply wpe_bind. eapply wpe_mono; [by apply push_execfn_random_wpe| |].
    + intros [ea ra] [w2 sp2] (Hg2 & (a & -> & He1 & He2 & He3) & Hr1 & Hr2 & Hr3). cbn [fst snd] in *. cbn.
      pose proof Hg1 as [D1 _ _]. pose proof Hg2 as [D2 _ W2]. cbn [fst snd] in *.
      split; [by apply (grown_trans w sp (w1, sp1))|]. split.
      * rewrite Hp. split_and!; try done; try lia. eapply bytes_persist; [exact W2|exact Hs|lia].
      * exists a. split_and!; try done; lia.
      * split_and!; try done; lia.
    + intros e st Hbig. by apply (grown_too_big_trans w sp (w1, sp1)).
Qed.

(** ** The pointer block *)

Definition words_at (w : W) (a : Z) (ws : list Z) : Prop :=
  forall i v, ws !! i = Some v -> bytes_at w (a + 8 * Z.of_nat i) (to_le_bytes 8 v).

Lemma put_words ws w a :
  sw_inv w -> sw_bottom w <= a -> a + 8 * Z.of_nat (length ws) <= sw_top w ->
  exists w', for_each word ws (w, a) = (Ok tt, (w', a + 8 * Z.of_nat (length ws))) /\
    wrote a (a + 8 * Z.of_nat (length ws)) w w' /\ words_at w' a ws.
Proof.
  revert w a. induction ws as [|v ws IH]; intros w a Hi Hb Ht.
  { exists w. cbn. rewrite Z.add_0_r. split; [done|]. split; [by apply wrote_refl|]. by intros i v. }
  cbn [length] in *. rewrite Nat2Z.inj_succ in *.
  destruct (write_bytes w a (to_le_bytes 8 v) Hi Hb) as (w1 & Hw1 & W1 & H1).
  { rewrite length_to_le_bytes. lia. }
  rewrite length_to_le_bytes in W1. pose proof W1 as [I1 T1 B1 _].
  destruct (law_bounds w Hi) as [_ Htop].
  destruct (IH w1 (a + 8)) as (w2 & Hw2 & W2 & H2); [done|lia|lia|].
  exists w2. split; [|split].
  - cbn [for_each]. unfold mbind, stM_bind. unfold word at 1. rewrite Hw1.
    rewrite add64_small by lia. rewrite Hw2. do 2 f_equal. lia.
  - eapply wrote_weaken; [exact (wrote_trans _ _ _ _ _ _ _ W1 W2)|lia|lia].
  - intros [|i] u Hu; cbn in Hu.
    + injection Hu as <-. rewrite Z.add_0_r. eapply bytes_persist; [exact W2|exact H1|].
      rewrite length_to_le_bytes. lia.
    + specialize (H2 i u Hu). by replace (a + 8 * Z.of_nat (S i)) with (a + 8 + 8 * Z.of_nat i) by lia.
Qed.

Definition flat (av : list (Z * Z)) : list Z := av ≫= fun e => [e.1; e.2].

Definition block_words (argc : Z) (argv_at envp_at : list Z) (av : list (Z * Z)) : list Z :=
  argc :: argv_at ++ 0 :: envp_at ++ 0 :: flat av.

Lemma put_block_eq argc argv_at envp_at av (st : W * Z) :
  put_block argc argv_at envp_at av st = for_each word (block_words argc argv_at envp_at av) st.
Proof.
  assert (Hav : forall st : W * Z,
    for_each (fun e : Z * Z => _ ← word e.1; word e.2) av st = for_each word (flat av) st).
  { induction av as [|[k v] av IH]; intros st'; [done|]. cbn [for_each flat mbind list_bind app].
    unfold mbind, stM_bind. destruct (word _ st') as [[| |] ?]; [|done|done].
    cbn [snd]. destruct (word v _) as [[| |] ?]; [|done|done]. apply IH. }
  unfold put_block, block_words. cbn [for_each].
  unfold mbind, stM_bind at 1. unfold stM_bind at 6.
  destruct (word argc st) as [[| |] s1]; [|done|done]. rewrite for_each_app.
  unfold mbind, stM_bind at 1. unfold stM_bind at 5.
  destruct (for_each word argv_at s1) as [[| |] s2]; [|done|done]. cbn [for_each].
  unfold mbind, stM_bind at 1. unfold stM_bind at 4.
  destruct (word 0 s2) as [[| |] s3]; [|done|done]. rewrite for_each_app.
  unfold mbind, stM_bind at 1. unfold stM_bind at 3.
  destruct (for_each word envp_at s3) as [[| |] s4]; [|done|done]. cbn [for_each].
  unfold mbind, stM_bind. destruct (word 0 s4) as [[| |] s5]; [|done|done]. apply Hav.
Qed.

Lemma flat_length av : Z.of_nat (length (flat av)) = 2 * Z.of_nat (length av).
Proof. induction av as [|e av IH]; [done|]. cbn [flat mbind list_bind app length] in *. unfold flat in IH. cbn in *. lia. Qed.

Lemma block_words_length argc argv_at envp_at av :
  Z.of_nat (length (block_words argc argv_at envp_at av)) =
  Z.of_nat (length argv_at) + Z.of_nat (length envp_at) + 2 * Z.of_nat (length av) + 3.
Proof.
  unfold block_words. cbn [length]. rewrite length_app. cbn [length]. rewrite length_app. cbn [length].
  pose proof (flat_length av). lia.
Qed.

Lemma block_size_eq na ne nv :
  0 <= na < 2 ^ 59 -> 0 <= ne < 2 ^ 59 -> 0 <= nv < 2 ^ 32 ->
  block_size na ne nv = Ok (8 * (na + ne + 2 * nv + 3)).
Proof.
  intros Ha He Hv. unfold block_size.
  rewrite (add64_small 1) by lia. cbn [mbind outcome_bind].
  rewrite (add64_small (1 + na)) by lia. cbn [mbind outcome_bind].
  rewrite (add64_small (1 + na + 1)) by lia. cbn [mbind outcome_bind].
  rewrite (add64_small (1 + na + 1 + ne)) by lia. cbn [mbind outcome_bind].
  rewrite !mul64_small by lia. cbn [mbind outcome_bind].
  rewrite add64_small by lia. f_equal. lia.
Qed.

Lemma auxv_entries_length aux pa ea ra : (length (auxv_entries aux pa ea ra) <= 32)%nat.
Proof.
  unfold auxv_entries. rewrite !length_app.
  destruct (phdr aux), pa, ea, (sysinfo_ehdr aux), (minsigstksz aux); cbn; lia.
Qed.

(** The stack a program starts on, as laid out in [w]. *)
Record laid_out (w : W) (sp top : Z) (argv envp : list (list byte)) (aux : AuxvSpec)
    (argv_at envp_at : list Z) (pa ea : option Z) (ra : Z) : Prop := {
  lo_words : words_at w sp
    (block_words (Z.of_nat (length argv)) argv_at envp_at (auxv_entries aux pa ea ra));
  lo_fits : sp + 8 * (Z.of_nat (length argv) + Z.of_nat (length envp) +
              2 * Z.of_nat (length (auxv_entries aux pa ea ra)) + 3) <= top;
  lo_argv : strs_in w (sp + 8) top argv_at argv;
  lo_envp : strs_in w (sp + 8) top envp_at envp;
  lo_blobs : blobs_in w (sp + 8) top aux pa ea ra
}.

Definition built (w : W) (argv envp : list (list byte)) (aux : AuxvSpec) (L : StackLayout) (w' : W) : Prop :=
  (SP_ALIGN | sp L) /\ argc_at L = sp L /\ low_water L = sp L /\ sw_bottom w <= sp L <= sw_top w /\
  wrote (sp L) (sw_top w) w w' /\
  exists argv_at envp_at pa ea ra,
    laid_out w' (sp L) (sw_top w) argv envp aux argv_at envp_at pa ea ra.

Lemma build_from_wpe argv envp aux w psp :
  sw_inv w -> psp <= sw_top w ->
  Z.of_nat (length argv) < 2 ^ 59 -> Z.of_nat (length envp) < 2 ^ 59 ->
  wpe (build_from argv envp aux) (fun L st => built w argv envp aux L st.1) (too_big w) (w, psp).
Proof.
  intros Hi Ht Hna Hne. unfold build_from. destruct (law_bounds w Hi) as [[Hb0 _] Htop].
  apply wpe_bind. eapply wpe_mono; [by apply push_blobs_wpe| |done].
  intros [[pa ea] ra] [w1 sp1] [Hg1 Hbl]. destruct (grown_inv w psp _ Hg1 Ht) as [I1 T1].
  pose proof Hg1 as [D1 B1 W1]. cbn [fst snd] in *. pose proof W1 as [_ Tq1 Bq1 _].
  apply wpe_bind. eapply wpe_mono; [apply push_vector_wpe; [done|lia]| |].
  2: { intros e st H. by apply (grown_too_big_trans w psp (w1, sp1)). }
  intros envp_at [w2 sp2] [Hg2 Henv]. destruct (grown_inv w1 sp1 _ Hg2 T1) as [I2 T2].
  pose proof (grown_trans w psp (w1, sp1) _ Hg1 Hg2) as Hg2'.
  pose proof Hg2 as [D2 B2 W2]. cbn [fst snd] in *. pose proof W2 as [_ Tq2 Bq2 _].
  apply wpe_bind. eapply wpe_mono; [apply push_vector_wpe; [done|lia]| |].
  2: { intros e st H. by apply (grown_too_big_trans w psp (w2, sp2)). }
  intros argv_at [w3 sp3] [Hg3 Harg]. destruct (grown_inv w2 sp2 _ Hg3 T2) as [I3 T3].
  pose proof (grown_trans w psp (w2, sp2) _ Hg2' Hg3) as Hg3'.
  pose proof Hg3 as [D3 B3 W3]. cbn [fst snd] in *. pose proof W3 as [_ Tq3 Bq3 _].
  pose proof Hg3' as [_ _ Wall]. cbn [fst snd] in *.
  pose proof (Forall2_length _ _ _ Harg) as La. pose proof (Forall2_length _ _ _ Henv) as Le.
  pose proof (auxv_entries_length aux pa ea ra) as Lv. set (av := auxv_entries aux pa ea ra) in *.
  apply wpe_bind. unfold wpe at 1, lift. rewrite block_size_eq by lia.
  pose proof (block_words_length (Z.of_nat (length argv)) argv_at envp_at av) as Lb. rewrite La, Le in Lb.
  set (n := Z.of_nat (length argv) + Z.of_nat (length envp) + 2 * Z.of_nat (length av) + 3) in *.
  unfold wpe, write_block, checked_sub.
  assert (Hfail : forall e, e = E2BIG \/ e = ENOMEM -> too_big w e (w3, sp3)).
  { intros e He. by apply (grown_too_big w psp). }
  destruct (Z.leb_spec (8 * n) sp3) as [Hle|]; cbn [ok_or mbind outcome_bind]; [|by apply Hfail; left].
  rewrite align_sp_eq by lia. set (sp := rdown (sp3 - 8 * n) SP_ALIGN) in *.
  pose proof (rdown_bounds SP_ALIGN ltac:(done) (sp3 - 8 * n)) as Hsp. fold sp in Hsp.
  destruct (Z.ltb_spec sp (sw_bottom w3)) as [|Hb]; [by apply Hfail; left|].
  rewrite put_block_eq.
  destruct (put_words (block_words (Z.of_nat (length argv)) argv_at envp_at av) w3 sp I3 Hb ltac:(lia))
    as (w4 & -> & W4 & Hwords).
  rewrite Lb in W4. cbn [fst snd Auxv.sp]. unfold built. cbn [Auxv.sp argc_at low_water].
  split; [by apply rdown_divide|]. split; [done|]. split; [done|]. split; [lia|]. split.
  { eapply wrote_weaken; [exact (wrote_trans _ _ _ _ _ _ _ Wall W4)|lia|lia]. }
  exists argv_at, envp_at, pa, ea, ra. split.
  - exact Hwords.
  - fold av. unfold n in *. lia.
  - eapply strs_weaken; [| |eapply (strs_persist _ _ _ _ sp3 sp2); [exact W4|lia|exact Harg]]; lia.
  - eapply strs_weaken; [| |eapply (strs_persist _ _ _ _ sp2 sp1); [exact W4|lia|]]; [lia|lia|].
    eapply strs_persist; [exact W3|lia|exact Henv].
  - assert (Hbl3 : blobs_in w4 sp1 psp aux pa ea ra).
    { eapply blobs_persist; [exact W4|lia|]. eapply blobs_persist; [exact W3|lia|].
      eapply blobs_persist; [exact W2|lia|done]. }
    eapply blobs_weaken; [| |exact Hbl3]; lia.
Qed.

Lemma build_stack_wpe argv envp aux w :
  sw_inv w -> Forall (fun s => Z.of_nat (length s) < 2 ^ 63) (argv ++ envp) ->
  wpe (build_stack argv envp aux) (built w argv envp aux)
    (fun e w' => (e = E2BIG \/ e = ENOMEM) /\ wrote (sw_bottom w) (sw_top w) w w') w.
Proof.
  intros Hi Hs. destruct (law_bounds w Hi) as [[Hb0 Hbt] Htop]. unfold wpe, build_stack.
  rewrite sub64_small by done. cbn [mbind outcome_bind].
  unfold check_arg_env_size. rewrite arg_env_len_eq by done. rewrite Z.add_0_l.
  pose proof (arg_env_total_nonneg (argv ++ envp)) as Htot. rewrite length_app in Htot.
  assert (Hq : (sw_top w - sw_bottom w) / 4 < 2 ^ 62)
    by (apply Z.div_lt_upper_bound; [lia|change (4 * 2 ^ 62) with (2 ^ 64); lia]).
  destruct (Z.ltb_spec (arg_env_total (argv ++ envp)) (2 ^ 64)) as [|Hbig].
  2: { destruct (argv ++ envp); cbn in *; [lia|]. split; [by left|by apply wrote_refl]. }
  cbn [mbind outcome_bind]. unfold ARG_MAX.
  destruct (Z.ltb_spec (Z.max (4096 * 32) ((sw_top w - sw_bottom w) / 4)) (arg_env_total (argv ++ envp)));
    cbn [mbind outcome_bind]; [split; [by left|by apply wrote_refl]|].
  rewrite align_sp_eq by lia. pose proof (rdown_bounds SP_ALIGN ltac:(done) (sw_top w)).
  assert (Hb : wpe (build_from argv envp aux) (fun L st => built w argv envp aux L st.1) (too_big w)
    (w, rdown (sw_top w) SP_ALIGN)) by (apply build_from_wpe; [done|lia|lia|lia]).
  unfold wpe in Hb. destruct (build_from _ _ _ _) as [[L|e|] [w' sp']]; done.
Qed.

(** C7. Laying out the stack never panics and never writes outside the
    stack.  When it succeeds the stack pointer is 16-byte aligned, nothing below
    it was written, and at it stand [argc], the [argv] and [envp] pointers with
    their NULL terminators and the auxiliary vector, the pointers leading to
    NUL-terminated copies of the strings above the block.  It fails only with
    [E2BIG] or [ENOMEM]. *)
Theorem build_stack_spec argv envp aux w :
  sw_inv w -> Forall (fun s => Z.of_nat (length s) < 2 ^ 63) (argv ++ envp) ->
  match build_stack argv envp aux w with
  | (Ok L, w') => built w argv envp aux L w'
  | (Err e, w') => (e = E2BIG \/ e = ENOMEM) /\ wrote (sw_bottom w) (sw_top w) w w'
  | (Panic, _) => False
  end.
Proof. apply build_stack_wpe. Qed.
End Layout.

(** What is laid out depends on the bytes of the stack from the pointer up only. *)
Section Ext.
Context {W : Type} {writer : StackWriter W} (laws1 laws2 : StackLaws W).

Lemma bytes_ext (w w' : W) sp top a d :
  (forall x, sp <= x < top -> sw_mem (StackLaws:=laws2) w' x = sw_mem (StackLaws:=laws1) w x) -> sp <= a -> a + Z.of_nat (length d) <= top ->
  bytes_at (laws:=laws1) w a d -> bytes_at (laws:=laws2) w' a d.
Proof.
  intros Hm Hlo Hhi Hb i b Hi. pose proof (lookup_lt_Some _ _ _ Hi). rewrite Hm by lia. by apply Hb.
Qed.

Lemma laid_out_ext (w w' : W) sp top argv envp aux argv_at envp_at pa ea ra :
  (forall x, sp <= x < top -> sw_mem (StackLaws:=laws2) w' x = sw_mem (StackLaws:=laws1) w x) ->
  laid_out (laws:=laws1) w sp top argv envp aux argv_at envp_at pa ea ra ->
  laid_out (laws:=laws2) w' sp top argv envp aux argv_at envp_at pa ea ra.
Proof.
  intros Hm [Hw Hf Ha He [Hp (a & -> & He1 & He2 & He3) (Hr1 & Hr2 & Hr3)]].
  pose proof (Forall2_length _ _ _ Ha) as La. pose proof (Forall2_length _ _ _ He) as Le.
  assert (Hs : forall addrs strs, strs_in (laws:=laws1) w (sp + 8) top addrs strs -> strs_in (laws:=laws2) w' (sp + 8) top addrs strs).
  { intros addrs strs H. eapply Forall2_impl; [exact H|]. cbn. intros b s (H1 & H2 & H3).
    split_and!; try done. eapply (bytes_ext w w' sp top); [done|lia|rewrite length_app; cbn; lia|done]. }
  split; [|done|auto|auto|split].
  - intros i v Hi. pose proof (lookup_lt_Some _ _ _ Hi) as Hl.
    pose proof (block_words_length (Z.of_nat (length argv)) argv_at envp_at (auxv_entries aux pa (Some a) ra)) as Lb.
    eapply (bytes_ext w w' sp top); [done|lia|rewrite length_to_le_bytes; lia|by apply Hw].
  - destruct pa as [b|]; [|done]. destruct Hp as (? & ? & ? & ?). split_and!; try done.
    eapply (bytes_ext w w' sp top); [done|lia|rewrite length_app; cbn; lia|done].
  - exists a. split_and!; try done. eapply (bytes_ext w w' sp top); [done|lia|rewrite length_app; cbn; lia|done].
  - split_and!; try done. eapply (bytes_ext w w' sp top); [done|lia|lia|done].
Qed.
End Ext.

(** ** The auxiliary vector *)

Definition aux_lookup (key : Z) (av : list (Z * Z)) : option Z :=
  snd <$> head (filter (fun e => e.1 = key) av).

Definition aux_keys : list Z :=
  [AT_PHDR; AT_PHENT; AT_PHNUM; AT_PAGESZ; AT_BASE; AT_FLAGS; AT_ENTRY; AT_UID; AT_EUID; AT_GID;
   AT_EGID; AT_SECURE; AT_CLKTCK; AT_HWCAP; AT_HWCAP2; AT_RANDOM; AT_PLATFORM; AT_EXECFN;
   AT_SYSINFO_EHDR; AT_MINSIGSTKSZ; AT_NULL].

Lemma auxv_keys_sublist aux pa ea ra : (auxv_entries aux pa ea ra).*1 `sublist_of` aux_keys.
Proof.
  unfold auxv_entries, aux_keys.
  destruct (phdr aux), pa, ea, (sysinfo_ehdr aux), (minsigstksz aux); cbn;
    repeat first [apply sublist_nil | apply sublist_skip | apply sublist_cons].
Qed.


(** ** Words *)

(** Every field that becomes a word of the stack fits one. *)
Record aux_u64 (aux : AuxvSpec) : Prop := {
  au_phdr : match phdr aux with Some a => u64 a | None => True end;
  au_phent : u64 (phent aux); au_phnum : u64 (phnum aux); au_base : u64 (base aux);
  au_entry : u64 (entry aux); au_pagesz : u64 (pagesz aux); au_uid : u64 (uid aux); au_gid : u64 (gid aux);
  au_hwcap : u64 (hwcap aux); au_hwcap2 : u64 (hwcap2 aux); au_clktck : u64 (clktck aux);
  au_ehdr : match sysinfo_ehdr aux with Some a => u64 a | None => True end;
  au_sig : match minsigstksz aux with Some a => u64 a | None => True end
}.

Ltac aux_all :=
  repeat (apply Forall_cons; split; [cbn [fst snd]; split; [discriminate|split; done]|]);
  apply Forall_nil_2.

Lemma auxv_split aux pa ea ra :
  aux_u64 aux -> match pa with Some a => u64 a | None => True end ->
  match ea with Some a => u64 a | None => True end -> u64 ra ->
  exists body, auxv_entries aux pa ea ra = body ++ [(AT_NULL, 0)] /\
    Forall (fun e => e.1 <> AT_NULL /\ 0 <= e.1 < 2 ^ 64 /\ 0 <= e.2 < 2 ^ 64) body.
Proof.
  intros [] Hpa Hea Hra. unfold auxv_entries, u64 in *. rewrite !app_assoc. eexists. split; [done|].
  repeat apply Forall_app_2.
  - destruct (phdr aux); [|constructor]. aux_all.
  - destruct (secure aux); aux_all.
  - destruct pa; [|constructor]. aux_all.
  - destruct ea; [|constructor]. aux_all.
  - destruct (sysinfo_ehdr aux); [|constructor]. aux_all.
  - destruct (minsigstksz aux); [|constructor]. aux_all.
Qed.

Lemma auxv_words aux pa ea ra :
  aux_u64 aux -> match pa with Some a => u64 a | None => True end ->
  match ea with Some a => u64 a | None => True end -> u64 ra ->
  Forall (fun e => u64 e.1 /\ u64 e.2) (auxv_entries aux pa ea ra).
Proof.
  intros Ha Hp He Hr. destruct (auxv_split aux pa ea ra Ha Hp He Hr) as (body & -> & Hbody).
  apply Forall_app. split; [|by repeat constructor]. eapply Forall_impl; [exact Hbody|]. unfold u64. tauto.
Qed.
