(* ===== verification/StackFits.v ===== *)
(** * The initial stack fits when there is room

    The layout of [rust/src/auxv.rs] does not only fail cleanly: on a stack with
    room for the strings, the vectors and the alignment it succeeds. *)

From Stdlib Require Import Strings.Byte.
From stdpp Require Import base numbers option strings sets list.
From S2P Require Import Prelude Err Elf VmSpec Auxv AuxvFacts.

Section Fits.
Context {W : Type} {writer : StackWriter W} {laws : StackLaws W} {heap : Heap}.
Implicit Types (w : W).

(** The same stack, with the pointer between [sp - n] and [sp]. *)
Record moved (w : W) (sp n : Z) (st : W * Z) : Prop := {
  mv_inv : sw_inv st.1;
  mv_top : sw_top st.1 = sw_top w;
  mv_bottom : sw_bottom st.1 = sw_bottom w;
  mv_sp : sp - n <= st.2 <= sp
}.

Lemma moved_trans w sp n1 n2 st st' :
  moved w sp n1 st -> moved st.1 st.2 n2 st' -> moved w sp (n1 + n2) st'.
Proof. intros [I1 T1 B1 S1] [I2 T2 B2 S2]. split; [done|congruence|congruence|lia]. Qed.

(** [m] succeeds where [n] bytes are left, uses at most those and returns
    something [P]. *)
Definition drops {A : Type} (m : stM Error (W * Z) A) (n : Z) (P : A -> Prop) : Prop :=
  forall w sp, sw_inv w -> sp <= sw_top w -> sw_bottom w <= sp - n ->
    wpe m (fun a st => P a /\ moved w sp n st) (fun _ _ => False) (w, sp).

Lemma drops_ret {A} (a : A) (P : A -> Prop) : P a -> drops (mret a) 0 P.
Proof. intros HP w sp Hi Ht Hb. cbn. split; [done|]. split; cbn; [done|done|done|lia]. Qed.

Lemma drops_bind {A B} (m : stM Error (W * Z) A) (f : A -> stM Error (W * Z) B) n1 n2 P Q :
  0 <= n1 -> 0 <= n2 -> drops m n1 P -> (forall a, P a -> drops (f a) n2 Q) -> drops (m ≫= f) (n1 + n2) Q.
Proof.
  intros H1 H2 Hm Hf w sp Hi Ht Hb. apply wpe_bind.
  eapply wpe_mono; [apply Hm; [done|lia|lia]| |done].
  intros a [w1 sp1] [HP Hmv]. pose proof Hmv as [I1 T1 B1 S1]. cbn [fst snd] in *.
  eapply wpe_mono; [apply (Hf a HP); [done|lia|lia]| |done].
  intros b st [HQ Hmv2]. split; [done|]. by apply (moved_trans w sp n1 n2 (w1, sp1)).
Qed.

Lemma drops_weaken {A} (m : stM Error (W * Z) A) n n' (P P' : A -> Prop) :
  drops m n P -> n <= n' -> (forall a, P a -> P' a) -> drops m n' P'.
Proof.
  intros Hm Hn HP w sp Hi Ht Hb. eapply wpe_mono; [apply Hm; [done|done|lia]| |done].
  intros a st [Ha [I T B S]]. split; [auto|]. split; [done|done|done|lia].
Qed.

Lemma push_bytes_drops d : drops (push_bytes d) (Z.of_nat (length d)) (fun _ => True).
Proof.
  intros w sp Hi Ht Hb. destruct (law_bounds w Hi) as [[Hb0 _] _]. unfold wpe, push_bytes, checked_sub.
  rewrite (proj2 (Z.leb_le _ _)) by lia. rewrite (proj2 (Z.ltb_ge _ _)) by lia.
  destruct (write_bytes w (sp - Z.of_nat (length d)) d Hi Hb ltac:(lia)) as (w' & -> & [I T B _] & _).
  split; [done|]. split; cbn; [done|done|done|lia].
Qed.

Lemma push_cstr_drops s : drops (push_cstr s) (Z.of_nat (length s) + 1) (fun _ => True).
Proof.
  unfold push_cstr. rewrite Z.add_comm. eapply drops_bind; [lia|lia|apply push_bytes_drops|].
  intros a _. destruct s; [by apply drops_ret|apply push_bytes_drops].
Qed.

Lemma align_pusher_drops : drops (align_pusher SP_ALIGN) 15 (fun _ => True).
Proof.
  intros w sp Hi Ht Hb. destruct (law_bounds w Hi) as [[Hb0 _] Htop]. unfold wpe, align_pusher.
  rewrite align_sp_eq by lia. pose proof (rdown_bounds SP_ALIGN ltac:(done) sp) as Hr. unfold SP_ALIGN in *.
  split; [done|]. split; cbn; [done|done|done|lia].
Qed.

Lemma push_cstrs_drops strs :
  drops (push_cstrs strs) (arg_env_total strs - 8 * Z.of_nat (length strs))
    (fun addrs => length addrs = length strs).
Proof.
  induction strs as [|s strs IH]; cbn [push_cstrs]; [by apply drops_ret|].
  pose proof (arg_env_total_nonneg strs).
  change (arg_env_total (s :: strs)) with (Z.of_nat (length s) + 9 + arg_env_total strs). cbn [length].
  replace (_ - _) with ((Z.of_nat (length s) + 1) + ((arg_env_total strs - 8 * Z.of_nat (length strs)) + 0)) by lia.
  eapply drops_bind; [lia|lia|apply push_cstr_drops|]. intros a _.
  eapply drops_bind; [lia|lia|exact IH|]. intros rest Hl. apply drops_ret. cbn. by f_equal.
Qed.

Lemma arg_env_total_app l1 l2 : arg_env_total (l1 ++ l2) = arg_env_total l1 + arg_env_total l2.
Proof. induction l1 as [|s l1 IH]; [done|]. cbn [app]. unfold arg_env_total in *. cbn [foldr]. lia. Qed.

Lemma arg_env_total_reverse l : arg_env_total (reverse l) = arg_env_total l.
Proof.
  induction l as [|s l IH]; [done|]. rewrite reverse_cons, arg_env_total_app, IH.
  unfold arg_env_total. cbn [foldr]. lia.
Qed.

Hypothesis enough_heap : forall n, try_reserve n = true.

Lemma push_vector_drops strs :
  drops (push_vector strs) (arg_env_total strs - 8 * Z.of_nat (length strs))
    (fun addrs => length addrs = length strs).
Proof.
  unfold push_vector. rewrite enough_heap. cbn [negb].
  pose proof (arg_env_total_nonneg strs). rewrite <- (Z.add_0_r (_ - _)).
  rewrite <- arg_env_total_reverse, <- (length_reverse strs).
  eapply drops_bind; [|done|apply push_cstrs_drops|].
  { rewrite arg_env_total_reverse, length_reverse. lia. }
  intros addrs Hl. apply drops_ret. by rewrite length_reverse.
Qed.

Definition blobs_len (aux : AuxvSpec) : Z :=
  Z.of_nat (length (platform aux)) + Z.of_nat (length (execfn aux)) + Z.of_nat (length (random aux)) + 17.

Lemma push_blobs_drops aux : drops (push_blobs aux) (blobs_len aux) (fun _ => True).
Proof.
  assert (Her : drops (push_execfn_random aux)
    (Z.of_nat (length (execfn aux)) + 1 + (15 + (Z.of_nat (length (random aux)) + 0))) (fun _ => True)).
  { unfold push_execfn_random. eapply drops_bind; [lia|lia|apply push_cstr_drops|]. intros a _.
    eapply drops_bind; [lia|lia|apply align_pusher_drops|]. intros [] _.
    eapply drops_bind; [lia|lia|apply push_bytes_drops|]. intros ra _. by apply drops_ret. }
  unfold push_blobs, blobs_len.
  replace (_ + 17) with (Z.of_nat (length (platform aux)) + 1 +
    (Z.of_nat (length (execfn aux)) + 1 + (15 + (Z.of_nat (length (random aux)) + 0)) + 0)) by lia.
  eapply (drops_bind _ _ _ _ (fun _ => True)); [lia|lia| |].
  - destruct (platform aux) as [|c p].
    { eapply drops_weaken; [by apply (drops_ret None (fun _ => True))|cbn; lia|done]. }
    rewrite <- (Z.add_0_r (_ + 1)). eapply drops_bind; [lia|lia|apply push_cstr_drops|].
    intros a _. by apply drops_ret.
  - intros pa _. eapply drops_bind; [lia|lia|exact Her|]. intros [ea ra] _. by apply drops_ret.
Qed.

(** The pointer block: [argc], the two terminated vectors and at most
    twenty-one auxiliary entries, aligned. *)
Definition block_room (argv envp : list (list byte)) : Z :=
  8 * (Z.of_nat (length argv) + Z.of_nat (length envp) + 45) + 15.

Lemma auxv_entries_bound aux pa ea ra : (length (auxv_entries aux pa ea ra) <= 21)%nat.
Proof.
  unfold auxv_entries. rewrite !length_app.
  destruct (phdr aux), pa, ea, (sysinfo_ehdr aux), (minsigstksz aux); cbn; lia.
Qed.

Lemma write_block_drops argc argv_at envp_at av n N :
  n = 8 * (Z.of_nat (length argv_at) + Z.of_nat (length envp_at) + 2 * Z.of_nat (length av) + 3) ->
  n + 15 <= N -> drops (write_block argc argv_at envp_at av n) N (fun _ => True).
Proof.
  intros Hn HN w sp Hi Ht Hb. destruct (law_bounds w Hi) as [[Hb0 _] Htop].
  unfold wpe, write_block, checked_sub. rewrite (proj2 (Z.leb_le _ _)) by lia. cbn [ok_or mbind outcome_bind].
  rewrite align_sp_eq by lia. pose proof (rdown_bounds SP_ALIGN ltac:(done) (sp - n)) as Hr.
  assert (SP_ALIGN = 16) by done. rewrite (proj2 (Z.ltb_ge _ _)) by lia. rewrite put_block_eq.
  pose proof (block_words_length argc argv_at envp_at av) as Lb.
  destruct (put_words (block_words argc argv_at envp_at av) w (rdown (sp - n) SP_ALIGN) Hi ltac:(lia) ltac:(lia))
    as (w' & -> & [I T B _] & _).
  split; [done|]. split; cbn; [done|done|done|lia].
Qed.

(** Everything [build_stack] may need. *)
Definition stack_room (argv envp : list (list byte)) (aux : AuxvSpec) : Z :=
  15 + blobs_len aux + arg_env_total (argv ++ envp) + 8 * 45 + 15.

Lemma build_from_drops argv envp aux :
  Z.of_nat (length argv) < 2 ^ 59 -> Z.of_nat (length envp) < 2 ^ 59 ->
  drops (build_from argv envp aux) (stack_room argv envp aux - 15) (fun _ => True).
Proof.
  intros Ha He. unfold build_from, stack_room. rewrite arg_env_total_app.
  pose proof (arg_env_total_nonneg argv). pose proof (arg_env_total_nonneg envp).
  replace (_ - 15) with (blobs_len aux + ((arg_env_total envp - 8 * Z.of_nat (length envp)) +
    ((arg_env_total argv - 8 * Z.of_nat (length argv)) + (0 + block_room argv envp))))
    by (unfold block_room; lia).
  assert (0 <= blobs_len aux) by (unfold blobs_len; lia).
  assert (0 <= block_room argv envp) by (unfold block_room; lia).
  eapply drops_bind; [lia|lia|apply push_blobs_drops|]. intros [[pa ea] ra] _.
  eapply drops_bind; [lia|lia|apply push_vector_drops|]. intros envp_at Le.
  eapply drops_bind; [lia|lia|apply push_vector_drops|]. intros argv_at La.
  pose proof (auxv_entries_bound aux pa ea ra). cbv zeta. rewrite block_size_eq by lia.
  eapply (drops_bind _ _ _ _ (fun b => b = _)); [lia|lia|by apply (drops_ret _ (fun b => b = _))|].
  intros b ->. apply write_block_drops; [by rewrite La, Le|]. unfold block_room. lia.
Qed.

(** A stack with room takes the layout. *)
Lemma build_stack_room argv envp aux w :
  sw_inv w -> Forall (fun s => Z.of_nat (length s) < 2 ^ 63) (argv ++ envp) ->
  arg_env_total (argv ++ envp) <= Z.max ARG_MAX ((sw_top w - sw_bottom w) / 4) ->
  stack_room argv envp aux <= sw_top w - sw_bottom w ->
  exists L w', build_stack argv envp aux w = (Ok L, w') /\ built w argv envp aux L w'.
Proof.
  intros Hi Hs Hbudget Hroom. pose proof (build_stack_wpe argv envp aux w Hi Hs) as Hspec.
  destruct (law_bounds w Hi) as [[Hb0 Hbt] Htop].
  pose proof (arg_env_total_nonneg (argv ++ envp)) as Hnn. rewrite length_app in Hnn.
  assert (Hq : (sw_top w - sw_bottom w) / 4 < 2 ^ 62)
    by (apply Z.div_lt_upper_bound; [lia|change (4 * 2 ^ 62) with (2 ^ 64); lia]).
  unfold ARG_MAX in *. pose proof (rdown_bounds SP_ALIGN ltac:(done) (sw_top w)) as Hr.
  assert (SP_ALIGN = 16) by done.
  assert (Hrun : wpe (build_from argv envp aux)
    (fun _ st => True /\ moved w (rdown (sw_top w) SP_ALIGN) (stack_room argv envp aux - 15) st)
    (fun _ _ => False) (w, rdown (sw_top w) SP_ALIGN)).
  { apply build_from_drops; [lia|lia|done|lia|lia]. }
  unfold wpe, build_stack in *. rewrite sub64_small in * by done. cbn [mbind outcome_bind] in *.
  unfold check_arg_env_size in *. rewrite arg_env_len_eq in * by done. rewrite Z.add_0_l in *.
  rewrite (proj2 (Z.ltb_lt (arg_env_total _) _)) in * by lia. cbn [mbind outcome_bind] in *.
  unfold ARG_MAX in *. rewrite (proj2 (Z.ltb_ge (Z.max _ _) _)) in * by lia. cbn [mbind outcome_bind] in *.
  rewrite align_sp_eq in * by lia.
  destruct (build_from _ _ _ _) as [[L|e|] [w' sp']]; [by exists L, w'|done|done].
Qed.

(** C23. A stack with room takes the layout: when the strings are within the
    budget, memory can be had, and the stack holds them with their pointers, the
    auxiliary vector and the alignment, [build_stack] succeeds and what it built
    is the layout described by [built]. *)
Theorem build_stack_fits argv envp aux w :
  sw_inv w -> Forall (fun s => Z.of_nat (length s) < 2 ^ 63) (argv ++ envp) ->
  arg_env_total (argv ++ envp) <= Z.max ARG_MAX ((sw_top w - sw_bottom w) / 4) ->
  stack_room argv envp aux <= sw_top w - sw_bottom w ->
  exists L w', build_stack argv envp aux w = (Ok L, w') /\ built w argv envp aux L w'.
Proof. apply build_stack_room. Qed.
End Fits.
