(* ===== verification/FakeStack.v ===== *)
(** * Reading the initial stack back

    [FakeStack] of [rust/src/testutil.rs], the stack the tests lay out and read,
    and the reader of the tests of [rust/src/auxv.rs], which walks the stack the
    way a libc start-up does.  [FakeStack] satisfies the laws of a stack writer,
    and the reader returns what was laid out. *)

From Stdlib Require Import Strings.Byte.
From stdpp Require Import base numbers option strings sets list.
From S2P Require Import Prelude Err Elf VmSpec TestImage Auxv AuxvFacts StackFits.

(** ** The stack *)

Record FakeStack : Type := MkFakeStack { fs_base : Z; fs_mem : list byte; fs_low : Z }.

Definition fs_new (b : Z) (len : nat) : FakeStack :=
  MkFakeStack b (replicate len xaa) (b + Z.of_nat len).

Definition fs_top (s : FakeStack) : Z := fs_base s + Z.of_nat (length (fs_mem s)).
Definition fs_bottom (s : FakeStack) : Z := fs_base s.

Definition fs_read (s : FakeStack) (addr : Z) (n : nat) : outcome Error (list byte) :=
  o ← sub64 addr (fs_base s);
  slice (fs_mem s) (Z.to_nat o) n.

Definition u64_at (s : FakeStack) (addr : Z) : outcome Error Z :=
  b ← fs_read s addr 8;
  Ok (from_le_bytes b).

(** [cstr_at]: the bytes up to the next NUL; panics when there is none. *)
Definition cstr_at (s : FakeStack) (addr : Z) : outcome Error (list byte) :=
  o ← sub64 addr (fs_base s);
  if (length (fs_mem s) <? Z.to_nat o)%nat then Panic else
  match position (fun b => bool_decide (b = x00)) (drop (Z.to_nat o) (fs_mem s)) with
  | Some n => Ok (take n (drop (Z.to_nat o) (fs_mem s)))
  | None => Panic
  end.

Definition fs_write (addr : Z) (data : list byte) : stM Error FakeStack unit := fun s =>
  if addr <? fs_bottom s then (Panic, s) else
  match add64 (E:=Error) addr (Z.of_nat (length data)) with
  | Ok stop =>
    if fs_top s <? stop then (Panic, s) else
    let o := Z.to_nat (addr - fs_base s) in
    (Ok tt, MkFakeStack (fs_base s)
              (take o (fs_mem s) ++ data ++ drop (o + length data) (fs_mem s))
              (Z.min (fs_low s) addr))
  | Err e => (Err e, s)
  | Panic => (Panic, s)
  end.

#[global] Instance FakeStack_writer : StackWriter FakeStack := {
  sw_top := fs_top;
  sw_bottom := fs_bottom;
  sw_write := fs_write
}.

(** ** The reader of the tests *)

Record Parsed : Type := MkParsed {
  pr_argv : list (list byte);
  pr_envp : list (list byte);
  pr_auxv : list (Z * Z)
}.

(** [for _ in 0..argc]. *)
Fixpoint read_argv (s : FakeStack) (n : nat) (at_ : Z) : outcome Error (list (list byte) * Z) :=
  match n with
  | O => Ok ([], at_)
  | S n =>
    p ← u64_at s at_;
    str ← cstr_at s p;
    at_ ← add64 at_ 8;
    '(rest, at_) ← read_argv s n at_;
    Ok (str :: rest, at_)
  end.

(** [while s.u64_at(at) != 0]; every turn reads eight bytes further up, so the
    stack itself bounds the number of turns. *)
Fixpoint read_envp (s : FakeStack) (fuel : nat) (at_ : Z) : outcome Error (list (list byte) * Z) :=
  match fuel with
  | O => Panic
  | S fuel =>
    p ← u64_at s at_;
    if p =? 0 then Ok ([], at_) else
    str ← cstr_at s p;
    at_ ← add64 at_ 8;
    '(rest, at_) ← read_envp s fuel at_;
    Ok (str :: rest, at_)
  end.

Fixpoint read_auxv (s : FakeStack) (fuel : nat) (at_ : Z) : outcome Error (list (Z * Z)) :=
  match fuel with
  | O => Panic
  | S fuel =>
    k ← u64_at s at_;
    at8 ← add64 at_ 8;
    v ← u64_at s at8;
    at_ ← add64 at_ 16;
    if k =? AT_NULL then Ok [] else
    rest ← read_auxv s fuel at_;
    Ok ((k, v) :: rest)
  end.

(** [parse] of the tests. *)
Definition parse_stack (s : FakeStack) (sp : Z) : outcome Error Parsed :=
  let fuel := length (fs_mem s) in
  argc ← u64_at s sp;
  at_ ← add64 sp 8;
  '(argv, at_) ← read_argv s (Z.to_nat argc) at_;
  nul ← u64_at s at_;
  if negb (nul =? 0) then Panic else
  at_ ← add64 at_ 8;
  '(envp, at_) ← read_envp s fuel at_;
  at_ ← add64 at_ 8;
  auxv ← read_auxv s fuel at_;
  Ok (MkParsed argv envp auxv).

(** [get] of the tests. *)
Fixpoint assoc (key : Z) (l : list (Z * Z)) : option Z :=
  match l with
  | [] => None
  | (k, v) :: l => if k =? key then Some v else assoc key l
  end.

Definition get (p : Parsed) (key : Z) : option Z := assoc key (pr_auxv p).

(** ** [FakeStack::auxv_value]

    A second reader, which looks one entry up and reads no string. *)

(** [while self.u64_at(at) != 0]. *)
Fixpoint skip_envp (s : FakeStack) (fuel : nat) (at_ : Z) : outcome Error Z :=
  match fuel with
  | O => Panic
  | S fuel =>
    p ← u64_at s at_;
    if p =? 0 then Ok at_ else
    at_ ← add64 at_ 8;
    skip_envp s fuel at_
  end.

Fixpoint find_auxv (s : FakeStack) (key : Z) (fuel : nat) (at_ : Z) : outcome Error (option Z) :=
  match fuel with
  | O => Panic
  | S fuel =>
    k ← u64_at s at_;
    at8 ← add64 at_ 8;
    v ← u64_at s at8;
    at_ ← add64 at_ 16;
    if k =? AT_NULL then Ok None else
    if k =? key then Ok (Some v) else
    find_auxv s key fuel at_
  end.

Definition auxv_value (s : FakeStack) (sp key : Z) : outcome Error (option Z) :=
  let fuel := length (fs_mem s) in
  argc ← u64_at s sp;
  a ← add64 sp 8;
  n ← add64 argc 1;
  n8 ← mul64 n 8;
  at_ ← add64 a n8;
  at_ ← skip_envp s fuel at_;
  at_ ← add64 at_ 8;
  find_auxv s key fuel at_.

(** ** The two readers agree *)

Lemma u64_at_range s a v : u64_at s a = Ok v -> u64 v.
Proof.
  unfold u64_at. intros (b & Hr & [= <-])%bind_Ok. unfold fs_read in Hr.
  apply bind_Ok in Hr as (o & _ & Hs). apply slice_Ok in Hs as [Hle ->].
  pose proof (from_le_bytes_range (take 8 (drop (Z.to_nat o) (fs_mem s)))) as Hb.
  rewrite length_take, length_drop in Hb. replace (8 `min` _)%nat with 8%nat in Hb by lia.
  exact Hb.
Qed.

Lemma read_argv_at s n a l a' : read_argv s n a = Ok (l, a') -> 0 <= a -> a' = a + 8 * Z.of_nat n.
Proof.
  revert a l a'. induction n as [|n IH]; intros a l a'; cbn [read_argv].
  { intros [= <- <-]. lia. }
  intros (p & _ & (str & _ & (b & (-> & Hb)%add64_Ok & ([rest b'] & Hr & [= <- <-])%bind_Ok)%bind_Ok)%bind_Ok)%bind_Ok Ha.
  apply IH in Hr; lia.
Qed.

Lemma skip_envp_read s fuel a l a' : read_envp s fuel a = Ok (l, a') -> skip_envp s fuel a = Ok a'.
Proof.
  revert a l a'. induction fuel as [|fuel IH]; intros a l a'; cbn [read_envp skip_envp]; [done|].
  intros (p & -> & H)%bind_Ok. cbn [mbind outcome_bind]. destruct (p =? 0); [by injection H as _ <-|].
  apply bind_Ok in H as (str & _ & (b & -> & ([rest b'] & Hr & [= <- <-])%bind_Ok)%bind_Ok).
  cbn [mbind outcome_bind]. by eapply IH.
Qed.

Lemma find_auxv_read s key fuel a l : read_auxv s fuel a = Ok l -> find_auxv s key fuel a = Ok (assoc key l).
Proof.
  revert a l. induction fuel as [|fuel IH]; intros a l; cbn [read_auxv find_auxv]; [done|].
  intros (k & -> & (a8 & -> & (v & Hv & (b & -> & H)%bind_Ok)%bind_Ok)%bind_Ok)%bind_Ok.
  cbn [mbind outcome_bind]. rewrite Hv. cbn [mbind outcome_bind].
  destruct (k =? AT_NULL); [by injection H as <-|].
  apply bind_Ok in H as (rest & Hr & [= <-]). cbn [assoc]. destruct (k =? key); [done|]. by apply IH.
Qed.

(** Wherever the full reader gets through, the lookup returns what it found. *)
Lemma auxv_value_get s sp key p :
  0 <= sp -> parse_stack s sp = Ok p -> auxv_value s sp key = Ok (get p key).
Proof.
  intros Hsp. unfold parse_stack, auxv_value.
  intros (argc & Hargc & (a & Ha & ([argv a1] & Hr & (nul & Hn & H)%bind_Ok)%bind_Ok)%bind_Ok)%bind_Ok.
  pose proof (u64_at_range _ _ _ Hargc) as Hu. rewrite Hargc. cbn [mbind outcome_bind]. rewrite Ha. cbn [mbind outcome_bind].
  apply add64_Ok in Ha as [-> Ha]. apply read_argv_at in Hr as ->; [|lia]. unfold u64 in Hu. rewrite Z2Nat.id in * by lia.
  destruct (negb (nul =? 0)); [done|]. apply bind_Ok in H as (a2 & (-> & Ha2)%add64_Ok & ([envp a3] & He & H)%bind_Ok).
  apply bind_Ok in H as (a4 & Ha4 & (auxv & Hx & [= <-])%bind_Ok).
  rewrite (add64_small argc 1) by lia. cbn [mbind outcome_bind].
  rewrite mul64_small by lia. cbn [mbind outcome_bind]. rewrite add64_small by lia. cbn [mbind outcome_bind].
  replace (sp + 8 + (argc + 1) * 8) with (sp + 8 + 8 * argc + 8) by lia.
  rewrite (skip_envp_read _ _ _ _ _ He). cbn [mbind outcome_bind]. rewrite Ha4. cbn [mbind outcome_bind].
  by apply find_auxv_read.
Qed.

(** ** The laws *)

Definition fs_inv (s : FakeStack) : Prop := 0 <= fs_base s /\ fs_top s < 2 ^ 64.
Definition fs_byte (s : FakeStack) (x : Z) : byte :=
  if x <? fs_base s then x00 else fs_mem s !!! Z.to_nat (x - fs_base s).

#[global] Instance FakeStack_laws : StackLaws FakeStack.
Proof.
  refine {| sw_inv := fs_inv; sw_mem := fs_byte |}.
  - intros s [H0 Ht]. cbn. unfold fs_bottom, fs_top in *. lia.
  - intros s a d [H0 Ht] Hb Hfit. cbn in Hb, Hfit. unfold fs_bottom, fs_top in *.
    set (o := Z.to_nat (a - fs_base s)).
    assert (Hl : length (take o (fs_mem s) ++ d ++ drop (o + length d) (fs_mem s)) = length (fs_mem s)).
    { rewrite !length_app, length_take, length_drop. lia. }
    eexists. split.
    { cbn. unfold fs_write, fs_bottom, fs_top. rewrite (proj2 (Z.ltb_ge _ _)) by lia.
      rewrite add64_small by lia. rewrite (proj2 (Z.ltb_ge _ _)) by lia. done. }
    fold o. split; [split; cbn; unfold fs_top; cbn; [done|rewrite Hl; done]|].
    split; [cbn; unfold fs_top; cbn; by rewrite Hl|]. split; [done|].
    intros x. unfold fs_byte. cbn [fs_mem fs_base]. rewrite !list_lookup_total_alt.
    case_decide as Hx; unfold within in Hx.
    + rewrite (proj2 (Z.ltb_ge x _)) by lia.
      rewrite lookup_app_r by (rewrite length_take; lia). rewrite length_take.
      rewrite lookup_app_l by lia. do 2 f_equal. lia.
    + destruct (Z.ltb_spec x (fs_base s)); [done|]. destruct (Z.lt_ge_cases x a) as [Hlt|Hge].
      * rewrite lookup_app_l by (rewrite length_take; lia). by rewrite lookup_take_lt by lia.
      * rewrite lookup_app_r by (rewrite length_take; lia). rewrite length_take.
        rewrite lookup_app_r by lia. rewrite lookup_drop. do 2 f_equal. lia.
Defined.

(** ** Reading back *)

Section Read.
Variable s : FakeStack.

Definition in_stack (a : Z) (n : nat) : Prop := fs_base s <= a /\ a + Z.of_nat n <= fs_top s.

Lemma fs_lookup a i :
  fs_base s <= a -> a + Z.of_nat i < fs_top s ->
  fs_mem s !! (Z.to_nat (a - fs_base s) + i)%nat = Some (fs_byte s (a + Z.of_nat i)).
Proof.
  intros H0 Ht. unfold fs_byte, fs_top in *. rewrite (proj2 (Z.ltb_ge _ _)) by lia.
  replace (Z.to_nat (a + Z.of_nat i - fs_base s)) with (Z.to_nat (a - fs_base s) + i)%nat by lia.
  apply list_lookup_lookup_total_lt. lia.
Qed.

Lemma fs_bytes a d : in_stack a (length d) -> bytes_at s a d ->
  exists rest, drop (Z.to_nat (a - fs_base s)) (fs_mem s) = d ++ rest.
Proof.
  intros [H0 Ht] Hb. exists (drop (Z.to_nat (a - fs_base s) + length d) (fs_mem s)).
  rewrite <- (take_drop (length d) (drop (Z.to_nat (a - fs_base s)) (fs_mem s))) at 1.
  rewrite drop_drop. f_equal. apply list_eq. intros i. rewrite lookup_take, lookup_drop.
  case_decide as Hi.
  - rewrite fs_lookup by lia. destruct (lookup_lt_is_Some_2 d i Hi) as [b Hdi].
    rewrite Hdi. f_equal. by apply Hb.
  - symmetry. apply lookup_ge_None. lia.
Qed.

Lemma fs_read_eq a d : in_stack a (length d) -> bytes_at s a d -> fs_read s a (length d) = Ok d.
Proof.
  intros Hin Hb. destruct (fs_bytes a d Hin Hb) as [rest Hr]. destruct Hin as [H0 Ht]. unfold fs_top in Ht.
  unfold fs_read. rewrite sub64_small by done. cbn [mbind outcome_bind]. apply slice_Ok.
  split; [lia|]. by rewrite Hr, take_app_length.
Qed.

Lemma u64_at_eq a ws i v :
  words_at s a ws -> ws !! i = Some v -> 0 <= v < 2 ^ 64 ->
  fs_base s <= a -> a + 8 * Z.of_nat (length ws) <= fs_top s ->
  u64_at s (a + 8 * Z.of_nat i) = Ok v.
Proof.
  intros Hw Hi Hv H0 Ht. pose proof (lookup_lt_Some _ _ _ Hi) as Hlt. specialize (Hw i v Hi).
  unfold u64_at.
  assert (Hr : fs_read s (a + 8 * Z.of_nat i) 8 = Ok (to_le_bytes 8 v)).
  { rewrite <- (length_to_le_bytes 8 v) at 1. apply fs_read_eq; [|done].
    split; rewrite ?length_to_le_bytes; lia. }
  rewrite Hr. cbn [mbind outcome_bind]. f_equal. rewrite from_to_le_bytes. by apply Z.mod_small.
Qed.

Lemma cstr_at_eq a str :
  in_stack a (length str + 1) -> cstr_in s a str -> x00 ∉ str -> cstr_at s a = Ok str.
Proof.
  intros Hin Hc Hno. unfold cstr_in in Hc.
  destruct (fs_bytes a (str ++ [x00])) as [rest Hr]; [|done|].
  { destruct Hin. split; [done|]. rewrite length_app. cbn. lia. }
  destruct Hin as [H0 Ht]. unfold fs_top in Ht. unfold cstr_at. rewrite sub64_small by done.
  cbn [mbind outcome_bind]. rewrite (proj2 (Nat.ltb_ge _ _)) by lia. rewrite Hr, <- app_assoc. cbn [app].
  replace (position _ _) with (Some (length str)); [by rewrite take_app_length|].
  symmetry. apply position_Some. exists x00. rewrite list_lookup_middle by done.
  split; [done|]. split; [by apply bool_decide_eq_true|]. intros j y Hj Hy.
  rewrite lookup_app_l in Hy by done. apply bool_decide_eq_false. intros ->.
  apply Hno. by eapply list_elem_of_lookup_2.
Qed.

Lemma words_app a l1 l2 :
  words_at s a (l1 ++ l2) -> words_at s a l1 /\ words_at s (a + 8 * Z.of_nat (length l1)) l2.
Proof.
  intros Hw. split; intros i v Hi.
  - apply Hw. by apply lookup_app_l_Some.
  - replace (a + 8 * Z.of_nat (length l1) + 8 * Z.of_nat i) with (a + 8 * Z.of_nat (length l1 + i)) by lia.
    apply Hw. by rewrite lookup_app_r, Nat.add_sub_swap, Nat.sub_diag by lia.
Qed.

Hypothesis inv : fs_inv s.

Lemma word_head a v ws :
  words_at s a (v :: ws) -> 0 <= v < 2 ^ 64 -> fs_base s <= a ->
  a + 8 * Z.of_nat (length (v :: ws)) <= fs_top s ->
  u64_at s a = Ok v /\ words_at s (a + 8) ws /\ a + 8 < 2 ^ 64.
Proof.
  intros Hw Hv H0 Ht. destruct inv as [_ Htop]. split; [|split].
  - rewrite <- (u64_at_eq a (v :: ws) 0 v) by done. f_equal. lia.
  - by apply (words_app a [v] ws) in Hw as [_ Hw].
  - cbn [length] in Ht. lia.
Qed.

(** Pointers to strings that can be read. *)
Definition readable (addrs : list Z) (strs : list (list byte)) : Prop :=
  Forall2 (fun a str => 0 < a < 2 ^ 64 /\ cstr_at s a = Ok str) addrs strs.

Lemma strs_readable lo addrs strs :
  fs_base s < lo -> strs_in s lo (fs_top s) addrs strs -> Forall (fun str => x00 ∉ str) strs ->
  readable addrs strs.
Proof.
  intros Hlo Hs Hno. destruct inv as [H0 Htop]. unfold readable.
  induction Hs as [|a str addrs strs (H1 & H2 & H3) _ IH]; [constructor|].
  apply Forall_cons in Hno as [Hn Hno]. constructor; [|auto]. split; [lia|].
  apply cstr_at_eq; [|done|done]. split; lia.
Qed.

Lemma read_argv_eq addrs strs at_ :
  words_at s at_ addrs -> readable addrs strs -> fs_base s <= at_ ->
  at_ + 8 * Z.of_nat (length addrs) <= fs_top s ->
  read_argv s (length addrs) at_ = Ok (strs, at_ + 8 * Z.of_nat (length addrs)).
Proof.
  intros Hw Hs. revert at_ Hw.
  induction Hs as [|a str addrs strs [Ha Hc] _ IH]; intros at_ Hw H0 Ht; cbn [read_argv length].
  { do 2 f_equal. lia. }
  destruct (word_head at_ a addrs Hw ltac:(lia) H0 Ht) as (Hu & Hw' & Hlt).
  rewrite Hu. cbn [mbind outcome_bind]. rewrite Hc. cbn [mbind outcome_bind].
  rewrite add64_small by done. cbn [mbind outcome_bind]. cbn [length] in Ht.
  rewrite IH by (done || lia). cbn [mbind outcome_bind]. do 2 f_equal. lia.
Qed.

Lemma read_envp_eq addrs strs rest at_ fuel :
  words_at s at_ (addrs ++ 0 :: rest) -> readable addrs strs -> fs_base s <= at_ ->
  at_ + 8 * Z.of_nat (length (addrs ++ 0 :: rest)) <= fs_top s -> (length addrs < fuel)%nat ->
  read_envp s fuel at_ = Ok (strs, at_ + 8 * Z.of_nat (length addrs)).
Proof.
  intros Hw Hs. revert at_ fuel Hw.
  induction Hs as [|a str addrs strs [Ha Hc] _ IH]; intros at_ [|fuel] Hw H0 Ht Hf; cbn [read_envp app length] in *;
    try lia.
  - destruct (word_head at_ 0 rest Hw ltac:(lia) H0 Ht) as (Hu & _).
    rewrite Hu. cbn [mbind outcome_bind Z.eqb]. do 2 f_equal. lia.
  - destruct (word_head at_ a (addrs ++ 0 :: rest) Hw ltac:(lia) H0 Ht) as (Hu & Hw' & Hlt).
    rewrite Hu. cbn [mbind outcome_bind]. rewrite (proj2 (Z.eqb_neq _ _)) by lia.
    rewrite Hc. cbn [mbind outcome_bind]. rewrite add64_small by done. cbn [mbind outcome_bind].
    rewrite IH by (done || lia). cbn [mbind outcome_bind]. do 2 f_equal. lia.
Qed.

Lemma read_auxv_eq av at_ fuel :
  words_at s at_ (flat (av ++ [(AT_NULL, 0)])) ->
  Forall (fun e => e.1 <> AT_NULL /\ 0 <= e.1 < 2 ^ 64 /\ 0 <= e.2 < 2 ^ 64) av -> fs_base s <= at_ ->
  at_ + 16 * Z.of_nat (length (av ++ [(AT_NULL, 0)])) <= fs_top s -> (length av < fuel)%nat ->
  read_auxv s fuel at_ = Ok av.
Proof.
  intros Hw Hall. revert at_ fuel Hw. destruct inv as [_ Htop].
  assert (Hstep : forall k v rest at_,
    words_at s at_ (k :: v :: rest) -> 0 <= k < 2 ^ 64 -> 0 <= v < 2 ^ 64 -> fs_base s <= at_ ->
    at_ + 16 + 8 * Z.of_nat (length rest) <= fs_top s ->
    u64_at s at_ = Ok k /\ u64_at s (at_ + 8) = Ok v /\ words_at s (at_ + 16) rest).
  { intros k v rest at_ Hw Hk Hv H0 Ht.
    destruct (word_head at_ k (v :: rest) Hw Hk H0) as (Hu & Hw1 & _); [cbn [length]; lia|].
    destruct (word_head (at_ + 8) v rest Hw1 Hv) as (Hu2 & Hw2 & _); [lia|cbn [length]; lia|].
    split; [done|]. split; [done|]. by replace (at_ + 16) with (at_ + 8 + 8) by lia. }
  induction Hall as [|[k v] av (Hk0 & Hk & Hv) _ IH]; intros at_ [|fuel] Hw H0 Ht Hf;
    cbn [read_auxv app length flat mbind list_bind fst snd] in *; try lia.
  - destruct (Hstep AT_NULL 0 [] at_ Hw) as (Hu & Hu2 & _); [unfold AT_NULL; lia|lia|lia|cbn [length]; lia|].
    rewrite Hu. cbn [mbind outcome_bind]. rewrite !add64_small by lia. cbn [mbind outcome_bind].
    rewrite Hu2. done.
  - fold (flat (av ++ [(AT_NULL, 0)])) in *.
    pose proof (flat_length (av ++ [(AT_NULL, 0)])) as Hfl.
    destruct (Hstep k v (flat (av ++ [(AT_NULL, 0)])) at_ Hw Hk Hv H0) as (Hu & Hu2 & Hw'); [lia|].
    rewrite Hu. cbn [mbind outcome_bind]. rewrite (add64_small at_ 8) by lia. cbn [mbind outcome_bind].
    rewrite Hu2. cbn [mbind outcome_bind]. rewrite (add64_small at_ 16) by lia. cbn [mbind outcome_bind].
    rewrite (proj2 (Z.eqb_neq k AT_NULL)) by done.
    rewrite IH by (done || lia). done.
Qed.
End Read.

(** ** The round trip *)

Section RoundTrip.
Context {heap : Heap}.
Variables (argv envp : list (list byte)) (aux : AuxvSpec) (s s' : FakeStack) (L : StackLayout).
Hypothesis inv : fs_inv s.
Hypothesis argv_clean : Forall (fun str => x00 ∉ str) argv.
Hypothesis envp_clean : Forall (fun str => x00 ∉ str) envp.
Hypothesis lengths : Forall (fun str => Z.of_nat (length str) < 2 ^ 63) (argv ++ envp).
Hypothesis aux_ok : aux_u64 aux.
Hypothesis run : build_stack argv envp aux s = (Ok L, s').

(** Reading a stack that was laid out, with the addresses made explicit. *)
Lemma parse_laid_out argv_at envp_at pa ea ra :
  wrote (sp L) (fs_top s) s s' -> fs_base s <= sp L ->
  laid_out s' (sp L) (fs_top s) argv envp aux argv_at envp_at pa ea ra ->
  exists body, auxv_entries aux pa ea ra = body ++ [(AT_NULL, 0)] /\
    parse_stack s' (sp L) = Ok (MkParsed argv envp body).
Proof.
  intros [Hi' Ht' Hb' _] Hsp [Hw Hfit Ha He Hbl]. cbn in Ht', Hb', Hi'. unfold fs_bottom in Hb'.
  pose proof Hi' as [H0' Htop']. rewrite <- Ht' in *.
  destruct (auxv_split aux pa ea ra aux_ok) as (body & Hav & Hbody).
  { destruct Hbl as [Hp _ _]. destruct pa; [|done]. unfold u64. lia. }
  { destruct Hbl as [_ (a & -> & ?) _]. unfold u64. lia. }
  { destruct Hbl as [_ _ ?]. unfold u64. lia. }
  exists body. split; [done|]. rewrite Hav in *. set (av := body ++ [(AT_NULL, 0)]) in *.
  assert (Hra : readable s' argv_at argv) by (apply (strs_readable s' Hi' (sp L + 8)); [lia|done|done]).
  assert (Hre : readable s' envp_at envp) by (apply (strs_readable s' Hi' (sp L + 8)); [lia|done|done]).
  pose proof (Forall2_length _ _ _ Hra) as La. pose proof (Forall2_length _ _ _ Hre) as Le.
  pose proof (block_words_length (Z.of_nat (length argv)) argv_at envp_at av) as Lb. rewrite La, Le in Lb.
  pose proof (flat_length av) as Lf.
  assert (Hlb : length av = S (length body)) by (unfold av; rewrite length_app; cbn; lia).
  assert (Hfuel : Z.of_nat (length argv) + Z.of_nat (length envp) + 2 * Z.of_nat (length av) + 3
    <= Z.of_nat (length (fs_mem s'))) by (unfold fs_top in *; lia).
  unfold block_words in Hw.
  destruct (word_head s' Hi' (sp L) _ _ Hw) as (Hargc & Hw1 & _); [lia|lia| |].
  { fold (block_words (Z.of_nat (length argv)) argv_at envp_at av). rewrite Lb. lia. }
  apply words_app in Hw1 as [Hwa Hw1]. rewrite La in Hw1.
  destruct (word_head s' Hi' _ _ _ Hw1) as (Hnul & Hw2 & _); [lia|lia| |].
  { cbn [length]. rewrite length_app. cbn [length]. lia. }
  pose proof (words_app s' _ _ _ Hw2) as [_ Hw3]. rewrite Le in Hw3.
  apply (words_app s' _ [0] (flat av)) in Hw3 as [_ Hw4]. cbn [length] in Hw4.
  unfold parse_stack. rewrite Hargc. cbn [mbind outcome_bind]. rewrite add64_small by lia. cbn [mbind outcome_bind].
  rewrite Nat2Z.id, <- La. rewrite (read_argv_eq s' Hi' _ _ _ Hwa Hra) by lia.
  rewrite La. cbn [mbind outcome_bind]. rewrite Hnul. cbn [mbind outcome_bind Z.eqb negb].
  rewrite add64_small by lia. cbn [mbind outcome_bind].
  rewrite (read_envp_eq s' Hi' envp_at envp (flat av)); [|done|done|lia| |lia].
  2: { rewrite length_app. cbn [length]. lia. }
  cbn [mbind outcome_bind]. rewrite add64_small by lia. cbn [mbind outcome_bind].
  rewrite (read_auxv_eq s' Hi' body); [done| |done|lia| |lia].
  - rewrite Le. replace (_ + 8 + 8 * _ + 8) with
      (sp L + 8 + 8 * Z.of_nat (length argv) + 8 + 8 * Z.of_nat (length envp) + 8 * Z.of_nat 1) by lia.
    exact Hw4.
  - fold av. lia.
Qed.

(** Everything the reader finds. *)
Record reads_back (body : list (Z * Z)) (pa : option Z) (ea ra : Z) : Prop := {
  rb_auxv : auxv_entries aux pa (Some ea) ra = body ++ [(AT_NULL, 0)];
  rb_parse : parse_stack s' (sp L) = Ok (MkParsed argv envp body);
  rb_aligned : (SP_ALIGN | sp L);
  rb_platform : match pa with
                | Some a => platform aux <> [] /\ sp L <= a < fs_top s' /\
                            (x00 ∉ platform aux -> cstr_at s' a = Ok (platform aux))
                | None => platform aux = []
                end;
  rb_execfn : sp L <= ea < fs_top s' /\ (x00 ∉ execfn aux -> cstr_at s' ea = Ok (execfn aux));
  rb_random : sp L <= ra /\ ra + Z.of_nat (length (random aux)) <= fs_top s' /\
              fs_read s' ra (length (random aux)) = Ok (random aux)
}.

Lemma run_reads_back : exists body pa ea ra, reads_back body pa ea ra.
Proof.
  pose proof (build_stack_wpe argv envp aux s inv lengths) as Hwp. unfold wpe in Hwp.
  rewrite run in Hwp. destruct Hwp as (Hal & _ & _ & [Hlo _] & Hw & argv_at & envp_at & pa & ea & ra & Hlaid).
  cbn in Hlo, Hw. unfold fs_bottom in Hlo.
  destruct (parse_laid_out argv_at envp_at pa ea ra Hw Hlo Hlaid) as (body & Hav & Hp).
  destruct Hlaid as [_ _ _ _ [Hpl (a & -> & Ha1 & Ha2 & Ha3) (Hr1 & Hr2 & Hr3)]].
  pose proof Hw as [Hi' Ht' Hb' _]. cbn in Ht', Hb', Hi'. unfold fs_bottom in Hb'.
  change (sw_top s) with (fs_top s) in *. rewrite <- Ht' in *.
  exists body, pa, a, ra. split; try done.
  - destruct pa as [b|]; [|done]. destruct Hpl as (Hne & Hb1 & Hb2 & Hb3). split; [done|]. split; [lia|].
    intros Hz. apply cstr_at_eq; [|done|done]. unfold in_stack. lia.
  - split; [lia|]. intros Hz. apply cstr_at_eq; [|done|done]. unfold in_stack. lia.
  - split; [lia|]. split; [lia|]. apply fs_read_eq; [|done]. unfold in_stack. lia.
Qed.

(** C8. What is laid out is what a program reads: after a successful
    [build_stack], a reader that walks the stack from [sp] the way a libc
    start-up does finds exactly the arguments, the environment and the auxiliary
    vector, the file name under [AT_EXECFN] and the sixteen random bytes under
    [AT_RANDOM]. *)
Theorem stack_round_trip :
  x00 ∉ execfn aux ->
  exists pa ea ra p a,
    parse_stack s' (sp L) = Ok p /\
    pr_argv p = argv /\ pr_envp p = envp /\
    pr_auxv p ++ [(AT_NULL, 0)] = auxv_entries aux pa ea ra /\
    ea = Some a /\ cstr_at s' a = Ok (execfn aux) /\
    fs_read s' ra (length (random aux)) = Ok (random aux).
Proof.
  intros Hexec. destruct run_reads_back as (body & pa & a & ra & [Hav Hp _ _ [_ He] (_ & _ & Hr)]).
  exists pa, (Some a), ra, (MkParsed argv envp body), a. split_and!; auto.
Qed.
End RoundTrip.

(** A stack with room is laid out and reads back. *)
Lemma roomy_stack {heap : Heap} argv envp aux s :
  fs_inv s -> Forall (fun str => x00 ∉ str) argv -> Forall (fun str => x00 ∉ str) envp ->
  Forall (fun str : list byte => Z.of_nat (length str) < 2 ^ 63) (argv ++ envp) -> aux_u64 aux ->
  arg_env_total (argv ++ envp) <= Z.max ARG_MAX ((fs_top s - fs_bottom s) / 4) ->
  stack_room argv envp aux <= fs_top s - fs_bottom s -> (forall n, try_reserve n = true) ->
  exists L s' body pa ea ra, build_stack argv envp aux s = (Ok L, s') /\
    reads_back argv envp aux s' L body pa ea ra.
Proof.
  intros Hi Ha He Hl Hx Hb Hr Hh.
  destruct (build_stack_room (laws:=FakeStack_laws) Hh argv envp aux s Hi Hl Hb Hr) as (L & s' & Hrun & _).
  destruct (run_reads_back argv envp aux s s' L Hi Ha He Hl Hx Hrun) as (body & pa & ea & ra & Hrb).
  by exists L, s', body, pa, ea, ra.
Qed.

(** ** A small stack *)

Definition demo_stack : FakeStack := fs_new 0x70000000 1024.
Definition demo_argv : list (list byte) := [[x2f; x61]; [x78]].
Definition demo_envp : list (list byte) := [[x4b; x3d]].
Definition demo_aux : AuxvSpec :=
  MkAuxvSpec (Some 0x400040) 56 2 0x7f000000 0x401000 4096 0 0 7 0 100 false
    (replicate 16 x5a) [x78] [x2f; x61] None None.

Lemma demo_inv : fs_inv demo_stack.
Proof. split; vm_compute; [discriminate|reflexivity]. Qed.

Lemma demo_short : Forall (fun s : list byte => Z.of_nat (length s) < 2 ^ 63) (demo_argv ++ demo_envp).
Proof. repeat constructor. Qed.

Lemma build_stack_spec_witness :
  match build_stack (heap:=plenty) demo_argv demo_envp demo_aux demo_stack with
  | (Ok L, w') => built demo_stack demo_argv demo_envp demo_aux L w'
  | (Err e, w') => (e = E2BIG \/ e = ENOMEM) /\
                   wrote (sw_bottom demo_stack) (sw_top demo_stack) demo_stack w'
  | (Panic, _) => False
  end.
Proof. apply (build_stack_spec (heap:=plenty)); [exact demo_inv|exact demo_short]. Defined.

Lemma build_stack_fits_witness :
  exists L w', build_stack (heap:=plenty) demo_argv demo_envp demo_aux demo_stack = (Ok L, w') /\
    built demo_stack demo_argv demo_envp demo_aux L w'.
Proof.
  apply (build_stack_fits (heap:=plenty));
    [done|exact demo_inv|exact demo_short|vm_compute; discriminate|vm_compute; discriminate].
Defined.

Definition demo_run : outcome Error StackLayout * FakeStack :=
  build_stack (heap:=plenty) demo_argv demo_envp demo_aux demo_stack.
Definition demo_layout : StackLayout :=
  match demo_run.1 with Ok L => L | _ => MkStackLayout 0 0 0 end.

Lemma stack_round_trip_witness :
  exists pa ea ra p a,
    parse_stack demo_run.2 (sp demo_layout) = Ok p /\
    pr_argv p = demo_argv /\ pr_envp p = demo_envp /\
    pr_auxv p ++ [(AT_NULL, 0)] = auxv_entries demo_aux pa ea ra /\
    ea = Some a /\ cstr_at demo_run.2 a = Ok (execfn demo_aux) /\
    fs_read demo_run.2 ra (length (random demo_aux)) = Ok (random demo_aux).
Proof.
  apply (stack_round_trip (heap:=plenty) demo_argv demo_envp demo_aux demo_stack demo_run.2 demo_layout).
  - exact demo_inv.
  - repeat constructor; apply (bool_decide_unpack _); by vm_compute.
  - repeat constructor; apply (bool_decide_unpack _); by vm_compute.
  - exact demo_short.
  - split; vm_compute; try split; done.
  - vm_compute. reflexivity.
  - apply (bool_decide_unpack _); by vm_compute.
Defined.
