(* ===== verification/Program.v ===== *)
(** * Loading a program and its interpreter ([rust/src/program.rs])

    A program is opened, parsed and loaded; when it names an interpreter that is
    loaded beside it, and the auxiliary vector describes the pair. *)

From Stdlib Require Import Strings.Byte.
From stdpp Require Import base numbers option strings sets list.
From S2P Require Import Prelude Err Elf Layout Loader Auxv.

(** [o_drop] is what dropping the boxed source does: a [File] closes its
    descriptor, the other sources own nothing. *)
Record Opened (S : Type) : Type := MkOpened {
  o_src : ImageSource;
  o_fd : option Z;
  o_drop : S -> S
}.
Arguments MkOpened {S}.
Arguments o_src {S}.
Arguments o_fd {S}.
Arguments o_drop {S}.

(** [trait Opener]. *)
Class Opener (S : Type) : Type := open : list byte -> stM Error S (Opened S).

(** The rest of a block that owns a value: it is dropped at the end of the block,
    whether that is reached or left with an error.  A panic aborts. *)
Definition scoped {S A : Type} (drop : S -> S) (m : stM Error S A) : stM Error S A := fun s =>
  match m s with
  | (Panic, s') => (Panic, s')
  | (r, s') => (r, drop s')
  end.

Record LoadedProgram : Type := MkProgram {
  image : Image;
  main : Loaded;
  interp_image : option (Image * Loaded);
  interp_name : option (list byte)
}.

(** [LoadedProgram::entry] and [LoadedProgram::interp_base]. *)
Definition program_entry (p : LoadedProgram) : Z :=
  match interp_image p with
  | Some (_, l) => Layout.entry (lplan l)
  | None => Layout.entry (lplan (main p))
  end.

Definition interp_base (p : LoadedProgram) : Z :=
  match interp_image p with Some (_, l) => bias (lplan l) | None => 0 end.

Record Environment : Type := MkEnvironment {
  env_page_size : Z;
  env_platform : list byte;
  env_execfn : list byte;
  env_random : list byte;
  env_uid : Z;
  env_gid : Z;
  env_hwcap : Z * Z;
  env_sysinfo_ehdr : option Z
}.

Definition min_sig_stack_size {target : Target} : option Z :=
  if target_aarch64 then Some 4096 else None.

Definition program_auxv {target : Target} (p : LoadedProgram) (env : Environment) : Res AuxvSpec :=
  ph ← phdr_addr (lplan (main p)) (image p);
  Ok {| phdr := ph;
        phent := e_phentsize (ehdr (image p));
        phnum := e_phnum (ehdr (image p));
        Auxv.base := interp_base p;
        Auxv.entry := Layout.entry (lplan (main p));
        pagesz := env_page_size env;
        uid := env_uid env;
        gid := env_gid env;
        hwcap := (env_hwcap env).1;
        hwcap2 := (env_hwcap env).2;
        clktck := 100;
        secure := false;
        random := env_random env;
        platform := env_platform env;
        execfn := env_execfn env;
        sysinfo_ehdr := env_sysinfo_ehdr env;
        minsigstksz := min_sig_stack_size |}.

Section Program.
Context {S : Type} {vm : Vm S} {heap : Heap} {target : Target} {opener : Opener S}.

(** [LoadedProgram::unload]: the interpreter first. *)
Definition program_unload (p : LoadedProgram) : stM Error S unit :=
  _ ← match interp_image p with
      | Some (_, l) => unload l
      | None => mret tt
      end;
  unload (main p).

Definition load_interp (path : list byte) (page : Z) : stM Error S (Image * Loaded) :=
  opened ← open path;
  scoped (o_drop opened) (
    img ← lift (map_err Reject_to_Error (Image_parse (o_src opened) page));
    if negb (e_type (ehdr img) =? ET_DYN) then fail ENOEXEC else
    if needs_interp img then fail ENOEXEC else
    loaded ← load img (o_src opened) (o_fd opened);
    mret (img, loaded)).

(** The lines about the main image that are logged: the subtraction and
    [entry_is_executable] are evaluated whatever the log level. *)
Definition report_main (img : Image) (l : Loaded) : Res unit :=
  _ ← sub64 (end_ (lplan l)) (Layout.base (lplan l));
  _ ← entry_is_executable img (lplan l);
  Ok tt.

Definition load_program (path : list byte) : stM Error S LoadedProgram :=
  opened ← open path;
  scoped (o_drop opened) (
    img ← lift (map_err Reject_to_Error (Image_parse (o_src opened) page_size));
    _ ← lift (check_stack_request img);
    ip ← (if needs_interp img
          then p ← lift (interp_path img (o_src opened)); mret (Some p)
          else mret None);
    main ← load img (o_src opened) (o_fd opened);
    _ ← lift (report_main img main);
    interp ← match ip with
             | None => mret None
             | Some p => v ← on_err (load_interp p page_size) (unload main); mret (Some v)
             end;
    mret (MkProgram img main interp ip)).
End Program.
