(* ===== verification/ProgramFacts.v ===== *)
(** * Properties of loading a program with its interpreter

    Against the laws of an address space and an opener of files: a program and
    its interpreter end up side by side, a failure takes everything down again,
    and the auxiliary vector points at what was loaded.  Both ways of loading are
    covered: mapping the file, and copying it. *)

From Stdlib Require Import Strings.Byte.
From stdpp Require Import base numbers option strings sets list.
From S2P Require Import Prelude Err Elf ElfFacts Layout LayoutFacts Loader VmSpec LoaderFacts Auxv AuxvFacts Program.

Section Facts.
Context {S : Type} {vm : Vm S} {laws : VmLaws S} {heap : Heap} {target : Target} {opener : Opener S}.

(** States that show the same at every address. *)
Definition same_view (s s' : S) : Prop := forall x, view s' x = view s x.

#[local] Instance same_view_equiv : Equivalence same_view.
Proof.
  split.
  - by intros s x.
  - intros s s' H x. by rewrite H.
  - intros s1 s2 s3 H1 H2 x. by rewrite H2.
Qed.

(** ** One image *)

(** An open file: its source, and its descriptor where that is used, show the
    same bytes. *)
Record file_ok (s : S) (o : Opened S) (data : list byte) : Prop := {
  fo_serves : serves (o_src o) data;
  fo_size : size (o_src o) = Some (Z.of_nat (length data));
  fo_data : forall fd, o_fd o = Some fd -> can_map_files = true -> fd_data s fd = Some data
}.

Definition by_mapping (o : Opened S) : bool :=
  match o_fd o with Some _ => can_map_files | None => false end.

(** There is room for an image, which is not empty. *)
Definition fits (s : S) (o : Opened S) (img : Image) : Prop := forall lo hi n a,
  va_span img page_size = Ok (lo, hi) -> reservation_len img page_size = Ok n ->
  seg_align img page_size = Ok a ->
  if by_mapping o then lo < hi /\ room s n /\ room s (hi - lo)
  else (forall ph, ph ∈ load_phdrs img -> 0 < p_memsz ph) /\ heap_room s a n.

(** What a failing load leaves: the address space as it was, or -- when planning
    failed -- that and one reservation where nothing was. *)
Definition failed (s s' : S) : Prop :=
  vm_step s s' /\
  (same_view s s' \/
   exists img p a len, plan img page_size p = Err ENOMEM /\
     (forall x, within a len x -> view s x = None /\ is_Some (view s' x)) /\
     forall x, ~ within a len x -> view s' x = view s x).

Lemma failed_refl s : vm_inv s -> failed s s.
Proof. intros Hi. split; [by apply step_refl|]. by left. Qed.

Lemma failed_between s s1 s2 s3 :
  vm_held s s1 -> same_view s s1 -> failed s1 s2 -> vm_held s2 s3 -> same_view s2 s3 -> vm_kept s s3 -> failed s s3.
Proof.
  intros Hs1 H1 [Hs2 [H2|(img & p & a & len & Hp & Hin & Hout)]] Hi H3 Hk; (split; [split; [eauto with vm|done]|]).
  - left. by rewrite H1, H2.
  - right. exists img, p, a, len. split; [done|]. split; intros x Hx.
    + rewrite H3, <- H1. auto.
    + rewrite H3, <- H1. auto.
Qed.

Lemma span_outcome img : Image_wf page_size img ->
  (exists lo hi, va_span img page_size = Ok (lo, hi)) \/ exists e, va_span img page_size = Err e.
Proof.
  intros Hwf. rewrite (va_span_eq page_size img law_page law_page_u64 Hwf). case_match; eauto.
Qed.

Lemma reservation_outcome img lo hi : Image_wf page_size img -> va_span img page_size = Ok (lo, hi) ->
  (exists n, reservation_len img page_size = Ok n) \/ exists e, reservation_len img page_size = Err e.
Proof.
  intros Hwf Hs. destruct (seg_align_eq page_size img law_page law_page_u64 Hwf) as (a & Ha & _ & Hr & _).
  unfold reservation_len. rewrite Hs, Ha. cbn [mbind outcome_bind].
  destruct (checked_sub hi lo); cbn [mbind outcome_bind]; [|eauto].
  rewrite sub64_small by lia. cbn [mbind outcome_bind]. destruct (checked_add _ _); cbn; eauto.
Qed.

Lemma reservation_needs_span img e : va_span img page_size = Err e -> reservation_len img page_size = Err e.
Proof. intros Hs. unfold reservation_len. by rewrite Hs. Qed.

(** An image in place.  What is mapped has exactly the protections the program
    headers ask for; what is copied has the bytes. *)
Record placed (img : Image) (data : list byte) (s : S) (ld : Loaded) (s' : S) : Prop := {
  pd_wf : Image_wf page_size img;
  pd_plan : plan_ok page_size img (lplan ld);
  pd_len : 0 < reserve_len (lplan ld);
  pd_inv : vm_held s s';
  pd_release : if allocated ld
    then block s' (reserve_addr (lplan ld)) (reserve_len (lplan ld)) /\ forall bl, ~ block s (reserve_addr (lplan ld)) bl
    else can_map_files = true;
  pd_free : forall x, within (reserve_addr (lplan ld)) (reserve_len (lplan ld)) x -> view s x = None;
  pd_mapped : forall x, within (reserve_addr (lplan ld)) (reserve_len (lplan ld)) x -> is_Some (view s' x);
  pd_bytes : forall ph x, ph ∈ load_phdrs img -> in_data (lplan ld) ph x ->
    snd <$> view s' x = Some (seg_byte (lplan ld) data ph x);
  pd_prot : allocated ld = false -> forall ph x, ph ∈ load_phdrs img -> in_seg (lplan ld) ph x ->
    view s' x = Some (prot_of ph, seg_byte (lplan ld) data ph x);
  pd_frame : forall x, ~ within (reserve_addr (lplan ld)) (reserve_len (lplan ld)) x -> view s' x = view s x
}.

(** Every address of the reservation of a mapped image is mapped. *)
Lemma loaded_mapped img data s ld s' x :
  loaded_ok img data s ld s' -> within (reserve_addr (lplan ld)) (reserve_len (lplan ld)) x ->
  is_Some (view s' x).
Proof.
  intros [_ _ _ _ Hseg Hgap _ _] Hx.
  destruct (decide (Exists (fun ph => in_seg (lplan ld) ph x) (load_phdrs img))) as [He|Hne].
  - apply Exists_exists in He as (ph & Hph & Hin). rewrite (Hseg ph x) by done. eauto.
  - rewrite Hgap; [eauto|done|]. intros ph Hph Hin. apply Hne, Exists_exists. by exists ph.
Qed.

Lemma mapped_placed img data s ld s' :
  can_map_files = true -> Image_wf page_size img -> plan_ok page_size img (lplan ld) ->
  0 < reserve_len (lplan ld) -> loaded_ok img data s ld s' -> placed img data s ld s'.
Proof.
  intros Hcan Hwf Hok Hlen Hld. pose proof Hld as [Hal _ Hi Hfree Hseg _ Hframe _].
  split; try done.
  - apply Hi.
  - by rewrite Hal.
  - intros x. by apply (loaded_mapped img data s ld s').
  - intros ph x Hph Hx. rewrite (Hseg ph x); [done|done|].
    destruct (seg_inside img (lplan ld) Hwf Hok ph Hph) as (? & ? & ? & ? & ? & ? & ?).
    unfold in_seg, in_data, within in *. lia.
Qed.

Lemma copied_placed img data s ld s' :
  Image_wf page_size img -> copied_ok img data s ld s' -> placed img data s ld s'.
Proof.
  intros Hwf [Hal (raw & Hp & Hpl) Hlen Hi Hb Hfree Hm Hseg Hframe].
  destruct (plan_inv page_size img law_page law_page_u64 Hwf _ _ Hp Hpl) as (Hok & _).
  split; try done; [apply Hi|by rewrite Hal|by rewrite Hal].
Qed.

Lemma map_image_wp s o data img fd :
  vm_inv s -> file_ok s o data -> Image_parse (o_src o) page_size = Ok img -> fits s o img ->
  o_fd o = Some fd -> can_map_files = true ->
  wp (load_mapped img fd page_size) (fun ld s' => placed img data s ld s' /\ vm_kept s s') (failed s) s.
Proof.
  intros Hi [Hsv Hsz Hfd] Hp Hfit Hofd Hcan.
  assert (Hwf : Image_wf page_size img) by (by eapply parse_wf; [apply law_page|apply law_page_u64|]).
  assert (Hcov : file_covers img data).
  { intros ph Hph _. by apply (parse_in_file (o_src o) page_size law_page law_page_u64 img). }
  destruct (span_outcome img Hwf) as [(lo & hi & Hs)|[e Hs]].
  2: { unfold wp, load_mapped, mbind, stM_bind, lift. rewrite Hs. by apply failed_refl. }
  destruct (reservation_outcome img lo hi Hwf Hs) as [[n Hn]|[e Hn]].
  2: { unfold wp, load_mapped, mbind, stM_bind, lift. rewrite Hs, Hn. by apply failed_refl. }
  destruct (seg_align_eq page_size img law_page law_page_u64 Hwf) as (a & Ha & _).
  specialize (Hfit lo hi n a Hs Hn Ha). unfold by_mapping in Hfit. rewrite Hofd, Hcan in Hfit.
  destruct Hfit as (Hlt & Hr1 & Hr2).
  eapply wp_mono; [by apply (load_mapped_wp img fd data lo hi n s); auto| |].
  - intros ld s' Hld. pose proof Hld as [_ (p & Hpl & Hplan & _) _ _ _ _ _ _].
    destruct (plan_taken img lo hi n s Hwf Hs Hn Hr1 p _ Hpl Hplan) as [Hok Ht].
    destruct (need_facts img lo hi n s Hwf Hs Hlt Hn Hr1) as (H0 & _).
    split; [|apply Hld]. apply mapped_placed; try done. destruct p; injection Ht as _ ->; lia.
  - intros s' [[Hi' Hv]|(p & Hpl & Herr & Hi' & Hfree & Hv)]; (split; [done|]); [by left|].
    right. exists img, p, (taken lo hi n p).1, (taken lo hi n p).2. split; [done|]. split; intros x Hx.
    + split; [auto|]. rewrite Hv, decide_True by done. eauto.
    + by rewrite Hv, decide_False.
Qed.

Lemma copy_image_wp s o data img :
  vm_inv s -> file_ok s o data -> Image_parse (o_src o) page_size = Ok img -> fits s o img ->
  by_mapping o = false ->
  wp (load_copied img (o_src o) page_size) (fun ld s' => placed img data s ld s' /\ vm_kept s s') (failed s) s.
Proof.
  intros Hi [Hsv Hsz _] Hp Hfit Hby.
  assert (Hwf : Image_wf page_size img) by (by eapply parse_wf; [apply law_page|apply law_page_u64|]).
  destruct (Z.eqb_spec (e_type (ehdr img)) ET_DYN) as [Ht|Ht].
  2: { unfold wp, load_copied. rewrite (proj2 (Z.eqb_neq _ _) Ht). by apply failed_refl. }
  assert (Herr : forall e, reservation_len img page_size = Err e ->
    wp (load_copied img (o_src o) page_size) (fun ld s' => placed img data s ld s' /\ vm_kept s s') (failed s) s).
  { intros e He. unfold wp, load_copied, mbind, stM_bind, lift. rewrite Ht, He. by apply failed_refl. }
  destruct (span_outcome img Hwf) as [(lo & hi & Hs)|[e Hs]]; [|by eapply Herr, reservation_needs_span].
  destruct (reservation_outcome img lo hi Hwf Hs) as [[n Hn]|[e Hn]]; [|by eapply Herr].
  destruct (seg_align_eq page_size img law_page law_page_u64 Hwf) as (a & Ha & _).
  specialize (Hfit lo hi n a Hs Hn Ha). rewrite Hby in Hfit. destruct Hfit as [Hne Hr].
  eapply wp_mono; [by apply (load_copied_wp img (o_src o) data lo hi a n s)| |].
  - intros ld s' Hld. split; [by apply copied_placed|apply Hld].
  - intros s' [Hi' [Hv|(raw & _ & Herr' & Hin & Hout)]]; (split; [done|]); [by left|].
    right. exists img, (At raw), raw, n. split; [done|]. split; [|done]. intros x Hx.
    destruct (Hin x Hx) as [? [b ->]]. eauto.
Qed.

Lemma load_image_wp s o data img :
  vm_inv s -> file_ok s o data -> Image_parse (o_src o) page_size = Ok img -> fits s o img ->
  wp (load img (o_src o) (o_fd o)) (fun ld s' => placed img data s ld s' /\ vm_kept s s') (failed s) s.
Proof.
  intros Hi Hf Hp Hfit. unfold load. destruct (o_fd o) as [fd|] eqn:Hofd.
  - destruct can_map_files eqn:Hcan; [by apply (map_image_wp s o)|].
    apply copy_image_wp; try done. unfold by_mapping. by rewrite Hofd.
  - apply copy_image_wp; try done. unfold by_mapping. by rewrite Hofd.
Qed.

(** The byte of a segment at an offset, wherever the image was put. *)
Lemma placed_byte img data s ld s1 ph i :
  placed img data s ld s1 -> ph ∈ load_phdrs img -> 0 <= i < p_memsz ph ->
  snd <$> view s1 (p_vaddr ph + bias (lplan ld) + i) =
  Some (if i <? p_filesz ph then file_byte data (p_offset ph + i) else x00).
Proof.
  intros [Hwf Hok _ _ _ _ _ Hbytes _ _] Hph Hi.
  destruct (seg_inside img (lplan ld) Hwf Hok ph Hph) as (H1 & H2 & H3 & H4 & H5 & H6 & H7).
  rewrite (Hbytes ph) by (done || (unfold in_data, vend in *; lia)).
  unfold seg_byte, seg_fend. f_equal.
  destruct (Z.ltb_spec i (p_filesz ph)).
  - rewrite (proj2 (Z.ltb_lt 0 _)), (proj2 (Z.ltb_lt _ _)) by lia. cbn [andb]. f_equal. lia.
  - rewrite (proj2 (Z.ltb_ge (_ + i) _)) by lia. by rewrite andb_false_r.
Qed.

(** C16. Both ways of loading show the same: whether an image was mapped or
    copied, from whichever source and wherever it ended up, every byte of every
    segment is the same -- the file's up to the end of its data, zero from there to
    the end of the segment. *)
Theorem load_paths_agree img data o1 s1 ld1 s1' o2 s2 ld2 s2' :
  vm_inv s1 -> file_ok s1 o1 data -> Image_parse (o_src o1) page_size = Ok img -> fits s1 o1 img ->
  load img (o_src o1) (o_fd o1) s1 = (Ok ld1, s1') ->
  vm_inv s2 -> file_ok s2 o2 data -> fits s2 o2 img -> load img (o_src o2) (o_fd o2) s2 = (Ok ld2, s2') ->
  forall ph i, ph ∈ load_phdrs img -> 0 <= i < p_memsz ph ->
    snd <$> view s1' (p_vaddr ph + bias (lplan ld1) + i) =
      Some (if i <? p_filesz ph then file_byte data (p_offset ph + i) else x00) /\
    snd <$> view s2' (p_vaddr ph + bias (lplan ld2) + i) = snd <$> view s1' (p_vaddr ph + bias (lplan ld1) + i).
Proof.
  intros Hi1 Hf1 Hp Hfit1 Hl1 Hi2 Hf2 Hfit2 Hl2 ph i Hph Hi.
  assert (Hp2 : Image_parse (o_src o2) page_size = Ok img).
  { rewrite <- Hp. destruct Hf1 as [? Hs1 _], Hf2 as [? Hs2 _]. apply (parse_same_bytes _ _ data); [done|done|congruence]. }
  pose proof (load_image_wp s1 o1 data img Hi1 Hf1 Hp Hfit1) as W1. unfold wp in W1. rewrite Hl1 in W1.
  pose proof (load_image_wp s2 o2 data img Hi2 Hf2 Hp2 Hfit2) as W2. unfold wp in W2. rewrite Hl2 in W2.
  destruct W1 as [P1 _], W2 as [P2 _].
  rewrite (placed_byte img data s1 ld1 s1'), (placed_byte img data s2 ld2 s2') by done. done.
Qed.

(** What an image holds is still there in a later state: its block, if it was
    copied. *)
Definition holds_on (ld : Loaded) (s : S) : Prop :=
  allocated ld = true -> block s (reserve_addr (lplan ld)) (reserve_len (lplan ld)).

Lemma placed_holds img data s ld s1 s2 : placed img data s ld s1 -> vm_held s1 s2 -> holds_on ld s2.
Proof. intros [_ _ _ _ Hrel _ _ _ _ _] [_ Hk] Hal. rewrite Hal in Hrel. by apply Hk, Hrel. Qed.

(** Unloading an image from a later state takes back its range and no block but
    its own. *)
Lemma unload_wp img data s ld s1 s2 :
  placed img data s ld s1 -> vm_inv s2 -> holds_on ld s2 ->
  exists s3, unload ld s2 = (Ok tt, s3) /\ vm_inv s3 /\ vm_kept s2 s3 /\
    (forall b bl, block s2 b bl -> (allocated ld = true -> b <> reserve_addr (lplan ld)) -> block s3 b bl) /\
    forall x, view s3 x =
      if decide (within (reserve_addr (lplan ld)) (reserve_len (lplan ld)) x) then None else view s2 x.
Proof.
  intros [_ Hok Hlen _ Hrel _ _ _ _ _] Hi2 Hh. unfold unload, ignore, holds_on in *.
  destruct (po_bounds _ _ _ Hok) as [[? ?] ?]. pose proof (po_room _ _ _ Hok).
  destruct (allocated ld).
  - assert (Hun : wp (vm_free_aligned (reserve_addr (lplan ld)) (reserve_len (lplan ld))) _ _ s2)
      by (apply law_free; try done; try apply Hok; auto).
    unfold wp in Hun. destruct (vm_free_aligned _ _ s2) as [[[]|e|] s3]; [|done|done].
    exists s3. destruct Hun as ([? Hk] & ? & _ & ?). split_and!; auto.
  - assert (Hun : wp (vm_unmap (reserve_addr (lplan ld)) (reserve_len (lplan ld))) _ _ s2)
      by (apply law_unmap; try done; apply Hok).
    unfold wp in Hun. destruct (vm_unmap _ _ s2) as [[[]|e|] s3]; [|done|done].
    exists s3. destruct Hun as ([[? Hk] ?] & _ & ?). split_and!; auto.
Qed.

(** ** A program *)

(** A block that owns a value. *)
Lemma wp_scoped {A} (d : S -> S) (m : stM Error S A) P Q s :
  wp m (fun a s' => P a (d s')) (fun s' => Q (d s')) s -> wp (scoped d m) P Q s.
Proof. unfold wp, scoped. by destruct (m s) as [[] ?]. Qed.

(** Dropping what was opened leaves the address space alone. *)
Definition droppable (o : Opened S) : Prop := forall s, vm_inv s -> vm_held s (o_drop o s) /\ same_view s (o_drop o s).

(** Opening a file: no address changes, and what was opened can be dropped, which
    gives back what opening took. *)
Definition opens (m : stM Error S (Opened S)) (s : S) : Prop :=
  wp m (fun o s' => (vm_held s s' /\ same_view s s') /\ (exists data, file_ok s' o data) /\ droppable o /\
          forall s2, vm_inv s2 -> vm_kept s' s2 -> vm_kept s (o_drop o s2))
    (fun s' => vm_step s s' /\ same_view s s') s.

(** No slice is longer than this. *)
Definition short (p : list byte) : Prop := Z.of_nat (length p) < 2 ^ 63.

Variables (path : list byte) (s0 : S).
Hypothesis inv0 : vm_inv s0.
Hypothesis path_short : short path.
Hypothesis open_ok : forall p s, vm_inv s -> short p -> opens (open p) s.
Hypothesis main_fits : forall o sa img,
  open path s0 = (Ok o, sa) -> Image_parse (o_src o) page_size = Ok img -> fits sa o img.
Hypothesis interp_fits : forall o sa img ld s1 p oi sb ii,
  open path s0 = (Ok o, sa) -> Image_parse (o_src o) page_size = Ok img ->
  interp_path img (o_src o) = Ok p -> load img (o_src o) (o_fd o) sa = (Ok ld, s1) -> vm_inv s1 -> short p ->
  open p s1 = (Ok oi, sb) -> Image_parse (o_src oi) page_size = Ok ii -> fits sb oi ii.

(** Opening: a file was opened and the address space is as before, or nothing
    happened. *)
Lemma open_wp p s (P : Opened S -> S -> Prop) (Q : S -> Prop) :
  vm_inv s -> short p ->
  (forall o s' data, open p s = (Ok o, s') -> vm_held s s' -> same_view s s' -> file_ok s' o data ->
     droppable o -> (forall s2, vm_inv s2 -> vm_kept s' s2 -> vm_kept s (o_drop o s2)) -> P o s') ->
  (forall s', failed s s' -> Q s') -> wp (open p) P Q s.
Proof.
  intros Hi Hp HP HQ. pose proof (open_ok p s Hi Hp) as H. unfold opens, wp in *.
  destruct (open p s) as [[o|e|] s'] eqn:Ho; [| |done].
  - destruct H as ([? ?] & [data ?] & ? & ?). eauto.
  - destruct H as [? ?]. apply HQ. split; [done|by left].
Qed.

(** A source that serves a file never panics. *)
Lemma serves_total src data off n :
  serves src data -> u64 off -> (0 < n)%nat -> read_exact_at src off n <> Panic.
Proof. intros Hs H0 Hn. specialize (Hs off n H0 Hn). case_match; [by rewrite Hs|]. by destruct Hs as [e ->]. Qed.

Lemma parse_opened_total s o data : file_ok s o data -> Image_parse (o_src o) page_size <> Panic.
Proof.
  intros [Hsv _ _]. apply (parse_no_panic (o_src o) page_size law_page law_page_u64).
  intros off n. by apply (serves_total _ data).
Qed.

Lemma interp_path_total s o data img :
  file_ok s o data -> Image_parse (o_src o) page_size = Ok img -> interp_path img (o_src o) <> Panic.
Proof.
  intros [Hsv _ _] Hp. unfold interp_path.
  destruct (interp img) as [ph|] eqn:Hi; cbn [ok_or mbind outcome_bind]; [|done].
  destruct (parse_interp_range (o_src o) page_size law_page law_page_u64 img ph Hp Hi) as [[_ _ Hoff _ _ _ _ _] Hsz].
  destruct (negb _); [done|]. apply bind_no_panic; [apply (serves_total _ data); [done|done|lia]|].
  intros buf _. by destruct (position _ buf) as [[|n]|].
Qed.

Lemma interp_path_short s o data img q :
  file_ok s o data -> Image_parse (o_src o) page_size = Ok img -> interp_path img (o_src o) = Ok q -> short q.
Proof.
  intros [Hsv _ _] Hp. unfold interp_path, short.
  intros Hq. apply bind_Ok in Hq as (ph & Hi & H). apply ok_or_Ok in Hi.
  destruct (parse_interp_range (o_src o) page_size law_page law_page_u64 img ph Hp Hi) as [[_ _ Hoff _ _ _ _ _] Hsz].
  destruct (negb _); [done|]. apply bind_Ok in H as (buf & Hbuf & H).
  specialize (Hsv (p_offset ph) (Z.to_nat (p_filesz ph)) Hoff ltac:(lia)).
  destruct (_ <=? _); [|by destruct Hsv as [e He]; rewrite He in Hbuf]. rewrite Hsv in Hbuf. injection Hbuf as <-.
  unfold INTERP_MAX in Hsz. destruct (position _ _) as [[|n]|]; [done| |done]. injection H as <-.
  rewrite !length_take. lia.
Qed.

(** The interpreter beside the program: opened in the state [s1] the program
    left, and loaded from [sb] to [s2]. *)
Record interp_placed (s1 : S) (ip : list byte) (ii : Image) (il : Loaded) (s2 : S) (data : list byte) : Prop := {
  ip_placed : exists o sb, open ip s1 = (Ok o, sb) /\ vm_held s1 sb /\ same_view s1 sb /\ file_ok sb o data /\
    Image_parse (o_src o) page_size = Ok ii /\ placed ii data sb il s2;
  ip_pie : e_type (ehdr ii) = ET_DYN;
  ip_leaf : needs_interp ii = false
}.

Lemma load_interp_wp ip s1 :
  vm_inv s1 -> short ip ->
  (forall oi sb ii, open ip s1 = (Ok oi, sb) -> Image_parse (o_src oi) page_size = Ok ii -> fits sb oi ii) ->
  wp (load_interp ip page_size)
    (fun v s3 => exists data s2, interp_placed s1 ip v.1 v.2 s2 data /\ vm_held s2 s3 /\ same_view s2 s3 /\ vm_kept s1 s3)
    (failed s1) s1.
Proof.
  intros Hi1 Hip Hfit. unfold load_interp. wp_step. apply open_wp; [done|done| |done].
  intros o sb data Ho Hib Hvb Hf Hd Hbr. apply wp_scoped.
  assert (Hfail : forall s, failed sb s -> failed s1 (o_drop o s)).
  { intros s Hfs. pose proof Hfs as [His _]. destruct (Hd s (step_inv _ _ His)).
    eapply failed_between; try done. apply Hbr; eauto with vm. }
  wp_step. apply wp_lift; [by apply map_err_no_panic, (parse_opened_total sb o data)| |
    intros e _; apply Hfail, failed_refl; by eapply held_inv].
  intros ii Hii%map_err_Ok. destruct (Z.eqb_spec (e_type (ehdr ii)) ET_DYN) as [Ht|]; cbn [negb];
    [|apply Hfail, failed_refl; by eapply held_inv].
  destruct (needs_interp ii) eqn:Hn; [apply Hfail, failed_refl; by eapply held_inv|].
  wp_step. eapply wp_mono; [apply (load_image_wp sb o data ii); eauto with vm| |apply Hfail].
  intros il s2 [Hpl Hk]. destruct (Hd s2 (held_inv _ _ (pd_inv _ _ _ _ _ Hpl))) as [Hi3 Hv3]. apply wp_ret.
  exists data, s2. split; [split; [|done|done]; by exists o, sb|]. split; [done|]. split; [done|].
  apply Hbr; [|done]. eapply held_inv, Hpl.
Qed.

(** Taking the program down after its interpreter failed. *)
Lemma unload_after img data sa ld s1 s2 :
  placed img data sa ld s1 -> vm_kept sa s1 -> failed s1 s2 -> wp (unload ld) (fun _ => failed sa) (failed sa) s2.
Proof.
  intros Hpl Hkept [Hi2 Hf].
  destruct (unload_wp img data sa ld s1 s2 Hpl (step_inv _ _ Hi2) (placed_holds _ _ _ _ _ _ Hpl (step_held _ _ Hi2)))
    as (s3 & Hun & Hi3 & Hkp3 & Hk3 & Hv3).
  pose proof Hpl as [_ _ _ Hi1 Hrel Hfree Hmap _ _ Hframe].
  unfold wp. rewrite Hun. split; [split; [split; [done|]|]|].
  { intros b bl Hb. apply Hk3; [by apply Hi2, Hi1|]. intros Hal ->. rewrite Hal in Hrel. by apply (proj2 Hrel bl). }
  { etrans; [done|]. etrans; [by apply step_kept|done]. }
  destruct Hf as [Hv|(i & p & a & len & Hplan & Hno & Hv)].
  - left. intros x. rewrite Hv3, Hv. case_decide; [by rewrite Hfree|by apply Hframe].
  - right. exists i, p, a, len. split; [done|].
    assert (Hout : forall x, within a len x -> ~ within (reserve_addr (lplan ld)) (reserve_len (lplan ld)) x).
    { intros x Hx Hin. destruct (Hmap x Hin) as [c Hc]. destruct (Hno x Hx). congruence. }
    split; intros x Hx.
    + destruct (Hno x Hx). rewrite <- (Hframe x), Hv3, decide_False by auto. auto.
    + rewrite Hv3, Hv by done. case_decide; [by rewrite Hfree|by apply Hframe].
Qed.

Record main_placed (p : LoadedProgram) (data : list byte) (s1 : S) : Prop := {
  mp_parsed : exists o sa, open path s0 = (Ok o, sa) /\ vm_held s0 sa /\ same_view s0 sa /\ file_ok sa o data /\
    Image_parse (o_src o) page_size = Ok (image p) /\
    match interp_name p with
    | Some ip => interp_path (image p) (o_src o) = Ok ip
    | None => needs_interp (image p) = false
    end;
  mp_stack : exec_stack (image p) = false;
  mp_placed : placed (image p) data s0 (main p) s1
}.

(** A loaded program: the main image in the state [s1], and the interpreter,
    where one is named, loaded after it. *)
Definition program_ok (p : LoadedProgram) (s : S) : Prop :=
  vm_kept s0 s /\
  exists data s1, main_placed p data s1 /\
  match interp_image p with
  | None => interp_name p = None /\ vm_held s1 s /\ same_view s1 s
  | Some (ii, il) => exists ip di s2, interp_name p = Some ip /\ interp_placed s1 ip ii il s2 di /\
      vm_held s2 s /\ same_view s2 s
  end.

(** Everything a loaded program went through keeps blocks, and the invariant. *)
Lemma program_ok_step p s : program_ok p s -> vm_step s0 s.
Proof.
  intros (Hk & data & s1 & [_ _ [_ _ _ H1 _ _ _ _ _ _]] & Hi). split; [|done]. destruct (interp_image p) as [[ii il]|].
  - destruct Hi as (ip & di & s2 & _ & [(o & sb & _ & H2 & _ & _ & _ & [_ _ _ H3 _ _ _ _ _ _]) _ _] & H4 & _).
    eauto using held_trans.
  - destruct Hi as (_ & H2 & _). eauto with vm.
Qed.

Lemma report_main_total img data sa ld s1 : placed img data sa ld s1 -> report_main img ld = Ok tt.
Proof.
  intros [Hwf Hok _ _ _ _ _ _ _ _]. destruct (po_bounds _ _ _ Hok). unfold report_main.
  rewrite sub64_small by lia. cbn [mbind outcome_bind].
  by destruct (entry_executable page_size img (lplan ld) law_page Hwf Hok) as (b & -> & _).
Qed.

Lemma interp_name_wp sa o data img (P : option (list byte) -> S -> Prop) (Q : S -> Prop) :
  file_ok sa o data -> Image_parse (o_src o) page_size = Ok img -> Q sa ->
  (forall ip, match ip with
              | Some q => interp_path img (o_src o) = Ok q
              | None => needs_interp img = false
              end -> P ip sa) ->
  wp (if needs_interp img then q ← lift (interp_path img (o_src o)); mret (Some q) else mret None) P Q sa.
Proof.
  intros Hf Hp HQ HP. destruct (needs_interp img) eqn:Hn; [|by apply wp_ret, HP].
  wp_step. apply wp_lift; [by apply (interp_path_total sa o data)| |done].
  intros q Hq. by apply wp_ret, HP.
Qed.

(** The same placement, seen from a state that shows the same. *)
Lemma placed_from img data s sa ld s1 :
  vm_held s sa -> same_view s sa -> placed img data sa ld s1 -> placed img data s ld s1.
Proof.
  intros Hs Hv [H1 H2 H3 H4 H5 H6 H7 H8 H9 H10].
  split; try done; [eauto with vm| |intros x Hx; rewrite <- Hv; auto|intros x Hx; rewrite <- Hv; auto].
  destruct (allocated ld); [|done]. destruct H5 as [? Hn]. split; [done|].
  intros bl Hb. apply (Hn bl). by apply Hs.
Qed.

Lemma load_program_wp : wp (load_program path) program_ok (failed s0) s0.
Proof.
  unfold load_program. wp_step. apply open_wp; [done|done| |done].
  intros o sa data Ho Hia Hva Hf Hd Hbr. apply wp_scoped.
  assert (Hfail : forall s, failed sa s -> failed s0 (o_drop o s)).
  { intros s Hfs. pose proof Hfs as [His _]. destruct (Hd s (step_inv _ _ His)).
    eapply failed_between; try done. apply Hbr; eauto with vm. }
  wp_step. apply wp_lift; [by apply map_err_no_panic, (parse_opened_total sa o data)| |
    intros e _; apply Hfail, failed_refl; by eapply held_inv].
  intros img Hp%map_err_Ok. wp_step. unfold check_stack_request.
  destruct (exec_stack img) eqn:Hx; [apply Hfail, failed_refl; by eapply held_inv|]. apply (wp_lift_Ok _ tt); [done|].
  wp_step. apply (interp_name_wp sa o data img); [done|done|apply Hfail, failed_refl; by eapply held_inv|]. intros ip Hip.
  wp_step. unfold wp at 1.
  pose proof (load_image_wp sa o data img (held_inv _ _ Hia) Hf Hp (main_fits o sa img Ho Hp)) as Hload.
  unfold wp in Hload. destruct (load img (o_src o) (o_fd o) sa) as [[ld|e|] s1] eqn:Hrun; [|by apply Hfail|done].
  destruct Hload as [Hload Hk1]. pose proof (held_inv _ _ (pd_inv _ _ _ _ _ Hload)) as Hi1.
  wp_step. apply (wp_lift_Ok _ tt); [by apply (report_main_total img data sa ld s1)|].
  assert (Hmain : forall ii, main_placed (MkProgram img ld ii ip) data s1).
  { intros ii. split; cbn [image interp_name main]; [|done|by apply (placed_from img data s0 sa)]. by exists o, sa. }
  wp_step. destruct ip as [q|].
  - wp_step. apply wp_on_err. eapply wp_mono; [apply (load_interp_wp q s1); [done|by apply (interp_path_short sa o data img)|]| |].
    + intros oi sb ii Hoi Hii. apply (interp_fits o sa img ld s1 q oi sb ii); try done.
      by apply (interp_path_short sa o data img).
    + intros [ii il] s3 (di & s2 & Hdi & Hi3 & Hv3 & Hk3). apply wp_ret, wp_ret.
      destruct (Hd s3 (held_inv _ _ Hi3)) as [Hi4 Hv4].
      split; [apply Hbr; [eauto with vm|by etrans]|]. exists data, s1. split; [done|].
      exists q, di, s2. split; [done|]. split; [done|]. split; [eauto with vm|by etrans].
    + intros s2 Hfs. eapply wp_mono; [by apply (unload_after img data sa ld s1 s2)|intros ? s3; apply Hfail|apply Hfail].
  - apply wp_ret, wp_ret. destruct (Hd s1 Hi1) as [Hi4 Hv4]. split; [by apply Hbr|]. by exists data, s1.
Qed.


(** ** What a loaded program looks like *)

Lemma loaded_program p s : load_program path s0 = (Ok p, s) -> program_ok p s.
Proof. intros H. pose proof load_program_wp as Hwp. unfold wp in Hwp. by rewrite H in Hwp. Qed.

(** The two reservations do not meet. *)
Lemma interp_apart img data ld s1 ip ii di il s2 x :
  placed img data s0 ld s1 -> interp_placed s1 ip ii il s2 di ->
  within (reserve_addr (lplan ld)) (reserve_len (lplan ld)) x ->
  ~ within (reserve_addr (lplan il)) (reserve_len (lplan il)) x.
Proof.
  intros [_ _ _ _ _ _ Hmap _ _ _] [(o & sb & _ & _ & Hv & _ & _ & [_ _ _ _ _ Hfree _ _ _ _]) _ _] Hx Hin.
  destruct (Hmap x Hx) as [c Hc]. specialize (Hfree x Hin). rewrite Hv in Hfree. congruence.
Qed.

(** Outside its own reservation an interpreter changes nothing. *)
Lemma interp_frame s1 ip ii il s2 di x :
  interp_placed s1 ip ii il s2 di -> ~ within (reserve_addr (lplan il)) (reserve_len (lplan il)) x ->
  view s2 x = view s1 x.
Proof. intros [(o & sb & _ & _ & Hv & _ & _ & Hpl) _ _] Hx. by rewrite (pd_frame _ _ _ _ _ Hpl) by done. Qed.

(** What the main image shows survives the loading of the interpreter. *)
Lemma main_persists p s :
  program_ok p s -> exists data s1, main_placed p data s1 /\
    forall x, within (reserve_addr (lplan (main p))) (reserve_len (lplan (main p))) x -> view s x = view s1 x.
Proof.
  intros (_ & data & s1 & Hm & Hi). exists data, s1. split; [done|]. intros x Hx.
  destruct (interp_image p) as [[ii il]|].
  - destruct Hi as (ip & di & s2 & _ & Hpl & _ & Hv). rewrite Hv. apply (interp_frame s1 ip ii il s2 di); [done|].
    eapply interp_apart; [apply Hm|exact Hpl|exact Hx].
  - destruct Hi as (_ & _ & Hv). apply Hv.
Qed.

(** An image shows its file: every segment its bytes, and where it is mapped its
    protection. *)
Definition shows (s : S) (img : Image) (data : list byte) (ld : Loaded) : Prop :=
  forall ph x, ph ∈ load_phdrs img ->
    (in_data (lplan ld) ph x -> snd <$> view s x = Some (seg_byte (lplan ld) data ph x)) /\
    (allocated ld = false -> in_seg (lplan ld) ph x ->
     view s x = Some (prot_of ph, seg_byte (lplan ld) data ph x)).

Lemma placed_shows img data s ld s1 s2 :
  placed img data s ld s1 ->
  (forall x, within (reserve_addr (lplan ld)) (reserve_len (lplan ld)) x -> view s2 x = view s1 x) ->
  shows s2 img data ld.
Proof.
  intros [Hwf Hok _ _ _ _ _ Hbytes Hprot _] Hv ph x Hph. split.
  - intros Hx. rewrite Hv; [auto|].
    destruct (seg_inside img (lplan ld) Hwf Hok ph Hph) as (? & ? & ? & ? & ? & ? & ?).
    unfold in_data, within in *. lia.
  - intros Hal Hx. rewrite Hv; [auto|]. by apply (in_seg_reserve img (lplan ld) Hok ph).
Qed.

Lemma main_shows p s : program_ok p s -> exists data s1, main_placed p data s1 /\ shows s (image p) data (main p).
Proof.
  intros Hp. destruct (main_persists p s Hp) as (data & s1 & Hm & Hv). exists data, s1. split; [done|].
  by apply (placed_shows _ _ s0 _ s1); [apply Hm|].
Qed.

(** Both images show their files, also in a later state that agrees on their
    addresses. *)
Definition program_shows (p : LoadedProgram) (s : S) : Prop :=
  (exists data o sa, open path s0 = (Ok o, sa) /\ file_ok sa o data /\
     Image_parse (o_src o) page_size = Ok (image p) /\ shows s (image p) data (main p)) /\
  match interp_image p with
  | None => needs_interp (image p) = false
  | Some (ii, il) => exists data ip o s1 sb, interp_name p = Some ip /\ open ip s1 = (Ok o, sb) /\ file_ok sb o data /\
      Image_parse (o_src o) page_size = Ok ii /\ shows s ii data il
  end.

(** The addresses a program took. *)
Definition in_image (ld : Loaded) (x : Z) : Prop := within (reserve_addr (lplan ld)) (reserve_len (lplan ld)) x.
Definition in_program (p : LoadedProgram) (x : Z) : Prop :=
  in_image (main p) x \/ match interp_image p with Some (_, il) => in_image il x | None => False end.

#[global] Instance in_program_dec p x : Decision (in_program p x).
Proof. unfold in_program, in_image. destruct (interp_image p) as [[]|]; apply _. Defined.

Lemma program_ok_shows p s s' :
  program_ok p s -> (forall x, in_program p x -> view s' x = view s x) -> program_shows p s'.
Proof.
  intros Hp Hv. destruct (main_persists p s Hp) as (d & s2 & [(o & sa & Ho & _ & _ & Hf & Hi & Hn) _ Hpl] & Hm). split.
  - exists d, o, sa. split_and!; try done. apply (placed_shows _ _ s0 _ s2); [done|].
    intros x Hx. rewrite Hv by (by left). by apply Hm.
  - destruct Hp as (_ & data & s1 & _ & Hint). unfold in_program in Hv. destruct (interp_image p) as [[ii il]|].
    + destruct Hint as (ip & di & s3 & Hip & [(oi & sb & Hoi & _ & _ & Hfi & Hii & Hpi) _ _] & _ & Hsv).
      exists di, ip, oi, s1, sb. split_and!; try done. apply (placed_shows _ _ sb _ s3); [done|].
      intros x Hx. rewrite Hv by (by right). apply Hsv.
    + destruct Hint as (Hno & _). by rewrite Hno in Hn.
Qed.


(** Its addresses were free before, and no other address changed. *)
Lemma program_range p s x : program_ok p s ->
  if decide (in_program p x) then view s0 x = None /\ is_Some (view s x) else view s x = view s0 x.
Proof.
  intros (_ & data & s1 & [_ _ [_ _ _ _ _ Hfree Hmap _ _ Hframe]] & Hi).
  case_decide as Hx; unfold in_program, in_image in Hx; destruct (interp_image p) as [[ii il]|].
  1, 3: destruct Hi as (ip & di & s2 & _ & Hpl & _ & Hv); rewrite Hv;
    pose proof Hpl as [(o & sb & _ & _ & Hvb & _ & _ & [_ _ _ _ _ Hfree2 Hmap2 _ _ Hframe2]) _ _].
  - destruct (decide (within (reserve_addr (lplan il)) (reserve_len (lplan il)) x)) as [Hil|Hil].
    + split; [|auto]. destruct (decide (within (reserve_addr (lplan (main p))) (reserve_len (lplan (main p))) x)).
      { by apply Hfree. }
      rewrite <- Hframe, <- Hvb by done. by apply Hfree2.
    + destruct Hx as [Hx|]; [|done]. split; [by apply Hfree|]. rewrite Hframe2, Hvb by done. by apply Hmap.
  - rewrite Hframe2, Hvb, Hframe by tauto. done.
  - destruct Hi as (_ & _ & Hv). rewrite Hv. destruct Hx as [Hx|[]]; auto.
  - destruct Hi as (_ & _ & Hv). rewrite Hv. apply Hframe. tauto.
Qed.

(** The blocks a program was given, and that it still has them. *)
Definition own_block (p : LoadedProgram) (b : Z) : Prop :=
  allocated (main p) = true /\ b = reserve_addr (lplan (main p)) \/
  match interp_image p with
  | Some (_, il) => allocated il = true /\ b = reserve_addr (lplan il)
  | None => False
  end.
Definition program_holds (p : LoadedProgram) (s : S) : Prop :=
  holds_on (main p) s /\ match interp_image p with Some (_, il) => holds_on il s | None => True end.

Lemma program_ok_holds p s s2 : program_ok p s -> vm_held s s2 -> program_holds p s2.
Proof.
  intros (_ & data & s1 & [_ _ Hm] & Hi) Hs. unfold program_holds. destruct (interp_image p) as [[ii il]|].
  - destruct Hi as (ip & di & si & _ & [(o & sb & _ & Hb & _ & _ & _ & Hpl) _ _] & Hsi & _).
    split; [apply (placed_holds _ _ _ _ _ _ Hm)|apply (placed_holds _ _ _ _ _ _ Hpl)]; [|by eauto with vm].
    pose proof (pd_inv _ _ _ _ _ Hpl). eauto 6 with vm.
  - destruct Hi as (_ & Hs1 & _). split; [|done]. apply (placed_holds _ _ _ _ _ _ Hm). eauto with vm.
Qed.

(** The blocks of a program are in its memory, and were not there before it. *)
Lemma own_block_in p s b : program_ok p s -> own_block p b -> in_program p b.
Proof.
  intros (_ & data & s1 & [_ _ Hm] & Hi) Hb. unfold own_block, in_program, in_image, within in *.
  pose proof (pd_len _ _ _ _ _ Hm). destruct Hb as [[_ ->]|Hb]; [left; lia|right].
  destruct (interp_image p) as [[ii il]|]; [|done]. destruct Hb as [_ ->].
  destruct Hi as (ip & di & si & _ & [(o & sb & _ & _ & _ & _ & _ & Hpl) _ _] & _).
  pose proof (pd_len _ _ _ _ _ Hpl). lia.
Qed.

Lemma own_block_new p s b bl : program_ok p s -> block s0 b bl -> ~ own_block p b.
Proof.
  intros (_ & data & s1 & [_ _ Hm] & Hi) Hb [[Hal ->]|Hown].
  - pose proof (pd_release _ _ _ _ _ Hm) as Hrel. rewrite Hal in Hrel. by apply (proj2 Hrel bl).
  - destruct (interp_image p) as [[ii il]|]; [|done]. destruct Hown as [Hal ->].
    destruct Hi as (ip & di & si & _ & [(o & sb & _ & Hsb & _ & _ & _ & Hpl) _ _] & _).
    pose proof (pd_release _ _ _ _ _ Hpl) as Hrel. rewrite Hal in Hrel. apply (proj2 Hrel bl), Hsb, (pd_inv _ _ _ _ _ Hm), Hb.
Qed.

(** Unloading takes both images down, from any later state in which the program
    still has its blocks, and no block but those. *)
Lemma unload_held p s s2 :
  program_ok p s -> vm_inv s2 -> program_holds p s2 ->
  exists s', program_unload p s2 = (Ok tt, s') /\ vm_inv s' /\ vm_kept s2 s' /\
    (forall b bl, block s2 b bl -> ~ own_block p b -> block s' b bl) /\
    forall x, view s' x = if decide (in_program p x) then None else view s2 x.
Proof.
  intros (_ & data & s1 & [_ _ Hm] & Hi) Hi2 [Hhm Hhi]. unfold program_unload, mbind, stM_bind, own_block.
  destruct (interp_image p) as [[ii il]|] eqn:Hip.
  - destruct Hi as (ip & di & si & _ & Hpl & _). pose proof Hpl as [(o & sb & _ & _ & _ & _ & _ & Hpl2) _ _].
    destruct (unload_wp ii di sb il si s2 Hpl2 Hi2 Hhi) as (s3 & -> & Hi3 & Hkp3 & Hk3 & Hv3).
    assert (Hhm3 : holds_on (main p) s3).
    { intros Hal. apply Hk3; [by apply Hhm|]. intros _ Heq. pose proof (pd_len _ _ _ _ _ Hm). pose proof (pd_len _ _ _ _ _ Hpl2).
      apply (interp_apart _ data (main p) s1 ip ii di il si (reserve_addr (lplan (main p))) Hm Hpl); unfold within; lia. }
    destruct (unload_wp _ data s0 (main p) s1 s3 Hm Hi3 Hhm3) as (s4 & -> & Hi4 & Hkp4 & Hk4 & Hv4).
    exists s4. split; [done|]. split; [done|]. split; [by etrans|]. split; [intros b bl Hb Hno; apply Hk4; [apply Hk3|]; tauto|].
    intros x. rewrite Hv4, Hv3.
    destruct (decide (in_program p x)) as [Hx|Hx]; unfold in_program, in_image in Hx; rewrite Hip in Hx;
      repeat case_decide; try done; tauto.
  - cbn [mret stM_ret]. destruct (unload_wp _ data s0 (main p) s1 s2 Hm Hi2 Hhm) as (s3 & -> & Hi3 & Hkp3 & Hk3 & Hv3).
    exists s3. split_and!; try done; [intros b bl Hb Hno; apply Hk3; tauto|]. intros x. rewrite Hv3.
    destruct (decide (in_program p x)) as [Hx|Hx]; unfold in_program, in_image in Hx; rewrite Hip in Hx;
      repeat case_decide; try done; tauto.
Qed.

Lemma unload_from p s s2 :
  program_ok p s -> vm_held s s2 ->
  exists s', program_unload p s2 = (Ok tt, s') /\ vm_held s0 s' /\ vm_kept s2 s' /\
    forall x, view s' x = if decide (in_program p x) then None else view s2 x.
Proof.
  intros Hp Hs. destruct (unload_held p s s2 Hp (held_inv _ _ Hs) (program_ok_holds p s s2 Hp Hs)) as (s' & Hun & Hi & Hk & Hb & Hv).
  exists s'. split; [done|]. split; [|done]. split; [done|]. intros b bl Hbl. apply Hb; [|by eapply own_block_new].
  apply Hs, (step_held _ _ (program_ok_step p s Hp)), Hbl.
Qed.

Lemma unload_restores p s :
  program_ok p s -> exists s', program_unload p s = (Ok tt, s') /\ vm_step s0 s' /\ same_view s0 s'.
Proof.
  intros Hp. pose proof (program_ok_step p s Hp) as [Hh Hk].
  destruct (unload_from p s s Hp) as (s' & Hun & Hs' & Hk' & Hv); [by eauto with vm|].
  exists s'. split; [done|]. split; [split; [done|by etrans]|]. intros x. rewrite Hv.
  pose proof (program_range p s x Hp) as Hr. case_decide; [by destruct Hr as [-> _]|done].
Qed.

(** C18. Unloading a program, interpreter included, restores every address, and
    gives back no block that was allocated before. *)
Theorem program_unload_restores p s :
  load_program path s0 = (Ok p, s) ->
  exists s', program_unload p s = (Ok tt, s') /\ vm_step s0 s' /\ same_view s0 s'.
Proof. intros Hp%loaded_program. by apply unload_restores. Qed.

(** The table's bytes, at the address of the table in its segment. *)
Lemma table_visible s img data ld ph i :
  Image_wf page_size img -> plan_ok page_size img (lplan ld) -> shows s img data ld ->
  ph ∈ load_phdrs img -> holds_table img ph -> 0 <= i -> e_phoff (ehdr img) + i < fend ph ->
  snd <$> view s (p_vaddr ph + bias (lplan ld) + (e_phoff (ehdr img) - p_offset ph) + i) =
  Some (file_byte data (e_phoff (ehdr img) + i)).
Proof.
  intros Hwf Hok Hsh Hph [Hh1 Hh2] Hi Hlt. unfold fend in *.
  destruct (seg_inside img (lplan ld) Hwf Hok ph Hph) as (H1 & H2 & H3 & H4 & H5 & H6 & H7).
  unfold seg_fend in *. rewrite (proj1 (Hsh ph _ Hph)).
  - unfold seg_byte, seg_fend. rewrite (proj2 (Z.ltb_lt 0 _)) by lia. rewrite (proj2 (Z.ltb_lt _ _)) by lia.
    cbn [andb]. do 2 f_equal. lia.
  - unfold in_data. lia.
Qed.

(** There is always an auxiliary vector. *)
Lemma program_auxv_total p s env : program_ok p s -> exists a, program_auxv p env = Ok a.
Proof.
  intros (_ & data & s1 & [_ _ [Hwf Hok _ _ _ _ _ _ _ _]] & _).
  destruct (phdr_addr_ok page_size (image p) (lplan (main p)) law_page Hwf Hok) as (r & Hr & _).
  unfold program_auxv. rewrite Hr. by eexists.
Qed.

(** What the system contributes to the auxiliary vector fits a word. *)
Record env_u64 (env : Environment) : Prop := {
  eu_pagesz : u64 (env_page_size env);
  eu_uid : u64 (env_uid env);
  eu_gid : u64 (env_gid env);
  eu_hwcap : u64 (env_hwcap env).1 /\ u64 (env_hwcap env).2;
  eu_vdso : match env_sysinfo_ehdr env with Some a => u64 a | None => True end
}.

Lemma placed_words img data sa ld s1 : placed img data sa ld s1 -> u64 (bias (lplan ld)) /\ u64 (Layout.entry (lplan ld)).
Proof.
  intros [Hwf Hok _ _ _ _ _ _ _ _]. destruct (wf_entry _ _ Hwf) as [He _].
  pose proof (po_bias_nonneg _ _ _ Hok). pose proof (po_entry _ _ _ Hok). pose proof (po_entry_u64 _ _ _ Hok).
  unfold u64. lia.
Qed.

Lemma program_aux_u64 p s env a :
  program_ok p s -> env_u64 env -> program_auxv p env = Ok a -> aux_u64 a.
Proof.
  intros (_ & data & s1 & [(o & sa & _ & _ & _ & _ & Hparse & _) _ Hpl] & Hi) [Hps Hu Hg [Hc1 Hc2] Hv] Ha.
  pose proof (parse_ehdr_range (o_src o) page_size law_page law_page_u64 _ Hparse) as [_ _ _ Hn Hs].
  pose proof (placed_words _ _ _ _ _ Hpl) as [Hb He]. pose proof Hpl as [Hwf Hok _ _ _ _ _ _ _ _].
  destruct (po_bounds _ _ _ Hok). pose proof (po_room _ _ _ Hok).
  destruct (phdr_addr_ok page_size (image p) (lplan (main p)) law_page Hwf Hok) as (r & Hr & Hspec).
  unfold program_auxv in Ha. rewrite Hr in Ha. injection Ha as <-.
  split; cbn; try done; try (unfold u64; lia).
  - destruct r as [addr|]; [|done]. unfold u64. lia.
  - unfold interp_base. destruct (interp_image p) as [[ii il]|]; [|done].
    destruct Hi as (ip & di & s2 & _ & [(oi & sb & _ & _ & _ & _ & _ & Hpi) _ _] & _).
    by apply (placed_words _ _ _ _ _ Hpi).
  - unfold min_sig_stack_size. by destruct target_aarch64.
Qed.


End Facts.
