(* ===== verification/ProgramRun.v ===== *)
(** * A program and its interpreter on the model address space

    [FakeFs] of the tests of [rust/src/program.rs], the file system they open
    programs from, and the witnesses of the properties of programs. *)

From Stdlib Require Import Strings.Byte.
From stdpp Require Import base numbers option strings sets list.
From S2P Require Import Prelude Err Elf TestImage ElfFacts Layout LayoutFacts Loader VmSpec LoaderFacts.
From S2P Require Import FakeVm FakeVmFacts FakeRun Auxv AuxvFacts Program ProgramFacts.

(** ** The file system of the tests *)

Record FakeFs : Type := MkFakeFs { files : list (list byte * list byte); mappable : bool }.

Definition FakeFs_new (mappable : bool) : FakeFs := MkFakeFs [] mappable.

(** [FakeFs::add] replaces an entry and, where files can be mapped, installs the
    image under a descriptor. *)
Definition FakeFs_add (path img : list byte) (fd : Z) (fs : FakeFs) (s : State) : FakeFs * State :=
  (MkFakeFs ((path, img) :: filter (fun e => e.1 <> path) (files fs)) (mappable fs),
   if mappable fs then install fd img s else s).

Definition fs_lookup (fs : FakeFs) (path : list byte) : option (list byte) :=
  snd <$> head (filter (fun e => e.1 = path) (files fs)).

(** [FakeFs::open]; the descriptors installed in the model address space are
    found again by content.  The opened source is a copy: dropping it does
    nothing. *)
Definition fakefs_open (fs : FakeFs) : Opener State := fun path s =>
  (data ← ok_or (fs_lookup fs path) ENOENT;
   Ok (MkOpened (slice_source data) (if mappable fs then find_fd data s else None) (fun s => s)), s).

Lemma bt_get_elem {A} (l : list (Z * A)) k v : NoDup l.*1 -> (k, v) ∈ l -> bt_get k l = Some v.
Proof.
  induction l as [|[j w] l IH]; intros Hd Hin; [by apply not_elem_of_nil in Hin|]. cbn in *.
  apply NoDup_cons in Hd as [Hj Hd]. apply elem_of_cons in Hin as [[= -> ->]|Hin]; [by rewrite Z.eqb_refl|].
  destruct (Z.eqb_spec k j) as [->|]; [|by apply IH].
  exfalso. apply Hj, list_elem_of_fmap. by exists (j, v).
Qed.

Lemma find_fd_get data s fd : NoDup (st_files s).*1 -> find_fd data s = Some fd -> bt_get fd (st_files s) = Some data.
Proof.
  intros Hd. unfold find_fd. intros ([k v] & Hh & ->)%fmap_Some.
  apply bt_get_elem; [done|]. apply head_Some_elem_of in Hh. by apply list_elem_of_filter in Hh as [<- Hin].
Qed.

(** The file system satisfies what loading a program asks of an opener. *)
Lemma fakefs_open_ok fs can p s :
  (forall q data, fs_lookup fs q = Some data -> Z.of_nat (length data) < 2 ^ 63) -> fake_inv s ->
  opens (vm:=FakeVm can) (fakefs_open fs p) s.
Proof.
  intros Hsmall Hi. unfold opens, wp, fakefs_open. destruct (fs_lookup fs p) as [data|] eqn:Hl; cbn; [|done].
  split; [done|]. split; [|by split; [intros s1 Hs1|]]. exists data. specialize (Hsmall p data Hl). split; cbn.
  - apply slice_source_serves. lia.
  - done.
  - intros fd Hfd _. destruct (mappable fs); [|done]. apply find_fd_get; [apply Hi|done].
Qed.

(** ** A dynamically linked program *)

Definition prog_path : list byte := [x2f; x70].
Definition ld_path : list byte := [x2f; x69].

(** The text segment holds the headers and the name of the interpreter. *)
Definition prog_bytes : list byte := Eval vm_compute in
  let interp := MkPhdr PT_INTERP PF_R 0xe8 0xe8 0xe8 3 3 1 in
  let b := builder_new (target:=x86_target) in
  tiny (target:=x86_target)
    (MkBuilder (eb_type b) (eb_machine b) 0x10
       (interp :: [ load_seg (Z.lor PF_R PF_X) 0 0 0xf0 0xf0 0x1000;
                    load_seg (Z.lor PF_R PF_W) 0xe0 0x10e0 0x10 0x800 0x1000 ])
       [(0xe8, ld_path)] [] None false) 240.

Definition prog_img : Image := Eval vm_compute in parsed prog_bytes.

Definition world0 : FakeFs * State :=
  let '(fs, s) := FakeFs_add ld_path mini_bytes 3 (FakeFs_new true) fake_new in
  FakeFs_add prog_path prog_bytes 4 fs s.
Definition fs0 : FakeFs := world0.1.
Definition vm0 : State := world0.2.

#[local] Instance fvm : Vm State := FakeVm true.
#[local] Instance fheap : Heap := plenty.
#[local] Instance ftarget : Target := x86_target.
#[local] Instance fopen : Opener State := fakefs_open fs0.

Lemma prog_parses : Image_parse (slice_source prog_bytes) 4096 = Ok prog_img.
Proof. vm_compute. reflexivity. Qed.

Abbreviation prog_run := (load_program prog_path vm0).
Definition prog_s : State := prog_run.2.

Lemma prog_run_test :
  match prog_run.1 with
  | Ok p => bool_decide (interp_name p = Some ld_path) &&
            match interp_image p with Some (_, l) => program_entry p =? Layout.entry (lplan l) | None => false end
  | _ => false
  end = true.
Proof. vm_compute. reflexivity. Qed.

(** *** The hypotheses of the properties, for this file system *)

Lemma fs0_lookup p data :
  fs_lookup fs0 p = Some data -> (p = prog_path /\ data = prog_bytes) \/ (p = ld_path /\ data = mini_bytes).
Proof.
  unfold fs_lookup. change (files fs0) with [(prog_path, prog_bytes); (ld_path, mini_bytes)].
  rewrite !filter_cons, filter_nil. cbn [fst].
  destruct (decide (prog_path = p)) as [<-|Hp]; [cbn; intros [= <-]; by left|].
  destruct (decide (ld_path = p)) as [<-|Hl]; [cbn; intros [= <-]; by right|done].
Qed.

(** What can be opened, in a state that has the files of [vm0]. *)
Lemma open_cases p s o s' : st_files s = st_files vm0 -> open p s = (Ok o, s') ->
  s' = s /\
  ((p = prog_path /\ o = MkOpened (slice_source prog_bytes) (Some 4) (fun s => s)) \/
   (p = ld_path /\ o = MkOpened (slice_source mini_bytes) (Some 3) (fun s => s))).
Proof.
  assert (H4 : find_fd prog_bytes vm0 = Some 4) by (vm_compute; reflexivity).
  assert (H3 : find_fd mini_bytes vm0 = Some 3) by (vm_compute; reflexivity).
  intros Hfiles. unfold open, fopen, fakefs_open. unfold find_fd in *. rewrite Hfiles.
  destruct (fs_lookup fs0 p) as [data|] eqn:Hl; [|done]. cbn [ok_or mbind outcome_bind].
  change (mappable fs0) with true. cbn match.
  apply fs0_lookup in Hl as [[-> ->]|[-> ->]]; [rewrite H4|rewrite H3]; intros [= <- <-]; auto.
Qed.

Lemma open_ok0 p s : vm_inv s -> short p ->
  opens (open p) s.
Proof.
  intros Hi _. apply (fakefs_open_ok fs0 true); [|done]. intros q data [[_ ->]|[_ ->]]%fs0_lookup; done.
Qed.

Lemma vm0_inv : vm_inv vm0.
Proof.
  split; [split; constructor|done|by exists 0x10000|]. split; [vm_compute; by repeat constructor; set_solver|].
  intros fd d. change (st_files vm0) with [(3, mini_bytes); (4, prog_bytes)]. cbn [bt_get].
  destruct (fd =? 3); [by intros [= <-]|]. destruct (fd =? 4); [by intros [= <-]|done].
Qed.

(** Both images fit wherever 12 KiB can be mapped. *)
Lemma both_fit s p o s' img :
  st_files s = st_files vm0 -> fake_room s 0x2000 -> fake_room s 0x3000 -> open p s = (Ok o, s') ->
  Image_parse (o_src o) page_size = Ok img -> fits s' o img.
Proof.
  intros Hfiles H2 H3 Ho. apply open_cases in Ho as [-> Ho]; [|done]. intros Himg lo hi n a Hs Hn _.
  destruct Ho as [[_ ->]|[_ ->]]; cbn [o_src] in Himg; change page_size with 4096 in *; cbn [by_mapping o_fd].
  - rewrite prog_parses in Himg. injection Himg as <-.
    change (va_span prog_img 4096) with (Ok (E:=Error) (0, 0x2000)) in Hs.
    change (reservation_len prog_img 4096) with (Ok (E:=Error) 0x2000) in Hn.
    injection Hs as <- <-. injection Hn as <-. done.
  - unfold fheap, ftarget in Himg. rewrite mini_parses in Himg. injection Himg as <-.
    change (va_span mini_img 4096) with (Ok (E:=Error) (0, 0x3000)) in Hs.
    change (reservation_len mini_img 4096) with (Ok (E:=Error) 0x3000) in Hn.
    injection Hs as <- <-. injection Hn as <-. done.
Qed.

Abbreviation main_run := (load prog_img (slice_source prog_bytes) (Some 4) vm0).
Definition main_s1 : State := main_run.2.

Lemma main_s1_room len : len = 0x2000 \/ len = 0x3000 -> fake_room main_s1 len.
Proof.
  intros Hlen.
  assert (Hb : forallb (fun e => e.1 + r_len e.2 + 0x3000 <? 2 ^ 64) (st_regions main_s1) = true)
    by (vm_compute; reflexivity).
  assert (Hs : st_base main_s1 + 0x3000 < 2 ^ 64) by (vm_compute; reflexivity).
  split; [lia|]. split; [lia|]. intros e He. rewrite forallb_forall in Hb.
  specialize (Hb e). rewrite <- list_elem_of_In, Z.ltb_lt in Hb. specialize (Hb He). lia.
Qed.

Lemma vm0_room len : len < 2 ^ 60 -> fake_room vm0 len.
Proof. intros Hl. split; [lia|]. split; [cbn; lia|]. intros e He. by apply not_elem_of_nil in He. Qed.

Lemma main_fits0 o sa img :
  open prog_path vm0 = (Ok o, sa) -> Image_parse (o_src o) page_size = Ok img -> fits sa o img.
Proof. apply both_fit; [done|by apply vm0_room|by apply vm0_room]. Qed.

Lemma interp_fits0 o sa img ld s1 p oi sb ii :
  open prog_path vm0 = (Ok o, sa) -> Image_parse (o_src o) page_size = Ok img ->
  interp_path img (o_src o) = Ok p -> load img (o_src o) (o_fd o) sa = (Ok ld, s1) -> vm_inv s1 -> short p ->
  open p s1 = (Ok oi, sb) -> Image_parse (o_src oi) page_size = Ok ii -> fits sb oi ii.
Proof.
  intros Ho. apply open_cases in Ho as [-> [[_ ->]|[? _]]]; [|done|done]. intros Himg _ Hld _ _. cbn [o_src o_fd] in *.
  change page_size with 4096 in Himg. rewrite prog_parses in Himg. injection Himg as <-.
  assert (Hs : s1 = main_s1) by (unfold main_s1; by rewrite Hld). rewrite Hs.
  apply both_fit; [by vm_compute|apply main_s1_room; auto|apply main_s1_room; auto].
Qed.

(** *** Witnesses *)

Lemma prog_loads : exists p ii il, prog_run = (Ok p, prog_s) /\ interp_image p = Some (ii, il).
Proof.
  pose proof prog_run_test as H. unfold prog_s.
  destruct prog_run as [[p|e|] s]; [|discriminate H|discriminate H]. cbn [fst snd] in *.
  destruct (interp_image p) as [[ii il]|] eqn:Hi; [exists p, ii, il; split; [reflexivity|exact Hi]|].
  rewrite andb_false_r in H. discriminate H.
Qed.



Lemma program_unload_restores_witness : exists p s',
  load_program prog_path vm0 = (Ok p, prog_s) /\
  program_unload p prog_s = (Ok tt, s') /\ vm_step vm0 s' /\ same_view vm0 s'.
Proof.
  destruct prog_loads as (p & ii & il & Hrun & Hi).
  destruct (program_unload_restores (vm:=fvm) (laws:=FakeVm_laws true) prog_path vm0 vm0_inv eq_refl open_ok0 main_fits0
    interp_fits0 p prog_s Hrun) as (s' & Hun & Hv).
  exists p, s'. split; [exact Hrun|]. split; [exact Hun|exact Hv].
Defined.


Definition env0 : Environment := MkEnvironment 4096 [] prog_path (replicate 16 x00) 0 0 (0, 0) None.

Lemma env0_u64 : env_u64 env0.
Proof. split; cbn; unfold u64; try split; lia || done. Qed.


(** The same image, mapped from its descriptor and copied from its bytes. *)
Definition by_fd : Opened State := MkOpened (slice_source mini_bytes) (Some 3) (fun s => s).
Definition by_bytes : Opened State := MkOpened (slice_source mini_bytes) None (fun s => s).

Lemma mini_file_ok o : o = by_fd \/ o = by_bytes -> file_ok vm0 o mini_bytes.
Proof. intros [->| ->]; (split; [by apply slice_source_serves|done|]); intros fd; [by intros [= <-]|done]. Qed.

Lemma by_fd_test : match load mini_img (o_src by_fd) (o_fd by_fd) vm0 with (Ok l, _) => negb (allocated l) | _ => false end = true.
Proof. vm_compute. reflexivity. Qed.
Lemma by_bytes_test : match load mini_img (o_src by_bytes) (o_fd by_bytes) vm0 with (Ok l, _) => allocated l | _ => false end = true.
Proof. vm_compute. reflexivity. Qed.

Lemma load_paths_agree_witness : exists ld1 s1 ld2 s2,
  load mini_img (o_src by_fd) (o_fd by_fd) vm0 = (Ok ld1, s1) /\ allocated ld1 = false /\
  load mini_img (o_src by_bytes) (o_fd by_bytes) vm0 = (Ok ld2, s2) /\ allocated ld2 = true /\
  forall ph i, ph ∈ load_phdrs mini_img -> 0 <= i < p_memsz ph ->
    snd <$> view s2 (p_vaddr ph + bias (lplan ld2) + i) = snd <$> view s1 (p_vaddr ph + bias (lplan ld1) + i).
Proof.
  pose proof by_fd_test as T1. pose proof by_bytes_test as T2.
  destruct (load mini_img (o_src by_fd) (o_fd by_fd) vm0) as [[ld1|e|] s1] eqn:H1; [|discriminate T1|discriminate T1].
  destruct (load mini_img (o_src by_bytes) (o_fd by_bytes) vm0) as [[ld2|e|] s2] eqn:H2; [|discriminate T2|discriminate T2].
  apply negb_true_iff in T1. exists ld1, s1, ld2, s2.
  split; [reflexivity|]. split; [exact T1|]. split; [reflexivity|]. split; [exact T2|].
  intros ph i Hph Hi.
  refine (proj2 (load_paths_agree (vm:=fvm) (laws:=FakeVm_laws true) mini_img mini_bytes by_fd vm0 ld1 s1 by_bytes vm0
    ld2 s2 vm0_inv (mini_file_ok _ (or_introl eq_refl)) mini_parses _ H1 vm0_inv
    (mini_file_ok _ (or_intror eq_refl)) _ H2 ph i Hph Hi)); intros lo hi n a Hs Hn Ha.
  - change (va_span mini_img 4096) with (Ok (E:=Error) (0, 0x3000)) in Hs.
    change (reservation_len mini_img 4096) with (Ok (E:=Error) 0x3000) in Hn.
    injection Hs as <- <-. injection Hn as <-. split; [done|]. split; by apply vm0_room.
  - change (reservation_len mini_img 4096) with (Ok (E:=Error) 0x3000) in Hn.
    change (seg_align mini_img 4096) with (Ok (E:=Error) 4096) in Ha. injection Hn as <-. injection Ha as <-. split.
    + intros q Hq. unfold load_phdrs in Hq. cbn in Hq.
      repeat (apply elem_of_cons in Hq as [->|Hq]; [by vm_compute|]). exact (False_ind _ (not_elem_of_nil _ Hq)).
    + split; [done|]. split; [done|]. split; [done|]. split; [by vm_compute|].
      intros e He. exact (False_ind _ (not_elem_of_nil _ He)).
Defined.
