(* ===== verification/ProgramTotal.v ===== *)
(** * Programs load on the model address space

    Where no call fails for lack of room, loading a program never fails either: a
    position-independent program whose file is there, with an interpreter that is
    there too if it asks for one, is loaded -- both images -- by [load_program]. *)

From Stdlib Require Import Strings.Byte.
From stdpp Require Import base numbers option strings sets list.
From S2P Require Import Prelude Err Elf ElfFacts TestImage Layout LayoutFacts Loader VmSpec LoaderFacts FakeVm FakeVmFacts FakeRun.
From S2P Require Import Auxv Program ProgramFacts ProgramRun.

Section Total.
Context {heap : Heap} {target : Target} (fs : FakeFs).

#[local] Instance tvm : Vm State := FakeVm true.
#[local] Instance tlaws : VmLaws State := FakeVm_laws true.
#[local] Instance topen : Opener State := fakefs_open fs.

Hypothesis maps : mappable fs = true.
Hypothesis small_files : forall q data, fs_lookup fs q = Some data -> Z.of_nat (length data) < 2 ^ 63.

(** A file at [path] with an image that can be loaded in [s]: it has a descriptor,
    is position independent and linked at zero with its entry point inside, and
    there is memory for the plan and address space for the image. *)
Record loadable (s : State) (path data : list byte) (img : Image) : Prop := {
  ld_file : fs_lookup fs path = Some data;
  ld_fd : is_Some (find_fd data s);
  ld_parse : Image_parse (slice_source data) fake_page = Ok img;
  ld_pie : e_type (ehdr img) = ET_DYN;
  ld_granted : try_reserve (Z.of_nat (length (loads img))) = true;
  ld_room : exists hi n, va_span img fake_page = Ok (0, hi) /\ 0 < hi /\ e_entry (ehdr img) < hi /\
    reservation_len img fake_page = Ok n /\ fake_room s n /\ fake_room s hi
}.

Definition opened_as (data : list byte) (fd : Z) : Opened State := MkOpened (slice_source data) (Some fd) (fun s => s).

Lemma open_loadable s path data img : loadable s path data img ->
  exists fd, open path s = (Ok (opened_as data fd), s) /\ find_fd data s = Some fd.
Proof.
  intros [Hf [fd Hfd] _ _ _ _]. exists fd. split; [|done]. unfold open, topen, fakefs_open, opened_as. rewrite Hf.
  cbn [ok_or mbind outcome_bind]. by rewrite maps, Hfd.
Qed.

Lemma opened_fits s path data img fd : loadable s path data img -> fits s (opened_as data fd) img.
Proof.
  intros [_ _ _ _ _ (hi & n & Hs & Hpos & _ & Hn & Hr1 & Hr2)] lo' hi' n' a Hs' Hn' _. cbn.
  change (page_size (Vm:=tvm)) with fake_page in *. rewrite Hs in Hs'. rewrite Hn in Hn'. injection Hs' as <- <-. injection Hn' as <-.
  rewrite Z.sub_0_r. done.
Qed.

Lemma opened_file_ok s path data img fd :
  fake_inv s -> loadable s path data img -> find_fd data s = Some fd -> file_ok s (opened_as data fd) data.
Proof.
  intros Hi Hl Hfd. pose proof (small_files _ _ (ld_file _ _ _ _ Hl)). split; cbn.
  - apply slice_source_serves. lia.
  - done.
  - intros fd' [= <-] _. apply find_fd_get; [apply Hi|done].
Qed.

(** One image. *)
Lemma load_loadable s path data img fd :
  fake_inv s -> loadable s path data img -> find_fd data s = Some fd ->
  exists ld s1, load img (slice_source data) (Some fd) s = (Ok ld, s1) /\ placed img data s ld s1.
Proof.
  intros Hi Hl Hfd. pose proof Hl as [_ _ Hp Hpie Hgr (hi & n & Hs & Hpos & Hent & Hn & Hr1 & Hr2)].
  pose proof (opened_file_ok s path data img fd Hi Hl Hfd) as Hok.
  assert (Hwf : Image_wf fake_page img) by (by eapply parse_wf).
  assert (Hcov : file_covers img data).
  { intros ph Hph _. by apply (parse_in_file (slice_source data) fake_page eq_refl eq_refl img). }
  destruct (fake_load_ok img fd data hi n s Hwf Hi (fo_data _ _ _ Hok fd eq_refl eq_refl) Hcov Hs Hpos Hn Hr1 Hr2 Hpie Hent Hgr)
    as (ld & s1 & Hrun & _).
  pose proof (load_image_wp s (opened_as data fd) data img Hi Hok Hp (opened_fits s path data img fd Hl)) as Hwp.
  assert (Hload : load img (slice_source data) (Some fd) s = (Ok ld, s1)) by exact Hrun.
  unfold wp in Hwp. cbn [o_src o_fd opened_as] in Hwp. rewrite Hload in Hwp. exists ld, s1. split; [exact Hload|apply Hwp].
Qed.

(** What an interpreter has to be. *)
Definition interp_loadable (s : State) (ip : list byte) : Prop :=
  exists data img, loadable s ip data img /\ needs_interp img = false.

Lemma load_interp_loadable s ip :
  fake_inv s -> interp_loadable s ip -> exists r s1, load_interp ip fake_page s = (Ok r, s1).
Proof.
  intros Hi (data & img & Hl & Hno). destruct (open_loadable s ip data img Hl) as (fd & Ho & Hfd).
  destruct (load_loadable s ip data img fd Hi Hl Hfd) as (ld & s1 & Hld & _).
  exists (img, ld), s1. unfold load_interp, mbind at 1, stM_bind at 1. rewrite Ho. unfold scoped. cbn [opened_as o_drop o_src o_fd].
  unfold mbind, stM_bind, lift. rewrite (ld_parse _ _ _ _ Hl). cbn [map_err]. rewrite (ld_pie _ _ _ _ Hl), Z.eqb_refl, Hno. cbn [negb].
  by rewrite Hld.
Qed.

Section Program.
Variables (path data : list byte) (img : Image) (s0 : State).
Hypothesis inv0 : fake_inv s0.
Hypothesis path_short : short path.
Hypothesis main_loadable : loadable s0 path data img.
Hypothesis no_exec_stack : exec_stack img = false.
Hypothesis interp_there : needs_interp img = true ->
  exists ip, interp_path img (slice_source data) = Ok ip /\
    forall fd ld s1, find_fd data s0 = Some fd -> load img (slice_source data) (Some fd) s0 = (Ok ld, s1) ->
      interp_loadable s1 ip.

Lemma program_returns : exists p s, load_program path s0 = (Ok p, s) /\ image p = img.
Proof.
  destruct (open_loadable s0 path data img main_loadable) as (fd & Ho & Hfd).
  destruct (load_loadable s0 path data img fd inv0 main_loadable Hfd) as (ld & s1 & Hld & Hpl).
  pose proof (held_inv _ _ (pd_inv _ _ _ _ _ Hpl)) as Hi1.
  unfold load_program, mbind at 1, stM_bind at 1. change (page_size (Vm:=tvm)) with fake_page. rewrite Ho. unfold scoped. cbn [opened_as o_drop o_src o_fd].
  unfold mbind, stM_bind, lift. rewrite (ld_parse _ _ _ _ main_loadable). cbn [map_err]. unfold check_stack_request. rewrite no_exec_stack.
  destruct (needs_interp img) eqn:Hneeds.
  - destruct (interp_there eq_refl) as (ip & Hip & Hil). rewrite Hip. cbn [mret stM_ret]. rewrite Hld.
    rewrite (report_main_total img data s0 ld s1 Hpl). unfold on_err.
    destruct (load_interp_loadable s1 ip Hi1 (Hil fd ld s1 Hfd Hld)) as (r & s2 & Hr).
    rewrite Hr. by eexists _, _.
  - cbn [mret stM_ret]. rewrite Hld, (report_main_total img data s0 ld s1 Hpl). by eexists _, _.
Qed.

End Program.
End Total.


(** ** The program of ProgramRun.v *)

#[local] Instance wheap : Heap := plenty.
#[local] Instance wtarget : Target := x86_target.

Lemma prog_loadable : loadable fs0 vm0 prog_path prog_bytes prog_img.
Proof.
  split; [reflexivity|by eexists; vm_compute|exact prog_parses|reflexivity|reflexivity|].
  exists 0x2000, 0x2000. by split_and!; try apply vm0_room.
Qed.

Lemma ld_loadable fd ld s1 :
  fd = 4 -> load (vm:=FakeVm true) prog_img (slice_source prog_bytes) (Some fd) vm0 = (Ok ld, s1) ->
  interp_loadable fs0 s1 ld_path.
Proof.
  intros -> Hld. assert (Hs : main_s1 = s1) by exact (f_equal snd Hld). rewrite <- Hs.
  exists mini_bytes, mini_img. split; [|reflexivity].
  split; [reflexivity|by eexists; vm_compute|exact mini_parses|reflexivity|reflexivity|].
  exists 0x3000, 0x3000. do 4 (split; [reflexivity|]). split; apply main_s1_room; auto.
Qed.

