(* ===== verification/Sys.v ===== *)
(** * The Unikraft side ([rust/src/sys.rs])

    Strings for C, image sources on files and on memory, the application's stack
    and the address space of the unikernel.  The foreign functions of the shim
    are parameters: classes of the functions each part calls, over the state of
    the machine. *)

From Stdlib Require Import Strings.Byte.
From stdpp Require Import base numbers option strings sets list.
From S2P Require Import Prelude Err Util Elf Loader Auxv Program.

(** ** Configuration *)

(** [struct Cfg]; flags are bytes, [vfsexec_path] is a C string or null. *)
Record Cfg : Type := MkCfg {
  stack_len : Z;
  cfg_page_size : Z;
  cfg_uid : Z;
  cfg_gid : Z;
  have_vfs : Z;
  have_mmap : Z;
  have_vmem : Z;
  have_environ : Z;
  have_random : Z;
  have_pthread : Z;
  vfsexec : Z;
  customappname : Z;
  envpath : Z;
  envpwd : Z;
  execbit : Z;
  cfg_debug : Z;
  vfsexec_path : option (list byte);
  vdso_addr : Z
}.

Definition flag (v : Z) : bool := negb (v =? 0).

(** ** C strings *)

(** A pointer to a C string is null or the memory it points to; [cstr] reads up
    to the first NUL. *)
Fixpoint until_nul (m : list byte) : list byte :=
  match m with
  | [] => []
  | c :: m => if bool_decide (c = x00) then [] else c :: until_nul m
  end.

Definition cstr (p : option (list byte)) : list byte :=
  match p with None => [] | Some m => until_nul m end.

Definition CString_new {heap : Heap} (s : list byte) : Res (list byte) :=
  if bool_decide (x00 ∈ s) then Err EINVAL else
  len ← add64 (Z.of_nat (length s)) 1;
  if negb (try_reserve len) then Err ENOMEM else
  Ok (s ++ [x00]).

(** The value of a call that changes nothing, and a call that returns nothing. *)
Definition gets {S A : Type} (f : S -> A) : stM Error S A := fun s => (Ok (f s), s).
Definition does {S : Type} (f : S -> S) : stM Error S unit := fun s => (Ok tt, f s).

(** ** Files *)

(** The file functions of the shim.  [elfrs_pread fd len off] is the value it
    returns and the bytes it stored. *)
Class Vfs (S : Type) : Type := {
  elfrs_open_ro : list byte -> S -> Z * S;
  elfrs_close : Z -> S -> S;
  elfrs_fsize : Z -> S -> Z;
  elfrs_pread : Z -> Z -> Z -> S -> Z * list byte;
  elfrs_fd_is_exec : Z -> S -> Z;
  elfrs_path_is_exec : list byte -> S -> Z
}.

Record FileH : Type := MkFile { fh_fd : Z; fh_size : option Z }.

(** [as i64] of a [u64], and [-v] on an [i32] or [i64]. *)
Definition as_i64 (v : Z) : Z := (v + 2 ^ 63) mod 2 ^ 64 - 2 ^ 63.
Definition neg {E : Type} (width v : Z) : outcome E Z :=
  if v =? - 2 ^ (width - 1) then Panic else Ok (- v).

Section Files.
Context {S : Type} {heap : Heap} {vfs : Vfs S} (cfg : Cfg).

Definition File_open (path : list byte) : stM Error S FileH :=
  c ← lift (CString_new path);
  fd ← (fun s => let '(fd, s') := elfrs_open_ro c s in (Ok fd, s'));
  if fd <? 0 then e ← lift (neg 32 fd); fail (MkError e) else
  size ← gets (elfrs_fsize fd);
  mret (MkFile fd (if 0 <=? size then Some size else None)).

(** [Drop for File]. *)
Definition File_drop (f : FileH) : S -> S := elfrs_close (fh_fd f).

Definition check_exec_bit (f : FileH) : stM Error S unit :=
  if negb (flag (execbit cfg)) then mret tt else
  rc ← gets (elfrs_fd_is_exec (fh_fd f));
  _ ← lift (from_c rc);
  mret tt.

(** [read_exact_at]: [acc] holds what was read so far.  Every turn reads at
    least a byte, so the length of the buffer bounds the number of turns.  Reading
    changes no state, and a file does not change while it is loaded: what an open
    file reads is taken from the state in which it was opened. *)
Fixpoint pread_loop (st : S) (fd off : Z) (len : nat) (fuel : nat) (acc : list byte) : Res (list byte) :=
  if (length acc <? len)%nat then
    match fuel with
    | O => Panic
    | Datatypes.S fuel =>
      pos ← add64 off (Z.of_nat (length acc));
      let '(n, d) := elfrs_pread fd (Z.of_nat (len - length acc)) (as_i64 pos) st in
      if n =? 0 then Err ENOEXEC else
      if n <? 0 then e ← neg 64 n; Err (MkError (as_i32 e)) else
      pread_loop st fd off len fuel (acc ++ take (Z.to_nat n) d)
    end
  else Ok acc.

Definition File_source (st : S) (f : FileH) : ImageSource :=
  MkSource (fun off len => pread_loop st (fh_fd f) off len len []) (fh_size f).
End Files.

(** ** An image in memory *)

Definition mem_bytes (mem : Z -> byte) (a : Z) (n : nat) : list byte :=
  (fun i => mem (a + i)) <$> seqZ 0 (Z.of_nat n).

Definition MemImage_source (mem : Z -> byte) (base len : Z) : ImageSource :=
  MkSource (fun off n =>
    stop ← ok_or (checked_add off (Z.of_nat n)) ENOEXEC;
    if len <? stop then Err ENOEXEC else Ok (mem_bytes mem (base + off) n)) (Some len).

(** ** The environment *)

(** [elfrs_environ] is null or the entries before the terminating null;
    [elfrs_random_fill] returns a code and the bytes it stored. *)
Class Process : Type := {
  elfrs_environ : option (list (list byte));
  elfrs_getenv : list byte -> option (list byte);
  elfrs_random_fill : Z -> Z * list byte;
  elfrs_hwcap : Z;
  elfrs_hwcap2 : Z;
  elfrs_platform : option (list byte)
}.

Section Environment.
Context {S : Type} {heap : Heap} {vfs : Vfs S} {proc : Process} (cfg : Cfg).

Definition environ : list (list byte) :=
  if negb (flag (have_environ cfg)) then [] else
  match elfrs_environ with
  | None => []
  | Some es => (fun e => cstr (Some e)) <$> es
  end.

Definition getenv (name : list byte) : option (list byte) :=
  if negb (flag (have_environ cfg)) then None else
  match CString_new name with
  | Ok c => match elfrs_getenv c with None => None | Some m => Some (cstr (Some m)) end
  | _ => None
  end.

Definition fixed_seed : list byte :=
  [xb0; xb0; x00; x00; x0d; xf0; x00; x00; xb0; xb0; x00; x00; x0d; xf0; x00; x00].

Definition random_bytes : list byte :=
  if flag (have_random cfg) then
    let '(rc, d) := elfrs_random_fill 16 in
    if rc =? 0 then take 16 d ++ drop (length d) (replicate 16 x00) else fixed_seed
  else fixed_seed.

Definition sys_platform : list byte := cstr elfrs_platform.
Definition sys_hwcap : Z * Z := (elfrs_hwcap, elfrs_hwcap2).

(** The loop of [locate_in_path] over the candidates. *)
Fixpoint first_exec (st : S) (cands : list (list byte)) : option (list byte) :=
  match cands with
  | [] => None
  | cand :: cands =>
    match CString_new cand with
    | Ok c => if elfrs_path_is_exec c st =? 0 then Some cand else first_exec st cands
    | _ => first_exec st cands
    end
  end.

Definition locate_in_path (st : S) (name path_env : list byte) : option (list byte) :=
  if negb (is_bare_name name) then None else first_exec st (path_candidates name path_env).
End Environment.

(** ** The address space *)

Definition MAP_ANON : Z := 0.
Definition MAP_FILE : Z := 1.

(** The memory functions of the shim; [elfrs_map] returns an address and an
    error number, [mem_store] is a raw write. *)
Class Memory (S : Type) : Type := {
  elfrs_map : Z -> Z -> Z -> Z -> Z -> Z -> Z -> S -> (Z * Z) * S;
  elfrs_unmap : Z -> Z -> S -> Z * S;
  elfrs_protect : Z -> Z -> Z -> S -> Z * S;
  elfrs_memalign : Z -> Z -> S -> Z * S;
  elfrs_free : Z -> S -> S;
  elfrs_icache_sync : Z -> Z -> S -> S;
  mem_store : Z -> list byte -> S -> S
}.

Section Uk.
Context {S : Type} {memory : Memory S} (cfg : Cfg).

Definition uk_map (at_ : Where) (len prot : Z) (src : MapSrc) : stM Error S Z := fun s =>
  let '(addr, replace) := match at_ with
                          | Anywhere => (0, 0)
                          | Hint a => (a, 0)
                          | Exact a => (a, 1)
                          end in
  let '(kind, fd, off) := match src with
                          | Anon => (MAP_ANON, -1, 0)
                          | File fd off => (MAP_FILE, fd, as_i64 off)
                          end in
  let '((got, err), s') := elfrs_map addr len prot kind fd off replace s in
  if got =? 0
  then ((e ← (if 0 <? err then Ok err else neg 32 err); Err (MkError e)), s')
  else (Ok got, s').

(** A call whose result is an errno or zero. *)
Definition from_rc (m : S -> Z * S) : stM Error S unit := fun s =>
  let '(rc, s') := m s in ((_ ← from_c rc; Ok tt), s').

Definition uk_alloc_aligned (align len : Z) : stM Error S Z := fun s =>
  let '(p, s') := elfrs_memalign align len s in
  if p =? 0 then (Err ENOMEM, s') else (Ok p, s').

Definition UkVm : Vm S := {|
  page_size := cfg_page_size cfg;
  can_map_files := flag (have_mmap cfg);
  vm_map := uk_map;
  vm_unmap := fun a len => from_rc (elfrs_unmap a len);
  vm_protect := fun a len prot => from_rc (elfrs_protect a len prot);
  vm_write := fun a d s => (Ok tt, mem_store a d s);
  vm_zero := fun a len s => (Ok tt, mem_store a (replicate (Z.to_nat len) x00) s);
  vm_icache_sync := fun a len s => (Ok tt, elfrs_icache_sync a len s);
  vm_alloc_aligned := uk_alloc_aligned;
  vm_free_aligned := fun a _ s => (Ok tt, elfrs_free a s)
|}.
End Uk.

(** ** The application's stack *)

(** Two bounds, over the memory of the machine. *)
Record AppStack (S : Type) : Type := MkAppStack { as_lo : Z; as_hi : Z; as_state : S }.
Arguments MkAppStack {S}.
Arguments as_lo {S}.
Arguments as_hi {S}.
Arguments as_state {S}.

Section Stack.
Context {S : Type} {memory : Memory S}.

Definition app_write (addr : Z) (data : list byte) : stM Error (AppStack S) unit := fun w =>
  if (addr <? as_lo w) || (as_hi w <? saturating_add addr (Z.of_nat (length data)))
  then (Err E2BIG, w)
  else (Ok tt, MkAppStack (as_lo w) (as_hi w) (mem_store addr data (as_state w))).

#[global] Instance AppStack_writer : StackWriter (AppStack S) := {
  sw_top := as_hi;
  sw_bottom := as_lo;
  sw_write := app_write
}.
End Stack.
