(* ===== verification/SysFacts.v ===== *)
(** * Properties of the Unikraft side

    The image sources serve the bytes the loader relies on, the application's
    stack satisfies the laws of a stack writer, and strings survive the trip to
    C. *)

From Stdlib Require Import Strings.Byte.
From stdpp Require Import base numbers option strings sets list.
From S2P Require Import Prelude Err Util Elf ElfFacts TestImage Loader VmSpec LoaderFacts Auxv AuxvFacts Sys.

(** ** C strings *)

Lemma until_nul_app s rest : x00 ∉ s -> until_nul (s ++ x00 :: rest) = s.
Proof.
  induction s as [|c s IH]; intros Hno; cbn [app until_nul]; [by rewrite bool_decide_eq_true_2|].
  apply not_elem_of_cons in Hno as [Hc Hno]. rewrite bool_decide_eq_false_2 by congruence. by rewrite IH.
Qed.

Lemma CString_new_Ok {heap : Heap} s c : CString_new s = Ok c -> c = s ++ [x00] /\ x00 ∉ s.
Proof.
  unfold CString_new. case_bool_decide; [done|]. intros (n & _ & Hr)%bind_Ok.
  destruct (negb _); [done|]. by injection Hr as <-.
Qed.

(** C reads back the string it was handed, whatever follows it in memory. *)
Lemma cstr_CString {heap : Heap} s c rest : CString_new s = Ok c -> cstr (Some (c ++ rest)) = s.
Proof.
  intros [-> Hno]%CString_new_Ok. cbn [cstr]. rewrite <- app_assoc. by apply until_nul_app.
Qed.

(** ** Files *)

(** What the kernel promises of reading a descriptor: bytes of the file from the
    offset on, at least one before its end, none at or past it, and an error for
    a negative offset.  A read may be shorter than asked for. *)
Record pread_ok {S} {vfs : Vfs S} (st : S) (fd : Z) (data : list byte) : Prop := {
  pr_some : forall len off, 0 < len -> 0 <= off < Z.of_nat (length data) ->
    exists n, 0 < n <= len /\ off + n <= Z.of_nat (length data) /\
      elfrs_pread fd len off st = (n, take (Z.to_nat n) (drop (Z.to_nat off) data));
  pr_end : forall len off, 0 < len -> Z.of_nat (length data) <= off < 2 ^ 63 ->
    exists d, elfrs_pread fd len off st = (0, d);
  pr_bad : forall len off, 0 < len -> - 2 ^ 63 <= off < 0 ->
    exists e d, - 2 ^ 63 < e < 0 /\ elfrs_pread fd len off st = (e, d)
}.

Lemma as_i64_small v : 0 <= v < 2 ^ 63 -> as_i64 v = v.
Proof. intros Hv. unfold as_i64. rewrite Z.mod_small by lia. lia. Qed.

Lemma as_i64_big v : 2 ^ 63 <= v < 2 ^ 64 -> as_i64 v = v - 2 ^ 64.
Proof.
  intros Hv. unfold as_i64. replace (v + 2 ^ 63) with (v - 2 ^ 63 + 1 * 2 ^ 64) by lia.
  rewrite Z.mod_add by lia. rewrite Z.mod_small by lia. lia.
Qed.

Section Reading.
Context {S : Type} {vfs : Vfs S}.
Variables (st : S) (fd : Z) (data : list byte).
Hypothesis kernel : pread_ok st fd data.
Hypothesis small : Z.of_nat (length data) < 2 ^ 63.

Lemma take_extend (off k m : nat) :
  (k + m <= length (drop off data))%nat ->
  take k (drop off data) ++ take m (drop (off + k) data) = take (k + m) (drop off data).
Proof.
  intros Hle. rewrite <- drop_drop. rewrite <- (take_drop k (drop off data)) at 3.
  rewrite length_drop in Hle. rewrite take_app_add'; [done|]. rewrite length_take, length_drop. lia.
Qed.

Lemma pread_loop_ok off len fuel k :
  0 <= off -> off + Z.of_nat len <= Z.of_nat (length data) -> (k <= len)%nat -> (len <= fuel + k)%nat ->
  pread_loop st fd off len fuel (take k (drop (Z.to_nat off) data)) = Ok (take len (drop (Z.to_nat off) data)).
Proof.
  intros H0 Hin. revert k. induction fuel as [|fuel IH]; intros k Hk Hf; cbn [pread_loop];
    rewrite length_take, length_drop; replace (k `min` _)%nat with k by lia.
  - replace k with len by lia. by rewrite (proj2 (Nat.ltb_ge _ _)) by lia.
  - destruct (Nat.ltb_spec k len) as [Hlt|Hge]; [|by replace k with len by lia].
    rewrite add64_small by lia. cbn [mbind outcome_bind]. rewrite as_i64_small by lia.
    destruct (pr_some _ _ _ kernel (Z.of_nat (len - k)) (off + Z.of_nat k)) as (n & Hn & Hend & ->); [lia|lia|].
    rewrite (proj2 (Z.eqb_neq n 0)) by lia. rewrite (proj2 (Z.ltb_ge n 0)) by lia.
    rewrite take_take, Nat.min_id. rewrite Z2Nat.inj_add by lia. rewrite Nat2Z.id.
    rewrite take_extend by (rewrite length_drop; lia). apply IH; lia.
Qed.

(** Past the end of the file the loop ends with an error. *)
Lemma pread_loop_short off len fuel k :
  u64 off -> (0 < len)%nat -> Z.of_nat (length data) < off + Z.of_nat len ->
  (k < len)%nat -> (k <= length (drop (Z.to_nat off) data))%nat -> (len <= fuel + k)%nat ->
  exists e, pread_loop st fd off len fuel (take k (drop (Z.to_nat off) data)) = Err e.
Proof.
  intros [H0 H64] Hlen Hout. revert k. induction fuel as [|fuel IH]; intros k Hk Hle Hf; cbn [pread_loop]; [lia|].
  rewrite length_take. replace (k `min` _)%nat with k by lia. rewrite length_drop in Hle.
  rewrite (proj2 (Nat.ltb_lt _ _)) by lia.
  assert (Hpos : k = 0%nat \/ off + Z.of_nat k <= Z.of_nat (length data)) by lia.
  rewrite add64_small by lia. cbn [mbind outcome_bind].
  destruct (Z.lt_ge_cases (off + Z.of_nat k) (Z.of_nat (length data))) as [Hlt|Hge].
  - rewrite as_i64_small by lia.
    destruct (pr_some _ _ _ kernel (Z.of_nat (len - k)) (off + Z.of_nat k)) as (n & Hn & Hend & ->); [lia|lia|].
    rewrite (proj2 (Z.eqb_neq n 0)) by lia. rewrite (proj2 (Z.ltb_ge n 0)) by lia.
    rewrite take_take, Nat.min_id. rewrite Z2Nat.inj_add by lia. rewrite Nat2Z.id.
    rewrite take_extend by (rewrite length_drop; lia). apply IH; [lia|rewrite length_drop; lia|lia].
  - destruct (Z.lt_ge_cases (off + Z.of_nat k) (2 ^ 63)) as [Hs|Hb].
    + rewrite as_i64_small by lia.
      destruct (pr_end _ _ _ kernel (Z.of_nat (len - k)) (off + Z.of_nat k)) as (d & ->); [lia|lia|]. by exists ENOEXEC.
    + rewrite as_i64_big by lia.
      destruct (pr_bad _ _ _ kernel (Z.of_nat (len - k)) (off + Z.of_nat k - 2 ^ 64)) as (e & d & He & ->); [lia|lia|].
      rewrite (proj2 (Z.eqb_neq e 0)) by lia. rewrite (proj2 (Z.ltb_lt e 0)) by lia.
      unfold neg. rewrite (proj2 (Z.eqb_neq _ _)) by lia. cbn [mbind outcome_bind]. by eexists.
Qed.

Lemma file_serves size : serves (File_source st (MkFile fd size)) data.
Proof.
  intros off n H64 Hn. pose proof H64 as [H0 _]. cbn [File_source read_exact_at fh_fd].
  destruct (Z.leb_spec (off + Z.of_nat n) (Z.of_nat (length data))) as [Hle|Hgt].
  - rewrite <- (take_0 (drop (Z.to_nat off) data)) at 1. apply pread_loop_ok; lia.
  - rewrite <- (take_0 (drop (Z.to_nat off) data)). apply pread_loop_short; try done; lia.
Qed.
End Reading.

(** C34. Reading an image from a file is exact: however the kernel splits a
    read into shorter ones, [File::read_exact_at] returns exactly the bytes of
    the file at the offset, in a bounded number of calls, and a range that
    leaves the file is an error -- never a panic, also for offsets that are
    negative as [i64]. *)
Theorem file_source_serves {S} {vfs : Vfs S} st fd size data :
  pread_ok st fd data -> Z.of_nat (length data) < 2 ^ 63 ->
  serves (File_source st (MkFile fd size)) data.
Proof. intros Hk Hs. by apply file_serves. Qed.

(** A kernel that returns at most seven bytes at a time. *)
Definition stingy_vfs {S : Type} (data : list byte) : Vfs S := {|
  elfrs_open_ro := fun _ s => (3, s);
  elfrs_close := fun _ s => s;
  elfrs_fsize := fun _ _ => Z.of_nat (length data);
  elfrs_pread := fun _ len off _ =>
    if off <? 0 then (-22, [])
    else let d := take (Nat.min 7 (Z.to_nat len)) (drop (Z.to_nat off) data) in (Z.of_nat (length d), d);
  elfrs_fd_is_exec := fun _ _ => 0;
  elfrs_path_is_exec := fun _ _ => 0
|}.

Lemma stingy_pread {S} data (st : S) fd : pread_ok (vfs:=stingy_vfs data) st fd data.
Proof.
  split; intros len off Hlen Hoff; cbn [elfrs_pread stingy_vfs].
  - rewrite (proj2 (Z.ltb_ge _ _)) by lia. set (k := Nat.min 7 (Z.to_nat len)).
    set (d := take k (drop (Z.to_nat off) data)).
    assert (Hd : length d = Nat.min k (length data - Z.to_nat off)) by (unfold d; by rewrite length_take, length_drop).
    exists (Z.of_nat (length d)). split; [lia|]. split; [lia|]. f_equal. rewrite Nat2Z.id, Hd. unfold d.
    destruct (Nat.le_gt_cases k (length data - Z.to_nat off)) as [Hle|Hgt].
    + by rewrite Nat.min_l.
    + rewrite Nat.min_r by lia. by rewrite !take_ge by (rewrite length_drop; lia).
  - rewrite (proj2 (Z.ltb_ge _ _)) by lia. exists []. rewrite (drop_ge data) by lia. by rewrite take_nil.
  - rewrite (proj2 (Z.ltb_lt _ _)) by lia. by exists (-22), [].
Qed.

Lemma file_source_serves_witness :
  serves (File_source (vfs:=stingy_vfs mini_bytes) tt (MkFile 3 (Some 192))) mini_bytes.
Proof. apply (file_source_serves (vfs:=stingy_vfs mini_bytes)); [apply stingy_pread|done]. Defined.


(** ** Memory *)

Lemma length_mem_bytes mem a n : length (mem_bytes mem a n) = n.
Proof. unfold mem_bytes. rewrite length_fmap, length_seqZ. lia. Qed.

Lemma mem_bytes_lookup mem a n i :
  (i < n)%nat -> mem_bytes mem a n !! i = Some (mem (a + Z.of_nat i)).
Proof.
  intros Hi. unfold mem_bytes. rewrite list_lookup_fmap, lookup_seqZ_lt by lia. cbn. do 3 f_equal.
Qed.

(** An image in memory serves the bytes of its region. *)
Lemma mem_image_serves mem base len :
  0 <= len < 2 ^ 64 -> serves (MemImage_source mem base len) (mem_bytes mem base (Z.to_nat len)).
Proof.
  intros Hlen off n [H0 H64] Hn. rewrite length_mem_bytes, Z2Nat.id by lia.
  cbn [MemImage_source read_exact_at]. unfold checked_add.
  destruct (Z.leb_spec (off + Z.of_nat n) len) as [Hle|Hgt].
  - rewrite (proj2 (Z.ltb_lt _ _)) by lia. cbn [ok_or mbind outcome_bind].
    rewrite (proj2 (Z.ltb_ge _ _)) by lia. f_equal. apply list_eq. intros i.
    rewrite lookup_take. case_decide as Hi.
    + rewrite lookup_drop, !mem_bytes_lookup by lia. do 2 f_equal. lia.
    + apply lookup_ge_None. rewrite length_mem_bytes. lia.
  - destruct (off + Z.of_nat n <? 2 ^ 64); cbn [ok_or mbind outcome_bind]; [|by eexists].
    rewrite (proj2 (Z.ltb_lt _ _)) by lia. by eexists.
Qed.

(** ** The application's stack *)

(** Memory a raw write changes where it should. *)
Class MemoryLaws (S : Type) {memory : Memory S} : Type := {
  mem_at : S -> Z -> byte;
  law_store s a d x : mem_at (mem_store a d s) x =
    if decide (within a (Z.of_nat (length d)) x) then d !!! Z.to_nat (x - a) else mem_at s x
}.

#[global] Instance AppStack_laws {S} {memory : Memory S} {mlaws : MemoryLaws S} : StackLaws (AppStack S).
Proof.
  refine {| sw_inv := fun w => 0 <= as_lo w <= as_hi w /\ as_hi w < 2 ^ 64;
            sw_mem := fun w => mem_at (as_state w) |}.
  - done.
  - intros w a d [Hlo Hhi] Ha Hd. cbn in Ha, Hd. cbn. unfold app_write, saturating_add, u64_max.
    rewrite (proj2 (Z.ltb_ge _ _)) by lia. rewrite (proj2 (Z.ltb_ge _ _)) by lia. cbn [orb].
    eexists. split; [done|]. cbn. split; [done|]. split; [done|]. split; [done|].
    intros x. apply law_store.
Defined.

(** The last check before a raw write into another thread's stack holds
    by itself: whatever address and data it is given, [AppStack::write] either
    refuses with [E2BIG] and writes nothing, or makes the one write it was asked
    for, inside the stack.  It refuses exactly the writes that leave the stack. *)
Theorem app_write_confined {S} {memory : Memory S} (w : AppStack S) addr data :
  u64 addr -> as_hi w < 2 ^ 64 - 1 ->
  match app_write addr data w with
  | (Ok _, w') =>
    as_lo w <= addr /\ addr + Z.of_nat (length data) <= as_hi w /\
    w' = MkAppStack (as_lo w) (as_hi w) (mem_store addr data (as_state w))
  | (Err e, w') => e = E2BIG /\ w' = w /\
                   (addr < as_lo w \/ as_hi w < addr + Z.of_nat (length data))
  | (Panic, _) => False
  end.
Proof.
  intros [H0 _] Hhi. unfold app_write, saturating_add, u64_max.
  destruct (Z.ltb_spec addr (as_lo w)); cbn [orb]; [split_and!; [done|done|lia]|].
  destruct (Z.ltb_spec (as_hi w) (Z.min (addr + Z.of_nat (length data)) (2 ^ 64 - 1)));
    split_and!; try done; lia.
Qed.

(** A machine with nothing but its memory. *)
Definition bare_memory : Memory (Z -> byte) := {|
  elfrs_map := fun _ _ _ _ _ _ _ s => ((0, 12), s);
  elfrs_unmap := fun _ _ s => (0, s);
  elfrs_protect := fun _ _ _ s => (0, s);
  elfrs_memalign := fun _ _ s => (0, s);
  elfrs_free := fun _ s => s;
  elfrs_icache_sync := fun _ _ s => s;
  mem_store := fun a d s x => if decide (within a (Z.of_nat (length d)) x) then d !!! Z.to_nat (x - a) else s x
|}.

Lemma app_write_confined_witness :
  (app_write (memory:=bare_memory) 0x7ffe [x01; x02; x03] (MkAppStack 0x7000 0x8000 (fun _ => x00))).1
  = Err E2BIG.
Proof.
  assert (H : u64 0x7ffe /\ 0x8000 < 2 ^ 64 - 1) by done. destruct H as [H1 H2].
  pose proof (app_write_confined (memory:=bare_memory) (MkAppStack 0x7000 0x8000 (fun _ => x00)) 0x7ffe
    [x01; x02; x03] H1 H2) as H.
  destruct (app_write _ _ _) as [[u|e|] w']; cbn [fst].
  - destruct H as (_ & H & _). cbn in H. lia.
  - destruct H as (-> & _). done.
  - done.
Defined.

(** ** Searching *)

(** The search returns the first candidate of the search path that the
    system finds executable -- every earlier one was refused -- and nothing when
    there is none or the name is itself a path. *)
Theorem locate_in_path_spec {S} {heap : Heap} {vfs : Vfs S} st name path_env :
  let accepted cand := exists c, CString_new cand = Ok c /\ elfrs_path_is_exec c st = 0 in
  match locate_in_path st name path_env with
  | Some cand => is_bare_name name = true /\
      exists pre post, path_candidates name path_env = pre ++ cand :: post /\
        accepted cand /\ Forall (fun d => ~ accepted d) pre
  | None => is_bare_name name = false \/ Forall (fun d => ~ accepted d) (path_candidates name path_env)
  end.
Proof.
  cbv zeta. unfold locate_in_path. destruct (is_bare_name name); [|by left]. cbn [negb].
  induction (path_candidates name path_env) as [|d ds IH]; cbn [first_exec]; [by right; constructor|].
  assert (Hrest : ~ (exists c, CString_new d = Ok c /\ elfrs_path_is_exec c st = 0) ->
    match first_exec st ds with
    | Some cand => true = true /\ exists pre post, d :: ds = pre ++ cand :: post /\
        (exists c, CString_new cand = Ok c /\ elfrs_path_is_exec c st = 0) /\
        Forall (fun d => ~ exists c, CString_new d = Ok c /\ elfrs_path_is_exec c st = 0) pre
    | None => true = false \/
        Forall (fun d => ~ exists c, CString_new d = Ok c /\ elfrs_path_is_exec c st = 0) (d :: ds)
    end).
  { intros Hd. destruct (first_exec st ds) as [cand|].
    - destruct IH as (_ & pre & post & -> & Hc & Hpre). split; [done|]. exists (d :: pre), post.
      split; [done|]. split; [done|]. by constructor.
    - destruct IH as [?|IH]; [done|]. right. by constructor. }
  destruct (CString_new d) as [c|e|] eqn:Hc; [|apply Hrest; naive_solver|apply Hrest; naive_solver].
  destruct (Z.eqb_spec (elfrs_path_is_exec c st) 0) as [He|He]; [|apply Hrest; naive_solver].
  split; [done|]. exists [], ds. split; [done|]. split; [by exists c|constructor].
Qed.

(** [AT_RANDOM] always points at sixteen bytes. *)
Lemma random_bytes_length {proc : Process} cfg : length (random_bytes cfg) = 16%nat.
Proof.
  unfold random_bytes. destruct (flag _); [|done]. destruct (elfrs_random_fill 16) as [rc d].
  destruct (rc =? 0); [|done]. rewrite length_app, length_take, length_drop, length_replicate. lia.
Qed.
