(* ===== verification/App.v ===== *)
(** * The start of the unikernel ([rust/src/app.rs])

    What to run, from the command line and the configuration; the openers; and
    [run], which loads the program, lays out its stack and schedules it. *)

From Stdlib Require Import Strings.Byte.
From stdpp Require Import base numbers option strings sets list.
From S2P Require Import Prelude Err Util Elf Layout Loader Auxv Program Sys.

(** ** The command line *)

(** [collect_argv]: [argv] is null or its pointers, of which [argc] are there. *)
Definition collect_argv (argc : Z) (argv : option (list (option (list byte)))) : list (list byte) :=
  match argv with
  | None => []
  | Some ps => if argc <=? 0 then [] else cstr <$> take (Z.to_nat argc) ps
  end.

(** ** What to run *)

Record AppTarget : Type := MkTarget {
  t_path : list byte;
  t_progname : list byte;
  t_rest : list (list byte)
}.

(** The path of the image in memory. *)
Definition initrd_path : list byte := [x3c; x69; x6e; x69; x74; x72; x64; x3e].

Definition split_command_line (cfg : Cfg) (args : list (list byte)) : Res AppTarget :=
  let initrd := vfsexec cfg =? 0 in
  if flag (customappname cfg) then
    if (length args <? 2)%nat then Err EINVAL else
    named ← index args 1;
    let path := if initrd then initrd_path else named in
    let progname := if initrd then named else basename named in
    Ok (MkTarget path progname (drop 2 args))
  else
    match args with
    | [] => Err EINVAL
    | arg0 :: _ =>
      '(path, progname) ←
        (if initrd then Ok (initrd_path, arg0)
         else
           let p := cstr (vfsexec_path cfg) in
           match p with
           | [] => Err EINVAL
           | _ => Ok (p, basename p)
           end);
      Ok (MkTarget path progname (drop 1 args))
    end.

(** "PATH" and "PWD". *)
Definition name_PATH : list byte := [x50; x41; x54; x48].
Definition name_PWD : list byte := [x50; x57; x44].

Section Resolve.
Context {S : Type} {heap : Heap} {vfs : Vfs S} {proc : Process} (cfg : Cfg).

Definition resolve (st : S) (t : AppTarget) : AppTarget :=
  if (envpath cfg =? 0) || negb (is_bare_name (t_path t)) then t else
  match getenv cfg name_PATH with
  | None => t
  | Some path_env =>
    match locate_in_path st (t_path t) path_env with
    | Some full => MkTarget full (t_progname t) (t_rest t)
    | None => t
    end
  end.

(** ** Openers *)

(** [VfsOpener] here, and the one of [rust/src/binfmt.rs] that leaves the
    executable bit to its caller.  The box takes the file over; a file refused
    before that is dropped. *)
Definition opened_file (st : S) (f : FileH) : Opened S :=
  MkOpened (File_source st f) (if flag (have_mmap cfg) then Some (fh_fd f) else None) (File_drop f).

Definition VfsOpener : Opener S := fun path =>
  f ← File_open path;
  _ ← on_err (check_exec_bit cfg f) (does (File_drop f));
  gets (fun st => opened_file st f).

Definition binfmt_opener : Opener S := fun path =>
  f ← File_open path;
  gets (fun st => opened_file st f).
End Resolve.

(** [InitrdOpener], over the memory at the time of the call. *)
Definition InitrdOpener {S : Type} (mem : Z -> byte) (base len : Z) : Opener S := fun path =>
  if negb (bool_decide (path = initrd_path)) then fail ENOENT
  else mret (MkOpened (MemImage_source mem base len) None (fun s => s)).

(** ** Starting the program *)

(** The thread functions of the shim.  A thread and its context are addresses,
    zero being null; those that assert something of their arguments may panic,
    none returns an error.  [elfrs_initrd] returns a code, a base and a length;
    what memory holds is read with [mem_read]. *)
Class Threads (S : Type) : Type := {
  elfrs_thread_create : list byte -> Z -> stM Error S Z;
  elfrs_thread_release : Z -> S -> S;
  elfrs_thread_ctx : Z -> stM Error S Z;
  elfrs_thread_stack_base : Z -> stM Error S Z;
  elfrs_ctx_get_sp : Z -> stM Error S Z;
  elfrs_ctx_init : Z -> Z -> Z -> stM Error S unit;
  elfrs_thread_set_runnable : Z -> stM Error S unit;
  elfrs_thread_make_pthread : Z -> S -> Z * S;
  elfrs_thread_schedule : Z -> stM Error S Z;
  elfrs_chdir : list byte -> S -> Z * S;
  elfrs_initrd : S -> Z * Z * Z;
  mem_read : S -> Z -> byte
}.

Section Run.
Context {S : Type} {memory : Memory S} {threads : Threads S}.
Context {heap : Heap} {target : Target} {vfs : Vfs S} {proc : Process} (cfg : Cfg).

#[local] Instance app_vm : Vm S := UkVm cfg.

(** [sys::chdir]. *)
Definition chdir (path : list byte) : stM Error S unit :=
  c ← lift (CString_new path);
  from_rc (elfrs_chdir c).

Definition set_cwd : stM Error S unit :=
  if negb (flag (envpwd cfg)) then mret tt else
  match getenv cfg name_PWD with
  | None => mret tt
  | Some pwd => chdir pwd
  end.

Definition load_target (t : AppTarget) : stM Error S LoadedProgram :=
  if flag (vfsexec cfg) then load_program (opener:=VfsOpener cfg) (t_path t)
  else
    '(rc, base, len) ← gets elfrs_initrd;
    if (rc <? 0) || (base =? 0) || (len =? 0) then fail ENOENT else
    mem ← gets mem_read;
    load_program (opener:=InitrdOpener mem base len) initrd_path.

Definition system_environment (execfn : list byte) : Environment :=
  MkEnvironment (cfg_page_size cfg) sys_platform execfn (random_bytes cfg)
    (cfg_uid cfg) (cfg_gid cfg) sys_hwcap (if vdso_addr cfg =? 0 then None else Some (vdso_addr cfg)).

(** [build_stack] on the stack [lo, hi) of the thread. *)
Definition build_app_stack (lo hi : Z) (argv envp : list (list byte)) (aux : AuxvSpec) :
    stM Error S StackLayout := fun s =>
  let '(r, w) := build_stack argv envp aux (MkAppStack lo hi s) in (r, as_state w).

(** A call that returns a code. *)
Definition returns (m : S -> Z * S) : stM Error S Z := fun s => let '(rc, s') := m s in (Ok rc, s').

(** A call that returns zero or an error: on error [Err(Error(-rc))] after the
    program was taken down. *)
Definition or_unload (loaded : LoadedProgram) (m : stM Error S Z) : stM Error S unit :=
  rc ← m;
  if rc =? 0 then mret tt else
  _ ← program_unload loaded;
  e ← lift (neg 32 rc);
  fail (MkError e).

(** What was started: the thread, its stack pointer, its entry point, and the
    program, which [mem::forget] leaves to the thread. *)
Record Started : Type := MkStarted {
  st_thread : Z; st_sp : Z; st_entry : Z; st_program : LoadedProgram
}.

(** From the loaded program on. *)
Definition launch (t : AppTarget) (thread : Z) (loaded : LoadedProgram) : stM Error S Started :=
  ctx ← elfrs_thread_ctx thread;
  stack_lo ← elfrs_thread_stack_base thread;
  stack_hi ← elfrs_ctx_get_sp ctx;
  if stack_hi <=? stack_lo then
    _ ← program_unload loaded;
    fail EINVAL
  else
  nargs ← lift (add64 (Z.of_nat (length (t_rest t))) 1);
  if negb (try_reserve nargs) then fail ENOMEM else
  let argv := t_progname t :: t_rest t in
  aux ← lift (program_auxv loaded (system_environment (t_path t)));
  layout ← on_err (build_app_stack stack_lo stack_hi argv (environ cfg) aux) (program_unload loaded);
  let entry := program_entry loaded in
  _ ← elfrs_ctx_init ctx (sp layout) entry;
  _ ← elfrs_thread_set_runnable thread;
  _ ← (if flag (have_pthread cfg) then or_unload loaded (returns (elfrs_thread_make_pthread thread)) else mret tt);
  _ ← or_unload loaded (elfrs_thread_schedule thread);
  mret (MkStarted thread (sp layout) entry loaded).

(** [ThreadGuard]: an error releases the thread. *)
Definition guarded {A : Type} (thread : Z) (m : stM Error S A) : stM Error S A :=
  on_err m (does (elfrs_thread_release thread)).

(** [run], up to the point where it waits for ever. *)
Definition run (args : list (list byte)) : stM Error S Started :=
  t ← lift (split_command_line cfg args);
  t ← gets (fun st => resolve cfg st t);
  cname ← lift (CString_new (t_progname t));
  thread ← elfrs_thread_create cname (stack_len cfg);
  if thread =? 0 then fail ENOMEM else
  guarded thread (
    _ ← set_cwd;
    loaded ← load_target t;
    launch t thread loaded).

(** [Show2], with the [{:#x}] of the standard library. *)
Definition hex_digit (d : Z) : byte := byte_of (if d <? 10 then 48 + d else 87 + d).

Fixpoint hex_digits (fuel : nat) (v : Z) (acc : list byte) : list byte :=
  match fuel with
  | O => acc
  | Datatypes.S fuel =>
    let acc := hex_digit (v mod 16) :: acc in
    if v / 16 =? 0 then acc else hex_digits fuel (v / 16) acc
  end.

(** A [u64] has at most sixteen digits. *)
Definition Show2_fmt (v : Z) : list byte := x30 :: x78 :: hex_digits 16 v [].

(** The exit code of [elfrs_main]; starting the program has none. *)
Definition exit_code (r : outcome Error Started) : option Z :=
  match r with
  | Err e => Some (if errno e =? 0 then 1 else errno e)
  | _ => None
  end.
End Run.

(** ** Hexadecimal numbers read back *)

Definition hex_value (c : byte) : Z := if byte_val c <? 58 then byte_val c - 48 else byte_val c - 87.
Definition unhex (n : Z) (s : list byte) : Z := foldl (fun n c => 16 * n + hex_value c) n s.

Lemma hex_digit_value d : 0 <= d < 16 -> hex_value (hex_digit d) = d.
Proof.
  intros Hd. unfold hex_value, hex_digit. rewrite byte_val_of. destruct (Z.ltb_spec d 10).
  - rewrite Z.mod_small by lia. rewrite (proj2 (Z.ltb_lt _ _)) by lia. lia.
  - rewrite Z.mod_small by lia. rewrite (proj2 (Z.ltb_ge _ _)) by lia. lia.
Qed.

Lemma unhex_digits fuel v acc : 0 <= v < 16 ^ Z.of_nat fuel -> unhex 0 (hex_digits fuel v acc) = unhex v acc.
Proof.
  revert v acc. induction fuel as [|fuel IH]; intros v acc Hv; cbn [hex_digits].
  { cbn in Hv. by replace v with 0 by lia. }
  rewrite Nat2Z.inj_succ, Z.pow_succ_r in Hv by lia. pose proof (Z.mod_pos_bound v 16 ltac:(lia)) as Hm.
  pose proof (Z.div_mod v 16 ltac:(lia)) as Hdm.
  assert (Hstep : unhex (v / 16) (hex_digit (v mod 16) :: acc) = unhex v acc).
  { cbn [unhex foldl]. rewrite hex_digit_value by done. by rewrite <- Hdm. }
  destruct (Z.eqb_spec (v / 16) 0) as [H0|H0]; [by rewrite <- Hstep, H0|]. rewrite IH; [done|].
  split; [by apply Z.div_pos; lia|apply Z.div_lt_upper_bound; lia].
Qed.

(** What is shown of an address reads back as the address. *)
Lemma Show2_reads v : u64 v -> unhex 0 (drop 2 (Show2_fmt v)) = v.
Proof. intros Hv. change (unhex 0 (hex_digits 16 v []) = v). by rewrite unhex_digits by exact Hv. Qed.
