(* ===== verification/Frame.v ===== *)
(** * What programs leave alone

    A relation between states that every call of an address space respects is
    respected by loading and unloading programs, whatever they return; and one
    that every write to a stack respects, by laying out the stack. *)

From stdpp Require Import base numbers option strings sets list.
From S2P Require Import Prelude Err Elf Layout Loader Auxv Program.

Section Preserves.
Context {S : Type} (R : S -> S -> Prop) {pre : PreOrder R}.

(** Whether [m] succeeds or fails, its states are related. *)
Definition preserves {A : Type} (m : stM Error S A) : Prop :=
  forall s, match m s with (Panic, _) => True | (_, s') => R s s' end.

Lemma preserves_pure {A} (m : stM Error S A) : (forall s, (m s).2 = s) -> preserves m.
Proof. intros Hm s. specialize (Hm s). destruct (m s) as [[] s']; cbn in Hm; by subst. Qed.

Lemma preserves_bind {A B} (m : stM Error S A) (f : A -> stM Error S B) :
  preserves m -> (forall a, preserves (f a)) -> preserves (m ≫= f).
Proof.
  intros Hm Hf s. unfold mbind, stM_bind. specialize (Hm s). destruct (m s) as [[a|e|] s1]; [|done|done].
  specialize (Hf a s1). destruct (f a s1) as [[] s2]; [by etrans|by etrans|done].
Qed.

Lemma preserves_ret {A} (a : A) : preserves (mret a).
Proof. by apply preserves_pure. Qed.
Lemma preserves_lift {A} (m : outcome Error A) : preserves (lift m).
Proof. by apply preserves_pure. Qed.
Lemma preserves_fail {A} e : preserves (A:=A) (fail e).
Proof. by apply preserves_pure. Qed.

Lemma preserves_ignore m : preserves m -> preserves (ignore m).
Proof. intros Hm s. unfold ignore. specialize (Hm s). by destruct (m s) as [[] s']. Qed.

Lemma preserves_on_err {A} (m : stM Error S A) c : preserves m -> preserves c -> preserves (on_err m c).
Proof.
  intros Hm Hc s. unfold on_err. specialize (Hm s). destruct (m s) as [[a|e|] s1]; [done| |done].
  specialize (Hc s1). destruct (c s1) as [[] s2]; [by etrans|by etrans|done].
Qed.

(** Opening and dropping what was opened: whatever happens in between keeps the
    relation, the whole does. *)
Definition brackets_at (m : stM Error S (Opened S)) (s : S) : Prop :=
  match m s with
  | (Ok o, s1) => forall s2, R s1 s2 -> R s (o_drop o s2)
  | (Err _, s1) => R s s1
  | (Panic, _) => True
  end.
Definition brackets (m : stM Error S (Opened S)) : Prop := forall s, brackets_at m s.

Lemma preserves_scoped {A} (m : stM Error S (Opened S)) (f : Opened S -> stM Error S A) :
  brackets m -> (forall o, preserves (f o)) -> preserves (o ← m; scoped (o_drop o) (f o)).
Proof.
  intros Hm Hf s. unfold mbind, stM_bind, scoped. specialize (Hm s). unfold brackets_at in Hm.
  destruct (m s) as [[o|e|] s1]; [|done|done]. specialize (Hf o s1). destruct (f o s1) as [[] s2]; auto.
Qed.

Lemma brackets_of (m : stM Error S (Opened S)) :
  preserves m -> (forall s o s1 s2, m s = (Ok o, s1) -> R s2 (o_drop o s2)) -> brackets m.
Proof.
  intros Hm Hd s. specialize (Hm s). unfold brackets_at. destruct (m s) as [[o|e|] s1] eqn:He; [|done|done].
  intros s2 H. transitivity s1; [done|]. transitivity s2; [done|]. by apply (Hd s o s1).
Qed.

Lemma preserves_for_each {A} (f : A -> stM Error S unit) l :
  (forall x, preserves (f x)) -> preserves (for_each f l).
Proof.
  intros Hf. induction l as [|x l IH]; cbn [for_each]; [apply preserves_ret|].
  by apply preserves_bind.
Qed.
End Preserves.

(** One step through a program, towards the calls it makes. *)
Ltac preserves_step :=
  match goal with
  | |- PreOrder _ => solve [assumption | exact _]
  | |- preserves _ (mret _) => apply preserves_ret
  | |- preserves _ (lift _) => apply preserves_lift
  | |- preserves _ (fail _) => apply preserves_fail
  | |- preserves _ (ignore _) => apply preserves_ignore
  | |- preserves _ (on_err _ _) => apply preserves_on_err
  | |- preserves _ (for_each _ _) => apply preserves_for_each; intros
  | |- preserves _ (@mbind _ _ _ _ _ _) => apply preserves_bind; [exact _| |intros]
  | |- preserves _ (match ?x with _ => _ end) => destruct x
  | |- preserves _ (if ?x then _ else _) => destruct x
  | |- preserves _ _ => progress cbv zeta
  end.
Ltac preserves_tac := repeat (preserves_step || solve [eauto]).

Section Loading.
Context {S : Type} {vm : Vm S} (R : S -> S -> Prop) {pre : PreOrder R}.

Record vm_preserves : Prop := {
  vp_map : forall w len prot src, preserves R (vm_map w len prot src);
  vp_unmap : forall a len, preserves R (vm_unmap a len);
  vp_protect : forall a len prot, preserves R (vm_protect a len prot);
  vp_write : forall a d, preserves R (vm_write a d);
  vp_zero : forall a len, preserves R (vm_zero a len);
  vp_icache : forall a len, preserves R (vm_icache_sync a len);
  vp_alloc : forall align len, preserves R (vm_alloc_aligned align len);
  vp_free : forall a len, preserves R (vm_free_aligned a len)
}.

Hypothesis vmp : vm_preserves.
Context {heap : Heap} {target : Target} {opener : Opener S}.

Lemma unload_preserves l : preserves R (unload l).
Proof. destruct vmp. unfold unload. preserves_tac. Qed.

Lemma copy_chunks_preserves src ph vaddr fuel cur : preserves R (copy_chunks src ph vaddr fuel cur).
Proof. destruct vmp. revert cur. induction fuel; intros cur; cbn [copy_chunks]; preserves_tac. Qed.

Lemma load_preserves img src fd : preserves R (load img src fd).
Proof.
  pose proof unload_preserves. pose proof copy_chunks_preserves. destruct vmp.
  unfold load, load_mapped, load_copied, reserve_mapped, fill_mapped, fill_mapped_seg, sync_zeroed_seg,
    fill_copied, fill_copied_seg, protect_seg.
  preserves_tac.
Qed.

Lemma load_program_preserves path :
  (forall p, brackets R (open p)) -> preserves R (load_program path).
Proof.
  intros Hop. pose proof unload_preserves. pose proof load_preserves.
  assert (Hip : forall p, preserves R (load_interp p page_size)).
  { intros p. unfold load_interp. apply preserves_scoped; [done|]. intros o. preserves_tac. }
  unfold load_program. apply preserves_scoped; [done|]. intros o. preserves_tac.
Qed.

Lemma program_unload_preserves p : preserves R (program_unload p).
Proof. pose proof unload_preserves. unfold program_unload. preserves_tac. Qed.
End Loading.

Section Stacks.
Context {W : Type} {writer : StackWriter W} (R : W -> W -> Prop) {pre : PreOrder R} {heap : Heap}.
Hypothesis writes : forall a d, preserves R (sw_write a d).

(** The relation on a writer with a pointer beside it. *)
Definition on_fst (st st' : W * Z) : Prop := R st.1 st'.1.

#[local] Instance on_fst_pre : PreOrder on_fst.
Proof. unfold on_fst. split; [by intros st|]. intros a b c H1 H2. by etrans. Qed.

Lemma push_bytes_preserves d : preserves on_fst (push_bytes d).
Proof.
  intros [w sp]. unfold push_bytes. destruct (checked_sub sp _) as [sp'|]; [|unfold on_fst; done].
  destruct (sp' <? sw_bottom w); [unfold on_fst; done|].
  pose proof (writes sp' d w) as Hw. by destruct (sw_write sp' d w) as [[] w'].
Qed.

Lemma push_cstr_preserves s : preserves on_fst (push_cstr s).
Proof. pose proof on_fst_pre. pose proof push_bytes_preserves. unfold push_cstr. preserves_tac. Qed.

Lemma align_pusher_preserves a : preserves on_fst (align_pusher a).
Proof. intros [w sp]. unfold align_pusher, on_fst. by destruct (align_sp sp a). Qed.

Lemma push_vector_preserves strs : preserves on_fst (push_vector strs).
Proof.
  pose proof on_fst_pre. pose proof push_cstr_preserves. unfold push_vector.
  assert (Hall : forall l, preserves on_fst (push_cstrs l)) by (induction l; cbn [push_cstrs]; preserves_tac).
  preserves_tac.
Qed.

Lemma push_blobs_preserves aux : preserves on_fst (push_blobs aux).
Proof.
  pose proof on_fst_pre. pose proof push_cstr_preserves. pose proof push_bytes_preserves. pose proof align_pusher_preserves.
  unfold push_blobs, push_execfn_random. preserves_tac.
Qed.

Lemma put_block_preserves argc argv_at envp_at av : preserves on_fst (put_block argc argv_at envp_at av).
Proof.
  assert (Hword : forall v, preserves on_fst (word v)).
  { intros v [w at_]. unfold word. pose proof (writes at_ (to_le_bytes 8 v) w) as Hw.
    destruct (sw_write _ _ w) as [[] w']; [|done|done]. by destruct (add64 at_ 8). }
  pose proof on_fst_pre. unfold put_block. preserves_tac.
Qed.

Lemma write_block_preserves argc argv_at envp_at av n :
  preserves on_fst (write_block argc argv_at envp_at av n).
Proof.
  intros [w psp]. unfold write_block. destruct (_ ≫= _) as [sp| |]; [|unfold on_fst; done|done].
  destruct (sp <? sw_bottom w); [unfold on_fst; done|].
  pose proof (put_block_preserves argc argv_at envp_at av (w, sp)) as Hp.
  by destruct (put_block _ _ _ _ _) as [[] [w' at_]].
Qed.

Lemma build_stack_preserves argv envp aux : preserves R (build_stack argv envp aux).
Proof.
  pose proof on_fst_pre. pose proof push_vector_preserves. pose proof push_blobs_preserves. pose proof write_block_preserves.
  assert (Hfrom : preserves on_fst (build_from argv envp aux)) by (unfold build_from; preserves_tac).
  intros w. unfold build_stack. destruct (_ ≫= _) as [psp| |]; [|done|done].
  specialize (Hfrom (w, psp)). by destruct (build_from argv envp aux (w, psp)) as [[] [w' sp']].
Qed.
End Stacks.
