(* ===== verification/AppFacts.v ===== *)
(** * Properties of the start of the unikernel *)

From Stdlib Require Import Strings.Byte.
From stdpp Require Import base numbers option strings sets list.
From S2P Require Import Prelude Err Util Elf ElfFacts TestImage Layout Loader VmSpec LoaderFacts Auxv AuxvFacts.
From S2P Require Import Program Frame Sys SysFacts App.

(** ** The command line *)

(** The command line is split the way it is documented: the kernel's
    name, and with a custom application name the program's too, are dropped from
    what the application sees; the program is the named one, the compiled-in
    path or the initrd; its [argv[0]] is the basename of its path, or for an
    initrd the name given.  A missing name or an empty path is [EINVAL]. *)
Theorem split_command_line_spec cfg args :
  match split_command_line cfg args with
  | Ok t =>
    exists dropped, args = dropped ++ t_rest t /\
    length dropped = (if flag (customappname cfg) then 2%nat else 1%nat) /\
    (if flag (vfsexec cfg)
     then t_progname t = basename (t_path t) /\
          (if flag (customappname cfg) then last dropped = Some (t_path t)
           else t_path t = cstr (vfsexec_path cfg) /\ t_path t <> [])
     else t_path t = initrd_path /\ last dropped = Some (t_progname t))
  | Err e => e = EINVAL /\
    ((length args < if flag (customappname cfg) then 2 else 1)%nat \/
     (flag (customappname cfg) = false /\ flag (vfsexec cfg) = true /\ cstr (vfsexec_path cfg) = []))
  | Panic => False
  end.
Proof.
  unfold split_command_line, flag. destruct (negb (customappname cfg =? 0)).
  - destruct args as [|a0 [|a1 rest]]; cbn; [split; [done|left; lia]|split; [done|left; lia]|].
    destruct (vfsexec cfg =? 0); cbn; exists [a0; a1]; done.
  - destruct args as [|a0 rest]; cbn; [split; [done|left; lia]|].
    destruct (vfsexec cfg =? 0) eqn:Hv; cbn; [by exists [a0]|].
    destruct (cstr (vfsexec_path cfg)) eqn:Hp; cbn; [split; [done|by right]|].
    exists [a0]. done.
Qed.

(** ** Opening through the file system *)

(** What the shim promises of descriptors: opening one gives a new descriptor
    that reads a file, closing it forgets it, and both leave the others alone. *)
Class VfsLaws (S : Type) {vfs : Vfs S} : Type := {
  vfs_inv : S -> Prop;
  contents : S -> Z -> option (list byte);
  law_open s c : vfs_inv s -> let '(fd, s') := elfrs_open_ro c s in
    vfs_inv s' /\
    if decide (fd < 0) then - 2 ^ 31 < fd /\ forall g, contents s' g = contents s g
    else contents s fd = None /\
      exists d, Z.of_nat (length d) < 2 ^ 63 /\
        forall g, contents s' g = if decide (g = fd) then Some d else contents s g;
  law_close s fd : vfs_inv s -> vfs_inv (elfrs_close fd s) /\
    forall g, contents (elfrs_close fd s) g = if decide (g = fd) then None else contents s g;
  law_pread s fd d : vfs_inv s -> contents s fd = Some d -> pread_ok s fd d;
  law_fsize s fd d : vfs_inv s -> contents s fd = Some d -> elfrs_fsize fd s = Z.of_nat (length d);
  law_fd_exec s fd : vfs_inv s -> - 2 ^ 31 < elfrs_fd_is_exec fd s
}.

Section Opening.
Context {S : Type} {vfs : Vfs S} {flaws : VfsLaws S} {heap : Heap} (cfg : Cfg).

Definition same_files (s s' : S) : Prop := vfs_inv s -> vfs_inv s' /\ forall g, contents s' g = contents s g.

#[local] Instance same_files_pre : PreOrder same_files.
Proof.
  split; [by intros s|]. intros s1 s2 s3 H1 H2 Hi. destruct (H1 Hi) as [Hi2 Hc1]. destruct (H2 Hi2) as [Hi3 Hc2].
  split; [done|]. intros g. by rewrite Hc2.
Qed.

(** An open file: a new descriptor for a file whose size is known. *)
Definition file_opened (path : list byte) (s : S) (f : FileH) (s' : S) : Prop :=
  elfrs_open_ro (path ++ [x00]) s = (fh_fd f, s') /\ (x00 ∉ path) /\ vfs_inv s' /\ contents s (fh_fd f) = None /\
  exists d, Z.of_nat (length d) < 2 ^ 63 /\ fh_size f = Some (Z.of_nat (length d)) /\
    forall g, contents s' g = if decide (g = fh_fd f) then Some d else contents s g.

Lemma CString_new_total s : Z.of_nat (length s) + 1 < 2 ^ 64 -> CString_new s <> Panic.
Proof.
  intros Hl. unfold CString_new. destruct (bool_decide _); [done|]. rewrite add64_small by done.
  cbn [mbind outcome_bind]. by destruct (negb _).
Qed.

Lemma File_open_wp path s :
  vfs_inv s -> Z.of_nat (length path) + 1 < 2 ^ 64 ->
  wp (File_open path) (file_opened path s) (same_files s) s.
Proof.
  intros Hi Hlen. unfold File_open. wp_step. apply wp_lift; [by apply CString_new_total| |done].
  intros c [-> Hno]%CString_new_Ok. wp_step. unfold wp at 1. pose proof (law_open s (path ++ [x00]) Hi) as Hop.
  destruct (elfrs_open_ro (path ++ [x00]) s) as [fd s'] eqn:Ho. destruct Hop as [Hi' Hop].
  destruct (Z.ltb_spec fd 0) as [Hneg|Hpos].
  - rewrite decide_True in Hop by done. destruct Hop as [Hfd Hs]. wp_step.
    apply (wp_lift_Ok _ (- fd)); [|done]. unfold neg. by rewrite (proj2 (Z.eqb_neq _ _)) by (cbn; lia).
  - rewrite decide_False in Hop by lia. destruct Hop as (Hnew & d & Hd & Hs).
    wp_step. unfold gets, wp at 1. apply wp_ret.
    rewrite (law_fsize s' fd d) by (done || by rewrite Hs, decide_True). rewrite (proj2 (Z.leb_le _ _)) by lia.
    split; [done|]. split; [done|]. split; [done|]. split; [done|]. by exists d.
Qed.

(** A path too long for a string panics or is refused; the rest is as above. *)
Lemma File_open_cases path s :
  vfs_inv s ->
  match File_open path s with
  | (Ok f, s') => file_opened path s f s'
  | (Err _, s') => same_files s s'
  | (Panic, _) => True
  end.
Proof.
  intros Hi. destruct (Z.lt_ge_cases (Z.of_nat (length path) + 1) (2 ^ 64)) as [Hlen|Hlen].
  - pose proof (File_open_wp path s Hi Hlen) as H. unfold wp in H. by destruct (File_open path s) as [[] s'].
  - unfold File_open, CString_new, mbind, stM_bind, lift. destruct (bool_decide _); [done|].
    unfold add64. by rewrite (proj2 (Z.ltb_ge _ _)).
Qed.

(** What [VfsOpener] returns, and what it leaves when it refuses. *)
Record opened_ok (path : list byte) (s : S) (o : Opened S) (s' : S) (fd : Z) (d : list byte) : Prop := {
  op_asked : elfrs_open_ro (path ++ [x00]) s = (fd, s') /\ x00 ∉ path;
  op_inv : vfs_inv s';
  op_new : contents s fd = None;
  op_open : forall g, contents s' g = if decide (g = fd) then Some d else contents s g;
  op_serves : serves (o_src o) d;
  op_size : size (o_src o) = Some (Z.of_nat (length d));
  op_fd : o_fd o = if flag (have_mmap cfg) then Some fd else None;
  op_drop : forall s2, o_drop o s2 = elfrs_close fd s2
}.

Lemma file_opened_ok path s f s' :
  file_opened path s f s' -> exists d, opened_ok path s (opened_file cfg s' f) s' (fh_fd f) d.
Proof.
  destruct f as [fd sz]. intros (Ho & Hno & Hi & Hnew & d & Hd & Hsz & Hs). cbn in *. subst sz. exists d.
  split; try done. cbn. apply file_serves; [|done]. apply law_pread; [done|]. by rewrite Hs, decide_True.
Qed.

Lemma close_restores path s f s1 s2 :
  file_opened path s f s1 -> same_files s1 s2 -> same_files s (elfrs_close (fh_fd f) s2).
Proof.
  intros (_ & _ & Hi & Hnew & d & _ & _ & Hs) H2 _. destruct (H2 Hi) as [Hi2 Hc2].
  destruct (law_close s2 (fh_fd f) Hi2) as [Hi3 Hc3]. split; [done|]. intros g. rewrite Hc3, Hc2, Hs.
  by case_decide; [subst|].
Qed.

Lemma opener_wp path s :
  vfs_inv s -> Z.of_nat (length path) + 1 < 2 ^ 64 ->
  wp (VfsOpener cfg path)
    (fun o s' => exists fd d, opened_ok path s o s' fd d /\
       (flag (execbit cfg) = true -> 0 <= elfrs_fd_is_exec fd s'))
    (same_files s) s.
Proof.
  intros Hi Hlen. unfold VfsOpener. wp_step. wp_by (File_open_wp path s Hi Hlen); [|done]. intros f s' Hf.
  assert (Hi' : vfs_inv s') by apply Hf.
  wp_step. apply wp_on_err. unfold check_exec_bit. destruct (flag (execbit cfg)); cbn [negb].
  - wp_step. unfold gets at 1, wp at 1. wp_step.
    pose proof (law_fd_exec s' (fh_fd f) Hi') as Hx. apply wp_lift.
    + unfold from_c. case_match; [|done]. by rewrite (proj2 (Z.eqb_neq _ _)) by lia.
    + intros rc Hrc. apply wp_ret. unfold gets, wp.
      destruct (file_opened_ok path s f s' Hf) as [d Hd]. exists (fh_fd f), d. split; [done|]. intros _.
      unfold from_c in Hrc. destruct (Z.ltb_spec (elfrs_fd_is_exec (fh_fd f) s') 0); [|done]. by case_match.
    + intros e _. unfold wp, does. by apply (close_restores path s f s').
  - apply wp_ret. unfold gets, wp. destruct (file_opened_ok path s f s' Hf) as [d Hd]. by exists (fh_fd f), d.
Qed.

Lemma binfmt_opener_wp path s :
  vfs_inv s -> Z.of_nat (length path) + 1 < 2 ^ 64 ->
  wp (binfmt_opener cfg path) (fun o s' => exists fd d, opened_ok path s o s' fd d) (same_files s) s.
Proof.
  intros Hi Hlen. unfold binfmt_opener. wp_step. wp_by (File_open_wp path s Hi Hlen); [|done]. intros f s' Hf.
  unfold gets, wp. destruct (file_opened_ok path s f s' Hf) as [d Hd]. by exists (fh_fd f), d.
Qed.

(** C35. What [VfsOpener] opens is the file at the path: the system is asked
    for exactly that path, the source it returns serves the bytes of the file
    behind the new descriptor and knows its size, the descriptor is handed on only
    where files can be mapped, with [execbit] set the file is executable, and
    dropping what was opened closes it.  When it fails -- also when the file opens
    but is not executable -- no descriptor stays open. *)
Theorem vfs_opener_serves path s :
  vfs_inv s -> Z.of_nat (length path) + 1 < 2 ^ 64 ->
  match VfsOpener cfg path s with
  | (Ok o, s') => exists fd d, opened_ok path s o s' fd d /\
      (flag (execbit cfg) = true -> 0 <= elfrs_fd_is_exec fd s') /\
      forall s2, same_files s' s2 -> same_files s (o_drop o s2)
  | (Err _, s') => same_files s s'
  | (Panic, _) => False
  end.
Proof.
  intros Hi Hlen. pose proof (opener_wp path s Hi Hlen) as H. unfold wp in H.
  destruct (VfsOpener cfg path s) as [[o|e|] s']; [|done|done]. destruct H as (fd & d & Ho & Hx).
  exists fd, d. split; [done|]. split; [done|]. intros s2 H2 _. destruct Ho as [_ Hi' Hnew Hopen _ _ _ ->].
  destruct (H2 Hi') as [Hi2 Hc2]. destruct (law_close s2 fd Hi2) as [Hi3 Hc3]. split; [done|].
  intros g. rewrite Hc3, Hc2, Hopen. by case_decide; [subst|].
Qed.

(** Opening and dropping leaves the descriptors as they were. *)
Lemma vfs_brackets path s : vfs_inv s -> brackets_at same_files (VfsOpener cfg path) s.
Proof.
  intros Hi. unfold brackets_at, VfsOpener, mbind, stM_bind, on_err. pose proof (File_open_cases path s Hi) as Hf.
  destruct (File_open path s) as [[f|e|] s1]; [|done|done].
  assert (Hx : (check_exec_bit cfg f s1).2 = s1).
  { unfold check_exec_bit, mbind, stM_bind, gets, lift. destruct (negb _); [done|]. by destruct (from_c _). }
  destruct (check_exec_bit cfg f s1) as [[[]|e|] s2]; cbn in Hx; subst s2; [| |done].
  - cbn. intros s2. by apply (close_restores path s f s1).
  - cbn. by apply (close_restores path s f s1).
Qed.

Lemma binfmt_brackets path s : vfs_inv s -> brackets_at same_files (binfmt_opener cfg path) s.
Proof.
  intros Hi. unfold brackets_at, binfmt_opener, mbind, stM_bind. pose proof (File_open_cases path s Hi) as Hf.
  destruct (File_open path s) as [[f|e|] s1]; [|done|done]. cbn. intros s2. by apply (close_restores path s f s1).
Qed.
End Opening.

Definition demo_cfg : Cfg :=
  MkCfg 65536 4096 0 0 1 1 1 1 1 0 1 1 1 0 1 0 None 0.

(** A machine whose state is the list of its open descriptors, all on one file. *)
Definition one_file (data : list byte) : Vfs (list Z) := {|
  elfrs_open_ro := fun _ s => (1 + foldr Z.max 0 s, 1 + foldr Z.max 0 s :: s);
  elfrs_close := fun fd s => filter (fun g => g <> fd) s;
  elfrs_fsize := fun _ _ => Z.of_nat (length data);
  elfrs_pread := fun fd len off s => elfrs_pread (Vfs:=stingy_vfs data) fd len off s;
  elfrs_fd_is_exec := fun _ _ => 0;
  elfrs_path_is_exec := fun _ _ => 0
|}.

Lemma foldr_max_bound (s : list Z) t : t ∈ s -> t <= foldr Z.max 0 s.
Proof.
  induction s as [|x s IH]; intros Ht; [by apply not_elem_of_nil in Ht|]. cbn.
  apply elem_of_cons in Ht as [->|Ht]; [lia|]. specialize (IH Ht). lia.
Qed.

Lemma foldr_max_pos (s : list Z) : 0 <= foldr Z.max 0 s.
Proof. induction s; cbn; lia. Qed.

Definition one_file_laws data : Z.of_nat (length data) < 2 ^ 63 -> VfsLaws (list Z) (vfs:=one_file data).
Proof.
  intros Hd. refine {| vfs_inv := fun _ => True; contents := fun s fd => if decide (fd ∈ s) then Some data else None |}; cbn.
  - intros s c _. pose proof (foldr_max_pos s). split; [done|]. rewrite decide_False by lia. split.
    + rewrite decide_False; [done|]. intros Hin%foldr_max_bound. lia.
    + exists data. split; [done|]. intros g. repeat case_decide; rewrite ?elem_of_cons in *; naive_solver.
  - intros s fd _. split; [done|]. intros g. repeat case_decide; rewrite ?list_elem_of_filter in *; naive_solver.
  - intros s fd d _. case_decide; [|done]. intros [= <-]. by destruct (stingy_pread data s fd).
  - intros s fd d _. case_decide; [|done]. by intros [= <-].
  - done.
Defined.

Lemma vfs_opener_serves_witness : exists o,
  VfsOpener (heap:=plenty) (vfs:=one_file mini_bytes) demo_cfg [x2f; x61] [7] = (Ok o, [8; 7]) /\
  serves (o_src o) mini_bytes /\ o_fd o = Some 8.
Proof.
  eexists. split; [reflexivity|].
  pose proof (vfs_opener_serves (vfs:=one_file mini_bytes) (flaws:=one_file_laws mini_bytes eq_refl) (heap:=plenty)
    demo_cfg [x2f; x61] [7] I eq_refl) as (fd & d & [[Hfd _] _ _ Hopen Hs _ Hofd _] & _).
  injection Hfd as <-. specialize (Hopen 8). cbn in Hopen. injection Hopen as <-. split; [exact Hs|exact Hofd].
Defined.

(** ** Resources of a start *)

(** What the shim promises of threads: which are alive changes only when one is
    created or released. *)
Class ThreadLaws (S : Type) {memory : Memory S} {threads : Threads S} {vfs : Vfs S} : Type := {
  live : S -> Z -> Prop;
  same_threads (s s' : S) : Prop := forall t, live s' t <-> live s t;
  law_create s name len :
    match elfrs_thread_create name len s with
    | (Ok p, s') => if decide (p = 0) then same_threads s s'
                    else ~ live s p /\ forall t, live s' t <-> live s t \/ t = p
    | (Err _, _) => False
    | (Panic, _) => True
    end;
  law_release s p t : live (elfrs_thread_release p s) t <-> live s t /\ t <> p;
  law_thread_ctx p : preserves same_threads (elfrs_thread_ctx p);
  law_stack_base p : preserves same_threads (elfrs_thread_stack_base p);
  law_get_sp c : preserves same_threads (elfrs_ctx_get_sp c);
  law_ctx_init c sp ip : preserves same_threads (elfrs_ctx_init c sp ip);
  law_runnable p : preserves same_threads (elfrs_thread_set_runnable p);
  law_pthread s p : same_threads s (elfrs_thread_make_pthread p s).2;
  law_schedule p : preserves same_threads (elfrs_thread_schedule p);
  law_chdir s c : same_threads s (elfrs_chdir c s).2;
  law_live_open s c : same_threads s (elfrs_open_ro c s).2;
  law_live_close s fd : same_threads s (elfrs_close fd s);
  law_live_map s a l p k fd off r : same_threads s (elfrs_map a l p k fd off r s).2;
  law_live_unmap s a l : same_threads s (elfrs_unmap a l s).2;
  law_live_protect s a l p : same_threads s (elfrs_protect a l p s).2;
  law_live_memalign s a l : same_threads s (elfrs_memalign a l s).2;
  law_live_free s a : same_threads s (elfrs_free a s);
  law_live_icache s a l : same_threads s (elfrs_icache_sync a l s);
  law_live_store s a d : same_threads s (mem_store a d s)
}.

(** ** Relations the shim respects *)

Section Respect.
Context {S : Type} {memory : Memory S} (R : S -> S -> Prop) {pre : PreOrder R}.
Context {heap : Heap} {target : Target} {vfs : Vfs S} {proc : Process} (cfg : Cfg).

Record memory_respects : Prop := {
  mr_map : forall s a l p k fd off r, R s (elfrs_map a l p k fd off r s).2;
  mr_unmap : forall s a l, R s (elfrs_unmap a l s).2;
  mr_protect : forall s a l p, R s (elfrs_protect a l p s).2;
  mr_memalign : forall s a l, R s (elfrs_memalign a l s).2;
  mr_free : forall s a, R s (elfrs_free a s);
  mr_icache : forall s a l, R s (elfrs_icache_sync a l s);
  mr_store : forall s a d, R s (mem_store a d s)
}.

Hypothesis mr : memory_respects.

Lemma from_rc_preserves (m : S -> Z * S) : (forall s, R s (m s).2) -> preserves R (from_rc m).
Proof.
  intros Hm s. unfold from_rc. specialize (Hm s). destruct (m s) as [rc s'].
  cbn in Hm. by destruct (from_c rc ≫= _).
Qed.

Lemma uk_preserves : vm_preserves (vm:=app_vm cfg) R.
Proof.
  destruct mr as [Hmap Hunmap Hprot Hmem Hfree Hic Hst].
  split; cbn [app_vm UkVm vm_map vm_unmap vm_protect vm_write vm_zero vm_icache_sync vm_alloc_aligned vm_free_aligned].
  - intros w len prot src s. unfold uk_map.
    destruct (match w with Anywhere => _ | Hint _ => _ | Exact _ => _ end) as [addr replace].
    destruct (match src with Anon => _ | File _ _ => _ end) as [[kind fd] off].
    specialize (Hmap s addr len prot kind fd off replace).
    destruct (elfrs_map _ _ _ _ _ _ _ s) as [[got err] s']. cbn [snd] in Hmap.
    destruct (got =? 0); [|done]. by destruct (_ ≫= _).
  - intros a len. by apply from_rc_preserves.
  - intros a len prot. by apply from_rc_preserves.
  - intros a d s. apply Hst.
  - intros a len s. apply Hst.
  - intros a len s. apply Hic.
  - intros align len s. unfold uk_alloc_aligned. specialize (Hmem s align len).
    destruct (elfrs_memalign align len s) as [p s']. cbn [snd] in Hmem. by destruct (p =? 0).
  - intros a len s. apply Hfree.
Qed.

Lemma gets_preserves {A} (f : S -> A) : preserves R (gets f).
Proof. by apply preserves_pure; [exact _|]. Qed.

Lemma does_preserves (f : S -> S) : (forall s, R s (f s)) -> preserves R (does f).
Proof. intros Hf s. apply Hf. Qed.

Lemma unload_program_preserves p : preserves R (program_unload (vm:=app_vm cfg) p).
Proof. apply program_unload_preserves; [exact _|apply uk_preserves]. Qed.

Lemma open_program_preserves (o : Opener S) path :
  (forall p, brackets R (open p)) -> preserves R (load_program (vm:=app_vm cfg) (opener:=o) path).
Proof. intros Ho. apply load_program_preserves; [exact _|apply uk_preserves|done]. Qed.

(** An opener over files whose opening and closing respect the relation. *)
Record files_respect : Prop := {
  fr_open : forall s c, R s (elfrs_open_ro c s).2;
  fr_close : forall s fd, R s (elfrs_close fd s)
}.

Lemma File_open_preserves path : files_respect -> preserves R (File_open path).
Proof.
  intros [Ho _]. pose proof (@gets_preserves). unfold File_open.
  assert (Hop : forall c, preserves R (fun s => let '(fd, s') := elfrs_open_ro c s in (Ok fd, s'))).
  { intros c s. specialize (Ho s c). by destruct (elfrs_open_ro c s) as [fd s']. }
  preserves_tac.
Qed.

Lemma vfs_opener_preserves p : files_respect -> preserves R (VfsOpener cfg p).
Proof.
  intros Hf. pose proof (File_open_preserves p Hf). destruct Hf as [_ Hc]. pose proof (@gets_preserves).
  assert (forall f, preserves R (does (File_drop f))) by (intros f; apply does_preserves; intros s; apply Hc).
  unfold VfsOpener, check_exec_bit. preserves_tac.
Qed.

Lemma binfmt_opener_preserves p : files_respect -> preserves R (binfmt_opener cfg p).
Proof.
  intros Hf. pose proof (File_open_preserves p Hf). pose proof (@gets_preserves). unfold binfmt_opener. preserves_tac.
Qed.

Lemma vfs_opener_respects p : files_respect -> brackets R (VfsOpener cfg p).
Proof.
  intros Hf. pose proof Hf as [_ Hc]. apply brackets_of; [exact _|by apply vfs_opener_preserves|].
  intros s o s1 s2 (f & s3 & _ & (u & s4 & _ & [= <- _])%st_bind_Ok)%st_bind_Ok. apply Hc.
Qed.

Lemma binfmt_opener_respects p : files_respect -> brackets R (binfmt_opener cfg p).
Proof.
  intros Hf. pose proof Hf as [_ Hc]. apply brackets_of; [exact _|by apply binfmt_opener_preserves|].
  intros s o s1 s2 (f & s3 & _ & [= <- _])%st_bind_Ok. apply Hc.
Qed.

Lemma initrd_opener_respects mem base len p : brackets R (InitrdOpener mem base len p).
Proof.
  apply brackets_of; [exact _| |]; unfold InitrdOpener; destruct (negb _).
  - apply preserves_fail. done.
  - apply preserves_ret. done.
  - done.
  - by intros s o s1 s2 [= <- _].
Qed.

Lemma build_app_stack_preserves lo hi argv envp aux : preserves R (build_app_stack lo hi argv envp aux).
Proof.
  set (R' := fun w w' : AppStack S => R (as_state w) (as_state w')).
  assert (Hpre : PreOrder R') by (unfold R'; split; [by intros w|]; intros w1 w2 w3 H1 H2; by etrans).
  assert (Hb : preserves R' (build_stack argv envp aux)).
  { apply build_stack_preserves; [exact Hpre|]. intros a d w. cbn [sw_write AppStack_writer]. unfold app_write.
    destruct (_ || _); unfold R'; [done|]. apply mr. }
  intros s. unfold build_app_stack. specialize (Hb (MkAppStack lo hi s)).
  by destruct (build_stack _ _ _ _) as [[] w'].
Qed.
End Respect.

Section Resources.
Context {S : Type} {memory : Memory S} {threads : Threads S} {vfs : Vfs S} {tlaws : ThreadLaws S}.
Context {heap : Heap} {target : Target} {proc : Process} (cfg : Cfg).

#[local] Instance same_threads_pre : PreOrder same_threads.
Proof. split; [by intros s t|]. intros s1 s2 s3 H1 H2 t. by rewrite (H2 t), (H1 t). Qed.

Abbreviation keeps := (preserves same_threads).

Lemma memory_keeps : memory_respects same_threads.
Proof.
  split; intros; [apply law_live_map|apply law_live_unmap|apply law_live_protect|
    apply law_live_memalign|apply law_live_free|apply law_live_icache|apply law_live_store].
Qed.

Lemma files_keep : files_respect same_threads.
Proof. split; intros; [apply law_live_open|apply law_live_close]. Qed.

Lemma or_unload_keeps p (m : stM Error S Z) : keeps m -> keeps (or_unload cfg p m).
Proof.
  intros Hm. pose proof (unload_program_preserves same_threads cfg memory_keeps p).
  unfold or_unload. preserves_tac.
Qed.

Lemma load_target_keeps t : keeps (load_target cfg t).
Proof.
  pose proof (open_program_preserves same_threads cfg memory_keeps (VfsOpener cfg) (t_path t)
    (fun p => vfs_opener_respects same_threads cfg p files_keep)).
  assert (forall mem base len, keeps (load_program (vm:=app_vm cfg) (opener:=InitrdOpener mem base len) initrd_path))
    by (intros; apply open_program_preserves; [exact _|apply memory_keeps|intros; apply initrd_opener_respects; exact _]).
  pose proof (@gets_preserves S same_threads _). unfold load_target. preserves_tac.
Qed.

Lemma set_cwd_keeps : keeps (set_cwd cfg).
Proof.
  assert (Hc : forall c, keeps (from_rc (elfrs_chdir c)))
    by (intros c; apply from_rc_preserves; intros s; apply law_chdir).
  unfold set_cwd, chdir. preserves_tac.
Qed.

Lemma launch_keeps t thread p : keeps (launch cfg t thread p).
Proof.
  pose proof (unload_program_preserves same_threads cfg memory_keeps p).
  pose proof (build_app_stack_preserves same_threads memory_keeps).
  pose proof law_thread_ctx. pose proof law_stack_base. pose proof law_get_sp.
  pose proof law_ctx_init. pose proof law_runnable.
  assert (forall c, keeps (or_unload cfg p (returns (elfrs_thread_make_pthread c)))).
  { intros c. apply or_unload_keeps. intros s. unfold returns. pose proof (law_pthread s c) as Hp.
    by destruct (elfrs_thread_make_pthread c s). }
  assert (forall c, keeps (or_unload cfg p (elfrs_thread_schedule c)))
    by (intros c; apply or_unload_keeps; apply law_schedule).
  unfold launch. preserves_tac.
Qed.

(** The thread that was started is the one that was created. *)
Lemma launch_thread t thread p s st s' : launch cfg t thread p s = (Ok st, s') -> st_thread st = thread.
Proof.
  unfold launch. intros (ctx & s1 & _ & H)%st_bind_Ok. apply st_bind_Ok in H as (lo & s2 & _ & H).
  apply st_bind_Ok in H as (hi & s3 & _ & H). destruct (hi <=? lo).
  { apply st_bind_Ok in H as (u & s4 & _ & H). done. }
  apply st_bind_Ok in H as (n & s4 & _ & H). destruct (negb _); [done|].
  apply st_bind_Ok in H as (aux & s5 & _ & H). apply st_bind_Ok in H as (l & s6 & _ & H).
  apply st_bind_Ok in H as (? & s7 & _ & H). apply st_bind_Ok in H as (? & s8 & _ & H).
  apply st_bind_Ok in H as (? & s9 & _ & H). apply st_bind_Ok in H as (? & s10 & _ & H).
  by injection H as <- _.
Qed.

(** A start that fails leaves no thread behind: whatever goes wrong after
    the application's thread was created -- the working directory, the program,
    its interpreter, the stack, the scheduler -- the thread is released; and a
    start that succeeds leaves exactly the one it started, which was not alive
    before. *)
Theorem run_threads args s :
  match run cfg args s with
  | (Ok st, s') => ~ live s (st_thread st) /\ forall t, live s' t <-> live s t \/ t = st_thread st
  | (Err _, s') => forall t, live s' t <-> live s t
  | (Panic, _) => True
  end.
Proof.
  unfold run. unfold mbind at 1, stM_bind at 1, lift at 1.
  destruct (split_command_line cfg args) as [t|e|]; [|done|done]. cbv zeta.
  unfold mbind at 1, stM_bind at 1, gets at 1.
  unfold mbind at 1, stM_bind at 1, lift at 1. destruct (CString_new _) as [cname|e|]; [|done|done].
  unfold mbind at 1, stM_bind at 1. pose proof (law_create s cname (stack_len cfg)) as Hc.
  destruct (elfrs_thread_create cname (stack_len cfg) s) as [[p|e|] s1]; [|done|done].
  destruct (Z.eqb_spec p 0) as [->|Hp]; [done|]. rewrite decide_False in Hc by done. destruct Hc as [Hno Hs1].
  unfold guarded, on_err. match goal with |- context [match ?m s1 with _ => _ end] => set (body := m) end.
  assert (Hkeep : keeps body).
  { pose proof set_cwd_keeps. pose proof load_target_keeps. pose proof launch_keeps. unfold body. preserves_tac. }
  assert (Hthread : forall st s2, body s1 = (Ok st, s2) -> st_thread st = p).
  { unfold body. intros st s2 (u & s3 & _ & H)%st_bind_Ok. apply st_bind_Ok in H as (ld & s4 & _ & H).
    by apply launch_thread in H. }
  specialize (Hkeep s1). destruct (body s1) as [[st|e|] s2] eqn:Hbody; [| |done].
  - rewrite (Hthread st s2) by done. split; [done|]. intros x. by rewrite (Hkeep x).
  - cbn. intros x. rewrite law_release, (Hkeep x), Hs1. naive_solver.
Qed.
End Resources.

(** *** A machine without an initrd *)

(** Its state is the list of live threads; threads are numbered from one. *)
Definition demo_memory : Memory (list Z) := {|
  elfrs_map := fun _ _ _ _ _ _ _ s => ((0, 12), s);
  elfrs_unmap := fun _ _ s => (0, s);
  elfrs_protect := fun _ _ _ s => (0, s);
  elfrs_memalign := fun _ _ s => (0, s);
  elfrs_free := fun _ s => s;
  elfrs_icache_sync := fun _ _ s => s;
  mem_store := fun _ _ s => s
|}.

Definition demo_threads : Threads (list Z) := {|
  elfrs_thread_create := fun _ _ s => (Ok (1 + foldr Z.max 0 s), 1 + foldr Z.max 0 s :: s);
  elfrs_thread_release := fun p s => filter (fun t => t <> p) s;
  elfrs_thread_ctx := fun t => mret t;
  elfrs_thread_stack_base := fun _ => mret 0x7000;
  elfrs_ctx_get_sp := fun _ => mret 0x8000;
  elfrs_ctx_init := fun _ _ _ => mret tt;
  elfrs_thread_set_runnable := fun _ => mret tt;
  elfrs_thread_make_pthread := fun _ s => (0, s);
  elfrs_thread_schedule := fun _ => mret 0;
  elfrs_chdir := fun _ s => (0, s);
  elfrs_initrd := fun _ => (-2, 0, 0);
  mem_read := fun _ _ => x00
|}.

Abbreviation demo_vfs := (stingy_vfs (S:=list Z) mini_bytes).

Definition demo_thread_laws : ThreadLaws (list Z) (memory:=demo_memory) (threads:=demo_threads) (vfs:=demo_vfs).
Proof.
  refine {| live := fun s t => t ∈ s |}; cbn; try done.
  - intros s name len. pose proof (foldr_max_pos s). rewrite decide_False by lia. split.
    + intros Hin. apply foldr_max_bound in Hin. lia.
    + intros t. rewrite elem_of_cons. naive_solver.
  - intros s p t. rewrite list_elem_of_filter. naive_solver.
Defined.

Definition initrd_cfg : Cfg := MkCfg 65536 4096 0 0 0 0 1 1 1 0 0 0 0 0 0 0 None 0.

Definition demo_process : Process := {|
  elfrs_environ := None;
  elfrs_getenv := fun _ => None;
  elfrs_random_fill := fun n => (0, replicate (Z.to_nat n) x5a);
  elfrs_hwcap := 0;
  elfrs_hwcap2 := 0;
  elfrs_platform := None
|}.

Abbreviation demo_run := (run (memory:=demo_memory) (threads:=demo_threads) (heap:=plenty) (target:=x86_target)
  (vfs:=demo_vfs) (proc:=demo_process) initrd_cfg [[x6b]] [7]).

Lemma run_threads_witness : demo_run.1 = Err ENOENT /\ forall t, t ∈ demo_run.2 <-> t ∈ [7].
Proof.
  assert (He : demo_run.1 = Err ENOENT) by reflexivity. split; [exact He|].
  pose proof (run_threads (memory:=demo_memory) (threads:=demo_threads) (vfs:=demo_vfs) (tlaws:=demo_thread_laws)
    (heap:=plenty) (target:=x86_target) (proc:=demo_process) initrd_cfg [[x6b]] [7]) as H.
  destruct demo_run as [[st|e|] s']; [discriminate He|exact H|discriminate He].
Defined.

(** A refused argument vector ends the start with [ENOMEM] and without
    taking the program down: the state is the one in which it was loaded. *)
Theorem launch_oom_keeps_program {S} {memory : Memory S} {threads : Threads S} {heap : Heap} {target : Target}
    {proc : Process} cfg t thread p ctx lo hi (s : S) :
  elfrs_thread_ctx thread s = (Ok ctx, s) -> elfrs_thread_stack_base thread s = (Ok lo, s) ->
  elfrs_ctx_get_sp ctx s = (Ok hi, s) -> lo < hi ->
  Z.of_nat (length (t_rest t)) + 1 < 2 ^ 64 -> try_reserve (Z.of_nat (length (t_rest t)) + 1) = false ->
  launch cfg t thread p s = (Err ENOMEM, s).
Proof.
  intros Hctx Hlo Hhi Hst Hlen Hheap. unfold launch, mbind, stM_bind, lift. rewrite Hctx, Hlo, Hhi.
  rewrite (proj2 (Z.leb_gt _ _)) by lia. rewrite add64_small by done. by rewrite Hheap.
Qed.

Lemma launch_oom_keeps_program_witness :
  launch (memory:=demo_memory) (threads:=demo_threads) (heap:=fun n => negb (n =? 1)) (target:=x86_target)
    (proc:=demo_process) initrd_cfg (MkTarget initrd_path [x6b] []) 1
    (MkProgram mini_img (MkLoaded (MkLoadPlan 0 0 0 0 0 0 [] 0) false) None None) [1]
  = (Err ENOMEM, [1]).
Proof.
  apply (launch_oom_keeps_program (memory:=demo_memory) (threads:=demo_threads) (heap:=fun n => negb (n =? 1))
    (target:=x86_target) (proc:=demo_process)) with (ctx := 1) (lo := 0x7000) (hi := 0x8000); reflexivity.
Defined.
