(* ===== verification/Binfmt.v ===== *)
(** * The binfmt loader ([rust/src/binfmt.rs])

    How an [execve] from the guest reaches the loader, and who owns the program
    it loaded. *)

From Stdlib Require Import Strings.Byte.
From stdpp Require Import base numbers option strings sets list.
From S2P Require Import Prelude Err Util Elf ElfFacts TestImage Layout Loader Auxv Program Frame Sys SysFacts App AppFacts.

Definition HANDLED : Z := 0.
Definition NOT_HANDLED : Z := 1.

(** What the accessors of [struct uk_binfmt_loader_args] return. *)
Record BinArgs : Type := MkBinArgs {
  ba_pathname : option (list byte);
  ba_progname : option (list byte);
  ba_argc : Z;
  ba_argv : option (list (option (list byte)));
  ba_envc : Z;
  ba_envp : option (list (option (list byte)));
  ba_ctx : Z;
  ba_stack_size : Z
}.

(** The [user] field of the arguments: null or a boxed program. *)
Class UserSlot (S : Type) : Type := {
  elfrs_binfmt_set_user : option LoadedProgram -> S -> S;
  elfrs_binfmt_get_user : S -> option LoadedProgram
}.

Definition vec_from_c (p : option (list (option (list byte)))) (n : Z) : list (list byte) :=
  match p with
  | None => []
  | Some ps => if n <=? 0 then [] else cstr <$> take (Z.to_nat n) ps
  end.

Section Binfmt.
Context {S : Type} {memory : Memory S} {threads : Threads S} {slot : UserSlot S}.
Context {heap : Heap} {target : Target} {vfs : Vfs S} {proc : Process} (cfg : Cfg).

#[local] Instance bin_vm : Vm S := UkVm cfg.

Definition binfmt_load (args : BinArgs) : stM Error S Z :=
  let path := cstr (ba_pathname args) in
  let progname := match cstr (ba_progname args) with [] => basename path | p => p end in
  let argv := vec_from_c (ba_argv args) (ba_argc args) in
  let envp := vec_from_c (ba_envp args) (ba_envc args) in
  loaded ← load_program (opener:=binfmt_opener cfg) path;
  let ctx := ba_ctx args in
  sp_top ← elfrs_ctx_get_sp ctx;
  let stack_size := ba_stack_size args in
  if sp_top <? stack_size then
    _ ← program_unload loaded;
    fail EINVAL
  else
  lo ← lift (sub64 sp_top stack_size);
  let argv_ref := match argv with [] => [progname] | _ => argv end in
  aux ← lift (program_auxv loaded (system_environment cfg path));
  layout ← on_err (build_app_stack lo sp_top argv_ref envp aux) (program_unload loaded);
  _ ← elfrs_ctx_init ctx (sp layout) (program_entry loaded);
  _ ← does (elfrs_binfmt_set_user (Some loaded));
  mret HANDLED.

(** The code handed to C. *)
Definition elfrs_binfmt_load (args : BinArgs) : stM Error S Z := fun s =>
  match binfmt_load args s with
  | (Err e, s') => if bool_decide (e = ENOEXEC) then (Ok NOT_HANDLED, s') else (as_neg e, s')
  | r => r
  end.

Definition elfrs_binfmt_unload : stM Error S Z :=
  user ← gets elfrs_binfmt_get_user;
  match user with
  | None => mret HANDLED
  | Some loaded =>
    _ ← program_unload loaded;
    _ ← does (elfrs_binfmt_set_user None);
    mret HANDLED
  end.
End Binfmt.

(** ** Ownership *)

(** Only [set_user] changes who owns a program. *)
Class SlotLaws (S : Type) {memory : Memory S} {threads : Threads S} {vfs : Vfs S} {slot : UserSlot S} : Type := {
  same_user (s s' : S) : Prop := elfrs_binfmt_get_user s' = elfrs_binfmt_get_user s;
  law_user s u : elfrs_binfmt_get_user (elfrs_binfmt_set_user u s) = u;
  law_user_sp c : preserves same_user (elfrs_ctx_get_sp c);
  law_user_ctx c sp ip : preserves same_user (elfrs_ctx_init c sp ip);
  law_user_memory : memory_respects same_user;
  law_user_files : files_respect same_user
}.

Section Ownership.
Context {S : Type} {memory : Memory S} {threads : Threads S} {vfs : Vfs S} {slot : UserSlot S} {slaws : SlotLaws S}.
Context {heap : Heap} {target : Target} {proc : Process} (cfg : Cfg).

#[local] Instance same_user_pre : PreOrder same_user.
Proof. unfold same_user. split; [by intros s|]. intros s1 s2 s3 H1 H2. congruence. Qed.

(** Programs that end by handing a program over, and fail owning what they did. *)
Definition hands_over (m : stM Error S Z) : Prop := forall s,
  match m s with
  | (Ok rc, s') => rc = HANDLED /\ is_Some (elfrs_binfmt_get_user s')
  | (Err _, s') => same_user s s'
  | (Panic, _) => True
  end.

Lemma hands_over_bind {A} (m : stM Error S A) (f : A -> stM Error S Z) :
  preserves same_user m -> (forall a, hands_over (f a)) -> hands_over (m ≫= f).
Proof.
  intros Hm Hf s. unfold mbind, stM_bind. specialize (Hm s). destruct (m s) as [[a|e|] s1]; [|done|done].
  specialize (Hf a s1). destruct (f a s1) as [[] s2]; [done|by etrans|done].
Qed.

Lemma hands_over_fail e : hands_over (fail e).
Proof. intros s. by cbn. Qed.

Lemma hands_over_end p : hands_over (_ ← does (elfrs_binfmt_set_user (Some p)); mret HANDLED).
Proof. intros s. unfold mbind, stM_bind, does, mret, stM_ret. rewrite law_user. eauto. Qed.

Lemma binfmt_load_hands_over args : hands_over (binfmt_load cfg args).
Proof.
  pose proof (open_program_preserves same_user cfg law_user_memory) as Hload.
  pose proof (unload_program_preserves same_user cfg law_user_memory) as Hun.
  pose proof (build_app_stack_preserves same_user law_user_memory) as Hstack.
  unfold binfmt_load. cbv zeta. apply hands_over_bind.
  { apply Hload. intros p. apply binfmt_opener_respects; [exact _|apply law_user_files]. }
  intros p. apply hands_over_bind; [apply law_user_sp|]. intros top. destruct (top <? ba_stack_size args).
  { apply hands_over_bind; [apply Hun|]. intros _. apply hands_over_fail. }
  apply hands_over_bind; [preserves_tac|]. intros lo.
  apply hands_over_bind; [preserves_tac|]. intros aux.
  apply hands_over_bind; [apply preserves_on_err; [exact _|apply Hstack|apply Hun]|]. intros layout.
  apply hands_over_bind; [apply law_user_ctx|]. intros _.
  apply hands_over_end.
Qed.

(** Unloading through the shim does not fail. *)
Lemma uk_unload_no_err l s e s' : unload (vm:=bin_vm cfg) l s <> (Err e, s').
Proof.
  unfold unload. destruct (allocated l); [done|]. unfold ignore.
  by destruct (vm_unmap _ _ s) as [[] ?].
Qed.

Lemma program_unload_no_err p s e s' : program_unload (vm:=bin_vm cfg) p s <> (Err e, s').
Proof.
  unfold program_unload, mbind, stM_bind. pose proof (uk_unload_no_err (main p)) as Hm.
  destruct (interp_image p) as [[ii il]|]; [|apply Hm].
  pose proof (uk_unload_no_err il s) as Hi. destruct (unload il s) as [[u|e1|] s1]; [apply Hm| |done].
  by destruct (Hi e1 s1).
Qed.

(** C33. A program loaded for [execve] has exactly one owner.  When loading
    succeeds the arguments own a program and the answer is [HANDLED]; when it
    fails they own what they owned before -- the program was taken down -- and
    [ENOEXEC] alone is answered [NOT_HANDLED], any other error by its negation.
    Unloading leaves them owning nothing, so that a second unload does nothing. *)
Theorem binfmt_ownership args s :
  match binfmt_load cfg args s with
  | (Ok rc, s') => rc = HANDLED /\ is_Some (elfrs_binfmt_get_user s') /\
                   elfrs_binfmt_load cfg args s = (Ok HANDLED, s')
  | (Err e, s') => elfrs_binfmt_get_user s' = elfrs_binfmt_get_user s /\
                   elfrs_binfmt_load cfg args s =
                     (if bool_decide (e = ENOEXEC) then Ok NOT_HANDLED else as_neg e, s')
  | (Panic, _) => True
  end /\
  match elfrs_binfmt_unload cfg s with
  | (Ok rc, s') => rc = HANDLED /\ elfrs_binfmt_get_user s' = None /\
                   elfrs_binfmt_unload cfg s' = (Ok HANDLED, s')
  | (Err _, _) => False
  | (Panic, _) => True
  end.
Proof.
  split.
  - pose proof (binfmt_load_hands_over args s) as H. unfold elfrs_binfmt_load.
    destruct (binfmt_load cfg args s) as [[rc|e|] s']; [|split; [done|by case_bool_decide]|done].
    destruct H as [-> Hu]. done.
  - unfold elfrs_binfmt_unload, gets, does, mbind, stM_bind, mret, stM_ret.
    destruct (elfrs_binfmt_get_user s) as [p|] eqn:Hu; [|by rewrite Hu].
    pose proof (program_unload_no_err p s) as He.
    destruct (program_unload p s) as [[u|e|] s1]; [|by destruct (He e s1)|done].
    rewrite law_user. done.
Qed.
End Ownership.

(** *** A machine that remembers the owner *)

Definition slot_memory : Memory (option LoadedProgram) := {|
  elfrs_map := fun _ _ _ _ _ _ _ s => ((0, 12), s);
  elfrs_unmap := fun _ _ s => (0, s);
  elfrs_protect := fun _ _ _ s => (0, s);
  elfrs_memalign := fun _ _ s => (0, s);
  elfrs_free := fun _ s => s;
  elfrs_icache_sync := fun _ _ s => s;
  mem_store := fun _ _ s => s
|}.

Definition slot_threads : Threads (option LoadedProgram) := {|
  elfrs_thread_create := fun _ _ => mret 1;
  elfrs_thread_release := fun _ s => s;
  elfrs_thread_ctx := fun t => mret t;
  elfrs_thread_stack_base := fun _ => mret 0x7000;
  elfrs_ctx_get_sp := fun _ => mret 0x8000;
  elfrs_ctx_init := fun _ _ _ => mret tt;
  elfrs_thread_set_runnable := fun _ => mret tt;
  elfrs_thread_make_pthread := fun _ s => (0, s);
  elfrs_thread_schedule := fun _ => mret 0;
  elfrs_chdir := fun _ s => (0, s);
  elfrs_initrd := fun _ => (-2, 0, 0);
  mem_read := fun _ _ => x00
|}.

Definition slot_user : UserSlot (option LoadedProgram) := {|
  elfrs_binfmt_set_user := fun u _ => u;
  elfrs_binfmt_get_user := fun s => s
|}.

Definition slot_laws : SlotLaws (option LoadedProgram) (memory:=slot_memory) (threads:=slot_threads)
  (vfs:=stingy_vfs (replicate 100 x41)) (slot:=slot_user).
Proof. by split. Defined.

(** A file that is no ELF is left to the next loader. *)
Abbreviation junk := (replicate 100 x41).
Definition junk_args : BinArgs := MkBinArgs (Some [x2f; x61; x00]) None 0 None 0 None 1 0x1000.

Lemma binfmt_ownership_witness :
  elfrs_binfmt_load (memory:=slot_memory) (threads:=slot_threads) (slot:=slot_user) (heap:=plenty)
    (target:=x86_target) (vfs:=stingy_vfs junk) (proc:=demo_process) demo_cfg junk_args None
  = (Ok NOT_HANDLED, None).
Proof.
  destruct (binfmt_ownership (memory:=slot_memory) (threads:=slot_threads) (slot:=slot_user) (slaws:=slot_laws)
    (heap:=plenty) (target:=x86_target) (vfs:=stingy_vfs junk) (proc:=demo_process) demo_cfg junk_args None) as [H _].
  assert (Hr : binfmt_load (memory:=slot_memory) (threads:=slot_threads) (slot:=slot_user) (heap:=plenty)
    (target:=x86_target) (vfs:=stingy_vfs junk) (proc:=demo_process) demo_cfg junk_args None
    = (Err ENOEXEC, None)) by (vm_compute; reflexivity).
  rewrite Hr in H. destruct H as [_ H]. rewrite H. reflexivity.
Defined.
