(* ===== verification/Shim.v ===== *)
(** * The C shim ([glue/shim.c])

    The functions the Rust side calls, over the C library and Unikraft.  What
    the shim calls is a parameter: a class of the functions of the kernel, and a
    record of the build configuration.  The classes [Memory], [Vfs], [Process],
    [Threads] and [UserSlot] of the Rust side are filled with the shim here. *)

From Stdlib Require Import Strings.Byte.
From stdpp Require Import base numbers option strings sets list.
From S2P Require Import Prelude Err Log Elf Layout Loader Program Sys App Binfmt.

(** ** The build configuration *)

(** The Kconfig symbols the shim looks at. *)
Record Kconfig : Type := MkKconfig {
  STACK_NBPAGES : Z;
  PAGE_SHIFT : Z;
  LIBPOSIX_USER : option (Z * Z);
  HAVE_VFS : bool;
  LIBPOSIX_MMAP : bool;
  LIBUKVMEM : bool;
  LIBPOSIX_ENVIRON : bool;
  LIBUKRANDOM : bool;
  MULTITHREADING : bool;
  VFSEXEC : bool;
  CUSTOMAPPNAME : bool;
  VFSEXEC_ENVPATH : bool;
  VFSEXEC_ENVPWD : bool;
  VFSEXEC_EXECBIT : bool;
  APP_DEBUG : bool;
  VFSEXEC_PATH : list byte;
  VDSO : bool;
  FPSIMD : bool
}.

Definition PAGE_SIZE (kc : Kconfig) : Z := Z.shiftl 1 (PAGE_SHIFT kc).

(** [ELFRS_ON]. *)
Definition on (b : bool) : Z := if b then 1 else 0.

(** [elfrs_cfg_get]; the numeric fields are 32 bits wide. *)
Definition elfrs_cfg_get (kc : Kconfig) (vdso_image_addr : Z) : Cfg := {|
  stack_len := Z.shiftl (STACK_NBPAGES kc) (PAGE_SHIFT kc) mod 2 ^ 32;
  cfg_page_size := PAGE_SIZE kc mod 2 ^ 32;
  cfg_uid := match LIBPOSIX_USER kc with Some (u, _) => u mod 2 ^ 32 | None => 0 end;
  cfg_gid := match LIBPOSIX_USER kc with Some (_, g) => g mod 2 ^ 32 | None => 0 end;
  have_vfs := on (HAVE_VFS kc);
  have_mmap := on (LIBPOSIX_MMAP kc);
  have_vmem := on (LIBUKVMEM kc);
  have_environ := on (LIBPOSIX_ENVIRON kc);
  have_random := on (LIBUKRANDOM kc);
  have_pthread := on (MULTITHREADING kc);
  vfsexec := on (VFSEXEC kc);
  customappname := on (CUSTOMAPPNAME kc);
  envpath := on (VFSEXEC_ENVPATH kc);
  envpwd := on (VFSEXEC_ENVPWD kc);
  execbit := on (VFSEXEC_EXECBIT kc);
  cfg_debug := on (APP_DEBUG kc);
  vfsexec_path := if VFSEXEC kc && negb (CUSTOMAPPNAME kc) then Some (VFSEXEC_PATH kc ++ [x00]) else None;
  vdso_addr := if VDSO kc then vdso_image_addr else 0
|}.

(** ** Diagnostics *)

Inductive KLevel : Type := KLVL_ERR | KLVL_WARN | KLVL_INFO | KLVL_DEBUG.

(** The level [elfrs_printk] prints a message at. *)
Definition elfrs_printk_level (kc : Kconfig) (lvl : Z) : KLevel :=
  if APP_DEBUG kc then KLVL_ERR
  else if lvl =? LVL_ERR then KLVL_ERR
  else if lvl =? LVL_WARN then KLVL_WARN
  else if lvl =? LVL_INFO then KLVL_INFO
  else KLVL_DEBUG.

(** ** The kernel *)

(** Numbers of the C library. *)
Definition MAP_PRIVATE : Z := 0x02.
Definition MAP_FIXED : Z := 0x10.
Definition MAP_ANONYMOUS : Z := 0x20.
Definition MAP_FAILED : Z := 2 ^ 64 - 1.
Definition C_PROT_NONE : Z := 0.
Definition C_PROT_READ : Z := 1.
Definition C_PROT_WRITE : Z := 2.
Definition C_PROT_EXEC : Z := 4.
Definition O_RDONLY : Z := 0.
Definition EINTR : Z := 4.
Definition EACCES : Z := 13.

(** What [fstat] fills in, as far as it is looked at. *)
Record Stat : Type := MkStat { st_size : Z; st_isreg : bool; st_ixusr : bool }.

(** The C library and Unikraft.  A call of the C library returns its value and
    [errno] after it; a pointer is an address, zero being null. *)
Class Kernel (S : Type) : Type := {
  (** sys/mman.h *)
  mmap : Z -> Z -> Z -> Z -> Z -> Z -> S -> (Z * Z) * S;
  munmap : Z -> Z -> S -> (Z * Z) * S;
  mprotect : Z -> Z -> Z -> S -> (Z * Z) * S;
  (** uk/vmem.h: the active address space, unless there is none; attributes *)
  uk_vas_get_active : S -> option Z;
  uk_vma_set_attr : Z -> Z -> Z -> Z -> S -> Z * S;
  ATTR_READ : Z;
  ATTR_WRITE : Z;
  ATTR_EXEC : Z;
  (** uk/alloc.h, on the default allocator *)
  uk_memalign : Z -> Z -> S -> Z * S;
  uk_free : Z -> S -> S;
  (** memory and caches *)
  raw_store : Z -> list byte -> S -> S;
  raw_load : S -> Z -> byte;
  invalidate_icache_range : Z -> Z -> S -> S;
  (** files; the n-th attempt of a [pread] that is made again when interrupted *)
  c_open : list byte -> Z -> S -> (Z * Z) * S;
  c_close : Z -> S -> S;
  c_pread : nat -> Z -> Z -> Z -> S -> (Z * Z) * list byte;
  c_fstat : Z -> S -> (Z * Z) * Stat;
  c_stat : list byte -> S -> (Z * Z) * Stat;
  c_chdir : list byte -> S -> (Z * Z) * S;
  (** a bound on the interruptions in a row *)
  patience : nat;
  (** uk/plat/memory.h: a code, base and length *)
  ukplat_memregion_find_initrd0 : S -> Z * (Z * Z);
  (** uk/sched.h, uk/thread.h, uk/arch/ctx.h *)
  uk_sched_current : S -> Z;
  uk_thread_create_container : Z -> list byte -> Z -> S -> Z * S;
  uk_thread_release : Z -> S -> S;
  thread_ctx : Z -> Z;
  thread_stack : Z -> S -> Z;
  thread_flags : Z -> S -> Z;
  set_thread_flags : Z -> Z -> S -> S;
  UK_THREADF_RUNNABLE : Z;
  uk_posix_process_create_pthread : Z -> S -> Z * S;
  uk_sched_thread_add : Z -> Z -> S -> S;
  ctx_sp : Z -> S -> Z;
  ukarch_ctx_init : Z -> Z -> Z -> Z -> S -> S;
  UKARCH_SP_ALIGN : Z;
  (** the [user] field of [struct uk_binfmt_loader_args] *)
  args_user : S -> option LoadedProgram;
  set_args_user : option LoadedProgram -> S -> S
}.

(** What does not change while the program runs. *)
Class KernelEnv : Type := {
  k_environ : option (list (list byte));
  k_getenv : list byte -> option (list byte);
  uk_random_fill_buffer : Z -> Z * list byte;
  id_aa64isar0 : Z;
  vdso_image_addr : Z
}.

Section Shim.
Context {S : Type} {kernel : Kernel S} {kenv : KernelEnv} {target : Target} (kc : Kconfig).

(** [-errno] of a call that failed, zero otherwise. *)
Definition rc_or_errno (m : S -> (Z * Z) * S) : S -> Z * S := fun s =>
  let '((rc, e), s') := m s in (if rc <? 0 then - e else 0, s').

(** *** Virtual memory *)

Definition has (prot bit : Z) : bool := negb (Z.land prot bit =? 0).

Definition elfrs_to_prot (prot : Z) : Z :=
  let p := C_PROT_NONE in
  let p := if has prot PROT_READ then Z.lor p C_PROT_READ else p in
  let p := if has prot PROT_WRITE then Z.lor p C_PROT_WRITE else p in
  if has prot PROT_EXEC then Z.lor p C_PROT_EXEC else p.

Definition shim_map (addr len prot kind fd off replace : Z) (s : S) : (Z * Z) * S :=
  if LIBPOSIX_MMAP kc then
    let '(flags, fd, off) := if kind =? MAP_ANON
                             then (Z.lor MAP_PRIVATE MAP_ANONYMOUS, -1, 0)
                             else (MAP_PRIVATE, fd, off) in
    let flags := if negb (addr =? 0) && negb (replace =? 0) then Z.lor flags MAP_FIXED else flags in
    let '((got, e), s') := mmap addr len (elfrs_to_prot prot) flags fd off s in
    if got =? MAP_FAILED then ((0, if e =? 0 then errno ENOMEM else e), s')
    else ((got, 0), s')
  else ((0, errno ENOSYS), s).

Definition shim_unmap (addr len : Z) (s : S) : Z * S :=
  if LIBPOSIX_MMAP kc then rc_or_errno (munmap addr len) s
  else (- errno ENOSYS, s).

Definition elfrs_to_attr (prot : Z) : Z :=
  let a := 0 in
  let a := if has prot PROT_READ then Z.lor a ATTR_READ else a in
  let a := if has prot PROT_WRITE then Z.lor a ATTR_WRITE else a in
  if has prot PROT_EXEC then Z.lor a ATTR_EXEC else a.

Definition shim_protect (addr len prot : Z) (s : S) : Z * S :=
  if LIBPOSIX_MMAP kc then rc_or_errno (mprotect addr len (elfrs_to_prot prot)) s
  else if LIBUKVMEM kc then
    match uk_vas_get_active s with
    | None => (- errno ENOTSUP, s)
    | Some vas =>
      let start := rdown addr (PAGE_SIZE kc) in
      let vlen := (rup ((addr + len) mod 2 ^ 64) (PAGE_SIZE kc) - start) mod 2 ^ 64 in
      uk_vma_set_attr vas start vlen (elfrs_to_attr prot) s
    end
  else (- errno ENOTSUP, s).

Definition shim_memalign (align size : Z) (s : S) : Z * S :=
  uk_memalign (if align <? 8 then 8 else align) size s.

Definition shim_icache_sync (addr len : Z) (s : S) : S :=
  if target_aarch64 then if len =? 0 then s else invalidate_icache_range addr len s
  else s.

Definition shim_memory : Memory S := {|
  elfrs_map := shim_map;
  elfrs_unmap := shim_unmap;
  elfrs_protect := shim_protect;
  elfrs_memalign := shim_memalign;
  elfrs_free := uk_free;
  elfrs_icache_sync := shim_icache_sync;
  mem_store := raw_store
|}.

(** *** Files *)

Definition shim_open_ro (path : list byte) (s : S) : Z * S :=
  if HAVE_VFS kc then
    let '((fd, e), s') := c_open path O_RDONLY s in (if fd <? 0 then - e else fd, s')
  else (- errno ENOSYS, s).

Definition shim_close (fd : Z) (s : S) : S :=
  if HAVE_VFS kc then if 0 <=? fd then c_close fd s else s else s.

(** The [do ... while] loop, from the n-th attempt on. *)
Fixpoint pread_attempts (fuel n : nat) (fd len off : Z) (s : S) : Z * list byte :=
  let '((rc, e), d) := c_pread n fd len off s in
  if (rc <? 0) && (e =? EINTR) then
    match fuel with
    | O => (- e, d)
    | Datatypes.S fuel => pread_attempts fuel (Datatypes.S n) fd len off s
    end
  else (if rc <? 0 then - e else rc, d).

Definition shim_pread (fd len off : Z) (s : S) : Z * list byte :=
  if HAVE_VFS kc then pread_attempts patience 0 fd len off s
  else (- errno ENOSYS, []).

Definition shim_fsize (fd : Z) (s : S) : Z :=
  if HAVE_VFS kc then
    let '((rc, e), st) := c_fstat fd s in if rc <? 0 then - e else st_size st
  else - errno ENOSYS.

Definition shim_fd_is_exec (fd : Z) (s : S) : Z :=
  if HAVE_VFS kc then
    let '((rc, e), st) := c_fstat fd s in
    if rc <? 0 then - e
    else if negb (st_isreg st) then - EACCES
    else if negb (st_ixusr st) then - EACCES
    else 0
  else - errno ENOSYS.

Definition shim_path_is_exec (path : list byte) (s : S) : Z :=
  if HAVE_VFS kc then
    let '((rc, e), st) := c_stat path s in
    if rc <? 0 then - e
    else if negb (st_isreg st) then - EACCES
    else if VFSEXEC_EXECBIT kc && negb (st_ixusr st) then - EACCES
    else 0
  else - errno ENOSYS.

Definition shim_vfs : Vfs S := {|
  elfrs_open_ro := shim_open_ro;
  elfrs_close := shim_close;
  elfrs_fsize := shim_fsize;
  elfrs_pread := shim_pread;
  elfrs_fd_is_exec := shim_fd_is_exec;
  elfrs_path_is_exec := shim_path_is_exec
|}.

(** *** The process *)

Definition HWCAP_FP : Z := Z.shiftl 1 0.
Definition HWCAP_ASIMD : Z := Z.shiftl 1 1.
Definition HWCAP_AES : Z := Z.shiftl 1 3.
Definition HWCAP_PMULL : Z := Z.shiftl 1 4.
Definition HWCAP_SHA1 : Z := Z.shiftl 1 5.
Definition HWCAP_SHA2 : Z := Z.shiftl 1 6.
Definition HWCAP_CRC32 : Z := Z.shiftl 1 7.
Definition HWCAP_ATOMICS : Z := Z.shiftl 1 8.
Definition HWCAP_ASIMDRDM : Z := Z.shiftl 1 12.

(** The four-bit field of [id_aa64isar0_el1] at a bit. *)
Definition isar0_field (isar0 shift : Z) : Z := Z.land (Z.shiftr isar0 shift) 0xf.

Definition hwcap_of (isar0 : Z) : Z :=
  let caps := Z.lor HWCAP_FP HWCAP_ASIMD in
  let caps := if 1 <=? isar0_field isar0 4 then Z.lor caps HWCAP_AES else caps in
  let caps := if 2 <=? isar0_field isar0 4 then Z.lor caps HWCAP_PMULL else caps in
  let caps := if 1 <=? isar0_field isar0 8 then Z.lor caps HWCAP_SHA1 else caps in
  let caps := if 1 <=? isar0_field isar0 12 then Z.lor caps HWCAP_SHA2 else caps in
  let caps := if 1 <=? isar0_field isar0 16 then Z.lor caps HWCAP_CRC32 else caps in
  let caps := if 2 <=? isar0_field isar0 20 then Z.lor caps HWCAP_ATOMICS else caps in
  if 1 <=? isar0_field isar0 28 then Z.lor caps HWCAP_ASIMDRDM else caps.

Definition shim_hwcap : Z :=
  if target_aarch64 then if FPSIMD kc then hwcap_of id_aa64isar0 else 0 else 0.

(** "aarch64" and "x86_64". *)
Definition shim_platform : list byte :=
  if target_aarch64 then [x61; x61; x72; x63; x68; x36; x34; x00] else [x78; x38; x36; x5f; x36; x34; x00].

Definition shim_process : Process := {|
  elfrs_environ := if LIBPOSIX_ENVIRON kc then k_environ else None;
  elfrs_getenv := fun name => if LIBPOSIX_ENVIRON kc then k_getenv name else None;
  elfrs_random_fill := fun len => if LIBUKRANDOM kc then uk_random_fill_buffer len else (- errno ENOTSUP, []);
  elfrs_hwcap := shim_hwcap;
  elfrs_hwcap2 := 0;
  elfrs_platform := Some shim_platform
|}.

(** *** Threads and contexts *)

(** [UK_ASSERT]. *)
Definition uk_assert (b : bool) : stM Error S unit := if b then mret tt else lift Panic.

Definition shim_chdir (path : list byte) (s : S) : Z * S :=
  if HAVE_VFS kc then rc_or_errno (c_chdir path) s else (- errno ENOSYS, s).

Definition shim_initrd (s : S) : Z * Z * Z :=
  let '(rc, (vbase, len)) := ukplat_memregion_find_initrd0 s in
  if (rc <? 0) || (vbase =? 0) || (len =? 0) then (- errno ENOENT, 0, 0) else (0, vbase, len).

Definition shim_thread_create (name : list byte) (len : Z) : stM Error S Z :=
  sched ← gets uk_sched_current;
  _ ← uk_assert (negb (sched =? 0));
  returns (uk_thread_create_container sched name len).

Definition shim_thread_release (thread : Z) (s : S) : S :=
  if thread =? 0 then s else uk_thread_release thread s.

Definition shim_thread_ctx (thread : Z) : stM Error S Z :=
  _ ← uk_assert (negb (thread =? 0));
  mret (thread_ctx thread).

Definition shim_thread_stack_base (thread : Z) : stM Error S Z :=
  _ ← uk_assert (negb (thread =? 0));
  gets (thread_stack thread).

Definition shim_thread_set_runnable (thread : Z) : stM Error S unit :=
  _ ← uk_assert (negb (thread =? 0));
  flags ← gets (thread_flags thread);
  does (set_thread_flags thread (Z.lor flags UK_THREADF_RUNNABLE)).

Definition shim_thread_make_pthread (thread : Z) (s : S) : Z * S :=
  if MULTITHREADING kc then uk_posix_process_create_pthread thread s else (0, s).

Definition shim_thread_schedule (thread : Z) : stM Error S Z :=
  sched ← gets uk_sched_current;
  _ ← uk_assert (negb (sched =? 0));
  _ ← uk_assert (negb (thread =? 0));
  _ ← does (uk_sched_thread_add sched thread);
  mret 0.

Definition shim_ctx_get_sp (ctx : Z) : stM Error S Z :=
  _ ← uk_assert (negb (ctx =? 0));
  gets (ctx_sp ctx).

Definition shim_ctx_init (ctx sp ip : Z) : stM Error S unit :=
  _ ← uk_assert (negb (ctx =? 0));
  _ ← uk_assert (sp mod UKARCH_SP_ALIGN =? 0);
  does (ukarch_ctx_init ctx sp 0 ip).

Definition shim_threads : Threads S := {|
  elfrs_thread_create := shim_thread_create;
  elfrs_thread_release := shim_thread_release;
  elfrs_thread_ctx := shim_thread_ctx;
  elfrs_thread_stack_base := shim_thread_stack_base;
  elfrs_ctx_get_sp := shim_ctx_get_sp;
  elfrs_ctx_init := shim_ctx_init;
  elfrs_thread_set_runnable := shim_thread_set_runnable;
  elfrs_thread_make_pthread := shim_thread_make_pthread;
  elfrs_thread_schedule := shim_thread_schedule;
  elfrs_chdir := shim_chdir;
  elfrs_initrd := shim_initrd;
  mem_read := raw_load
|}.

(** *** binfmt *)

Definition shim_slot : UserSlot S := {|
  elfrs_binfmt_set_user := set_args_user;
  elfrs_binfmt_get_user := args_user
|}.

(** [UK_BINFMT_HANDLED] and [UK_BINFMT_NOT_HANDLED]. *)
Variables (UK_BINFMT_HANDLED UK_BINFMT_NOT_HANDLED : Z).

Definition c_binfmt_load (rust_load : stM Error S Z) : stM Error S Z :=
  rc ← rust_load;
  mret (if rc =? 0 then UK_BINFMT_HANDLED else if rc =? 1 then UK_BINFMT_NOT_HANDLED else rc).

Definition c_binfmt_unload (rust_unload : stM Error S Z) : stM Error S Z :=
  _ ← rust_unload;
  mret UK_BINFMT_HANDLED.
End Shim.
