(* ===== verification/ShimFacts.v ===== *)
(** * What the shim promises, from what the kernel promises

    Laws of the C library and of Unikraft, in terms of what every address shows,
    what descriptors read, which blocks are allocated and which threads are
    alive; and that the shim on top of them keeps the promises the Rust side was
    verified against: the laws of an address space for [UkVm], of files for
    [VfsOpener] and of threads for [run]. *)

From Stdlib Require Import Strings.Byte.
From stdpp Require Import base numbers option strings sets list.
From S2P Require Import Prelude Err Log Util Elf ElfFacts Layout Loader VmSpec LoaderFacts Auxv AuxvFacts Program.
From S2P Require Import Frame Sys SysFacts App AppFacts Binfmt Shim.

(** ** Observations of the kernel's state *)

(** [k_owns s t] are the addresses of the memory of a thread: its stack and
    whatever else was allocated for it.  [k_starts s c] is the stack pointer and
    the address a context begins with, once it was set up; [k_queued s t] says that
    a thread is known to the scheduler. *)
Class KernelView (S : Type) : Type := {
  k_inv : S -> Prop;
  k_view : S -> Z -> option cell;
  k_file : S -> Z -> option (list byte);
  k_block : S -> Z -> Z -> Prop;
  k_live : S -> Z -> Prop;
  k_owns : S -> Z -> Z -> bool;
  k_starts : S -> Z -> option (Z * Z);
  k_queued : S -> Z -> Prop
}.

Section Views.
Context {S : Type} {kernel : Kernel S} {kview : KernelView S}.

Record threads_same (s s' : S) : Prop := {
  ts_live : forall t, k_live s' t <-> k_live s t;
  ts_owns : forall t x, k_owns s' t x = k_owns s t x;
  ts_stack : forall t, thread_stack t s' = thread_stack t s;
  ts_sp : forall c, ctx_sp c s' = ctx_sp c s;
  ts_starts : forall c, k_starts s' c = k_starts s c;
  ts_queued : forall t, k_queued s' t <-> k_queued s t;
  ts_flags : forall t, thread_flags t s' = thread_flags t s
}.

(** Every call but the freeing of a block keeps the blocks; no call but those of
    the binfmt glue changes who owns a program. *)
Record k_step (s s' : S) : Prop := {
  ks_inv : k_inv s';
  ks_block : forall b bl, k_block s b bl -> k_block s' b bl;
  ks_user : args_user s' = args_user s
}.

(** What calls that deal with memory leave alone. *)
Record mem_step (s s' : S) : Prop := {
  ms_step : k_step s s';
  ms_threads : threads_same s s';
  ms_file : k_file s' = k_file s
}.

#[global] Instance threads_same_pre : PreOrder threads_same.
Proof.
  split; [by intros s|]. intros s1 s2 s3 [H1 H2 H3 H4 H5 H6 H7] [G1 G2 G3 G4 G5 G6 G7].
  split; intros;
    [by rewrite G1|by rewrite G2|by rewrite G3|by rewrite G4|by rewrite G5|by rewrite G6|by rewrite G7].
Qed.
End Views.

(** The errors of the C library are positive [int]s. *)
Definition errno_ok (e : Z) : Prop := 0 < e < 2 ^ 31.

(** ** Laws of the memory calls *)

Class KernelMemory (S : Type) {kernel : Kernel S} {kview : KernelView S} (kc : Kconfig) : Type := {
  law_shift : 12 <= PAGE_SHIFT kc < 32;
  (** Nothing is ever mapped at the null address. *)
  law_null s : k_inv s -> k_view s 0 = None;
  law_file_size s fd d : k_inv s -> k_file s fd = Some d -> Z.of_nat (length d) < 2 ^ 63;

  (** A private anonymous mapping without [MAP_FIXED] goes where nothing is. *)
  law_mmap_new s addr len prot :
    LIBPOSIX_MMAP kc = true -> k_inv s -> prot_ok prot -> (PAGE_SIZE kc | len) -> 0 < len ->
    0 <= addr -> (PAGE_SIZE kc | addr) -> addr + len < 2 ^ 64 ->
    let '((got, e), s') := mmap addr len prot (Z.lor MAP_PRIVATE MAP_ANONYMOUS) (-1) 0 s in
    mem_step s s' /\
    if decide (got = MAP_FAILED) then 0 <= e < 2 ^ 31 /\ forall x, k_view s' x = k_view s x
    else 0 < got /\ (PAGE_SIZE kc | got) /\ got + len < 2 ^ 64 /\
      (forall x, within got len x -> k_view s x = None) /\
      forall x, k_view s' x = if decide (within got len x) then Some (prot, x00) else k_view s x;

  (** With [MAP_FIXED] a mapping replaces what is there; of a file at most the
      rest of the page of its last byte lies past its end, and reads as zero. *)
  law_mmap_fixed s addr len prot src :
    LIBPOSIX_MMAP kc = true -> k_inv s -> prot_ok prot -> (PAGE_SIZE kc | len) -> 0 < len ->
    0 < addr -> (PAGE_SIZE kc | addr) -> addr + len < 2 ^ 64 ->
    (forall x, within addr len x -> is_Some (k_view s x)) ->
    match src with
    | None => True
    | Some (fd, off) => exists d, k_file s fd = Some d /\ 0 <= off <= Z.of_nat (length d) /\
        off + len < Z.of_nat (length d) + PAGE_SIZE kc
    end ->
    let '((got, e), s') :=
      match src with
      | None => mmap addr len prot (Z.lor (Z.lor MAP_PRIVATE MAP_ANONYMOUS) MAP_FIXED) (-1) 0 s
      | Some (fd, off) => mmap addr len prot (Z.lor MAP_PRIVATE MAP_FIXED) fd off s
      end in
    mem_step s s' /\
    if decide (got = MAP_FAILED)
    then 0 <= e < 2 ^ 31 /\ forall x, ~ within addr len x -> k_view s' x = k_view s x
    else got = addr /\ forall x, k_view s' x =
      if decide (within addr len x)
      then Some (prot, match src with
                       | None => x00
                       | Some (fd, off) => file_byte (default [] (k_file s fd)) (off + (x - addr))
                       end)
      else k_view s x;

  law_munmap s a len :
    LIBPOSIX_MMAP kc = true -> k_inv s -> 0 <= a -> (PAGE_SIZE kc | a) -> (PAGE_SIZE kc | len) -> 0 < len ->
    a + len < 2 ^ 64 ->
    let '((rc, _), s') := munmap a len s in
    0 <= rc /\ mem_step s s' /\
    forall x, k_view s' x = if decide (within a len x) then None else k_view s x;

  (** Changing protections changes no byte; on whole pages that are mapped it
      does what it is asked, or fails. *)
  law_mprotect s a len prot :
    LIBPOSIX_MMAP kc = true -> k_inv s -> prot_ok prot ->
    let '((rc, e), s') := mprotect a len prot s in
    mem_step s s' /\ (rc < 0 -> errno_ok e) /\ (forall x, snd <$> k_view s' x = snd <$> k_view s x) /\
    (0 <= a -> (PAGE_SIZE kc | a) -> (PAGE_SIZE kc | len) -> 0 < len -> a + len < 2 ^ 64 ->
     (forall x, within a len x -> is_Some (k_view s x)) ->
     forall x, if decide (within a len x) then 0 <= rc -> fst <$> k_view s' x = Some prot
               else k_view s' x = k_view s x);
  law_set_attr s vas a len prot :
    LIBPOSIX_MMAP kc = false -> LIBUKVMEM kc = true -> k_inv s -> prot_ok prot ->
    uk_vas_get_active s = Some vas ->
    let '(rc, s') := uk_vma_set_attr vas a len (elfrs_to_attr prot) s in
    mem_step s s' /\ - 2 ^ 31 < rc /\ (forall x, snd <$> k_view s' x = snd <$> k_view s x) /\
    (0 <= a -> (PAGE_SIZE kc | a) -> (PAGE_SIZE kc | len) -> 0 < len -> a + len < 2 ^ 64 ->
     (forall x, within a len x -> is_Some (k_view s x)) ->
     forall x, if decide (within a len x) then 0 <= rc -> fst <$> k_view s' x = Some prot
               else k_view s' x = k_view s x);

  (** A block is memory nobody had; freeing it gives it back. *)
  law_memalign s align len :
    k_inv s -> is_power_of_two align = true -> 8 <= align < 2 ^ 64 -> 0 < len ->
    let '(p, s') := uk_memalign align len s in
    mem_step s s' /\
    if decide (p = 0) then forall x, k_view s' x = k_view s x
    else k_block s' p len /\ (forall bl, ~ k_block s p bl) /\ 0 <= p /\ (align | p) /\ p + len < 2 ^ 64 /\
      (forall x, within p len x -> k_view s x = None /\ exists b, k_view s' x = Some (RW, b)) /\
      forall x, ~ within p len x -> k_view s' x = k_view s x;
  law_uk_free s a len :
    k_inv s -> k_block s a len ->
    let s' := uk_free a s in
    k_inv s' /\ (forall b bl, k_block s b bl -> b <> a -> k_block s' b bl) /\ args_user s' = args_user s /\
    threads_same s s' /\ k_file s' = k_file s /\
    forall x, k_view s' x = if decide (within a len x) then None else k_view s x;

  (** A store to mapped memory changes no mapping, and a store to writable memory
      the bytes it names. *)
  law_raw_store s a d :
    k_inv s -> (forall x, within a (Z.of_nat (length d)) x -> is_Some (k_view s x)) ->
    let s' := raw_store a d s in
    mem_step s s' /\ (forall x, fst <$> k_view s' x = fst <$> k_view s x) /\
    ((forall x, within a (Z.of_nat (length d)) x -> writable (k_view s x)) ->
     forall x, k_view s' x =
       match (if decide (a <= x) then d !! Z.to_nat (x - a) else None) with
       | Some b => (fun c : cell => (c.1, b)) <$> k_view s x
       | None => k_view s x
       end);
  law_icache_inval s a len :
    k_inv s -> let s' := invalidate_icache_range a len s in mem_step s s' /\ forall x, k_view s' x = k_view s x
}.

(** ** The address space of the unikernel *)

Lemma to_prot_id prot : prot_ok prot -> elfrs_to_prot prot = prot.
Proof.
  unfold prot_ok. intros H.
  assert (prot = 0 \/ prot = 1 \/ prot = 2 \/ prot = 3 \/ prot = 4 \/ prot = 5 \/ prot = 6 \/ prot = 7) as Hc by lia.
  by repeat (destruct Hc as [->|Hc]; [done|]); subst.
Qed.

Section Space.
Context {S : Type} {kernel : Kernel S} {kview : KernelView S} {kenv : KernelEnv} {target : Target}.
Context (kc : Kconfig) {kmem : KernelMemory S kc}.

Abbreviation page := (PAGE_SIZE kc).
Abbreviation cfg := (elfrs_cfg_get kc vdso_image_addr).
#[local] Instance sp_memory : Memory S := shim_memory kc.
#[local] Instance sp_vm : Vm S := UkVm cfg.

Lemma page_value : page = 2 ^ PAGE_SHIFT kc /\ 4096 <= page < 2 ^ 32.
Proof.
  pose proof law_shift as Hs. unfold PAGE_SIZE. rewrite Z.shiftl_1_l. split; [done|]. change 4096 with (2 ^ 12).
  split; [apply Z.pow_le_mono_r; lia|apply Z.pow_lt_mono_r; lia].
Qed.

Lemma uk_page : page_size = page.
Proof. destruct page_value as [_ Hp]. change (page mod 2 ^ 32 = page). apply Z.mod_small. lia. Qed.

Lemma uk_can_map : can_map_files = LIBPOSIX_MMAP kc.
Proof. cbn. by destruct (LIBPOSIX_MMAP kc). Qed.

Definition uk_region (s : S) (a len : Z) : Prop :=
  (0 <= a /\ (page | a) /\ (page | len) /\ 0 < len /\ a + len < 2 ^ 64) /\
  forall x, within a len x -> is_Some (k_view s x).

(** What calls of the address space leave alone: threads, open files and the
    owner of a program. *)
Record uk_kept (s s' : S) : Prop := {
  uk_threads : threads_same s s';
  uk_files : forall g, k_file s' g = k_file s g;
  uk_user : args_user s' = args_user s
}.

#[global] Instance uk_kept_pre : PreOrder uk_kept.
Proof.
  split; [by intros s; split|]. intros s1 s2 s3 [H1 H2 H3] [G1 G2 G3].
  split; [by etrans|intros g; by rewrite G2|congruence].
Qed.

Definition uk_step (s s' : S) : Prop :=
  (k_inv s' /\ forall b bl, k_block s b bl -> k_block s' b bl) /\ uk_kept s s'.

Lemma mem_uk_step s s' : mem_step s s' -> uk_step s s'.
Proof. intros [[? ? ?] ? Hf]. split; [done|]. split; [done|by rewrite Hf|done]. Qed.

(** Same domain, same regions. *)
Lemma uk_region_dom s s' :
  (forall x, is_Some (k_view s' x) <-> is_Some (k_view s x)) ->
  forall b bl, uk_region s b bl <-> uk_region s' b bl.
Proof.
  intros Hd b bl. unfold uk_region. split; intros [? Hm]; (split; [done|]); intros x Hx; apply Hd; auto.
Qed.

Lemma dom_of {A} (f : cell -> A) (v v' : option cell) : f <$> v' = f <$> v -> is_Some v' <-> is_Some v.
Proof. destruct v, v'; cbn; intros [=]; by rewrite ?is_Some_alt. Qed.

Lemma cell_eta (v : option cell) p b : fst <$> v = Some p -> snd <$> v = Some b -> v = Some (p, b).
Proof. destruct v as [[p' b']|]; [|done]. by intros [= ->] [= ->]. Qed.

(** The flags [elfrs_map] passes. *)
Definition map_flags (replace : bool) (src : MapSrc) : Z :=
  let f := match src with Anon => Z.lor MAP_PRIVATE MAP_ANONYMOUS | File _ _ => MAP_PRIVATE end in
  if replace then Z.lor f MAP_FIXED else f.

(** Mapping through the shim is one call of [mmap]. *)
Lemma uk_map_wp w addr replace len prot src s (P : Z -> S -> Prop) (Q : S -> Prop) :
  LIBPOSIX_MMAP kc = true -> prot_ok prot ->
  match w with Anywhere => (0, 0) | Hint a => (a, 0) | Exact a => (a, 1) end = (addr, on replace) ->
  (replace = true -> addr <> 0) ->
  (let '((got, e), s') :=
     mmap addr len prot (map_flags replace src) (match src with Anon => -1 | File fd _ => fd end)
       (match src with Anon => 0 | File _ off => as_i64 off end) s in
   if decide (got = MAP_FAILED) then 0 <= e /\ Q s' else got <> 0 /\ P got s') ->
  wp (uk_map w len prot src) P Q s.
Proof.
  intros Hm Hp Hw Ha Hcall. unfold wp, uk_map. rewrite Hw. cbn [elfrs_map sp_memory shim_memory]. unfold shim_map.
  rewrite Hm, to_prot_id by done.
  assert (Hrep : negb (addr =? 0) && negb (on replace =? 0) = replace).
  { destruct replace; cbn; [|by rewrite andb_false_r]. by rewrite (proj2 (Z.eqb_neq _ _)) by auto. }
  unfold map_flags in Hcall. destruct src as [|fd off]; cbn [Z.eqb MAP_ANON MAP_FILE]; rewrite Hrep;
    (destruct (mmap _ _ _ _ _ _ s) as [[got e] s'];
     destruct (Z.eqb_spec got MAP_FAILED) as [Hf|Hf];
       [rewrite decide_True in Hcall by done|rewrite decide_False in Hcall by done]; destruct Hcall as [He HQ];
     [cbn [Z.eqb]; rewrite (proj2 (Z.ltb_lt 0 _)) by (destruct (Z.eqb_spec e 0); cbn; lia); exact HQ|
      by rewrite (proj2 (Z.eqb_neq _ _))]).
Qed.

(** Without [mmap] mapping fails and changes nothing. *)
Lemma uk_map_none w len prot src s (P : Z -> S -> Prop) (Q : S -> Prop) :
  LIBPOSIX_MMAP kc = false -> Q s -> wp (uk_map w len prot src) P Q s.
Proof.
  intros Hm HQ. unfold wp, uk_map. cbn [elfrs_map sp_memory shim_memory]. unfold shim_map. rewrite Hm.
  by destruct w, src.
Qed.

Lemma uk_map_fresh s w len prot :
  k_inv s -> len < 2 ^ 64 -> (page | len) -> 0 < len -> prot_ok prot ->
  match w with Anywhere => True | Hint a => 0 <= a /\ (page | a) /\ a + len < 2 ^ 64 | Exact _ => False end ->
  wp (uk_map w len prot Anon)
    (fun a s' => uk_step s s' /\ k_file s' = k_file s /\
       0 <= a /\ (page | a) /\ a + len < 2 ^ 64 /\
       (forall x, within a len x -> k_view s x = None) /\
       forall x, k_view s' x = if decide (within a len x) then Some (prot, x00) else k_view s x)
    (fun s' => uk_step s s' /\ forall x, k_view s' x = k_view s x) s.
Proof.
  intros Hi Hlen Hd Hl Hp Hw. destruct (LIBPOSIX_MMAP kc) eqn:Hm; [|by apply uk_map_none].
  assert (exists addr, (match w with Anywhere => (0, 0) | Hint a => (a, 0) | Exact a => (a, 1) end) = (addr, 0) /\
    0 <= addr /\ (page | addr) /\ addr + len < 2 ^ 64) as (addr & Haddr & H0 & Da & Hu).
  { destruct w as [|a|]; [exists 0|exists a|done]; split_and!; try done; try apply Hw. apply Z.divide_0_r. }
  apply (uk_map_wp w addr false); try done. unfold map_flags.
  pose proof (law_mmap_new s addr len prot Hm Hi Hp Hd Hl H0 Da Hu) as Hlaw.
  destruct (mmap addr len prot _ (-1) 0 s) as [[got e] s']. destruct Hlaw as [Hstep Hlaw]. case_decide.
  - destruct Hlaw as [He Hv]. split; [lia|]. split; [by apply mem_uk_step|done].
  - destruct Hlaw as (Hg & Dg & Hgu & Hfree & Hv). split; [lia|]. split; [by apply mem_uk_step|].
    split; [apply Hstep|]. split_and!; try done; lia.
Qed.

Lemma uk_map_exact s a len prot src :
  k_inv s -> 0 <= a -> (page | a) -> (page | len) -> 0 < len -> a + len < 2 ^ 64 -> prot_ok prot ->
  (forall x, within a len x -> is_Some (k_view s x)) ->
  match src with
  | Anon => True
  | File fd off => exists d, k_file s fd = Some d /\ 0 <= off <= Z.of_nat (length d) /\
      off + len < Z.of_nat (length d) + page
  end ->
  wp (uk_map (Exact a) len prot src)
    (fun r s' => r = a /\ uk_step s s' /\ k_file s' = k_file s /\ uk_region s' a len /\
       (forall b bl, uk_region s b bl -> b + bl <= a \/ a + len <= b -> uk_region s' b bl) /\
       forall x, k_view s' x =
         if decide (within a len x)
         then Some (prot, match src with
                          | Anon => x00
                          | File fd off => file_byte (default [] (k_file s fd)) (off + (x - a))
                          end)
         else k_view s x)
    (fun s' => uk_step s s' /\ forall x, ~ within a len x -> k_view s' x = k_view s x) s.
Proof.
  intros Hi H0 Da Dl Hl Hu Hp Hmap Hsrc. destruct (LIBPOSIX_MMAP kc) eqn:Hm; [|by apply uk_map_none].
  assert (Ha : a <> 0).
  { intros ->. destruct (Hmap 0) as [c Hc]; [unfold within; lia|]. rewrite (law_null s Hi) in Hc. done. }
  set (src' := match src with Anon => None | File fd off => Some (fd, off) end).
  pose proof (law_mmap_fixed s a len prot src' Hm Hi Hp Dl Hl ltac:(lia) Da Hu Hmap) as Hlaw.
  assert (Hoff : match src with Anon => 0 | File _ off => as_i64 off end = match src with Anon => 0 | File _ off => off end).
  { destruct src as [|fd off]; [done|]. destruct Hsrc as (d & Hd & [? ?] & _).
    pose proof (law_file_size s fd d Hi Hd). by rewrite as_i64_small by lia. }
  apply (uk_map_wp (Exact a) a true); try done. rewrite Hoff. unfold map_flags.
  assert (Hpost : forall got e s', mem_step s s' /\
    (if decide (got = MAP_FAILED)
     then 0 <= e < 2 ^ 31 /\ forall x, ~ within a len x -> k_view s' x = k_view s x
     else got = a /\ forall x, k_view s' x =
       if decide (within a len x)
       then Some (prot, match src' with
                        | None => x00
                        | Some (fd, off) => file_byte (default [] (k_file s fd)) (off + (x - a))
                        end)
       else k_view s x) ->
    if decide (got = MAP_FAILED)
    then 0 <= e /\ (uk_step s s' /\ forall x, ~ within a len x -> k_view s' x = k_view s x)
    else got <> 0 /\ got = a /\ uk_step s s' /\ k_file s' = k_file s /\ uk_region s' a len /\
       (forall b bl, uk_region s b bl -> b + bl <= a \/ a + len <= b -> uk_region s' b bl) /\
       forall x, k_view s' x =
         if decide (within a len x)
         then Some (prot, match src with
                          | Anon => x00
                          | File fd off => file_byte (default [] (k_file s fd)) (off + (x - a))
                          end)
         else k_view s x).
  { intros got e s' [Hstep H]. case_decide.
    - destruct H as [He Hv]. split; [lia|]. split; [by apply mem_uk_step|done].
    - destruct H as [-> Hv]. split; [done|]. split; [done|]. split; [by apply mem_uk_step|]. split; [apply Hstep|].
      assert (Hdom : forall x, is_Some (k_view s x) -> is_Some (k_view s' x))
        by (intros x Hx; rewrite Hv; case_decide; eauto).
      split; [split; [done|]; auto|]. split; [intros b bl [Hb Hbm] _; split; [done|]; auto|].
      intros x. rewrite Hv. unfold src'. by destruct src. }
  unfold src' in Hlaw. destruct src as [|fd off]; specialize (Hlaw Hsrc);
    destruct (mmap _ _ _ _ _ _ s) as [[got e] s']; by apply (Hpost got e s').
Qed.
(** *** Protection *)

Lemma to_prot_ok prot : prot_ok (elfrs_to_prot prot).
Proof. unfold prot_ok, elfrs_to_prot. by destruct (has prot PROT_READ), (has prot PROT_WRITE), (has prot PROT_EXEC). Qed.

Lemma to_attr_prot prot : elfrs_to_attr (elfrs_to_prot prot) = elfrs_to_attr prot.
Proof.
  unfold elfrs_to_attr, elfrs_to_prot.
  by destruct (has prot PROT_READ), (has prot PROT_WRITE), (has prot PROT_EXEC).
Qed.

(** What a call that may fail did to the protections of a range. *)
Record protected (a len prot : Z) (ok : bool) (s s' : S) : Prop := {
  pt_step : mem_step s s';
  pt_bytes : forall x, snd <$> k_view s' x = snd <$> k_view s x;
  pt_range : 0 <= a -> (page | a) -> (page | len) -> 0 < len -> a + len < 2 ^ 64 ->
    (forall x, within a len x -> is_Some (k_view s x)) ->
    forall x, if decide (within a len x) then ok = true -> fst <$> k_view s' x = Some (elfrs_to_prot prot)
              else k_view s' x = k_view s x
}.

Lemma mem_step_refl s : k_inv s -> mem_step s s.
Proof. done. Qed.

Lemma protected_refl a len prot s : k_inv s -> protected a len prot false s s.
Proof. intros Hi. split; [by apply mem_step_refl|done|]. intros _ _ _ _ _ _ x. by case_decide. Qed.

Lemma from_rc_wp (m : S -> Z * S) (P : unit -> S -> Prop) (Q : S -> Prop) s :
  (let '(rc, s') := m s in - 2 ^ 63 < rc /\ if decide (rc < 0) then Q s' else P tt s') -> wp (from_rc m) P Q s.
Proof.
  unfold wp, from_rc. destruct (m s) as [rc s']. intros [Hrc H]. unfold from_c.
  destruct (Z.ltb_spec rc 0); [rewrite decide_True in H by done|by rewrite decide_False in H by lia].
  by rewrite (proj2 (Z.eqb_neq _ _)) by lia.
Qed.

Lemma rup_aligned x : (page | x) -> rup x page = x.
Proof. apply rup_id. destruct page_value. lia. Qed.

Lemma uk_protect_wp s a len prot :
  k_inv s ->
  wp (vm_protect a len prot) (fun _ => protected a len prot true s) (protected a len prot false s) s.
Proof.
  intros Hi. apply from_rc_wp. cbn [elfrs_protect sp_memory shim_memory]. unfold shim_protect, rc_or_errno.
  destruct (LIBPOSIX_MMAP kc) eqn:Hm.
  - pose proof (law_mprotect s a len _ Hm Hi (to_prot_ok prot)) as Hlaw.
    destruct (mprotect a len _ s) as [[rc e] s']. destruct Hlaw as (Hstep & He & Hb & Hr).
    destruct (Z.ltb_spec rc 0) as [Hneg|Hpos].
    + specialize (He Hneg). unfold errno_ok in He. split; [lia|]. rewrite decide_True by lia.
      split; [done|done|]. intros H0 Da Dl Hl Hu Hmap x. specialize (Hr H0 Da Dl Hl Hu Hmap x). by case_decide.
    + split; [done|]. rewrite decide_False by lia.
      split; [done|done|]. intros H0 Da Dl Hl Hu Hmap x. specialize (Hr H0 Da Dl Hl Hu Hmap x). case_decide; auto.
  - destruct (LIBUKVMEM kc) eqn:Hvm; [|split; [done|by apply protected_refl]].
    destruct (uk_vas_get_active s) as [vas|] eqn:Hvas; [|split; [done|by apply protected_refl]].
    set (start := rdown a page). set (vlen := (rup ((a + len) mod 2 ^ 64) page - start) mod 2 ^ 64).
    pose proof (law_set_attr s vas start vlen _ Hm Hvm Hi (to_prot_ok prot) Hvas) as Hlaw.
    rewrite to_attr_prot in Hlaw. destruct (uk_vma_set_attr vas start vlen _ s) as [rc s'].
    destruct Hlaw as (Hstep & Hrc & Hb & Hr). split; [lia|].
    assert (Hsame : 0 <= a -> (page | a) -> (page | len) -> 0 < len -> a + len < 2 ^ 64 -> start = a /\ vlen = len).
    { intros H0 Da Dl Hl Hu. unfold vlen, start. rewrite rdown_id by (done || (destruct page_value; lia)).
      rewrite (Z.mod_small (a + len)) by lia. rewrite rup_aligned by (by apply Z.divide_add_r).
      replace (a + len - a) with len by lia. by rewrite Z.mod_small by lia. }
    case_decide as Hneg; (split; [done|done|]); intros H0 Da Dl Hl Hu Hmap x;
      destruct (Hsame H0 Da Dl Hl Hu) as [-> ->]; specialize (Hr H0 Da Dl Hl Hu Hmap x); case_decide; try done.
    intros _. apply Hr. lia.
Qed.

(** *** Stores *)

Lemma dom_within s a len x : uk_region s a len -> within a len x -> is_Some (k_view s x).
Proof. intros [_ H]. apply H. Qed.

Lemma store_dom s s' :
  (forall x, fst <$> k_view s' x = fst <$> k_view s x) ->
  forall b bl, uk_region s b bl <-> uk_region s' b bl.
Proof. intros Hf. apply uk_region_dom. intros x. by apply (dom_of fst). Qed.

Lemma uk_store s a len w d :
  k_inv s -> uk_region s a len -> a <= w -> w + Z.of_nat (length d) <= a + len ->
  (forall x, within a len x -> writable (k_view s x)) ->
  let s' := raw_store w d s in
  mem_step s s' /\ (forall b bl, uk_region s b bl <-> uk_region s' b bl) /\
  forall x, k_view s' x =
    match (if decide (w <= x) then d !! Z.to_nat (x - w) else None) with
    | Some b => (fun c : cell => (c.1, b)) <$> k_view s x
    | None => k_view s x
    end.
Proof.
  intros Hi Hr Hlo Hhi Hw.
  destruct (law_raw_store s w d Hi) as (Hstep & Hp & Hx).
  { intros x Hx. apply (dom_within s a len); [done|]. unfold within in *. lia. }
  split; [done|]. split; [by apply (store_dom s)|]. apply Hx.
  intros x Hxw. apply Hw. unfold within in *. lia.
Qed.

(** The laws of an address space hold of the unikernel's. *)
Lemma page_power : is_power_of_two page = true.
Proof.
  destruct page_value as [-> _]. apply is_power_of_two_spec. exists (PAGE_SHIFT kc). pose proof law_shift. split; [lia|done].
Qed.

(** *** The laws one by one *)

Lemma uk_zero_law s a len z zl :
  k_inv s -> uk_region s a len -> a <= z -> 0 < zl -> z + zl <= a + len ->
  (forall x, within a len x -> writable (k_view s x)) ->
  wp (vm_zero z zl)
    (fun _ s' => uk_step s s' /\ k_file s' = k_file s /\
       (forall b bl, uk_region s b bl <-> uk_region s' b bl) /\
       forall x, k_view s' x =
         if decide (within z zl x) then (fun c : cell => (c.1, x00)) <$> k_view s x else k_view s x)
    (fun s' => uk_step s s' /\ forall x, ~ within z zl x -> k_view s' x = k_view s x) s.
Proof.
  intros Hi Hr Hz Hl Hend Hw.
  destruct (uk_store s a len z (replicate (Z.to_nat zl) x00) Hi Hr Hz) as (Hs & Hd & Hv);
    [rewrite length_replicate; lia|done|].
  split; [by apply mem_uk_step|]. split; [apply Hs|]. split; [done|]. intros x. rewrite Hv. unfold within.
  destruct (decide (z <= x)) as [Hx|Hx].
  + destruct (decide (x < z + zl)).
    * rewrite lookup_replicate_2 by lia. by rewrite decide_True by lia.
    * rewrite (lookup_ge_None_2 _ (Z.to_nat (x - z))) by (rewrite length_replicate; lia). by rewrite decide_False by lia.
  + by rewrite decide_False by lia.
Qed.

Lemma uk_region_join s a l1 l2 :
  uk_region s a l1 -> 0 <= l2 -> (0 < l2 -> uk_region s (a + l1) l2) -> uk_region s a (l1 + l2).
Proof.
  intros Hr1 H2 Hr2. destruct Hr1 as [(R1 & R2 & R3 & R4 & R5) Hm1]. destruct (decide (0 < l2)) as [Hl2|Hl2].
  - destruct (Hr2 Hl2) as [(Q1 & Q2 & Q3 & Q4 & Q5) Hm2]. split; [split_and!; try done; try lia; by apply Z.divide_add_r|].
    intros x Hx. destruct (decide (x < a + l1)); [apply Hm1|apply Hm2]; unfold within in *; lia.
  - replace (l1 + l2) with l1 by lia. done.
Qed.

Lemma uk_protect_law s a len prot :
  k_inv s -> uk_region s a len -> prot_ok prot ->
  wp (vm_protect a len prot)
    (fun _ s' => uk_step s s' /\ k_file s' = k_file s /\
       (forall b bl, uk_region s b bl <-> uk_region s' b bl) /\
       forall x, k_view s' x =
         if decide (within a len x) then (fun c : cell => (prot, c.2)) <$> k_view s x else k_view s x)
    (fun s' => uk_step s s' /\ forall x, ~ within a len x -> k_view s' x = k_view s x) s.
Proof.
  intros Hi Hreg Hp.
  destruct Hreg as [(R1 & R2 & R3 & R4 & R5) Hmap].
  eapply wp_mono; [by apply uk_protect_wp| |].
  + intros _ s' [Hs Hb Hrange]. split; [by apply mem_uk_step|]. split; [apply Hs|].
    split; [apply uk_region_dom; intros x; by apply (dom_of snd)|]. intros x.
    specialize (Hrange R1 R2 R3 R4 R5 Hmap x). case_decide; [|done]. rewrite to_prot_id in Hrange by done.
    destruct (Hmap x) as [[p b] Hc]; [done|]. rewrite Hc. cbn. apply cell_eta; [by apply Hrange|].
    by rewrite Hb, Hc.
  + intros s' [Hs Hb Hrange]. split; [by apply mem_uk_step|]. intros x Hx.
    specialize (Hrange R1 R2 R3 R4 R5 Hmap x). by rewrite decide_False in Hrange.
Qed.

Lemma uk_protect_part_law s a len z zl prot :
  k_inv s -> uk_region s a len -> a <= z -> 0 < zl -> z + zl <= a + len -> (page | z) -> (page | zl) ->
  let post s' := uk_step s s' /\ k_file s' = k_file s /\
       (forall b bl, uk_region s b bl <-> uk_region s' b bl) /\
       (forall x, snd <$> k_view s' x = snd <$> k_view s x) /\
       (forall x, ~ within a len x -> k_view s' x = k_view s x) in
  wp (vm_protect z zl prot) (fun _ => post) post s.
Proof.
  intros Hi Hr Hz Hl Hend Dz Dzl. cbv zeta.
  pose proof Hr as [(R1 & R2 & R3 & R4 & R5) Hmap].
  assert (Hpost : forall ok s', protected z zl prot ok s s' ->
    uk_step s s' /\ k_file s' = k_file s /\ (forall b bl, uk_region s b bl <-> uk_region s' b bl) /\
    (forall x, snd <$> k_view s' x = snd <$> k_view s x) /\ forall x, ~ within a len x -> k_view s' x = k_view s x).
  { intros ok s' [Hs Hb Hrange]. split; [by apply mem_uk_step|]. split; [apply Hs|].
    split; [apply uk_region_dom; intros x; by apply (dom_of snd)|]. split; [done|]. intros x Hx.
    assert (Hmapz : forall x, within z zl x -> is_Some (k_view s x)) by (intros y Hy; apply Hmap; unfold within in *; lia).
    specialize (Hrange ltac:(lia) Dz Dzl Hl ltac:(lia) Hmapz x). rewrite decide_False in Hrange; [done|].
    unfold within in *. lia. }
  eapply wp_mono; [by apply uk_protect_wp|intros ? s'; apply Hpost|intros s'; apply Hpost].
Qed.

Lemma uk_unmap_law s a len :
  LIBPOSIX_MMAP kc = true -> k_inv s -> 0 <= a -> (page | a) -> (page | len) -> 0 < len -> a + len < 2 ^ 64 ->
  wp (vm_unmap a len)
    (fun _ s' => uk_step s s' /\ k_file s' = k_file s /\
       forall x, k_view s' x = if decide (within a len x) then None else k_view s x)
    (fun _ => False) s.
Proof.
  intros Hm Hi H0 Da Dl Hl Hu. apply from_rc_wp.
  cbn [elfrs_unmap sp_memory shim_memory]. unfold shim_unmap, rc_or_errno. rewrite Hm.
  pose proof (law_munmap s a len Hm Hi H0 Da Dl Hl Hu) as Hlaw.
  destruct (munmap a len s) as [[rc e] s']. destruct Hlaw as (Hrc & Hs & Hv).
  rewrite (proj2 (Z.ltb_ge _ _)) by done. split; [lia|]. rewrite decide_False by lia.
  split; [by apply mem_uk_step|]. split; [apply Hs|done].
Qed.

Lemma uk_alloc_law s align len :
  k_inv s -> is_power_of_two align = true -> page <= align < 2 ^ 64 -> (page | len) -> 0 < len ->
  wp (vm_alloc_aligned align len)
    (fun a s' => uk_step s s' /\ k_file s' = k_file s /\ uk_region s' a len /\
       k_block s' a len /\ (forall bl, ~ k_block s a bl) /\
       0 <= a /\ (align | a) /\ a + len < 2 ^ 64 /\
       (forall x, within a len x -> k_view s x = None /\ exists b, k_view s' x = Some (RW, b)) /\
       forall x, ~ within a len x -> k_view s' x = k_view s x)
    (fun s' => uk_step s s' /\ forall x, k_view s' x = k_view s x) s.
Proof.
  intros Hi Hpow Hal Dl Hl. destruct page_value as [_ Hpg].
  unfold wp. cbn. unfold uk_alloc_aligned. cbn [elfrs_memalign sp_memory shim_memory]. unfold shim_memalign.
  rewrite (proj2 (Z.ltb_ge align 8)) by lia.
  pose proof (law_memalign s align len Hi Hpow ltac:(lia) Hl) as Hlaw.
  destruct (uk_memalign align len s) as [p s']. destruct Hlaw as [Hs Hlaw].
  destruct (Z.eqb_spec p 0) as [Hp|Hp].
  + rewrite decide_True in Hlaw by done. split; [by apply mem_uk_step|done].
  + rewrite decide_False in Hlaw by done. destruct Hlaw as (Hb & Hn & H0 & Da & Hu & Hin & Hout).
    split; [by apply mem_uk_step|]. split; [apply Hs|].
    assert (Dp : (page | p)).
    { apply Z.divide_trans with align; [|done]. apply power_of_two_divide; [apply page_power|done|lia]. }
    split; [|done]. split; [done|]. intros x Hx. destruct (Hin x Hx) as [_ [b ->]]. eauto.
Qed.

Definition UkVm_laws : VmLaws S (vm:=sp_vm).
Proof.
  refine {| vm_inv := k_inv; view := k_view; region := uk_region; fd_data := k_file; block := k_block;
            vm_kept := uk_kept;
            max_len := 2 ^ 64 - 1; room := fun _ len => len < 2 ^ 64; heap_room := fun _ _ _ => True |};
    rewrite ?uk_page, ?uk_can_map.
  - exact page_power.
  - destruct page_value as [_ Hp]. lia.
  - intros s len H. lia.
  - intros s a len _ [_ H]. exact H.
  - intros s w len prot Hi Hr Hd Hl Hp Hw. by apply uk_map_fresh.
  - intros s a len prot src Hi H0 Da Dl Hl Hu Hp Hmap Hsrc. apply uk_map_exact; try done. lia.
  - intros s a len z zl. apply uk_zero_law.
  - intros s a len w d Hi Hr Hz _ Hend Hw.
    destruct (uk_store s a len w d Hi Hr Hz Hend Hw) as (Hs & Hd & Hv).
    split; [by apply mem_uk_step|]. split; [apply Hs|]. done.
  - intros s a l1 l2 prot Hi Hr1 H1 H2 Hr2 Hp. apply uk_protect_law; [done| |done]. by apply uk_region_join.
  - intros s a len z zl prot. apply uk_protect_part_law.
  - intros s z zl s' Hi Hz Hl Hmap Hrun.
    assert (s' = raw_store z (replicate (Z.to_nat zl) x00) s) as -> by (by injection Hrun).
    destruct (law_raw_store s z (replicate (Z.to_nat zl) x00) Hi) as (Hs & Hp & _).
    { intros x. rewrite length_replicate, Z2Nat.id by lia. apply Hmap. }
    split; [apply Hs|]. split; [apply Hs|]. intros x. by apply (dom_of fst).
  - intros s a len prot s' Hi Hr. pose proof (uk_protect_wp s a len prot Hi) as H. unfold wp in H. rewrite Hr in H.
    destruct H as [Hs Hb _]. split; [apply Hs|]. split; [apply Hs|]. intros x. by apply (dom_of snd).
  - intros s a len. apply uk_unmap_law.
  - intros s a len Hi. unfold wp. cbn. unfold shim_icache_sync.
    assert (Hsame : uk_step s s) by (by apply mem_uk_step, mem_step_refl).
    destruct target_aarch64; [|done]. destruct (len =? 0); [done|].
    destruct (law_icache_inval s a len Hi) as [Hs Hv]. split; [by apply mem_uk_step|]. split; [apply Hs|].
    split; [|done]. apply uk_region_dom. intros x. by rewrite Hv.
  - intros s align len Hi _. by apply uk_alloc_law.
  - intros s a len Hi Hb H0 Da Dl Hl Hu. destruct (law_uk_free s a len Hi Hb) as (Hi' & Hk & ? & ? & Hf & Hv).
    unfold wp. cbn. split_and!; try done. split; [done|by rewrite Hf|done].
Defined.

End Space.
