(* ===== verification/Rt.v ===== *)
(** * What a freestanding crate supplies itself ([rust/src/rt.rs])

    The heap, which goes to Unikraft's allocator through the shim; the panic
    handler, which formats into a small buffer on the stack; and the cached
    configuration of [rust/src/sys.rs]. *)

From Stdlib Require Import Strings.Byte.
From stdpp Require Import base numbers option strings sets list.
From S2P Require Import Prelude Err Elf Layout Loader VmSpec Program Sys App Binfmt Shim ShimFacts.

(** ** The heap *)

(** [core::alloc::Layout]: what its constructors guarantee. *)
Record AllocLayout : Type := MkAllocLayout { l_align : Z; l_size : Z }.

Record layout_ok (l : AllocLayout) : Prop := {
  ly_align : is_power_of_two (l_align l) = true;
  ly_width : l_align l < 2 ^ 63;
  ly_size : 0 <= l_size l < 2 ^ 63
}.

Section Heap.
Context {S : Type} {memory : Memory S}.

Definition heap_alloc (layout : AllocLayout) (s : S) : Z * S :=
  elfrs_memalign (l_align layout) (l_size layout) s.

Definition heap_dealloc (ptr : Z) (_layout : AllocLayout) (s : S) : S :=
  elfrs_free ptr s.
End Heap.

(** ** The panic handler *)

Record PanicBuf : Type := MkPanicBuf { pb : list byte; pn : nat }.

Definition PANIC_MAX : nat := 256.

Definition panic_buf_new : PanicBuf := MkPanicBuf (replicate PANIC_MAX x00) 0.

(** [self.b.len() - 1 - self.n] is the arithmetic of [usize]. *)
Definition panic_write_str {E : Type} (buf : PanicBuf) (s : list byte) : outcome E PanicBuf :=
  if (length (pb buf) - 1 <? pn buf)%nat then Panic else
  let room := (length (pb buf) - 1 - pn buf)%nat in
  let taken := Nat.min (length s) room in
  data ← overwrite (pb buf) (pn buf) (take taken s);
  Ok (MkPanicBuf data (pn buf + taken)).

Fixpoint panic_write_fmt {E : Type} (buf : PanicBuf) (pieces : list (list byte)) : outcome E PanicBuf :=
  match pieces with
  | [] => Ok buf
  | s :: pieces => buf ← panic_write_str buf s; panic_write_fmt buf pieces
  end.

Definition panic_prefix : list byte := String.list_byte_of_string "elfloader panic: ".

(** The array [elfrs_crash] gets a pointer to; [info] is what the panic's
    description is written in. *)
Definition panic {E : Type} (info : list (list byte)) : outcome E (list byte) :=
  buf ← panic_write_fmt panic_buf_new (panic_prefix :: info);
  if (pn buf <? length (pb buf))%nat then Ok (<[pn buf := x00]> (pb buf)) else Panic.

(** ** The cached configuration *)

Section Cached.
Variable get : Cfg.

(** [cfg]: the static is filled at the first call. *)
Definition cfg_cached (slot : option Cfg) : Cfg * option Cfg :=
  match slot with
  | Some c => (c, slot)
  | None => (get, Some get)
  end.

Definition page_size_cached (slot : option Cfg) : Z * option Cfg :=
  let '(c, slot) := cfg_cached slot in (cfg_page_size c, slot).

(** What the slot can hold. *)
Definition slot_ok (slot : option Cfg) : Prop := slot = None \/ slot = Some get.

Lemma cfg_cached_ok slot : slot_ok slot -> cfg_cached slot = (get, Some get).
Proof. by intros [-> | ->]. Qed.

Lemma page_size_cached_ok slot : slot_ok slot -> page_size_cached slot = (cfg_page_size get, Some get).
Proof. intros H. unfold page_size_cached. by rewrite cfg_cached_ok. Qed.
End Cached.

(** ** The panic message *)

(** The buffer after [s] was written to it. *)
Definition panic_holds (s : list byte) (buf : PanicBuf) : Prop :=
  pn buf = Nat.min (length s) 255 /\ pb buf = take 255 s ++ replicate (256 - pn buf) x00.

Lemma panic_write_str_holds {E} s t buf : panic_holds s buf ->
  exists buf', panic_write_str (E:=E) buf t = Ok buf' /\ panic_holds (s ++ t) buf'.
Proof.
  intros [Hn Hb]. unfold panic_write_str, overwrite.
  assert (Hl : length (pb buf) = 256%nat) by (rewrite Hb, length_app, length_take, length_replicate; lia).
  rewrite Hl, (proj2 (Nat.ltb_ge _ _)) by lia. set (k := Nat.min (length t) (256 - 1 - pn buf)).
  assert (Hk : length (take k t) = k) by (rewrite length_take; lia).
  rewrite at_least_leb, Hk, (proj2 (Nat.leb_le _ _)) by lia. cbn [mbind outcome_bind].
  eexists. split; [done|]. split; cbn [pb pn]; [rewrite length_app; lia|].
  assert (Hs : length (take 255 s) = pn buf) by (rewrite length_take; lia).
  rewrite Hb, take_app_le, take_ge by lia. rewrite drop_app_ge, Hs by lia.
  rewrite drop_replicate, take_app, app_assoc. f_equal; [|f_equal; lia].
  f_equal. destruct (Nat.le_gt_cases (length s) 255).
  - destruct (Nat.le_gt_cases (length t) (255 - length s)); [|f_equal; lia]. rewrite !take_ge; [done|lia|lia].
  - replace k with 0%nat by lia. by replace (255 - length s)%nat with 0%nat by lia.
Qed.

Lemma panic_write_fmt_holds {E} pieces s buf : panic_holds s buf ->
  exists buf', panic_write_fmt (E:=E) buf pieces = Ok buf' /\ panic_holds (s ++ mjoin pieces) buf'.
Proof.
  revert s buf. induction pieces as [|t pieces IH]; intros s buf Hb; cbn [panic_write_fmt].
  { exists buf. split; [done|]. cbn. by rewrite app_nil_r. }
  destruct (panic_write_str_holds (E:=E) s t buf Hb) as (buf1 & -> & Hb1). cbn [mbind outcome_bind].
  destruct (IH (s ++ t) buf1 Hb1) as (buf2 & -> & Hb2). exists buf2. split; [done|].
  cbn [mjoin list_join]. by rewrite app_assoc.
Qed.

(** The handler does not panic in its turn, whatever the message: [elfrs_crash]
    gets the first 255 bytes of it, and zeros up to the end of the array. *)
Lemma panic_spec {E} info :
  let msg := panic_prefix ++ mjoin info in
  panic (E:=E) info = Ok (take 255 msg ++ replicate (256 - Nat.min (length msg) 255) x00).
Proof.
  intros msg. unfold panic. destruct (panic_write_fmt_holds (E:=E) (panic_prefix :: info) [] panic_buf_new) as (buf & -> & Hn & Hb).
  { by split. }
  cbn [mbind outcome_bind]. change ([] ++ mjoin (panic_prefix :: info)) with msg in Hn, Hb. rewrite Hb.
  assert (Hs : length (take 255 msg) = pn buf) by (rewrite length_take; lia).
  rewrite length_app, Hs, length_replicate, (proj2 (Nat.ltb_lt _ _)) by lia.
  rewrite insert_app_r_alt by lia. rewrite Hs, Nat.sub_diag, Hn. do 2 f_equal.
  rewrite list_insert_id; [done|]. apply lookup_replicate_2. lia.
Qed.

(** ** The contract of the heap *)

Section Contract.
Context {S : Type} {kernel : Kernel S} {kview : KernelView S} {kenv : KernelEnv} {target : Target}.
Context (kc : Kconfig) {kmem : KernelMemory S kc}.
#[local] Instance rt_memory : Memory S := shim_memory kc.

(** An alignment below a pointer's is raised to it and divides it. *)
Lemma raised_align a : is_power_of_two a = true -> a < 2 ^ 63 ->
  let a' := if a <? 8 then 8 else a in is_power_of_two a' = true /\ 8 <= a' < 2 ^ 64 /\ (a | a').
Proof.
  intros Hp Ha. cbv zeta. destruct (Z.ltb_spec a 8).
  - split; [done|]. split; [lia|]. apply power_of_two_divide; [done|done|lia].
  - split; [done|]. split; [lia|done].
Qed.

(** C37. The heap of the crate keeps the contract of a Rust allocator over the
    shim and Unikraft's: for every layout of a nonzero size, whatever its
    alignment, [alloc] returns null and changes no memory, or a block of that
    size, aligned as asked, in memory nobody had, readable and writable, with
    nothing else touched; and [dealloc] of the block puts every address back as
    it was. *)
Theorem UkHeap_contract s l :
  k_inv s -> layout_ok l -> 0 < l_size l ->
  let '(p, s') := heap_alloc l s in
  k_inv s' /\
  if decide (p = 0) then forall x, k_view s' x = k_view s x
  else (l_align l | p) /\ 0 < p /\ p + l_size l < 2 ^ 64 /\
    (forall x, within p (l_size l) x -> k_view s x = None /\ writable (k_view s' x)) /\
    (forall x, ~ within p (l_size l) x -> k_view s' x = k_view s x) /\
    k_inv (heap_dealloc p l s') /\ forall x, k_view (heap_dealloc p l s') x = k_view s x.
Proof.
  intros Hi [Hp Hw _] Hn. destruct (raised_align _ Hp Hw) as (Hp' & Ha' & Hd).
  unfold heap_alloc, heap_dealloc. cbn [elfrs_memalign elfrs_free rt_memory shim_memory]. unfold shim_memalign.
  set (a' := if l_align l <? 8 then 8 else l_align l) in *.
  pose proof (law_memalign s a' (l_size l) Hi Hp' Ha' Hn) as Hlaw.
  destruct (uk_memalign a' (l_size l) s) as [p s']. destruct Hlaw as [[[Hi' _ _] _ _] Hlaw]. split; [done|].
  destruct (decide (p = 0)) as [|Hp0]; [done|]. destruct Hlaw as (Hb & _ & H0 & Da & Hu & Hin & Hout).
  destruct (law_uk_free s' p (l_size l) Hi' Hb) as (Hi2 & _ & _ & _ & _ & Hv).
  split_and!; [by apply Z.divide_trans with a'|lia|done| |done|done|].
  - intros x Hx. destruct (Hin x Hx) as [Hnone [b Hb']]. split; [done|]. rewrite Hb'. done.
  - intros x. rewrite Hv. case_decide as Hx; [by destruct (Hin x Hx) as [-> _]|by apply Hout].
Qed.
End Contract.
