(* ===== verification/ShimFiles.v ===== *)
(** * Files through the shim

    Laws of the C library's file calls; that the file functions of the shim, the
    retried [pread] among them, keep what [File] and the openers were verified
    against; and that every opener does what loading a program asks of it. *)

From Stdlib Require Import Strings.Byte.
From stdpp Require Import base numbers option strings sets list.
From S2P Require Import Prelude Err Util Elf ElfFacts Layout Loader VmSpec LoaderFacts Auxv AuxvFacts Program ProgramFacts.
From S2P Require Import Frame Sys SysFacts App AppFacts Binfmt Shim ShimFacts.

(** ** Laws *)

(** What opening and closing leave alone: every address, block and thread. *)
Record file_step {S} {kernel : Kernel S} {kview : KernelView S} (s s' : S) : Prop := {
  fs_step : k_step s s';
  fs_threads : threads_same s s';
  fs_view : forall x, k_view s' x = k_view s x
}.

(** An attempt of a [pread] that was interrupted. *)
Definition interrupted {S} {kernel : Kernel S} (n : nat) (fd len off : Z) (s : S) : Prop :=
  (c_pread n fd len off s).1.1 < 0 /\ (c_pread n fd len off s).1.2 = EINTR.

Class KernelFiles (S : Type) {kernel : Kernel S} {kview : KernelView S} (kc : Kconfig) : Type := {
  law_fd_range s fd : k_inv s -> fd < 0 -> k_file s fd = None;
  law_no_files s fd : k_inv s -> HAVE_VFS kc = false -> k_file s fd = None;
  law_c_open s path :
    HAVE_VFS kc = true -> k_inv s ->
    let '((fd, e), s') := c_open path O_RDONLY s in
    file_step s s' /\
    if decide (fd < 0) then errno_ok e /\ forall g, k_file s' g = k_file s g
    else k_file s fd = None /\ exists d, Z.of_nat (length d) < 2 ^ 63 /\
      forall g, k_file s' g = if decide (g = fd) then Some d else k_file s g;
  law_c_close s fd :
    HAVE_VFS kc = true -> k_inv s ->
    file_step s (c_close fd s) /\ forall g, k_file (c_close fd s) g = if decide (g = fd) then None else k_file s g;
  (** A [pread] is interrupted so often at most, and then reads something of what
      is there, nothing at the end, and fails before the beginning. *)
  law_c_pread s fd d len off :
    HAVE_VFS kc = true -> k_inv s -> k_file s fd = Some d -> 0 < len ->
    exists n, (n <= patience)%nat /\ (forall m, (m < n)%nat -> interrupted m fd len off s) /\
      let '((rc, e), b) := c_pread n fd len off s in
      if decide (off < 0) then rc < 0 /\ errno_ok e /\ e <> EINTR
      else if decide (off < Z.of_nat (length d))
      then 0 < rc <= len /\ off + rc <= Z.of_nat (length d) /\ b = take (Z.to_nat rc) (drop (Z.to_nat off) d)
      else rc = 0;
  law_c_fstat s fd :
    HAVE_VFS kc = true -> k_inv s ->
    let '((rc, e), st) := c_fstat fd s in
    (rc < 0 -> errno_ok e) /\
    forall d, k_file s fd = Some d -> 0 <= rc /\ st_size st = Z.of_nat (length d);
  law_c_chdir s path :
    HAVE_VFS kc = true -> k_inv s ->
    let '((rc, e), s') := c_chdir path s in
    file_step s s' /\ k_file s' = k_file s /\ (rc < 0 -> errno_ok e)
}.

Section Files.
Context {S : Type} {kernel : Kernel S} {kview : KernelView S} {kenv : KernelEnv} {target : Target}.
Context (kc : Kconfig) {kfiles : KernelFiles S kc}.

#[local] Instance fi_vfs : Vfs S := shim_vfs kc.

Lemma file_step_refl s : k_inv s -> file_step s s.
Proof. done. Qed.

(** ** The retried read *)

Lemma pread_attempts_eq fuel n k fd len off s :
  (k <= fuel)%nat -> (forall m, (m < k)%nat -> interrupted (n + m) fd len off s) ->
  ~ interrupted (n + k) fd len off s ->
  pread_attempts fuel n fd len off s =
  let '((rc, e), d) := c_pread (n + k) fd len off s in (if rc <? 0 then - e else rc, d).
Proof.
  revert n k. induction fuel as [|fuel IH]; intros n k Hk Hint Hno.
  - assert (k = 0%nat) as -> by lia. rewrite Nat.add_0_r in *. cbn. unfold interrupted in Hno.
    destruct (c_pread n fd len off s) as [[rc e] d]. cbn in Hno.
    destruct (Z.ltb_spec rc 0); [|done]. cbn. destruct (Z.eqb_spec e EINTR); [|done]. exfalso. auto.
  - destruct k as [|k].
    + rewrite Nat.add_0_r in *. cbn. unfold interrupted in Hno. destruct (c_pread n fd len off s) as [[rc e] d].
      cbn in Hno. destruct (Z.ltb_spec rc 0); [|done]. cbn. destruct (Z.eqb_spec e EINTR); [|done]. exfalso. auto.
    + cbn [pread_attempts]. pose proof (Hint 0%nat ltac:(lia)) as H0. rewrite Nat.add_0_r in H0.
      unfold interrupted in H0. destruct (c_pread n fd len off s) as [[rc e] d]. cbn in H0. destruct H0 as [Hrc ->].
      rewrite (proj2 (Z.ltb_lt _ _)), Z.eqb_refl by done. cbn [andb].
      rewrite (IH (Datatypes.S n) k); [|lia| |].
      * by rewrite Nat.add_succ_comm.
      * intros m Hm. rewrite Nat.add_succ_comm. apply Hint. lia.
      * by rewrite Nat.add_succ_comm.
Qed.

Lemma shim_pread_ok s fd d :
  HAVE_VFS kc = true -> k_inv s -> k_file s fd = Some d -> pread_ok s fd d.
Proof.
  intros Hv Hi Hf.
  assert (Hread : forall len off, 0 < len -> exists n rc e b, c_pread n fd len off s = ((rc, e), b) /\
    elfrs_pread fd len off s = (if rc <? 0 then - e else rc, b) /\
    if decide (off < 0) then rc < 0 /\ errno_ok e /\ e <> EINTR
    else if decide (off < Z.of_nat (length d))
    then 0 < rc <= len /\ off + rc <= Z.of_nat (length d) /\ b = take (Z.to_nat rc) (drop (Z.to_nat off) d)
    else rc = 0).
  { intros len off Hl. destruct (law_c_pread s fd d len off Hv Hi Hf Hl) as (n & Hn & Hint & Hres).
    cbn [elfrs_pread fi_vfs shim_vfs]. unfold shim_pread. rewrite Hv.
    destruct (c_pread n fd len off s) as [[rc e] b] eqn:Hc. exists n, rc, e, b. split; [done|]. split; [|done].
    rewrite (pread_attempts_eq patience 0 n); [cbn; by rewrite Hc|done|done|].
    unfold interrupted. cbn. rewrite Hc. cbn. repeat case_decide; naive_solver lia. }
  split; intros len off Hl Hoff; destruct (Hread len off Hl) as (n & rc & e & b & _ & Hp & Hres); rewrite Hp.
  - rewrite decide_False, decide_True in Hres by lia. destruct Hres as (Hrc & Hend & ->).
    exists rc. rewrite (proj2 (Z.ltb_ge _ _)) by lia. done.
  - rewrite !decide_False in Hres by lia. subst rc. by exists b.
  - rewrite decide_True in Hres by lia. destruct Hres as (Hrc & He & _). unfold errno_ok in He.
    exists (- e), b. rewrite (proj2 (Z.ltb_lt _ _)) by done. split; [lia|done].
Qed.

(** ** The laws of the file functions *)

Definition shim_contents (s : S) (fd : Z) : option (list byte) := if HAVE_VFS kc then k_file s fd else None.

Lemma shim_fd_exec_bound s fd : k_inv s -> - 2 ^ 31 < shim_fd_is_exec kc fd s.
Proof.
  intros Hi. unfold shim_fd_is_exec. destruct (HAVE_VFS kc) eqn:Hv; [|done].
  pose proof (law_c_fstat s fd Hv Hi) as Hst. destruct (c_fstat fd s) as [[rc e] st]. destruct Hst as [He _].
  destruct (Z.ltb_spec rc 0) as [Hrc|_].
  - specialize (He Hrc). unfold errno_ok in He. lia.
  - by destruct (st_isreg st), (st_ixusr st).
Qed.

Definition ShimVfs_laws : VfsLaws S.
Proof.
  refine {| vfs_inv := k_inv; contents := shim_contents |};
    cbn [elfrs_open_ro elfrs_close elfrs_fsize elfrs_fd_is_exec fi_vfs shim_vfs]; unfold shim_contents.
  - intros s c Hi. unfold shim_open_ro. destruct (HAVE_VFS kc) eqn:Hv; [|done].
    pose proof (law_c_open s c Hv Hi) as Ho. destruct (c_open c O_RDONLY s) as [[fd e] s'].
    destruct Ho as [[[? ? _] _ _] Ho]. split; [done|]. destruct (Z.ltb_spec fd 0).
    + rewrite decide_True in Ho by done. destruct Ho as [He ?]. unfold errno_ok in He. rewrite decide_True by lia.
      split; [lia|done].
    + rewrite decide_False in Ho by lia. by rewrite decide_False by lia.
  - intros s fd Hi. unfold shim_close. destruct (HAVE_VFS kc) eqn:Hv; [|by split; [|intros g; case_decide]].
    destruct (Z.leb_spec 0 fd).
    + destruct (law_c_close s fd Hv Hi) as [[[? _ _] _ _] Hc]. done.
    + split; [done|]. intros g. case_decide; [|done]. subst g. by apply law_fd_range.
  - intros s fd d Hi. destruct (HAVE_VFS kc) eqn:Hv; [|done]. by apply shim_pread_ok.
  - intros s fd d Hi. unfold shim_fsize. destruct (HAVE_VFS kc) eqn:Hv; [|done]. intros Hf.
    pose proof (law_c_fstat s fd Hv Hi) as Hst. destruct (c_fstat fd s) as [[rc e] st].
    destruct (proj2 Hst d Hf) as [Hrc ->]. by rewrite (proj2 (Z.ltb_ge _ _)).
  - apply shim_fd_exec_bound.
Defined.

(** Opening and closing leave everything else alone. *)
Definition file_kept (s s' : S) : Prop := k_inv s -> file_step s s'.

#[global] Instance file_kept_pre : PreOrder file_kept.
Proof.
  split; [by intros s|]. intros s1 s2 s3 H1 H2 Hi. destruct (H1 Hi) as [[Hi2 Hb2 Hu2] Ht2 Hv2].
  destruct (H2 Hi2) as [[Hi3 Hb3 Hu3] Ht3 Hv3]. split; [split; [done|auto|congruence]|by etrans|].
  intros x. by rewrite Hv3.
Qed.

Lemma shim_files_respect : files_respect file_kept.
Proof.
  split; cbn [elfrs_open_ro elfrs_close fi_vfs shim_vfs].
  - intros s c Hi. unfold shim_open_ro. destruct (HAVE_VFS kc) eqn:Hv; [|by apply file_step_refl].
    pose proof (law_c_open s c Hv Hi) as Ho. destruct (c_open c O_RDONLY s) as [[fd e] s']. apply Ho.
  - intros s fd Hi. unfold shim_close. destruct (HAVE_VFS kc) eqn:Hv; [|by apply file_step_refl].
    destruct (0 <=? fd); [|by apply file_step_refl]. by apply law_c_close.
Qed.
End Files.

(** ** The openers *)

Section Openers.
Context {S : Type} {kernel : Kernel S} {kview : KernelView S} {kenv : KernelEnv} {target : Target} {heap : Heap}.
Context (kc : Kconfig) {kmem : KernelMemory S kc} {kfiles : KernelFiles S kc}.

Abbreviation cfg := (elfrs_cfg_get kc vdso_image_addr).
#[local] Instance op_memory : Memory S := shim_memory kc.
#[local] Instance op_vm : Vm S := UkVm cfg.
#[local] Instance op_laws : VmLaws S := UkVm_laws kc.
#[local] Instance op_vfs : Vfs S := shim_vfs kc.
#[local] Instance op_flaws : VfsLaws S := ShimVfs_laws kc.

Lemma file_step_held s s' : file_step s s' -> vm_held s s' /\ same_view s s'.
Proof. by intros [[? ? _] _ ?]. Qed.

(** Only when there are files is anything open. *)
Lemma contents_file s fd d : shim_contents kc s fd = Some d -> k_file s fd = Some d /\ HAVE_VFS kc = true.
Proof. unfold shim_contents. by destruct (HAVE_VFS kc). Qed.

(** What an opener returns satisfies what loading asks for. *)
Lemma opened_opens path s o s' fd d :
  k_inv s -> file_step s s' -> opened_ok cfg path s o s' fd d ->
  (vm_held s s' /\ same_view s s') /\ (exists data, file_ok s' o data) /\ droppable o /\
  forall s2, vm_inv s2 -> vm_kept s' s2 -> vm_kept s (o_drop o s2).
Proof.
  intros Hi Hstep [[_ _] Hi' Hnew Hopen Hsv Hsz Hfd Hdrop].
  pose proof (Hopen fd) as Hfile. rewrite decide_True in Hfile by done.
  apply contents_file in Hfile as [Hfile Hv]. unfold contents, op_flaws, ShimVfs_laws, shim_contents in Hnew, Hopen.
  rewrite Hv in Hnew, Hopen. pose proof (shim_files_respect kc) as [_ Hclose].
  split; [by apply file_step_held|]. split; [|split].
  - exists d. split; [done|done|]. intros g Hg _. rewrite Hfd in Hg. by destruct (flag _); [injection Hg as <-|].
  - intros s2 Hi2. rewrite Hdrop. apply file_step_held. by apply Hclose.
  - intros s2 Hi2 [Ht Hf Hu]. rewrite Hdrop. destruct (Hclose s2 fd Hi2) as [[_ _ Hu2] Ht2 _].
    destruct Hstep as [[_ _ Hu1] Ht1 _]. split.
    + etrans; [done|]. by etrans.
    + intros g. pose proof (law_close s2 fd Hi2) as [_ Hc]. specialize (Hc g).
      unfold contents, op_flaws, ShimVfs_laws, shim_contents in Hc. rewrite Hv in Hc. rewrite Hc, Hf, Hopen.
      by case_decide; [subst|].
    + exact (eq_trans Hu2 (eq_trans Hu Hu1)).
Qed.

Lemma failed_opens s s' : k_inv s -> file_step s s' -> same_files s s' -> vm_step s s' /\ same_view s s'.
Proof.
  intros Hi Hstep Hf. destruct (file_step_held s s' Hstep) as [Hh Hv]. split; [|done]. split; [done|].
  destruct Hstep as [[Hi' _ ?] ? _]. split; [done| |done]. destruct (Hf Hi) as [_ Hc]. intros g. specialize (Hc g).
  unfold contents, op_flaws, ShimVfs_laws, shim_contents in Hc. destruct (HAVE_VFS kc) eqn:Hvfs; [done|].
  by rewrite !law_no_files.
Qed.

Lemma vfs_opener_opens path s : k_inv s -> short path -> opens (VfsOpener cfg path) s.
Proof.
  intros Hi Hp. pose proof (vfs_opener_preserves file_kept cfg path (shim_files_respect kc) s) as Hk.
  pose proof (opener_wp cfg path s Hi ltac:(unfold short in Hp; lia)) as Ho. unfold opens, wp in *.
  destruct (VfsOpener cfg path s) as [[o|e|] s']; [| |done].
  - destruct Ho as (fd & d & Ho & _). apply (opened_opens path s o s' fd d); [done|by apply Hk|done].
  - apply failed_opens; [done|by apply Hk|done].
Qed.

Lemma binfmt_opener_opens path s : k_inv s -> short path -> opens (binfmt_opener cfg path) s.
Proof.
  intros Hi Hp. pose proof (binfmt_opener_preserves file_kept cfg path (shim_files_respect kc) s) as Hk.
  pose proof (binfmt_opener_wp cfg path s Hi ltac:(unfold short in Hp; lia)) as Ho. unfold opens, wp in *.
  destruct (binfmt_opener cfg path s) as [[o|e|] s']; [| |done].
  - destruct Ho as (fd & d & Ho). apply (opened_opens path s o s' fd d); [done|by apply Hk|done].
  - apply failed_opens; [done|by apply Hk|done].
Qed.

(** An image in memory owns nothing. *)
Lemma initrd_opener_opens mem base len path s :
  k_inv s -> 0 <= len < 2 ^ 64 -> opens (InitrdOpener mem base len path) s.
Proof.
  intros Hi Hlen. unfold opens, wp, InitrdOpener. destruct (negb _); [by split; [apply step_refl|]|].
  cbn. split; [done|]. split; [|split].
  - exists (mem_bytes mem base (Z.to_nat len)). split; [by apply mem_image_serves| |done].
    cbn. rewrite length_mem_bytes. by rewrite Z2Nat.id by lia.
  - by intros s2 Hi2.
  - by intros s2 _.
Qed.
End Openers.
