(* ===== verification/RunFacts.v ===== *)
(** * A whole start

    Laws of Unikraft's threads, and what [run] does on a kernel that keeps all of
    these laws: on success the program and its interpreter are in memory, the
    stack is laid out and the thread is about to start at the right address on
    it; on failure threads, files and memory are as they were. *)

From Stdlib Require Import Strings.Byte.
From stdpp Require Import base numbers option strings sets list.
From S2P Require Import Prelude Err Util Elf ElfFacts Layout LayoutFacts Loader VmSpec LoaderFacts Auxv AuxvFacts.
From S2P Require Import Program ProgramFacts Frame Sys SysFacts App AppFacts Binfmt Shim ShimFacts ShimFiles.

(** ** Laws of threads *)

(** A thread that was created: nobody had its memory, which holds a writable
    stack between its base and the stack pointer of its context. *)
Record new_thread {S} {kernel : Kernel S} {kview : KernelView S} (s : S) (t : Z) (s' : S) : Prop := {
  nt_ctx : thread_ctx t <> 0;
  nt_new : ~ k_live s t;
  nt_live : forall u, k_live s' u <-> k_live s u \/ u = t;
  nt_fresh : forall x, k_owns s' t x = true -> k_view s x = None /\ is_Some (k_view s' x);
  nt_frame : forall x, k_owns s' t x = false -> k_view s' x = k_view s x;
  nt_base : 0 <= thread_stack t s' /\ ctx_sp (thread_ctx t) s' < 2 ^ 64;
  nt_stack : forall x, thread_stack t s' <= x < ctx_sp (thread_ctx t) s' ->
    k_owns s' t x = true /\ writable (k_view s' x)
}.

(** Everything but the memory of the thread [t] is as it was. *)
Record beside {S} {kernel : Kernel S} {kview : KernelView S} (t : Z) (s s' : S) : Prop := {
  bs_step : k_step s s';
  bs_live : forall u, k_live s' u <-> k_live s u;
  bs_owns : forall u x, k_owns s' u x = k_owns s u x;
  bs_file : forall g, k_file s' g = k_file s g;
  bs_view : forall x, k_owns s t x = false -> k_view s' x = k_view s x
}.

Class KernelThreads (S : Type) {kernel : Kernel S} {kview : KernelView S} (kc : Kconfig) : Type := {
  law_sched s : k_inv s -> uk_sched_current s <> 0;
  law_sp_align : 0 < UKARCH_SP_ALIGN /\ (UKARCH_SP_ALIGN | SP_ALIGN);
  law_initrd0 s : k_inv s -> 0 <= (ukplat_memregion_find_initrd0 s).2.2 < 2 ^ 64;
  law_container s sched name len :
    k_inv s ->
    let '(t, s') := uk_thread_create_container sched name len s in
    k_step s s' /\ (forall g, k_file s' g = k_file s g) /\
    if decide (t = 0) then (forall u, k_live s' u <-> k_live s u) /\ forall x, k_view s' x = k_view s x
    else new_thread s t s';
  law_uk_release s t :
    k_inv s -> k_live s t ->
    let s' := uk_thread_release t s in
    k_step s s' /\ (forall g, k_file s' g = k_file s g) /\ (forall u, k_live s' u <-> k_live s u /\ u <> t) /\
    forall x, k_view s' x = if k_owns s t x then None else k_view s x;
  law_set_flags s t f :
    k_inv s -> let s' := set_thread_flags t f s in
    beside t s s' /\ (forall x, k_view s' x = k_view s x) /\ (forall c, k_starts s' c = k_starts s c) /\
    thread_flags t s' = f;
  (** Setting up a context may use the memory of its thread, but not the stack
      from the new pointer up. *)
  law_ctx_setup s t sp keep ip :
    k_inv s -> k_live s t ->
    let s' := ukarch_ctx_init (thread_ctx t) sp keep ip s in
    beside t s s' /\ (forall x, sp <= x < ctx_sp (thread_ctx t) s -> k_view s' x = k_view s x) /\
    k_starts s' (thread_ctx t) = Some (sp, ip);
  (** Registering a thread may take memory, and takes none when it fails. *)
  law_create_pthread s t :
    k_inv s -> k_live s t ->
    let '(rc, s') := uk_posix_process_create_pthread t s in
    mem_step s s' /\ - 2 ^ 31 < rc /\
    (forall x, is_Some (k_view s x) -> k_view s' x = k_view s x) /\
    (rc <> 0 -> forall x, k_view s' x = k_view s x);
  law_thread_add s sched t :
    k_inv s ->
    let s' := uk_sched_thread_add sched t s in
    beside t s s' /\ (forall x, k_view s' x = k_view s x) /\ (forall c, k_starts s' c = k_starts s c) /\
    Z.land (thread_flags t s') UK_THREADF_RUNNABLE = Z.land (thread_flags t s) UK_THREADF_RUNNABLE /\
    k_queued s' t
}.

(** ** The stack of a thread *)

Section Stacks.
Context {S : Type} {kernel : Kernel S} {kview : KernelView S} {kenv : KernelEnv} {target : Target} {heap : Heap}.
Context (kc : Kconfig) {kmem : KernelMemory S kc}.

#[local] Instance st_memory : Memory S := shim_memory kc.

(** The state as it was, but for the bytes of the stack. *)
Record on_stack (lo hi : Z) (s s' : S) : Prop := {
  os_step : mem_step s s';
  os_prot : forall x, fst <$> k_view s' x = fst <$> k_view s x;
  os_frame : forall x, ~ lo <= x < hi -> k_view s' x = k_view s x
}.

Lemma mem_step_trans s1 s2 s3 : mem_step s1 s2 -> mem_step s2 s3 -> mem_step s1 s3.
Proof.
  intros [[A1 A2 A3] A4 A5] [[B1 B2 B3] B4 B5].
  split; [split; [done|auto|congruence]|by etrans|congruence].
Qed.

Definition byte_of (s : S) (x : Z) : byte := default x00 (snd <$> k_view s x).

(** A stack in writable memory, over a state it was given in. *)
Definition ThreadStack_laws (s0 : S) : StackLaws (AppStack S).
Proof.
  refine {| sw_inv := fun w => (0 <= as_lo w <= as_hi w /\ as_hi w < 2 ^ 64) /\
              (forall x, as_lo w <= x < as_hi w -> writable (k_view (as_state w) x)) /\
              on_stack (as_lo w) (as_hi w) s0 (as_state w);
            sw_mem := fun w => byte_of (as_state w) |}.
  - intros w [? _]. done.
  - intros w a d ([Hlo Hhi] & Hw & [Hs Hp Hf]) Ha Hd. cbn in Ha, Hd. cbn. unfold app_write, saturating_add, u64_max.
    rewrite (proj2 (Z.ltb_ge _ _)) by lia. rewrite (proj2 (Z.ltb_ge _ _)) by lia. cbn [orb].
    assert (Hin : forall x, within a (Z.of_nat (length d)) x -> writable (k_view (as_state w) x))
      by (intros x Hx; apply Hw; unfold within in Hx; lia).
    destruct (law_raw_store (as_state w) a d) as (Hs' & Hp' & Hv').
    { apply Hs. }
    { intros x Hx. specialize (Hin x Hx). by destruct (k_view (as_state w) x). }
    specialize (Hv' Hin). eexists. split; [done|]. cbn. split; [split; [done|split; [|split]]|].
    + intros x Hx. specialize (Hw x Hx). specialize (Hp' x).
      destruct (k_view (as_state w) x) as [[p b]|], (k_view (raw_store a d (as_state w)) x) as [[p' b']|];
        cbn in *; try done. by injection Hp' as ->.
    + by eapply mem_step_trans.
    + intros x. by rewrite Hp'.
    + intros x Hx. rewrite Hv', <- Hf by done. destruct (decide (a <= x)); [|done].
      rewrite (lookup_ge_None_2 d) by lia. done.
    + split; [done|]. split; [done|]. intros x. unfold byte_of. rewrite Hv'. unfold within.
      destruct (decide (a <= x)) as [Hx|Hx]; [|by rewrite decide_False by lia].
      destruct (decide (x < a + Z.of_nat (length d))) as [Hx2|Hx2].
      * rewrite decide_True by lia. destruct (lookup_lt_is_Some_2 d (Z.to_nat (x - a))) as [b Hb]; [lia|].
        rewrite Hb. rewrite (list_lookup_total_correct _ _ _ Hb).
        specialize (Hin x ltac:(unfold within; lia)). by destruct (k_view (as_state w) x) as [[p q]|].
      * rewrite decide_False by lia. by rewrite (lookup_ge_None_2 d) by lia.
Defined.
End Stacks.

(** ** Strings *)

(** No string is as long as an eighth of the address space. *)
Definition small (p : list byte) : Prop := Z.of_nat (length p) < 2 ^ 61.

Lemma small_le p q : (length p <= length q)%nat -> small q -> small p.
Proof. unfold small. lia. Qed.

Lemma small_short p : small p -> short p.
Proof. unfold small, short. lia. Qed.

Lemma until_nul_le m : (length (until_nul m) <= length m)%nat.
Proof. induction m as [|c m IH]; cbn; [lia|]. case_bool_decide; cbn; lia. Qed.

Lemma basename_le p : (length (basename p) <= length p)%nat.
Proof.
  unfold basename. case_match; cbv zeta; (case_match; rewrite ?length_drop, ?length_take; lia).
Qed.

Lemma split_on_le sep l w : w ∈ split_on sep l -> (length w <= length l)%nat.
Proof.
  revert w. induction l as [|c l IH]; intros w; cbn [split_on].
  { intros ->%list_elem_of_singleton. done. }
  destruct (is_byte sep c).
  { intros [->|H]%elem_of_cons; cbn; [lia|]. specialize (IH _ H). lia. }
  destruct (split_on sep l) as [|v vs]; cbn [length].
  { intros ->%list_elem_of_singleton. cbn. lia. }
  intros [->|H]%elem_of_cons; cbn.
  - specialize (IH v ltac:(left)). lia.
  - specialize (IH w ltac:(by right)). lia.
Qed.

Lemma candidate_le name dir : (length (candidate name dir) <= length dir + 2 + length name)%nat.
Proof.
  unfold candidate. rewrite length_app. destruct dir as [|c dir]; cbn [length]; case_bool_decide;
    rewrite ?length_app; cbn [length]; lia.
Qed.

Lemma candidates_le {heap : Heap} name env c :
  c ∈ path_candidates name env -> (length c <= length env + 2 + length name)%nat.
Proof.
  unfold path_candidates. intros (dir & Hd & Hc)%list_elem_of_omap. destruct (try_reserve _); [|done].
  injection Hc as <-. apply split_on_le in Hd. pose proof (candidate_le name dir). lia.
Qed.

Lemma first_exec_in {S} {heap : Heap} {vfs : Vfs S} st cands c : first_exec st cands = Some c -> c ∈ cands.
Proof.
  induction cands as [|d cands IH]; cbn; [done|]. destruct (CString_new d); [|by right; auto|by right; auto].
  destruct (_ =? _); [intros [= ->]; left|by right; auto].
Qed.

(** What the command line, the environment and the configuration hold. *)
Record strings_ok {kenv : KernelEnv} (kc : Kconfig) (args : list (list byte)) : Prop := {
  so_count : Z.of_nat (length args) < 2 ^ 62;
  so_args : Forall small args;
  so_path : Z.of_nat (length (VFSEXEC_PATH kc)) + 1 < 2 ^ 61;
  so_environ : forall es, k_environ = Some es -> Forall small es;
  so_getenv : forall n m, k_getenv n = Some m -> small m
}.

(** The target of a command line. *)
Record target_small (args : list (list byte)) (t : AppTarget) : Prop := {
  ta_path : small (t_path t);
  ta_name : small (t_progname t);
  ta_rest : Forall small (t_rest t);
  ta_count : (length (t_rest t) <= length args)%nat
}.

Lemma split_small {kenv : KernelEnv} kc addr args t :
  strings_ok kc args -> split_command_line (elfrs_cfg_get kc addr) args = Ok t -> target_small args t.
Proof.
  intros [Hn Ha Hp _ _]. unfold split_command_line. cbv zeta.
  assert (Hini : small initrd_path) by done.
  destruct (flag _).
  - destruct args as [|a0 [|a1 rest]]; [done|done|]. cbn [length Nat.ltb Nat.leb index lookup list_lookup mbind outcome_bind].
    apply Forall_cons in Ha as [_ [H1 Hr]%Forall_cons]. pose proof (small_le _ _ (basename_le a1) H1).
    destruct (_ =? 0); intros [= <-]; split; cbn [t_path t_progname t_rest]; rewrite ?drop_0; auto; cbn; lia.
  - destruct args as [|a0 rest]; [done|]. apply Forall_cons in Ha as [H0 Hr].
    destruct (_ =? 0); cbn [mbind outcome_bind].
    + intros [= <-]. split; cbn [t_path t_progname t_rest]; rewrite ?drop_0; auto; cbn; lia.
    + assert (Hc : small (cstr (vfsexec_path (elfrs_cfg_get kc addr)))).
      { cbn. destruct (_ && _); [|done]. eapply small_le; [apply until_nul_le|].
        unfold small. rewrite length_app. cbn. lia. }
      destruct (cstr _) as [|c cs]; [done|]. pose proof (small_le _ _ (basename_le (c :: cs)) Hc).
      intros [= <-]. split; cbn [t_path t_progname t_rest]; rewrite ?drop_0; auto; cbn; lia.
Qed.

Lemma split_total cfg args : split_command_line cfg args <> Panic.
Proof.
  unfold split_command_line. destruct (flag _).
  - destruct args as [|a0 [|a1 rest]]; [done|done|]. cbn. by destruct (_ =? 0).
  - destruct args as [|a0 rest]; [done|]. destruct (_ =? 0); [done|]. by destruct (cstr _).
Qed.

Section Resolving.
Context {S : Type} {kernel : Kernel S} {kenv : KernelEnv} {target : Target} {heap : Heap}.
Context (kc : Kconfig) (args : list (list byte)).
Hypothesis strings : strings_ok kc args.

Abbreviation cfg := (elfrs_cfg_get kc vdso_image_addr).
#[local] Instance rs_vfs : Vfs S := shim_vfs kc.
#[local] Instance rs_process : Process := shim_process kc.

Lemma getenv_small name m : getenv cfg name = Some m -> small m.
Proof.
  unfold getenv. destruct (negb _); [done|]. destruct (CString_new name) as [c| |]; [|done|done].
  cbn [elfrs_getenv rs_process shim_process]. destruct (LIBPOSIX_ENVIRON kc); [|done].
  destruct (k_getenv c) as [v|] eqn:Hv; [|done]. intros [= <-].
  eapply small_le; [apply until_nul_le|]. by eapply so_getenv.
Qed.

Lemma environ_small : Forall small (environ cfg).
Proof.
  unfold environ. destruct (negb _); [done|]. cbn [elfrs_environ rs_process shim_process].
  destruct (LIBPOSIX_ENVIRON kc); [|done]. destruct k_environ as [es|] eqn:He; [|done].
  apply Forall_fmap. eapply Forall_impl; [by eapply so_environ|]. intros e H.
  eapply small_le; [apply until_nul_le|done].
Qed.

(** Resolving a name on the search path keeps the path short. *)
Lemma resolve_short s t : target_small args t ->
  let t' := resolve cfg s t in
  short (t_path t') /\ t_progname t' = t_progname t /\ t_rest t' = t_rest t.
Proof.
  intros [Hp _ _ _]. pose proof (small_short _ Hp) as Hs. unfold resolve. destruct (_ || _); [done|].
  destruct (getenv cfg name_PATH) as [env|] eqn:He; [|done]. apply getenv_small in He.
  unfold locate_in_path. destruct (negb _); [done|].
  destruct (first_exec _ _) as [c|] eqn:Hf; [|done]. cbn. split; [|done].
  apply first_exec_in, candidates_le in Hf. unfold small, short in *. lia.
Qed.
End Resolving.
