(* ===== verification/StartFacts.v ===== *)
(** * A whole start

    [run] on a kernel that keeps the laws of its memory, files and threads: on
    success the program and its interpreter are in memory, the stack is laid out
    and the thread is about to start at the right address on it; on failure
    threads, files and memory are as they were. *)

From Stdlib Require Import Strings.Byte.
From stdpp Require Import base numbers option strings sets list.
From S2P Require Import Prelude Err Util Elf ElfFacts Layout LayoutFacts Loader VmSpec LoaderFacts Auxv AuxvFacts.
From S2P Require Import Program ProgramFacts Frame Sys SysFacts App AppFacts Binfmt Shim ShimFacts ShimFiles RunFacts.

(** Every segment of an image has a size. *)
Definition solid (img : Image) : Prop := forall ph, ph ∈ load_phdrs img -> 0 < p_memsz ph.

Section Start.
Context {S : Type} {kernel : Kernel S} {kview : KernelView S} {kenv : KernelEnv} {target : Target} {heap : Heap}.
Context (kc : Kconfig) {kmem : KernelMemory S kc} {kfiles : KernelFiles S kc} {kthreads : KernelThreads S kc}.

Abbreviation cfg := (elfrs_cfg_get kc vdso_image_addr).
#[local] Instance sf_memory : Memory S := shim_memory kc.
#[local] Instance sf_vm : Vm S := UkVm cfg.
#[local] Instance sf_laws : VmLaws S := UkVm_laws kc.
#[local] Instance sf_vfs : Vfs S := shim_vfs kc.
#[local] Instance sf_threads : Threads S := shim_threads kc.
#[local] Instance sf_process : Process := shim_process kc.

(** ** Loading the target *)

(** There is room for whatever the parser accepts. *)
Lemma uk_fits s o img : Image_parse (o_src o) page_size = Ok img -> solid img -> fits s o img.
Proof.
  intros Hp Hsolid lo hi n a Hs Hn Ha.
  assert (Hwf : Image_wf page_size img) by (by eapply parse_wf; [apply law_page|apply law_page_u64|]).
  destruct (va_span_ok page_size img law_page law_page_u64 Hwf lo hi Hs) as [_ _ Hord Hu Hcov _].
  destruct (by_mapping o); [|split; [done|exact I]].
  split; [|split].
  - pose proof (first_load_in page_size img Hwf) as Hf. specialize (Hsolid _ Hf). destruct (Hcov _ Hf) as [H1 H2].
    pose proof (page_pos page_size law_page) as Hpos.
    pose proof (rdown_bounds page_size Hpos (p_vaddr (first_load img))).
    pose proof (rup_bounds page_size Hpos (vend (first_load img))). unfold vend in *. lia.
  - unfold reservation_len in Hn. rewrite Hs, Ha in Hn. cbn [mbind outcome_bind] in Hn.
    destruct (checked_sub hi lo); [|done]. apply bind_Ok in Hn as (slack & _ & Hn%ok_or_Ok%checked_add_Some).
    cbn. lia.
  - cbn. lia.
Qed.

(** What the target is read with: the file system, or the memory of the initrd. *)
Definition target_opener (t : AppTarget) (s : S) (o : Opener S) (path : list byte) : Prop :=
  if flag (vfsexec cfg) then o = VfsOpener cfg /\ path = t_path t
  else exists base len, elfrs_initrd s = (0, base, len) /\ o = InitrdOpener (raw_load s) base len /\ path = initrd_path.

(** What can be read at all: the files that can be open, and the initrd. *)
Definition readable (d : list byte) : Prop := exists s, k_inv s /\
  ((exists fd, k_file s fd = Some d) \/
   exists base len, elfrs_initrd s = (0, base, len) /\ d = mem_bytes (raw_load s) base (Z.to_nat len)).

(** Every image among them has segments with a size. *)
Definition solid_files : Prop := forall d img,
  readable d -> Image_parse (slice_source d) page_size = Ok img -> solid img.

Definition target_loaded (t : AppTarget) (s : S) (p : LoadedProgram) (s' : S) : Prop :=
  exists o path, target_opener t s o path /\ program_ok (opener:=o) path s p s'.

(** A program put in memory between two states, whatever it was opened with. *)
Definition loaded (s : S) (p : LoadedProgram) (s' : S) : Prop :=
  exists (o : Opener S) path, program_ok (opener:=o) path s p s'.

(** A program that was loaded once and still has its memory. *)
Record alive (p : LoadedProgram) (s : S) : Prop := {
  al_loaded : exists s0 s1, loaded s0 p s1;
  al_holds : program_holds p s;
  al_mapped : forall x, in_program p x -> is_Some (k_view s x)
}.

(** It stays alive while nobody takes its memory away. *)
Lemma alive_later p s s' :
  alive p s -> (forall b bl, own_block p b -> k_block s b bl -> k_block s' b bl) ->
  (forall x, in_program p x -> is_Some (k_view s' x)) -> alive p s'.
Proof.
  intros [Hl [Hm Hi] _] Hb Hv. split; [done| |done]. unfold program_holds, own_block, holds_on in *.
  destruct (interp_image p) as [[ii il]|]; [split|split; [|done]]; intros Hal; apply Hb; naive_solver.
Qed.

Lemma loaded_alive s p s' s2 :
  loaded s p s' -> k_inv s2 -> (forall b bl, k_block s' b bl -> k_block s2 b bl) ->
  (forall x, in_program p x -> k_view s2 x = k_view s' x) -> alive p s2.
Proof.
  intros (o & path & Hp) Hi Hb Hv. split; [by exists s, s', o, path| |].
  - apply (program_ok_holds (opener:=o) path s p s' s2 Hp). by split.
  - intros x Hx. rewrite Hv by done. pose proof (program_range (opener:=o) path s p s' x Hp) as Hr.
    rewrite decide_True in Hr by done. apply Hr.
Qed.

Lemma target_is_loaded t s p s' : target_loaded t s p s' -> loaded s p s'.
Proof. intros (o & path & _ & Hp). by exists o, path. Qed.

Lemma initrd_len s base len : k_inv s -> elfrs_initrd s = (0, base, len) -> 0 <= len < 2 ^ 64.
Proof.
  intros Hi Hini. pose proof (law_initrd0 s Hi) as Hl. cbn in Hini. unfold shim_initrd in Hini.
  destruct (ukplat_memregion_find_initrd0 s) as [rc [vbase l]]. cbn in Hl. destruct (_ || _); [done|].
  by injection Hini as <- <-.
Qed.

Lemma target_opens t s o path : k_inv s -> target_opener t s o path ->
  forall p s1, k_inv s1 -> short p -> opens (open (Opener:=o) p) s1.
Proof.
  intros Hi Ht p s1 Hi1 Hp. unfold target_opener in Ht. destruct (flag _).
  - destruct Ht as [-> _]. by apply vfs_opener_opens.
  - destruct Ht as (base & len & Hini & -> & _). apply initrd_opener_opens; [done|].
    by apply (initrd_len s base).
Qed.

(** What was opened serves bytes that can be read. *)
Lemma target_reads t s o path p s1 opened s2 :
  k_inv s -> target_opener t s o path -> k_inv s1 -> short p -> open (Opener:=o) p s1 = (Ok opened, s2) ->
  exists d, readable d /\ Z.of_nat (length d) < 2 ^ 64 /\ serves (o_src opened) d /\
    size (o_src opened) = Some (Z.of_nat (length d)).
Proof.
  intros Hi Ht Hi1 Hp Ho. unfold target_opener in Ht. destruct (flag _).
  - destruct Ht as [-> _]. unfold short in Hp.
    pose proof (opener_wp (vfs:=sf_vfs) (flaws:=ShimVfs_laws kc) cfg p s1 Hi1 ltac:(lia)) as Hw. unfold wp in Hw.
    unfold open in Ho. rewrite Ho in Hw. destruct Hw as (fd & d & [_ Hi2 _ Hc Hsv Hsz _ _] & _).
    specialize (Hc fd). rewrite decide_True in Hc by done. apply contents_file in Hc as [Hc _].
    exists d. split_and!; try done; [|pose proof (law_file_size s2 fd d Hi2 Hc); lia].
    exists s2. split; [done|]. left. by exists fd.
  - destruct Ht as (base & len & Hini & -> & _). pose proof (initrd_len s base len Hi Hini) as Hl.
    unfold open, InitrdOpener in Ho. destruct (negb _); [done|]. injection Ho as <- _.
    exists (mem_bytes (raw_load s) base (Z.to_nat len)). rewrite length_mem_bytes, Z2Nat.id by lia. cbn [o_src].
    split_and!; try lia; try done; [|by apply mem_image_serves].
    exists s. split; [done|]. right. by exists base, len.
Qed.

Lemma target_fits t s o path p s1 opened s2 img :
  k_inv s -> solid_files -> target_opener t s o path -> k_inv s1 -> short p ->
  open (Opener:=o) p s1 = (Ok opened, s2) -> Image_parse (o_src opened) page_size = Ok img -> fits s2 opened img.
Proof.
  intros Hi Hsolid Ht Hi1 Hp Ho Himg. destruct (target_reads t s o path p s1 opened s2) as (d & Hd & Hlen & Hsv & Hsz); try done.
  apply uk_fits; [done|]. apply (Hsolid d); [done|]. rewrite <- Himg. symmetry.
  apply (parse_same_bytes _ _ d); [done|by apply slice_source_serves|done].
Qed.

Lemma load_opener_wp t s o path :
  k_inv s -> short path -> solid_files -> target_opener t s o path ->
  wp (load_program (opener:=o) path) (program_ok (opener:=o) path s) (failed s) s.
Proof.
  intros Hi Hp Hsolid Ht. apply load_program_wp; [done|done| | |].
  - by apply (target_opens t s o path).
  - intros opened sa img Ho Himg. by apply (target_fits t s o path path s).
  - intros opened sa img ld s1 ip oi sb ii _ _ _ _ Hi1 Hip Hoi Hii. by apply (target_fits t s o path ip s1).
Qed.

Lemma load_target_wp t s :
  k_inv s -> short (t_path t) -> solid_files ->
  wp (load_target cfg t) (target_loaded t s) (failed s) s.
Proof.
  intros Hi Hp Hsolid. unfold load_target. pose proof (load_opener_wp t s) as Hload. unfold target_opener in Hload.
  destruct (flag (vfsexec cfg)) eqn:Hv.
  - eapply wp_mono; [by apply (Hload (VfsOpener cfg) (t_path t))| |done].
    intros p s' Hok. exists (VfsOpener cfg), (t_path t). split; [|done]. unfold target_opener. by rewrite Hv.
  - wp_step. unfold gets at 1, wp at 1. destruct (elfrs_initrd s) as [[rc base] len] eqn:Hini.
    destruct (_ || _) eqn:Hbad; [by apply failed_refl|].
    assert (rc = 0) as ->.
    { cbn in Hini. unfold shim_initrd in Hini. destruct (ukplat_memregion_find_initrd0 s) as [rc' [vbase l]].
      destruct (_ || _); by injection Hini as <- <- <-. }
    wp_step. unfold gets, wp at 1. cbn [mem_read sf_threads shim_threads].
    eapply wp_mono; [apply (Hload (InitrdOpener (raw_load s) base len) initrd_path); [done|done|done|eauto]| |done].
    intros p s' Hok. eexists _, _. split; [|exact Hok]. unfold target_opener. rewrite Hv. eauto.
Qed.

(** ** What a failed start leaves *)

(** Nothing; or the reservation of a plan that failed; or, when the argument
    vector was refused, the program. *)
Definition left_over (e : Error) (v v' : Z -> option cell) : Prop :=
  exists P : Z -> Prop,
    (forall x, P x -> v x = None /\ is_Some (v' x)) /\ (forall x, ~ P x -> v' x = v x) /\
    ((forall x, ~ P x) \/
     (exists img pl a len, plan img page_size pl = Err ENOMEM /\ forall x, P x <-> within a len x) \/
     (e = ENOMEM /\ (exists n, try_reserve n = false) /\ exists p, forall x, P x <-> in_program p x)).

Record rolled_back (e : Error) (s s' : S) : Prop := {
  rb_step : k_step s s';
  rb_live : forall u, k_live s' u <-> k_live s u;
  rb_file : forall g, k_file s' g = k_file s g;
  rb_view : left_over e (k_view s) (k_view s')
}.

(** The same before the thread [t] is released: its memory does not count. *)
Definition others (t : Z) (s : S) (v : Z -> option cell) (x : Z) : option cell := if k_owns s t x then None else v x.

Record back (e : Error) (t : Z) (s s' : S) : Prop := {
  bk_step : k_step s s';
  bk_live : forall u, k_live s' u <-> k_live s u;
  bk_owns : forall u x, k_owns s' u x = k_owns s u x;
  bk_file : forall g, k_file s' g = k_file s g;
  bk_view : left_over e (others t s (k_view s)) (others t s (k_view s'))
}.

Lemma left_same e v v' : (forall x, v' x = v x) -> left_over e v v'.
Proof. intros H. exists (fun _ => False). split; [by intros x []|]. split; [auto|]. left. tauto. Qed.

Lemma left_ext e v v' u u' :
  (forall x, u x = v x) -> (forall x, u' x = v' x) -> left_over e v v' -> left_over e u u'.
Proof.
  intros Hu Hu' (P & Hin & Hout & Hwhy). exists P. split; [|split; [|done]].
  - intros x Hx. rewrite Hu, Hu'. auto.
  - intros x Hx. rewrite Hu, Hu'. auto.
Qed.

#[global] Instance k_step_trans : Transitive k_step.
Proof. intros s1 s2 s3 [? ? ?] [? ? ?]. split; [done|auto|congruence]. Qed.

#[global] Instance beside_trans t : Transitive (beside t).
Proof.
  intros s1 s2 s3 [A1 A2 A3 A4 A5] [B1 B2 B3 B4 B5].
  split; [by etrans|intros u; by rewrite B2|intros u x; by rewrite B3|intros g; by rewrite B4|].
  intros x Hx. rewrite B5, A5; [done|done|by rewrite A3].
Qed.

(** Releasing the thread gives back its memory. *)
Lemma release_back e s0 t s1 s' :
  k_inv s0 -> k_step s0 s1 -> (forall g, k_file s1 g = k_file s0 g) -> new_thread s0 t s1 -> back e t s1 s' ->
  rolled_back e s0 (uk_thread_release t s').
Proof.
  intros Hi Hs1 Hf1 [_ Hnew Hlive Hfresh Hframe _ _] [Hs Hl Ho Hf Hv].
  destruct (law_uk_release s' t) as (Hs2 & Hf2 & Hl2 & Hv2); [apply Hs|by apply Hl, Hlive; right|].
  split.
  - etrans; [exact Hs1|]. by etrans.
  - intros u. rewrite Hl2, Hl, Hlive. naive_solver.
  - intros g. by rewrite Hf2, Hf, Hf1.
  - eapply left_ext; [| |exact Hv]; intros x; unfold others.
    + destruct (k_owns s1 t x) eqn:Hx; [by apply Hfresh|by rewrite Hframe].
    + by rewrite Hv2, Ho.
Qed.

Lemma back_after e t s1 s2 s' : beside t s1 s2 -> back e t s2 s' -> back e t s1 s'.
Proof.
  intros [A1 A2 A3 A4 A5] [B1 B2 B3 B4 B5].
  split; [by etrans|intros u; by rewrite B2|intros u x; by rewrite B3|intros g; by rewrite B4|].
  eapply left_ext; [| |exact B5]; intros x; unfold others; rewrite A3; [|done].
  destruct (k_owns s1 t x) eqn:Hx; [done|by rewrite A5].
Qed.

Lemma beside_back e t s s' : beside t s s' -> back e t s s'.
Proof.
  intros [H1 H2 H3 H4 H5]. split; try done. apply left_same. intros x. unfold others.
  destruct (k_owns s t x) eqn:Hx; [done|by apply H5].
Qed.

(** A failed load. *)
Lemma failed_back e t s s' :
  (forall x, k_owns s t x = true -> is_Some (k_view s x)) -> failed s s' -> back e t s s'.
Proof.
  intros Hown [[[Hi' Hb] [Hts Hf Hu]] Hv]. destruct Hts as [Hl Ho _ _ _ _ _]. split; try done.
  destruct Hv as [Hv|(img & pl & a & len & Hp & Hin & Hout)].
  - apply left_same. intros x. unfold others. destruct (k_owns s t x); [done|apply Hv].
  - exists (within a len). split; [|split; [|right; left; by exists img, pl, a, len]].
    + intros x Hx. destruct (Hin x Hx) as [Hn Hm]. unfold others. destruct (k_owns s t x) eqn:Hox; [|done].
      apply Hown in Hox as [c Hc]. cbn in Hn. congruence.
    + intros x Hx. unfold others. destruct (k_owns s t x); [done|by apply Hout].
Qed.

(** ** Launching *)

(** A thread with a stack that can be written. *)
Record ready_thread (t : Z) (s : S) : Prop := {
  rt_ctx : thread_ctx t <> 0;
  rt_live : k_live s t;
  rt_owned : forall x, k_owns s t x = true -> is_Some (k_view s x);
  rt_base : 0 <= thread_stack t s /\ ctx_sp (thread_ctx t) s < 2 ^ 64;
  rt_stack : forall x, thread_stack t s <= x < ctx_sp (thread_ctx t) s ->
    k_owns s t x = true /\ writable (k_view s x)
}.

Lemma ready_same t s s' :
  threads_same s s' -> (forall x, k_owns s t x = true -> k_view s' x = k_view s x) ->
  ready_thread t s -> ready_thread t s'.
Proof.
  intros [Hl Ho Hst Hsp _ _ _] Hv [Hc Hlive Hown Hb Hw].
  split; [done|by apply Hl|intros x Hx; rewrite Ho in Hx; rewrite Hv; auto|by rewrite Hst, Hsp|].
  rewrite Hst, Hsp. intros x Hx. destruct (Hw x Hx) as [Hox Hwx]. split; [by rewrite Ho|by rewrite Hv].
Qed.

(** What was there before is not where a program was put. *)
Lemma mapped_apart s p s' x : is_Some (k_view s x) -> loaded s p s' -> ~ in_program p x.
Proof.
  intros [c Hc] (o & path & Hp) Hin. pose proof (program_range (opener:=o) path s p s' x Hp) as Hr.
  rewrite decide_True in Hr by done. destruct Hr as [Hn _]. cbn in Hn.
  congruence.
Qed.

Lemma loaded_keeps s p s' x : is_Some (k_view s x) -> loaded s p s' -> k_view s' x = k_view s x.
Proof.
  intros Hx Hp. pose proof (mapped_apart s p s' x Hx Hp) as Hn. destruct Hp as (o & path & Hok).
  pose proof (program_range (opener:=o) path s p s' x Hok) as Hr. by rewrite decide_False in Hr.
Qed.

Lemma loaded_ready th s p s' :
  k_inv s -> ready_thread th s -> loaded s p s' -> uk_step s s' /\ ready_thread th s'.
Proof.
  intros Hi Hth Hp. pose proof Hp as (o & path & Hok).
  pose proof (program_ok_step (opener:=o) path s p s' Hok) as Hstep. split; [done|].
  apply (ready_same th s); [apply Hstep| |done]. intros x Hx.
  eapply loaded_keeps; [by apply Hth|done].
Qed.

(** Taking the program down, whatever was done to the thread since. *)
Lemma unload_back th s2 p s3 s4 :
  k_inv s2 -> loaded s2 p s3 -> beside th s3 s4 ->
  exists s5, program_unload p s4 = (Ok tt, s5) /\ forall e, back e th s2 s5.
Proof.
  intros Hi (o & path & Hp) [[Hi4 Hb4 Hu4] Hl4 Ho4 Hf4 Hv4].
  pose proof (program_ok_step (opener:=o) path s2 p s3 Hp) as [_ [Hts3 Hf3 Hu3]].
  destruct (unload_from (opener:=o) path s2 p s3 s4 Hp) as (s5 & Hun & [Hi5 Hb5] & [Hts5 Hf5 Hu5] & Hv5); [done|].
  exists s5. split; [done|]. intros e. destruct Hts3 as [Hl3 Ho3 _ _ _ _ _], Hts5 as [Hl5 Ho5 _ _ _ _ _]. split.
  - split; [done|done|]. exact (eq_trans Hu5 (eq_trans Hu4 Hu3)).
  - intros u. by rewrite Hl5, Hl4, Hl3.
  - intros u x. by rewrite Ho5, Ho4, Ho3.
  - intros g. by rewrite Hf5, Hf4, Hf3.
  - apply left_same. intros x. unfold others. destruct (k_owns s2 th x) eqn:Hx; [done|].
    pose proof (program_range (opener:=o) path s2 p s3 x Hp) as Hr. specialize (Hv5 x). cbn in Hr, Hv5. rewrite Hv5.
    destruct (decide (in_program p x)); [by destruct Hr as [-> _]|]. rewrite Hv4; [done|by rewrite Ho3].
Qed.

Lemma stack_beside th s s' :
  ready_thread th s -> on_stack (thread_stack th s) (ctx_sp (thread_ctx th) s) s s' -> beside th s s'.
Proof.
  intros Hth [[Hs [Hl Ho _ _ _ _ _] Hf] _ Hv]. split; try done; [by rewrite Hf|].
  intros x Hx. apply Hv. intros Hin. apply (rt_stack _ _ Hth) in Hin as [Hox _]. congruence.
Qed.

(** A stack at [sp], in the memory of a state. *)
Definition stack_shows (s : S) (sp hi : Z) (argv envp : list (list byte)) (aux : AuxvSpec) : Prop :=
  (SP_ALIGN | sp) /\ exists argv_at envp_at pa ea ra,
    laid_out (laws:=ThreadStack_laws kc s) (MkAppStack 0 hi s) sp hi argv envp aux argv_at envp_at pa ea ra.

(** Laying out a stack in memory that can be written. *)
Lemma build_app_stack_wpe lo hi s argv envp aux :
  k_inv s -> 0 <= lo <= hi -> hi < 2 ^ 64 -> (forall x, lo <= x < hi -> writable (k_view s x)) ->
  Forall (fun p => Z.of_nat (length p) < 2 ^ 63) (argv ++ envp) ->
  wpe (build_app_stack lo hi argv envp aux)
    (fun L s' => on_stack lo hi s s' /\ lo <= sp L /\ sp L <= hi /\ stack_shows s' (sp L) hi argv envp aux)
    (fun _ s' => on_stack lo hi s s') s.
Proof.
  intros Hi Hb0 Hb1 Hw Hstr. pose proof (build_stack_wpe (laws:=ThreadStack_laws kc s) argv envp aux (MkAppStack lo hi s)) as H.
  unfold wpe, build_app_stack in *.
  assert (Hinv : sw_inv (StackLaws:=ThreadStack_laws kc s) (MkAppStack lo hi s)).
  { cbn. split; [lia|]. split; [done|]. split; [by apply mem_step_refl|done|done]. }
  specialize (H Hinv Hstr).
  destruct (build_stack argv envp aux (MkAppStack lo hi s)) as [[L|e|] [lo' hi' s']]; [| |done].
  - destruct H as (Hal & _ & _ & [Hlo Hhi] & [(_ & _ & Hos) Ht Hbt _] & argv_at & envp_at & pa & ea & ra & Hlaid).
    cbn in *. subst lo' hi'. split; [done|]. split; [done|]. split; [done|]. split; [done|].
    exists argv_at, envp_at, pa, ea, ra. eapply laid_out_ext; [|exact Hlaid]. done.
  - destruct H as [_ [(_ & _ & Hos) Ht Hbt _]]. cbn in *. by subst lo' hi'.
Qed.

Lemma stack_persists s s' sp hi argv envp aux :
  (forall x, sp <= x < hi -> k_view s' x = k_view s x) ->
  stack_shows s sp hi argv envp aux -> stack_shows s' sp hi argv envp aux.
Proof.
  intros Hv [Hal (argv_at & envp_at & pa & ea & ra & Hlaid)]. split; [done|].
  exists argv_at, envp_at, pa, ea, ra. eapply laid_out_ext; [|exact Hlaid].
  intros x Hx. cbn. unfold byte_of. by rewrite Hv.
Qed.

(** A call that may fail, after which the program is taken down. *)
Lemma or_unload_wpe t th s2 p s3 s4 (m : stM Error S Z) (P : S -> Prop) :
  k_inv s2 -> target_loaded t s2 p s3 ->
  (match m s4 with
   | (Ok rc, s5) => - 2 ^ 31 < rc /\ if decide (rc = 0) then P s5 else beside th s3 s5
   | _ => False
   end) ->
  wpe (or_unload cfg p m) (fun _ => P) (fun e s' => back e th s2 s') s4.
Proof.
  intros Hi Hp Hm. unfold or_unload. apply wpe_bind. unfold wpe at 1. destruct (m s4) as [[rc|e|] s5]; [|done|done].
  destruct Hm as [Hrc Hm]. destruct (Z.eqb_spec rc 0) as [H0|H0].
  { rewrite decide_True in Hm by done. done. }
  rewrite decide_False in Hm by done. apply wpe_bind.
  destruct (unload_back th s2 p s3 s5 Hi (target_is_loaded _ _ _ _ Hp) Hm) as (s6 & Hun & Hb).
  unfold wpe at 1. change (app_vm cfg) with sf_vm. rewrite Hun. unfold wpe, mbind, stM_bind, lift, neg.
  rewrite (proj2 (Z.eqb_neq _ _)) by (cbn; lia). apply Hb.
Qed.

(** The calls of the shim on a thread, with what they assert. *)
Lemma thread_ctx_eq th s : th <> 0 -> elfrs_thread_ctx th s = (Ok (thread_ctx th), s).
Proof. intros H. cbn. unfold shim_thread_ctx, uk_assert. by rewrite (proj2 (Z.eqb_neq th 0)). Qed.
Lemma stack_base_eq th s : th <> 0 -> elfrs_thread_stack_base th s = (Ok (thread_stack th s), s).
Proof. intros H. cbn. unfold shim_thread_stack_base, uk_assert. by rewrite (proj2 (Z.eqb_neq th 0)). Qed.
Lemma get_sp_eq c s : c <> 0 -> elfrs_ctx_get_sp c s = (Ok (ctx_sp c s), s).
Proof. intros H. cbn. unfold shim_ctx_get_sp, uk_assert. by rewrite (proj2 (Z.eqb_neq c 0)). Qed.
Lemma set_runnable_eq th s :
  th <> 0 -> elfrs_thread_set_runnable th s =
  (Ok tt, set_thread_flags th (Z.lor (thread_flags th s) UK_THREADF_RUNNABLE) s).
Proof. intros H. cbn. unfold shim_thread_set_runnable, uk_assert. by rewrite (proj2 (Z.eqb_neq th 0)). Qed.
Lemma ctx_init_eq c sp ip s :
  c <> 0 -> (SP_ALIGN | sp) -> elfrs_ctx_init c sp ip s = (Ok tt, ukarch_ctx_init c sp 0 ip s).
Proof.
  intros Hc Hal. cbn. unfold shim_ctx_init, uk_assert. rewrite (proj2 (Z.eqb_neq c 0)) by done. cbn [negb].
  rewrite (proj2 (Z.eqb_eq (sp mod _) 0)); [done|]. destruct law_sp_align as [? Hd]. apply Z.mod_divide; [lia|by etrans].
Qed.
Lemma schedule_eq th s :
  k_inv s -> th <> 0 -> elfrs_thread_schedule th s = (Ok 0, uk_sched_thread_add (uk_sched_current s) th s).
Proof.
  intros Hi H. cbn. unfold shim_thread_schedule, uk_assert, mbind, stM_bind, gets.
  rewrite (proj2 (Z.eqb_neq (uk_sched_current s) _)) by (by apply law_sched).
  by rewrite (proj2 (Z.eqb_neq th 0)).
Qed.

(** What launching adds to a state in which the program was loaded. *)
Record launched (t : AppTarget) (th : Z) (p : LoadedProgram) (s : S) (st : Started) (s' : S) : Prop := {
  la_thread : st_thread st = th;
  la_program : st_program st = p;
  la_entry : st_entry st = program_entry p;
  la_step : k_step s s';
  la_live : forall u, k_live s' u <-> k_live s u;
  la_file : forall g, k_file s' g = k_file s g;
  la_view : forall x, k_owns s th x = false -> is_Some (k_view s x) -> k_view s' x = k_view s x;
  la_starts : k_starts s' (thread_ctx th) = Some (st_sp st, st_entry st);
  la_queued : k_queued s' th;
  la_runnable : Z.land (thread_flags th s') UK_THREADF_RUNNABLE = UK_THREADF_RUNNABLE;
  la_stack : thread_stack th s <= st_sp st /\
    exists aux, program_auxv p (system_environment cfg (t_path t)) = Ok aux /\
      stack_shows s' (st_sp st) (ctx_sp (thread_ctx th) s) (t_progname t :: t_rest t) (environ cfg) aux
}.

(** Setting up the context and scheduling, once the stack is laid out. *)
Lemma schedule_wpe t th s2 p s3 s4 layout aux :
  k_inv s2 -> th <> 0 -> target_loaded t s2 p s3 -> ready_thread th s3 ->
  on_stack (thread_stack th s3) (ctx_sp (thread_ctx th) s3) s3 s4 -> thread_stack th s3 <= sp layout ->
  program_auxv p (system_environment cfg (t_path t)) = Ok aux ->
  stack_shows s4 (sp layout) (ctx_sp (thread_ctx th) s3) (t_progname t :: t_rest t) (environ cfg) aux ->
  wpe (_ ← elfrs_ctx_init (thread_ctx th) (sp layout) (program_entry p);
       _ ← elfrs_thread_set_runnable th;
       _ ← (if flag (have_pthread cfg) then or_unload cfg p (returns (elfrs_thread_make_pthread th)) else mret tt);
       _ ← or_unload cfg p (elfrs_thread_schedule th);
       mret (MkStarted th (sp layout) (program_entry p) p))
    (launched t th p s3) (fun e s' => back e th s2 s') s4.
Proof.
  intros Hi Hth Hp Hready Hos Hlo Haux Hsh. pose proof (stack_beside th s3 s4 Hready Hos) as H34.
  destruct Hos as [[[Hi4 _ _] Hts4 _] Hprot _]. pose proof Hsh as [Hal _].
  assert (Hlive4 : k_live s4 th) by (apply Hts4, Hready).
  destruct (law_ctx_setup s4 th (sp layout) 0 (program_entry p) Hi4 Hlive4) as (H45 & Hv5 & Hst5).
  rewrite (ts_sp _ _ Hts4) in Hv5.
  apply wpe_bind. unfold wpe at 1. rewrite ctx_init_eq by (done || apply Hready).
  set (s5 := ukarch_ctx_init _ _ _ _ s4) in *.
  apply wpe_bind. unfold wpe at 1. rewrite set_runnable_eq by done.
  destruct (law_set_flags s5 th (Z.lor (thread_flags th s5) UK_THREADF_RUNNABLE)) as (H56 & Hv6 & Hst6 & Hfl6); [apply H45|].
  set (s6 := set_thread_flags _ _ s5) in *.
  assert (H36 : beside th s3 s6) by (etrans; [done|]; by etrans).
  assert (Hlive6 : k_live s6 th) by (apply H36, Hready).
  assert (Hi6 : k_inv s6) by apply H36.
  apply wpe_bind. eapply (wpe_mono _ (fun _ s7 => mem_step s6 s7 /\ forall x, is_Some (k_view s6 x) -> k_view s7 x = k_view s6 x)
    _ (fun e s' => back e th s2 s')); [| |done].
  { destruct (flag (have_pthread cfg)); [|by split; [apply mem_step_refl|]].
    apply (or_unload_wpe t th s2 p s3); [done|done|]. unfold returns. cbn. unfold shim_thread_make_pthread.
    destruct (MULTITHREADING kc); [|split; [done|]; rewrite decide_True by done; by split; [apply mem_step_refl|]].
    pose proof (law_create_pthread s6 th Hi6 Hlive6) as Hlaw. destruct (uk_posix_process_create_pthread th s6) as [rc s7].
    destruct Hlaw as (Hs7 & Hrc & Hk & Hno). split; [done|]. case_decide; [done|]. etrans; [exact H36|].
    destruct Hs7 as [? [? ? _ _ _ _ _] Hf7]. split; try done; [by rewrite Hf7|]. intros x _. by apply Hno. }
  intros _ s7 [[Hs7 [Hl7 Ho7 _ _ Hc7 _ Hfl7] Hf7] Hv7].
  assert (Hi7 : k_inv s7) by apply Hs7.
  apply wpe_bind. apply (or_unload_wpe t th s2 p s3); [done|done|]. rewrite schedule_eq by done. split; [done|].
  rewrite decide_True by done. destruct (law_thread_add s7 (uk_sched_current s7) th Hi7) as (H78 & Hv8 & Hst8 & Hfl8 & Hq).
  set (s8 := uk_sched_thread_add _ th s7) in *. destruct H36 as [Hs36 Hl36 Ho36 Hf36 Hv36].
  split; cbn [st_thread st_program st_entry st_sp]; try done.
  - etrans; [exact Hs36|]. etrans; [exact Hs7|apply H78].
  - intros u. by rewrite (bs_live _ _ _ H78), Hl7, Hl36.
  - intros g. by rewrite (bs_file _ _ _ H78), Hf7, Hf36.
  - intros x Hx Hm. rewrite Hv8, Hv7, Hv36 by (done || by rewrite Hv36). done.
  - by rewrite Hst8, Hc7, Hst6.
  - rewrite Hfl8, Hfl7, Hfl6. rewrite Z.land_lor_distr_l, Z.land_diag. apply Z.bits_inj'. intros i Hi0.
    rewrite Z.lor_spec, Z.land_spec. by destruct (Z.testbit UK_THREADF_RUNNABLE i); rewrite ?andb_false_r, ?orb_true_r.
  - split; [done|]. exists aux. split; [done|]. apply (stack_persists s4); [|done].
    intros x Hx. assert (Hx6 : k_view s6 x = k_view s4 x) by (rewrite Hv6; by apply Hv5).
    rewrite Hv8, Hv7, Hx6; [done|]. rewrite Hx6.
    assert (Ho4 : k_owns s3 th x = true) by (apply (rt_stack _ _ Hready); lia).
    apply (rt_owned _ _ Hready) in Ho4 as [c Hc]. apply (dom_of fst _ _ (Hprot x)). eauto.
Qed.

(** The program stays when the argument vector is refused. *)
Lemma refused_back t th s2 p s3 n :
  k_inv s2 -> ready_thread th s2 -> target_loaded t s2 p s3 -> try_reserve n = false -> back ENOMEM th s2 s3.
Proof.
  intros Hi Hth Hp Hn. pose proof (target_is_loaded _ _ _ _ Hp) as Hpl.
  destruct (loaded_ready th s2 p s3 Hi Hth Hpl) as [[[Hi3 Hb] [Hts Hf Hu]] _].
  split; try done; try apply Hts. exists (in_program p). split; [|split].
  - intros x Hx. unfold others. destruct (k_owns s2 th x) eqn:Ho.
    { exfalso. exact (mapped_apart s2 p s3 x (rt_owned _ _ Hth x Ho) Hpl Hx). }
    destruct Hp as (o & path & _ & Hp). pose proof (program_range (opener:=o) path s2 p s3 x Hp) as Hr.
    by rewrite decide_True in Hr.
  - intros x Hx. unfold others. destruct (k_owns s2 th x); [done|].
    destruct Hp as (o & path & _ & Hp). pose proof (program_range (opener:=o) path s2 p s3 x Hp) as Hr.
    by rewrite decide_False in Hr.
  - right. right. split; [done|]. split; [by exists n|]. by exists p.
Qed.

Lemma launch_wpe args t th s2 p s3 :
  strings_ok kc args -> small (t_progname t) -> Forall small (t_rest t) ->
  (length (t_rest t) <= length args)%nat -> th <> 0 -> k_inv s2 -> ready_thread th s2 -> target_loaded t s2 p s3 ->
  wpe (launch cfg t th p) (launched t th p s3) (fun e s' => back e th s2 s') s3.
Proof.
  intros Hstr Hname Hrest Hcount Hnz Hi Hth Hp.
  pose proof (target_is_loaded _ _ _ _ Hp) as Hpl.
  destruct (loaded_ready th s2 p s3 Hi Hth Hpl) as [Hs3 Hready]. pose proof (held_inv _ _ (step_held _ _ Hs3)) as Hi3.
  unfold launch. apply wpe_bind. unfold wpe at 1. rewrite thread_ctx_eq by done.
  apply wpe_bind. unfold wpe at 1. rewrite stack_base_eq by done.
  apply wpe_bind. unfold wpe at 1. rewrite get_sp_eq by apply Hready.
  assert (Hsame : beside th s3 s3) by (split; done).
  destruct (Z.leb_spec (ctx_sp (thread_ctx th) s3) (thread_stack th s3)) as [Hle|Hlt].
  { destruct (unload_back th s2 p s3 s3 Hi Hpl Hsame) as (s5 & Hun & Hb).
    apply wpe_bind. unfold wpe at 1. change (app_vm cfg) with sf_vm. rewrite Hun. apply Hb. }
  pose proof (so_count _ _ Hstr) as Hn.
  apply wpe_bind. unfold wpe at 1, lift. rewrite add64_small by lia.
  destruct (try_reserve _) eqn:Hres; cbn [negb]; [|by eapply refused_back].
  pose proof Hp as (o & path & _ & Hok).
  destruct (program_auxv_total (opener:=o) path s2 p s3 (system_environment cfg (t_path t)) Hok) as [aux Haux].
  apply wpe_bind. unfold wpe at 1, lift. rewrite Haux.
  assert (Hall : Forall (fun q => Z.of_nat (length q) < 2 ^ 63) ((t_progname t :: t_rest t) ++ environ cfg)).
  { apply (Forall_impl small); [|intros q Hq; unfold small in Hq; lia].
    apply Forall_app. split; [by constructor|]. by eapply environ_small. }
  destruct (rt_base _ _ Hready) as [Hb0 Hb1].
  assert (Hb01 : 0 <= thread_stack th s3 <= ctx_sp (thread_ctx th) s3) by (split; [exact Hb0|by apply Z.lt_le_incl]).
  pose proof (build_app_stack_wpe (thread_stack th s3) (ctx_sp (thread_ctx th) s3) s3 (t_progname t :: t_rest t) (environ cfg) aux
    Hi3 Hb01 Hb1 (fun x Hx => proj2 (rt_stack _ _ Hready x Hx)) Hall) as Hbuild.
  apply wpe_bind. unfold wpe at 1, on_err. unfold wpe in Hbuild.
  destruct (build_app_stack _ _ _ _ _ s3) as [[layout|e|] s4]; [| |done].
  - destruct Hbuild as (Hos & Hlo & _ & Hsh). by eapply schedule_wpe.
  - destruct (unload_back th s2 p s3 s4 Hi Hpl) as (s5 & Hun & Hb); [by apply stack_beside|].
    change (app_vm cfg) with sf_vm. rewrite Hun. apply Hb.
Qed.

(** ** The start *)

Lemma set_cwd_wp args s :
  strings_ok kc args -> k_inv s ->
  wp (set_cwd cfg) (fun _ s' => file_step s s' /\ forall g, k_file s' g = k_file s g)
    (fun s' => file_step s s' /\ forall g, k_file s' g = k_file s g) s.
Proof.
  intros Hstr Hi. assert (Hsame : file_step s s /\ forall g, k_file s g = k_file s g) by (by split; [apply file_step_refl|]).
  unfold set_cwd. destruct (negb _); [done|]. destruct (getenv cfg name_PWD) as [pwd|] eqn:Hg; [|done].
  apply (getenv_small kc args Hstr) in Hg. unfold small in Hg. unfold chdir. wp_step.
  apply wp_lift; [apply CString_new_total; lia| |done]. intros c _. apply from_rc_wp.
  cbn [elfrs_chdir sf_threads shim_threads]. unfold shim_chdir, rc_or_errno.
  destruct (HAVE_VFS kc) eqn:Hv; [|done]. pose proof (law_c_chdir s c Hv Hi) as Hlaw.
  destruct (c_chdir c s) as [[rc e] s']. destruct Hlaw as (Hs & Hf & He).
  assert (Hpost : file_step s s' /\ forall g, k_file s' g = k_file s g) by (split; [done|by rewrite Hf]).
  destruct (Z.ltb_spec rc 0) as [Hneg|]; [|done]. specialize (He Hneg). unfold errno_ok in He. split; [lia|].
  by case_decide.
Qed.

(** A program that is about to run. *)
Record started (args : list (list byte)) (s : S) (st : Started) (s' : S) : Prop := {
  sd_step : k_step s s';
  sd_file : forall g, k_file s' g = k_file s g;
  sd_new : ~ k_live s (st_thread st);
  sd_live : forall u, k_live s' u <-> k_live s u \/ u = st_thread st;
  sd_frame : forall x, is_Some (k_view s x) -> k_view s' x = k_view s x;
  sd_queued : k_queued s' (st_thread st);
  sd_runnable : Z.land (thread_flags (st_thread st) s') UK_THREADF_RUNNABLE = UK_THREADF_RUNNABLE;
  sd_starts : k_starts s' (thread_ctx (st_thread st)) = Some (st_sp st, st_entry st);
  sd_program : exists t0 sl o path aux hi, split_command_line cfg args = Ok t0 /\
    let t := resolve cfg s t0 in let p := st_program st in
    target_opener t sl o path /\ program_shows (opener:=o) path sl p s' /\ alive p s' /\ st_entry st = program_entry p /\
    program_auxv p (system_environment cfg (t_path t)) = Ok aux /\
    stack_shows s' (st_sp st) hi (t_progname t :: t_rest t) (environ cfg) aux
}.

Lemma thread_create_eq name len s :
  k_inv s -> elfrs_thread_create name len s =
  (let '(t, s') := uk_thread_create_container (uk_sched_current s) name len s in (Ok t, s')).
Proof.
  intros Hi. cbn. unfold shim_thread_create, uk_assert, mbind, stM_bind, gets.
  by rewrite (proj2 (Z.eqb_neq (uk_sched_current s) _)) by (by apply law_sched).
Qed.

(** What the launch of a loaded program amounts to, seen from the beginning. *)
Lemma launched_started args t0 s th s1 s2 p s3 st s' :
  split_command_line cfg args = Ok t0 ->
  k_step s s1 -> (forall g, k_file s1 g = k_file s g) -> new_thread s th s1 ->
  file_step s1 s2 -> (forall g, k_file s2 g = k_file s1 g) -> ready_thread th s2 ->
  target_loaded (resolve cfg s t0) s2 p s3 ->
  launched (resolve cfg s t0) th p s3 st s' -> started args s st s'.
Proof.
  destruct st as [th' sp' entry' p']. intros Ht0 Hs1 Hf1 [_ Hnew Hlive Hfresh Hframe _ _] [Hs2 Hts2 Hv2] Hf2 Hready Hp.
  intros [Hth Hpr He Hs Hl Hf Hv Hst Hq Hrun Hstk]. cbn [st_thread st_sp st_entry st_program] in *. subst th' p'.
  assert (Hi2 : k_inv s2) by apply Hs2. pose proof Hp as (o & path & Ho & Hok).
  pose proof (program_ok_step (opener:=o) path s2 p s3 Hok) as [[Hi3 Hb3] [Hts3 Hf3 Hu3]].
  split; cbn [st_thread st_sp st_entry st_program]; try done.
  - etrans; [exact Hs1|]. etrans; [exact Hs2|]. etrans; [|exact Hs]. by split.
  - intros g. by rewrite Hf, Hf3, Hf2, Hf1.
  - intros u. by rewrite Hl, (ts_live _ _ Hts3), (ts_live _ _ Hts2), Hlive.
  - intros x Hx. assert (Ho1 : k_owns s1 th x = false).
    { destruct (k_owns s1 th x) eqn:Hox; [|done]. rewrite (proj1 (Hfresh x Hox)) in Hx. by apply is_Some_None in Hx. }
    assert (Hv3 : k_view s3 x = k_view s x).
    { rewrite <- Hframe, <- Hv2 by done. pose proof (program_range (opener:=o) path s2 p s3 x Hok) as Hr.
      case_decide; [|done]. destruct Hr as [Hr _]. cbn in Hr. rewrite Hv2, Hframe in Hr by done.
      rewrite Hr in Hx. by apply is_Some_None in Hx. }
    rewrite Hv, Hv3; [done| |by rewrite Hv3]. by rewrite (ts_owns _ _ Hts3), (ts_owns _ _ Hts2).
  - destruct Hstk as (_ & aux & Haux & Hsh). exists t0, s2, o, path, aux. eexists. split; [done|]. cbv zeta.
    assert (Hkeep : forall x, in_program p x -> k_view s' x = k_view s3 x).
    { intros x Hx. pose proof (program_range (opener:=o) path s2 p s3 x Hok) as Hr. rewrite decide_True in Hr by done.
      apply Hv; [|apply Hr]. rewrite (ts_owns _ _ Hts3). destruct (k_owns s2 th x) eqn:Hox; [|done]. exfalso.
      exact (mapped_apart s2 p s3 x (rt_owned _ _ Hready x Hox) (target_is_loaded _ _ _ _ Hp) Hx). }
    split_and!; try done; [by eapply program_ok_shows|].
    apply (loaded_alive s2 p s3); [by apply (target_is_loaded _ _ _ _ Hp)|apply Hs|apply Hs|done].
Qed.

Lemma run_wpe args s :
  strings_ok kc args -> solid_files -> k_inv s ->
  wpe (run cfg args) (started args s) (fun e => rolled_back e s) s.
Proof.
  intros Hstr Hsolid Hi. assert (Hrefl : forall e, rolled_back e s s) by (intros e; split; [done|done|done|by apply left_same]).
  unfold run. apply wpe_bind. unfold wpe at 1, lift.
  destruct (split_command_line cfg args) as [t0|e|] eqn:Ht0; [|done|by apply split_total in Ht0].
  destruct (split_small kc vdso_image_addr args t0 Hstr Ht0) as [Hpath Hname Hrest Hcount].
  destruct (resolve_short kc args Hstr s t0 ltac:(by split)) as (Hshort & Hname' & Hrest').
  apply wpe_bind. unfold gets at 1, wpe at 1. set (t := resolve cfg s t0) in *. rewrite <- Hname', <- Hrest' in *.
  apply wpe_bind. unfold wpe at 1, lift. unfold small in Hname.
  destruct (CString_new (t_progname t)) as [cname|e|] eqn:Hc; [|done|by apply CString_new_total in Hc; [|lia]].
  apply wpe_bind. unfold wpe at 1. rewrite thread_create_eq by done.
  pose proof (law_container s (uk_sched_current s) cname (stack_len cfg) Hi) as Hnew.
  destruct (uk_thread_create_container _ _ _ s) as [th s1]. destruct Hnew as (Hs1 & Hf1 & Hnew).
  destruct (Z.eqb_spec th 0) as [H0|Hnz].
  { rewrite decide_True in Hnew by done. destruct Hnew as [Hl Hv]. split; try done. by apply left_same. }
  rewrite decide_False in Hnew by done. unfold wpe, guarded, on_err.
  match goal with |- context [match ?m s1 with _ => _ end] => set (body := m) end.
  enough (Hbody : wpe body (started args s) (fun e s' => back e th s1 s') s1).
  { unfold wpe in Hbody. destruct (body s1) as [[st|e|] s']; [done| |done]. cbn.
    unfold shim_thread_release. rewrite (proj2 (Z.eqb_neq th 0)) by done. by apply (release_back e s th s1). }
  subst body. apply wpe_bind. assert (Hi1 : k_inv s1) by apply Hs1.
  assert (Hcwd : forall s2, file_step s1 s2 -> (forall g, k_file s2 g = k_file s1 g) -> beside th s1 s2).
  { intros s2 [Hs2 [Hl Ho _ _ _ _ _] Hv] Hf. by split. }
  eapply wpe_mono; [exact (set_cwd_wp args s1 Hstr Hi1)| |intros e s2 [? ?]; by apply beside_back, Hcwd].
  intros _ s2 [Hs2 Hf2]. assert (Hi2 : k_inv s2) by apply Hs2. pose proof (Hcwd s2 Hs2 Hf2) as H12.
  assert (Hready : ready_thread th s2).
  { apply (ready_same th s1); [apply Hs2|intros x _; apply Hs2|]. destruct Hnew as [? ? Hl ? ? ? ?].
    split; [done|apply Hl; by right|naive_solver|done|done]. }
  apply wpe_bind. eapply wpe_mono; [exact (load_target_wp t s2 Hi2 Hshort Hsolid)| |].
  2: { intros e s3 Hfail. eapply back_after; [exact H12|]. apply failed_back; [apply Hready|done]. }
  intros p s3 Hp. eapply wpe_mono; [by apply (launch_wpe args t th s2 p s3)| |].
  - intros st s' Hl. by apply (launched_started args t0 s th s1 s2 p s3).
  - intros e s' Hb. by eapply back_after.
Qed.

End Start.
