(* ===== verification/Machine.v ===== *)
(** * A machine

    A small kernel that keeps all the laws: memory is handed out upwards and
    never reused, files come from a fixed list, the first attempt of every [pread]
    is interrupted and later ones return at most 512 bytes.  A whole start runs on
    it. *)

From Stdlib Require Import Strings.Byte.
From stdpp Require Import base numbers option strings sets list.
From S2P Require Import Prelude Err Log Util Elf ElfFacts TestImage Layout Loader VmSpec LoaderFacts Auxv AuxvFacts.
From S2P Require Import Program ProgramFacts ProgramRun Frame Sys SysFacts App AppFacts Binfmt Shim ShimFacts ShimFiles RunFacts StartFacts Rt.

(** ** The machine *)

(** A thread is the address of its stack, with the length of it. *)
Record Machine : Type := MkMachine {
  m_mem : Z -> option cell;
  m_top : Z;
  m_fds : Z -> option (list byte);
  m_next : Z;
  m_blocks : Z -> option Z;
  m_threads : Z -> option Z;
  m_flags : Z -> Z;
  m_starts : Z -> option (Z * Z);
  m_queued : Z -> bool;
  m_user : option LoadedProgram
}.

Definition upd {A : Type} (f : Z -> A) (k : Z) (v : A) : Z -> A := fun x => if decide (x = k) then v else f x.

Definition with_mem (f : Z -> option cell) (s : Machine) : Machine :=
  MkMachine f (m_top s) (m_fds s) (m_next s) (m_blocks s) (m_threads s) (m_flags s) (m_starts s) (m_queued s) (m_user s).
Definition with_fds (f : Z -> option (list byte)) (next : Z) (s : Machine) : Machine :=
  MkMachine (m_mem s) (m_top s) f next (m_blocks s) (m_threads s) (m_flags s) (m_starts s) (m_queued s) (m_user s).

(** Memory at the top, a multiple of [align], with [len] bytes of [c]. *)
Definition grow (align len : Z) (c : cell) (s : Machine) : option (Z * Machine) :=
  let a := rup (m_top s) align in
  if (0 <? align) && (0 <? len) && (a + len <? 2 ^ 64) then
    Some (a, MkMachine (fun x => if decide (within a len x) then Some c else m_mem s x) (a + len) (m_fds s) (m_next s)
               (m_blocks s) (m_threads s) (m_flags s) (m_starts s) (m_queued s) (m_user s))
  else None.

Definition m_mmap (addr len prot flags fd off : Z) (s : Machine) : (Z * Z) * Machine :=
  if Z.testbit flags 4 then
    let cell_at x := if Z.testbit flags 5 then x00 else file_byte (default [] (m_fds s fd)) (off + (x - addr)) in
    ((addr, 0), with_mem (fun x => if decide (within addr len x) then Some (prot, cell_at x) else m_mem s x) s)
  else match grow 4096 len (prot, x00) s with
       | Some (a, s') => ((a, 0), s')
       | None => ((MAP_FAILED, 12), s)
       end.

Definition m_munmap (a len : Z) (s : Machine) : (Z * Z) * Machine :=
  ((0, 0), with_mem (fun x => if decide (within a len x) then None else m_mem s x) s).

Definition m_mprotect (a len prot : Z) (s : Machine) : (Z * Z) * Machine :=
  ((0, 0), with_mem (fun x => if decide (within a len x) then (fun c : cell => (prot, c.2)) <$> m_mem s x else m_mem s x) s).

Definition m_memalign (align len : Z) (s : Machine) : Z * Machine :=
  match grow align len (RW, x00) s with
  | Some (a, s') => (a, MkMachine (m_mem s') (m_top s') (m_fds s') (m_next s') (upd (m_blocks s) a (Some len))
                          (m_threads s') (m_flags s') (m_starts s') (m_queued s') (m_user s'))
  | None => (0, s)
  end.

Definition m_free (a : Z) (s : Machine) : Machine :=
  match m_blocks s a with
  | Some len => MkMachine (fun x => if decide (within a len x) then None else m_mem s x) (m_top s) (m_fds s) (m_next s)
                  (upd (m_blocks s) a None) (m_threads s) (m_flags s) (m_starts s) (m_queued s) (m_user s)
  | None => s
  end.

Definition m_store (a : Z) (d : list byte) (s : Machine) : Machine :=
  with_mem (fun x => match (if decide (a <= x) then d !! Z.to_nat (x - a) else None) with
                     | Some b => (fun c : cell => (c.1, b)) <$> m_mem s x
                     | None => m_mem s x
                     end) s.

(** *** Files *)

Section Disk.
Variable disk : list (list byte * list byte).

Definition on_disk (path : list byte) : option (list byte) :=
  snd <$> head (filter (fun e => e.1 = until_nul path) disk).

Definition m_open (path : list byte) (flags : Z) (s : Machine) : (Z * Z) * Machine :=
  match on_disk path with
  | Some d => ((m_next s, 0), with_fds (upd (m_fds s) (m_next s) (Some d)) (m_next s + 1) s)
  | None => ((-1, 2), s)
  end.

Definition m_close (fd : Z) (s : Machine) : Machine := with_fds (upd (m_fds s) fd None) (m_next s) s.

Definition m_pread (attempt : nat) (fd len off : Z) (s : Machine) : (Z * Z) * list byte :=
  match attempt, m_fds s fd with
  | O, _ => ((-1, EINTR), [])
  | _, None => ((-1, 9), [])
  | _, Some d =>
    if off <? 0 then ((-1, 22), [])
    else let b := take (Z.to_nat (Z.min len 512)) (drop (Z.to_nat off) d) in ((Z.of_nat (length b), 0), b)
  end.

Definition stat_of (d : option (list byte)) : (Z * Z) * Stat :=
  match d with
  | Some d => ((0, 0), MkStat (Z.of_nat (length d)) true true)
  | None => ((-1, 2), MkStat 0 false false)
  end.

(** *** Threads *)

Definition m_container (sched : Z) (name : list byte) (len : Z) (s : Machine) : Z * Machine :=
  match grow 4096 len (RW, x00) s with
  | Some (a, s') => (a, MkMachine (m_mem s') (m_top s') (m_fds s') (m_next s') (m_blocks s')
                          (upd (m_threads s) a (Some len)) (m_flags s') (m_starts s') (m_queued s') (m_user s'))
  | None => (0, s)
  end.

Definition owns (s : Machine) (t x : Z) : bool :=
  match m_threads s t with Some len => bool_decide (within t len x) | None => false end.

Definition m_release (t : Z) (s : Machine) : Machine :=
  MkMachine (fun x => if owns s t x then None else m_mem s x) (m_top s) (m_fds s) (m_next s) (m_blocks s)
    (upd (m_threads s) t None) (m_flags s) (m_starts s) (m_queued s) (m_user s).

Definition machine : Kernel Machine := {|
  mmap := m_mmap;
  munmap := m_munmap;
  mprotect := m_mprotect;
  uk_vas_get_active := fun _ => None;
  uk_vma_set_attr := fun _ _ _ _ s => (0, s);
  ATTR_READ := 1;
  ATTR_WRITE := 2;
  ATTR_EXEC := 4;
  uk_memalign := m_memalign;
  uk_free := m_free;
  raw_store := m_store;
  raw_load := fun s x => default x00 (snd <$> m_mem s x);
  invalidate_icache_range := fun _ _ s => s;
  c_open := m_open;
  c_close := m_close;
  c_pread := m_pread;
  c_fstat := fun fd s => stat_of (m_fds s fd);
  c_stat := fun path _ => stat_of (on_disk path);
  c_chdir := fun _ s => ((0, 0), s);
  patience := 1;
  ukplat_memregion_find_initrd0 := fun _ => (-1, (0, 0));
  uk_sched_current := fun _ => 1;
  uk_thread_create_container := m_container;
  uk_thread_release := m_release;
  thread_ctx := fun t => t;
  thread_stack := fun t _ => t;
  thread_flags := fun t s => m_flags s t;
  set_thread_flags := fun t f s =>
    MkMachine (m_mem s) (m_top s) (m_fds s) (m_next s) (m_blocks s) (m_threads s) (upd (m_flags s) t f) (m_starts s)
      (m_queued s) (m_user s);
  UK_THREADF_RUNNABLE := 1;
  uk_posix_process_create_pthread := fun _ s => (0, s);
  uk_sched_thread_add := fun _ t s =>
    MkMachine (m_mem s) (m_top s) (m_fds s) (m_next s) (m_blocks s) (m_threads s) (m_flags s) (m_starts s)
      (upd (m_queued s) t true) (m_user s);
  ctx_sp := fun c s => match m_threads s c with Some len => c + len | None => 0 end;
  ukarch_ctx_init := fun c sp _ ip s =>
    MkMachine (m_mem s) (m_top s) (m_fds s) (m_next s) (m_blocks s) (m_threads s) (m_flags s)
      (upd (m_starts s) c (Some (sp, ip))) (m_queued s) (m_user s);
  UKARCH_SP_ALIGN := 16;
  args_user := m_user;
  set_args_user := fun u s =>
    MkMachine (m_mem s) (m_top s) (m_fds s) (m_next s) (m_blocks s) (m_threads s) (m_flags s) (m_starts s) (m_queued s) u
|}.

(** ** It keeps the laws *)

Record m_inv (s : Machine) : Prop := {
  mi_top : 0 < m_top s;
  mi_mem : forall x, is_Some (m_mem s x) -> 0 < x < m_top s;
  mi_next : 0 <= m_next s;
  mi_fds : forall fd d, m_fds s fd = Some d -> 0 <= fd < m_next s /\ exists path, on_disk path = Some d;
  mi_blocks : forall b bl, m_blocks s b = Some bl -> b < m_top s;
  mi_threads : forall t len, m_threads s t = Some len -> t < m_top s
}.

Definition machine_view : KernelView Machine := {|
  k_inv := m_inv;
  k_view := m_mem;
  k_file := m_fds;
  k_block := fun s b bl => m_blocks s b = Some bl;
  k_live := fun s t => is_Some (m_threads s t);
  k_owns := owns;
  k_starts := m_starts;
  k_queued := fun s t => m_queued s t = true
|}.

#[local] Existing Instances machine machine_view.

Variable kc : Kconfig.
Hypothesis shift12 : PAGE_SHIFT kc = 12.
Hypothesis vfs_on : HAVE_VFS kc = true.
Hypothesis disk_small : forall path d, on_disk path = Some d -> Z.of_nat (length d) < 2 ^ 63.

Lemma page12 : PAGE_SIZE kc = 4096.
Proof. unfold PAGE_SIZE. by rewrite shift12. Qed.

Lemma same_threads_refl s s' :
  m_threads s' = m_threads s -> m_flags s' = m_flags s -> m_starts s' = m_starts s -> m_queued s' = m_queued s ->
  threads_same s s'.
Proof.
  intros H1 H2 H3 H4. split; cbn; intros; unfold owns; by rewrite ?H1, ?H2, ?H3, ?H4.
Qed.

(** Memory that is smaller, or changed in place. *)
Lemma with_mem_step s f :
  m_inv s -> (forall x, is_Some (f x) -> is_Some (m_mem s x)) -> mem_step s (with_mem f s).
Proof.
  intros [H1 H2 H3 H4 H5 H6] Hf. split; [|by apply same_threads_refl|done]. split; [|done|done].
  split; cbn; auto.
Qed.

Record grown (align len : Z) (c : cell) (s : Machine) (a : Z) (s' : Machine) : Prop := {
  mg_low : m_top s <= a;
  mg_align : (align | a);
  mg_high : a + len < 2 ^ 64;
  mg_state : s' = MkMachine (fun x => if decide (within a len x) then Some c else m_mem s x) (a + len) (m_fds s) (m_next s)
               (m_blocks s) (m_threads s) (m_flags s) (m_starts s) (m_queued s) (m_user s);
  mg_free : forall x, within a len x -> m_mem s x = None;
  mg_inv : m_inv s'
}.

Lemma grow_spec align len c s a s' : m_inv s -> grow align len c s = Some (a, s') -> grown align len c s a s'.
Proof.
  intros [H1 H2 H3 H4 H5 H6]. unfold grow. destruct (Z.ltb_spec 0 align) as [Ha|]; [|done].
  destruct (Z.ltb_spec 0 len) as [Hl|]; [|done]. cbn [andb].
  destruct (Z.ltb_spec (rup (m_top s) align + len) (2 ^ 64)) as [Hu|]; [|done]. intros [= <- <-].
  pose proof (rup_bounds align Ha (m_top s)) as Hr. split; [lia|by apply rup_divide|done|done| |].
  - intros x Hx. destruct (m_mem s x) as [v|] eqn:Hv; [|done]. exfalso.
    specialize (H2 x ltac:(by rewrite Hv)). unfold within in Hx. lia.
  - split; cbn; [lia| |done|done| |].
    + intros x. case_decide as Hx; [unfold within in Hx; lia|]. intros Hs. specialize (H2 x Hs). lia.
    + intros b bl Hb. specialize (H5 b bl Hb). lia.
    + intros t l Ht. specialize (H6 t l Ht). lia.
Qed.

Lemma grown_step align len c s a s' : grown align len c s a s' -> mem_step s s'.
Proof. intros [_ _ _ -> _ Hi]. split; [|by apply same_threads_refl|done]. by split. Qed.

Definition machine_memory : KernelMemory Machine kc.
Proof.
  refine {| law_shift := _ |}; cbn [k_inv k_view k_file k_block machine_view]; rewrite ?page12.
  - rewrite shift12. lia.
  - intros s Hi. cbn. destruct (m_mem s 0) eqn:Hm; [|done]. pose proof (mi_mem _ Hi 0 ltac:(by rewrite Hm)). lia.
  - intros s fd d Hi Hf. destruct (mi_fds _ Hi fd d Hf) as [_ [path Hp]]. by eapply disk_small.
  - intros s addr len prot _ Hi _ _ Hl _ _ _. cbn. unfold m_mmap. cbn [Z.testbit]. cbn.
    destruct (grow 4096 len (prot, x00) s) as [[a s']|] eqn:Hg; [|by split].
    apply grow_spec in Hg; [|done]. split; [by eapply grown_step|]. destruct Hg as [H1 H2 H3 -> H5 H6].
    pose proof (mi_top _ Hi). rewrite decide_False by (unfold MAP_FAILED; lia). split_and!; try done; lia.
  - intros s addr len prot src _ Hi _ _ Hl Ha _ Hu Hmap Hsrc.
    assert (Hstep : forall g, mem_step s (with_mem (fun x => if decide (within addr len x) then Some (prot, g x) else m_mem s x) s)).
    { intros g. apply with_mem_step; [done|]. intros x. case_decide; [by auto|done]. }
    destruct src as [[fd off]|]; cbn; (split; [apply Hstep|]); by rewrite decide_False by (unfold MAP_FAILED; lia).
  - intros s a len _ Hi _ _ _ _ _. cbn. split; [done|]. split; [|done]. apply with_mem_step; [done|].
    intros x. case_decide; [by intros []%is_Some_None|done].
  - intros s a len prot _ Hi _. cbn. split; [|split; [done|split]].
    + apply with_mem_step; [done|]. intros x. case_decide; [by rewrite fmap_is_Some|done].
    + intros x. case_decide; [|done]. by destruct (m_mem s x) as [[]|].
    + intros _ _ _ _ _ Hmap x. case_decide; [|done]. intros _. by destruct (Hmap x) as [c ->].
  - intros s vas a len prot _ _ _ _ Hv. discriminate Hv.
  - intros s align len Hi Hpow Hal Hl. cbn. unfold m_memalign.
    destruct (grow align len (RW, x00) s) as [[a s']|] eqn:Hg; [|by split].
    apply grow_spec in Hg; [|done]. destruct Hg as [H1 H2 H3 -> H5 H6]. cbn. pose proof (mi_top _ Hi).
    rewrite decide_False by lia. split.
    + split; [|by apply same_threads_refl|done]. split; [|cbn|done].
      * destruct H6 as [? ? ? ? Hb ?]. split; cbn in *; try done. intros b bl. unfold upd. case_decide; [lia|]. apply Hb.
      * intros b bl Hb. unfold upd. case_decide; [|done]. subst b. pose proof (mi_blocks _ Hi a bl Hb). lia.
    + unfold upd at 1. rewrite decide_True by done. split_and!; try done.
      * intros bl Hb. pose proof (mi_blocks _ Hi a bl Hb). lia.
      * lia.
      * intros x Hx. rewrite decide_True by done. split; [by apply H5|]. by eexists.
      * intros x Hx. by rewrite decide_False.
  - intros s a len Hi Hb. cbn. unfold m_free. rewrite Hb. cbn. destruct Hi as [H1 H2 H3 H4 H5 H6]. split_and!; try done.
    + split; cbn; try done.
      * intros x. case_decide; [by intros []%is_Some_None|auto].
      * intros b bl. unfold upd. case_decide; [done|apply H5].
    + intros b bl Hb' Hne. unfold upd. by rewrite decide_False.
  - intros s a d Hi Hmap. cbn. split; [|split; [|done]].
    + apply with_mem_step; [done|]. intros x. destruct (if decide _ then _ else _); [by rewrite fmap_is_Some|done].
    + intros x. destruct (if decide _ then _ else _); [|done]. by destruct (m_mem s x) as [[]|].
  - intros s a len Hi. cbn. by split.
Defined.

(** *** Files *)

Lemma fds_step s f next :
  m_inv s -> 0 <= next ->
  (forall fd d, f fd = Some d -> 0 <= fd < next /\ exists path, on_disk path = Some d) -> file_step s (with_fds f next s).
Proof.
  intros [H1 H2 H3 H4 H5 H6] Hn Hf. split; [|by apply same_threads_refl|done]. split; [|done|done]. by split.
Qed.

Lemma pread_turn (d : list byte) len off :
  0 < len -> 0 <= off ->
  let b := take (Z.to_nat (Z.min len 512)) (drop (Z.to_nat off) d) in
  (off < Z.of_nat (length d) -> 0 < Z.of_nat (length b) <= len /\ off + Z.of_nat (length b) <= Z.of_nat (length d) /\
     b = take (Z.to_nat (Z.of_nat (length b))) (drop (Z.to_nat off) d)) /\
  (Z.of_nat (length d) <= off -> length b = 0%nat).
Proof.
  intros Hl Ho b. assert (Hb : length b = Nat.min (Z.to_nat (Z.min len 512)) (length d - Z.to_nat off))
    by (unfold b; by rewrite length_take, length_drop). split; intros Hlt; [|lia].
  split; [lia|]. split; [lia|]. rewrite Nat2Z.id, Hb. unfold b.
  destruct (Nat.le_gt_cases (Z.to_nat (Z.min len 512)) (length d - Z.to_nat off)).
  - by rewrite Nat.min_l.
  - rewrite Nat.min_r by lia. by rewrite !take_ge by (rewrite length_drop; lia).
Qed.

Definition machine_files : KernelFiles Machine kc.
Proof.
  refine {| law_fd_range := _ |}; cbn [k_inv k_view k_file machine_view].
  - intros s fd Hi Hneg. destruct (m_fds s fd) as [d|] eqn:Hd; [|done]. destruct (mi_fds _ Hi fd d Hd). lia.
  - intros s fd _ Hno. congruence.
  - intros s path _ Hi. cbn. unfold m_open. destruct (on_disk path) as [d|] eqn:Hd; [|by split].
    assert (Hnew : m_fds s (m_next s) = None).
    { destruct (m_fds s (m_next s)) as [e|] eqn:He; [|done]. destruct (mi_fds _ Hi _ e He). lia. }
    pose proof (mi_next _ Hi). split.
    + apply fds_step; [done|lia|]. intros fd e. unfold upd. case_decide as Hfd.
      * intros [= <-]. split; [lia|by exists path].
      * intros He. destruct (mi_fds _ Hi fd e He). split; [lia|done].
    + rewrite decide_False by lia. split; [done|]. exists d. split; [by eapply disk_small|done].
  - intros s fd _ Hi. split; [|done]. apply fds_step; [done|apply Hi|].
    intros g d. unfold upd. case_decide; [done|]. by apply Hi.
  - intros s fd d len off _ Hi Hf Hl. exists 1%nat. split; [done|]. split.
    { intros [|m] Hm; [done|lia]. }
    cbn. rewrite Hf. destruct (Z.ltb_spec off 0) as [Hneg|Hpos].
    { by rewrite decide_True. }
    rewrite decide_False by lia. destruct (pread_turn d len off Hl Hpos) as [Hin Hend].
    destruct (decide (off < Z.of_nat (length d))); [by apply Hin|]. rewrite Hend by lia. done.
  - intros s fd _ Hi. cbn. unfold stat_of. destruct (m_fds s fd) as [d|]; [|by split].
    split; [done|]. by intros e [= <-].
  - intros s path _ Hi. cbn. by split.
Defined.

(** *** Threads *)

(** Flags, contexts and queues are nobody else's business. *)
Lemma marks_beside s t flags starts queued :
  m_inv s -> beside t s (MkMachine (m_mem s) (m_top s) (m_fds s) (m_next s) (m_blocks s) (m_threads s) flags starts queued (m_user s)).
Proof. intros [? ? ? ? ? ?]. split; [split; [by split|done|done]|done|done|done|done]. Qed.

Definition machine_threads : KernelThreads Machine kc.
Proof.
  refine {| law_sched := _ |}; cbn [k_inv k_view k_file k_live k_owns k_starts k_queued machine_view].
  - done.
  - split; [done|]. by exists 1.
  - done.
  - intros s sched name len Hi. cbn. unfold m_container.
    destruct (grow 4096 len (RW, x00) s) as [[a s']|] eqn:Hg; [|by rewrite decide_True].
    assert (Hl : 0 < len).
    { unfold grow in Hg. destruct (Z.ltb_spec 0 len); [done|]. by rewrite andb_false_r in Hg. }
    apply grow_spec in Hg; [|done]. destruct Hg as [H1 H2 H3 -> H5 H6]. cbn. pose proof (mi_top _ Hi).
    assert (Hno : m_threads s a = None).
    { destruct (m_threads s a) as [l|] eqn:Ha; [|done]. pose proof (mi_threads _ Hi a l Ha). lia. }
    split; [split; [|done|done]|].
    { destruct H6 as [? ? ? ? ? Ht]. split; cbn in *; try done. intros t l. unfold upd. case_decide; [lia|]. apply Ht. }
    split; [done|]. rewrite decide_False by lia.
    assert (Howns : forall x, owns (MkMachine (fun x => if decide (within a len x) then Some (RW, x00) else m_mem s x)
      (a + len) (m_fds s) (m_next s) (m_blocks s) (upd (m_threads s) a (Some len)) (m_flags s) (m_starts s) (m_queued s)
      (m_user s)) a x = bool_decide (within a len x)).
    { intros x. unfold owns. cbn. unfold upd. by rewrite decide_True. }
    split; cbn; [lia| | | | | |].
    + rewrite Hno. by intros []%is_Some_None.
    + intros u. unfold upd. case_decide; naive_solver.
    + intros x. rewrite Howns, bool_decide_eq_true. intros Hx. rewrite decide_True by done. split; [by apply H5|done].
    + intros x. rewrite Howns, bool_decide_eq_false. intros Hx. by rewrite decide_False.
    + unfold upd. rewrite decide_True by done. split; lia.
    + unfold upd. rewrite decide_True by done. intros x Hx. rewrite Howns.
      rewrite bool_decide_eq_true_2 by (unfold within; lia). by rewrite decide_True by (unfold within; lia).
  - intros s t Hi _. cbn. destruct Hi as [H1 H2 H3 H4 H5 H6]. split; [split; [|done|done]|]; [|split; [done|split; [|done]]].
    + split; cbn; try done.
      * intros x. destruct (owns s t x); [by intros []%is_Some_None|auto].
      * intros u len. unfold upd. case_decide; [done|apply H6].
    + intros u. cbn. unfold upd. case_decide; [|naive_solver]. rewrite is_Some_alt. naive_solver.
  - intros s t f Hi. cbn. split; [by apply marks_beside|]. split; [done|]. split; [done|].
    unfold upd. by rewrite decide_True.
  - intros s t sp keep ip Hi _. cbn. split; [by apply marks_beside|]. split; [done|].
    unfold upd. by rewrite decide_True.
  - intros s t Hi _. cbn. split; [|done]. split; [|done|done]. by split.
  - intros s sched t Hi. cbn. split; [by apply marks_beside|]. split_and!; try done.
    unfold upd. by rewrite decide_True.
Defined.
End Disk.

(** ** A start on it *)

(** A program with an interpreter, as files. *)
Definition disk0 : list (list byte * list byte) := [(prog_path, prog_bytes); (ld_path, mini_bytes)].

Definition kc0 : Kconfig :=
  MkKconfig 16 12 (Some (0, 0)) true true true true true true true true true true true false [] false false.

(** "A=1" in the environment, and a working directory. *)
Definition kenv0 : KernelEnv := {|
  k_environ := Some [[x41; x3d; x31; x00]];
  k_getenv := fun name => if bool_decide (until_nul name = name_PWD) then Some [x2f; x00] else None;
  uk_random_fill_buffer := fun n => (0, replicate (Z.to_nat n) x5a);
  id_aa64isar0 := 0;
  vdso_image_addr := 0
|}.

Definition machine0 : Machine :=
  MkMachine (fun _ => None) 0x100000 (fun _ => None) 3 (fun _ => None) (fun _ => None) (fun _ => 0) (fun _ => None)
    (fun _ => false) None.

(** The kernel's name, the program and an argument. *)
Definition args0 : list (list byte) := [[x6b]; prog_path; [x78]].

Abbreviation run0 := (run (memory:=shim_memory (kernel:=machine disk0) (target:=x86_target) kc0)
  (threads:=shim_threads (kernel:=machine disk0) kc0) (heap:=plenty) (target:=x86_target)
  (vfs:=shim_vfs (kernel:=machine disk0) kc0) (proc:=shim_process (kenv:=kenv0) (target:=x86_target) kc0)
  (elfrs_cfg_get kc0 0) args0 machine0).

Lemma run0_starts : match run0 with (Ok st, _) => st_entry st | _ => 0 end = 0x112400.
Proof. vm_compute. reflexivity. Qed.

Lemma disk0_files path d : on_disk disk0 path = Some d -> d = prog_bytes \/ d = mini_bytes.
Proof.
  unfold on_disk, disk0. rewrite !filter_cons, filter_nil. cbn [fst].
  repeat case_decide; cbn; intros [= <-]; auto.
Qed.

Lemma disk0_small path d : on_disk disk0 path = Some d -> Z.of_nat (length d) < 2 ^ 63.
Proof. by intros [->| ->]%disk0_files. Qed.

Lemma machine0_inv : m_inv disk0 machine0.
Proof. split; cbn; done. Qed.

Lemma strings0 : strings_ok (kenv:=kenv0) kc0 args0.
Proof.
  split; try done.
  - by repeat constructor.
  - intros es [= <-]. by repeat constructor.
  - intros n m. cbn. case_bool_decide; [by intros [= <-]|done].
Qed.

Lemma solid_check img : forallb (fun ph => 0 <? p_memsz ph) (load_phdrs img) = true -> solid img.
Proof. intros H ph Hph. by apply Z.ltb_lt, (proj1 (forallb_forall _ _) H), list_elem_of_In. Qed.

Lemma solid0 : solid_files (kernel:=machine disk0) (kview:=machine_view disk0) (kenv:=kenv0) (target:=x86_target)
  (heap:=plenty) kc0.
Proof.
  intros d img (s & Hi & [[fd Hf]|(base & len & Hini & _)]); [|discriminate Hini].
  destruct (mi_fds _ _ Hi fd d Hf) as [_ [path Hp]].
  apply disk0_files in Hp as [->| ->]; change (page_size (Vm:=sf_vm kc0)) with 4096.
  - pose proof prog_parses as Hpp. unfold fheap, ftarget in Hpp. rewrite Hpp. intros [= <-]. by apply solid_check.
  - rewrite mini_parses. intros [= <-]. by apply solid_check.
Qed.



(** A layout with an alignment below a pointer's. *)
Definition layout0 : AllocLayout := MkAllocLayout 1 24.

Abbreviation memory0 := (shim_memory (kernel:=machine disk0) (target:=x86_target) kc0).

Lemma UkHeap_contract_witness :
  let r := heap_alloc (memory:=memory0) layout0 machine0 in
  r.1 <> 0 /\ (l_align layout0 | r.1) /\
  forall x, m_mem (heap_dealloc (memory:=memory0) r.1 layout0 r.2) x = m_mem machine0 x.
Proof.
  destruct (UkHeap_contract (kernel:=machine disk0) (kview:=machine_view disk0) (target:=x86_target)
    kc0 (kmem:=machine_memory disk0 kc0 eq_refl disk0_small) machine0 layout0 machine0_inv
    ltac:(by split) ltac:(done)) as [_ H].
  split; [vm_compute; discriminate|]. rewrite decide_False in H by (vm_compute; discriminate).
  destruct H as (Ha & _ & _ & _ & _ & _ & Hv). split; [exact Ha|exact Hv].
Defined.
