(* ===== verification/ExecFacts.v ===== *)
(** * A program loaded for [execve], over the shim

    [binfmt_load] and [elfrs_binfmt_unload] on a kernel that keeps the laws of its
    memory, files and threads: what is in memory, on the stack and in the context
    of the caller when a load succeeds, that a load that fails leaves only
    the caller's own memory changed, and that unloading gives back what loading
    took. *)

From Stdlib Require Import Strings.Byte.
From stdpp Require Import base numbers option strings sets list.
From S2P Require Import Prelude Err Util Elf ElfFacts Layout LayoutFacts Loader VmSpec LoaderFacts Auxv AuxvFacts.
From S2P Require Import Program ProgramFacts Frame Sys SysFacts App AppFacts Binfmt Shim ShimFacts ShimFiles RunFacts StartFacts.

(** The context in the loader's arguments and their [user] field.  Setting up a
    context may use the memory of the context itself, [k_ctx], and [ctx_room]
    bytes below the new stack pointer; the [user] field is a variable of its
    own. *)
Class KernelExec (S : Type) {kernel : Kernel S} {kview : KernelView S} : Type := {
  k_ctx : Z -> Z -> bool;
  ctx_room : Z;
  law_exec_ctx s c sp keep ip :
    k_inv s -> let s' := ukarch_ctx_init c sp keep ip s in
    k_step s s' /\ (forall u, k_live s' u <-> k_live s u) /\ (forall g, k_file s' g = k_file s g) /\
    k_starts s' c = Some (sp, ip) /\
    forall x, k_ctx c x = false -> ~ sp - ctx_room <= x < sp -> k_view s' x = k_view s x;
  law_set_user s u :
    k_inv s -> let s' := set_args_user u s in
    k_inv s' /\ args_user s' = u /\ (forall b bl, k_block s b bl -> k_block s' b bl) /\ threads_same s s' /\
    k_file s' = k_file s /\ forall x, k_view s' x = k_view s x
}.

Section Exec.
Context {S : Type} {kernel : Kernel S} {kview : KernelView S} {kenv : KernelEnv} {target : Target} {heap : Heap}.
Context (kc : Kconfig) {kmem : KernelMemory S kc} {kfiles : KernelFiles S kc} {kthreads : KernelThreads S kc}.
Context {kexec : KernelExec S}.

Abbreviation cfg := (elfrs_cfg_get kc vdso_image_addr).
#[local] Instance ef_memory : Memory S := shim_memory kc.
#[local] Instance ef_vm : Vm S := UkVm cfg.
#[local] Instance ef_laws : VmLaws S := UkVm_laws kc.
#[local] Instance ef_vfs : Vfs S := shim_vfs kc.
#[local] Instance ef_threads : Threads S := shim_threads kc.
#[local] Instance ef_process : Process := shim_process kc.
#[local] Instance ef_slot : UserSlot S := shim_slot.

(** ** Loading *)

Lemma exec_fits p s1 opened s2 img :
  solid_files kc -> k_inv s1 -> short p -> binfmt_opener cfg p s1 = (Ok opened, s2) ->
  Image_parse (o_src opened) page_size = Ok img -> fits s2 opened img.
Proof.
  intros Hsolid Hi1 Hp Ho Himg. unfold short in Hp.
  pose proof (binfmt_opener_wp (vfs:=ef_vfs) (flaws:=ShimVfs_laws kc) cfg p s1 Hi1 ltac:(lia)) as Hw. unfold wp in Hw.
  rewrite Ho in Hw. destruct Hw as (fd & d & [_ Hi2 _ Hc Hsv Hsz _ _]).
  specialize (Hc fd). rewrite decide_True in Hc by done. apply contents_file in Hc as [Hc _].
  pose proof (law_file_size s2 fd d Hi2 Hc) as Hlen.
  apply uk_fits; [done|]. apply (Hsolid d).
  - exists s2. split; [done|]. left. by exists fd.
  - rewrite <- Himg. symmetry. apply (parse_same_bytes _ _ d); [done|apply slice_source_serves; lia|done].
Qed.

Lemma exec_load_wp path s :
  k_inv s -> short path -> solid_files kc ->
  wp (load_program (opener:=binfmt_opener cfg) path) (program_ok (opener:=binfmt_opener cfg) path s) (failed s) s.
Proof.
  intros Hi Hp Hsolid. apply load_program_wp; [done|done| | |].
  - intros p s1 Hi1 Hp1. by apply binfmt_opener_opens.
  - intros opened sa img Ho Himg. by apply (exec_fits path s).
  - intros opened sa img ld s1 ip oi sb ii _ _ _ _ Hi1 Hip Hoi Hii. by apply (exec_fits ip s1).
Qed.

(** The calls of the shim on a context. *)
Lemma exec_get_sp c s : c <> 0 -> elfrs_ctx_get_sp c s = (Ok (ctx_sp c s), s).
Proof. exact (get_sp_eq kc c s). Qed.

Lemma exec_ctx_init c sp ip s :
  c <> 0 -> (SP_ALIGN | sp) -> elfrs_ctx_init c sp ip s = (Ok tt, ukarch_ctx_init c sp 0 ip s).
Proof. exact (ctx_init_eq kc c sp ip s). Qed.

(** ** The call *)

Definition exec_path (args : BinArgs) : list byte := cstr (ba_pathname args).
Definition exec_argv (args : BinArgs) : list (list byte) :=
  match vec_from_c (ba_argv args) (ba_argc args) with
  | [] => [match cstr (ba_progname args) with [] => basename (exec_path args) | p => p end]
  | _ => vec_from_c (ba_argv args) (ba_argc args)
  end.
Definition exec_envp (args : BinArgs) : list (list byte) := vec_from_c (ba_envp args) (ba_envc args).

(** The memory of the caller: the context of the arguments and the stack they
    describe, with what setting up a context may use below it.  The strings are
    not absurdly long. *)
Record exec_ready (args : BinArgs) (own : Z -> bool) (s : S) : Prop := {
  er_ctx : ba_ctx args <> 0;
  er_ctx_own : forall x, k_ctx (ba_ctx args) x = true -> own x = true;
  er_mapped : forall x, own x = true -> is_Some (k_view s x);
  er_size : 0 <= ba_stack_size args /\ ctx_sp (ba_ctx args) s < 2 ^ 64;
  er_room : forall x, ctx_sp (ba_ctx args) s - ba_stack_size args - ctx_room <= x < ctx_sp (ba_ctx args) s -> own x = true;
  er_stack : ba_stack_size args <= ctx_sp (ba_ctx args) s ->
    forall x, ctx_sp (ba_ctx args) s - ba_stack_size args <= x < ctx_sp (ba_ctx args) s ->
    own x = true /\ k_ctx (ba_ctx args) x = false /\ writable (k_view s x);
  er_path : short (exec_path args);
  er_strings : Forall (fun q : list byte => Z.of_nat (length q) < 2 ^ 63) (exec_argv args ++ exec_envp args)
}.

(** A program in memory that the caller's context is about to run. *)
Record executed (args : BinArgs) (own : Z -> bool) (s : S) (p : LoadedProgram) (s' : S) : Prop := {
  ex_inv : k_inv s' /\ forall b bl, k_block s b bl -> k_block s' b bl;
  ex_user : args_user s' = Some p;
  ex_live : forall u, k_live s' u <-> k_live s u;
  ex_file : forall g, k_file s' g = k_file s g;
  ex_fresh : forall x, in_program p x -> k_view s x = None /\ own x = false;
  ex_frame : forall x, own x = false -> ~ in_program p x -> k_view s' x = k_view s x;
  ex_alive : alive kc p s';
  ex_held : exists s1, program_ok (opener:=binfmt_opener cfg) (exec_path args) s p s1 /\ vm_held s1 s';
  ex_program : program_shows (opener:=binfmt_opener cfg) (exec_path args) s p s';
  ex_starts : exists sp aux, k_starts s' (ba_ctx args) = Some (sp, program_entry p) /\
    ctx_sp (ba_ctx args) s - ba_stack_size args <= sp /\
    program_auxv p (system_environment cfg (exec_path args)) = Ok aux /\
    stack_shows kc s' sp (ctx_sp (ba_ctx args) s) (exec_argv args) (exec_envp args) aux
}.

(** Everything but the memory of the caller is as it was. *)
Record aside (own : Z -> bool) (s s' : S) : Prop := {
  as_step : k_step s s';
  as_live : forall u, k_live s' u <-> k_live s u;
  as_file : forall g, k_file s' g = k_file s g;
  as_view : forall x, own x = false -> k_view s' x = k_view s x
}.

Lemma aside_trans own s1 s2 s3 : aside own s1 s2 -> aside own s2 s3 -> aside own s1 s3.
Proof.
  intros [A1 A2 A3 A4] [B1 B2 B3 B4]. split; [by etrans|intros u; by rewrite B2|intros g; by rewrite B3|].
  intros x Hx. by rewrite B4, A4.
Qed.

(** The same, but for the reservation of a plan that failed. *)
Record undone (own : Z -> bool) (s s' : S) : Prop := {
  un_step : k_step s s';
  un_live : forall u, k_live s' u <-> k_live s u;
  un_file : forall g, k_file s' g = k_file s g;
  un_view : (forall x, own x = false -> k_view s' x = k_view s x) \/
    exists img pl a len, plan img page_size pl = Err ENOMEM /\
      (forall x, within a len x -> k_view s x = None /\ is_Some (k_view s' x)) /\
      forall x, own x = false -> ~ within a len x -> k_view s' x = k_view s x
}.

(** A failed load. *)
Lemma failed_undone own s s' : failed s s' -> undone own s s'.
Proof.
  intros [[[Hi' Hb] [[Hl _ _ _ _ _ _] Hf Hu]] Hv]. split; try done.
  destruct Hv as [Hv|(img & pl & a & len & Hp & Hin & Hout)]; [left; intros x _; apply Hv|].
  right. exists img, pl, a, len. split; [done|]. split; [done|]. intros x _ Hx. by apply Hout.
Qed.

(** Taking the program down, whatever was done to the caller's memory since. *)
Lemma unload_undone own s p s3 s4 :
  loaded kc s p s3 -> aside own s3 s4 -> exists s5, program_unload p s4 = (Ok tt, s5) /\ undone own s s5.
Proof.
  intros (o & path & Hp) [[Hi4 Hb4 Hu4] Hl4 Hf4 Hv4].
  pose proof (program_ok_step (opener:=o) path s p s3 Hp) as [_ [[Hl3 _ _ _ _ _ _] Hf3 Hu3]].
  destruct (unload_from (opener:=o) path s p s3 s4 Hp) as (s5 & Hun & [Hi5 Hb5] & [[Hl5 _ _ _ _ _ _] Hf5 Hu5] & Hv5); [done|].
  exists s5. split; [done|]. split.
  - split; [done|done|]. exact (eq_trans Hu5 (eq_trans Hu4 Hu3)).
  - intros u. by rewrite Hl5, Hl4, Hl3.
  - intros g. by rewrite Hf5, Hf4, Hf3.
  - left. intros x Hx. pose proof (program_range (opener:=o) path s p s3 x Hp) as Hr. specialize (Hv5 x). cbn in Hr, Hv5.
    rewrite Hv5. destruct (decide (in_program p x)); [by destruct Hr as [-> _]|]. by rewrite Hv4.
Qed.

(** The caller as it is after the program was loaded. *)
Lemma exec_ready_loaded args own s p s' :
  exec_ready args own s -> loaded kc s p s' -> k_inv s' /\ threads_same s s' /\ exec_ready args own s'.
Proof.
  intros [Hc Hco Hown [H0 Ht] Hroom Hst Hp Hs] Hld. pose proof Hld as (o & path & Hok).
  pose proof (program_ok_step (opener:=o) path s p s' Hok) as [[Hi' _] [Hts _ _]].
  pose proof (ts_sp _ _ Hts (ba_ctx args)) as Hsp. split; [done|]. split; [done|].
  assert (Hv : forall x, own x = true -> k_view s' x = k_view s x)
    by (intros x Hx; apply (loaded_keeps kc s p s'); [by apply Hown|done]).
  split; rewrite ?Hsp; try done.
  - intros x Hx. rewrite Hv by done. by apply Hown.
  - intros Hle x Hx. destruct (Hst Hle x Hx) as (Hox & Hcx & Hwx). by rewrite Hv.
Qed.

Lemma exec_stack_aside args own s s' :
  exec_ready args own s -> ba_stack_size args <= ctx_sp (ba_ctx args) s ->
  on_stack (ctx_sp (ba_ctx args) s - ba_stack_size args) (ctx_sp (ba_ctx args) s) s s' -> aside own s s'.
Proof.
  intros He Hle [[Hs [Hl _ _ _ _ _ _] Hf] _ Hv]. split; try done; [by rewrite Hf|].
  intros x Hx. apply Hv. intros Hin. apply (er_stack _ _ _ He Hle) in Hin as [Hox _]. congruence.
Qed.

(** Setting up the context stays in the caller's memory and off the new stack. *)
Lemma exec_ctx_aside args own s s4 sp ip :
  exec_ready args own s -> ba_stack_size args <= ctx_sp (ba_ctx args) s -> k_inv s4 ->
  ctx_sp (ba_ctx args) s - ba_stack_size args <= sp -> sp <= ctx_sp (ba_ctx args) s ->
  let s5 := ukarch_ctx_init (ba_ctx args) sp 0 ip s4 in
  aside own s4 s5 /\ k_starts s5 (ba_ctx args) = Some (sp, ip) /\
  forall x, sp <= x < ctx_sp (ba_ctx args) s -> k_view s5 x = k_view s4 x.
Proof.
  intros He Hle Hi4 Hlo Hhi s5. destruct (law_exec_ctx s4 (ba_ctx args) sp 0 ip Hi4) as (Hs & Hl & Hf & Hst & Hv). fold s5 in Hs, Hl, Hf, Hst, Hv.
  split; [split; try done|split; [done|]].
  - intros x Hx. apply Hv.
    + destruct (k_ctx (ba_ctx args) x) eqn:Hc; [|done]. apply (er_ctx_own _ _ _ He) in Hc. congruence.
    + intros Hin. rewrite (er_room _ _ _ He) in Hx; [done|]. lia.
  - intros x Hx. apply Hv; [|lia]. by apply (er_stack _ _ _ He Hle x ltac:(lia)).
Qed.

(** The context is set up and the program handed over. *)
Lemma hand_over_spec args own s p s3 s5 sp aux :
  exec_ready args own s -> program_ok (opener:=binfmt_opener cfg) (exec_path args) s p s3 -> aside own s3 s5 ->
  k_starts s5 (ba_ctx args) = Some (sp, program_entry p) -> ctx_sp (ba_ctx args) s - ba_stack_size args <= sp ->
  program_auxv p (system_environment cfg (exec_path args)) = Ok aux ->
  stack_shows kc s5 sp (ctx_sp (ba_ctx args) s) (exec_argv args) (exec_envp args) aux ->
  executed args own s p (set_args_user (Some p) s5).
Proof.
  intros He Hok H35 Hst Hlo Haux Hsh. assert (Hld : loaded kc s p s3) by (by exists (binfmt_opener cfg), (exec_path args)).
  destruct H35 as [Hs35 Hl35 Hf35 Hv35].
  destruct (law_set_user s5 (Some p)) as (Hi6 & Hu6 & Hb6 & Hts6 & Hf6 & Hv6); [apply Hs35|].
  set (s6 := set_args_user (Some p) s5) in *.
  pose proof (program_ok_step (opener:=binfmt_opener cfg) _ s p s3 Hok) as [[_ Hb3] [Hts3 Hf3 _]].
  assert (Hrange : forall x, own x = false -> k_view s6 x = k_view s3 x) by (intros x Hx; by rewrite Hv6, Hv35).
  assert (Hapart : forall x, in_program p x -> own x = false).
  { intros x Hx. destruct (own x) eqn:Hox; [|done]. exfalso.
    exact (mapped_apart kc s p s3 x (er_mapped _ _ _ He x Hox) Hld Hx). }
  split; try done.
  - split; [done|]. intros b bl Hb. by apply Hb6, Hs35, Hb3.
  - intros u. by rewrite (ts_live _ _ Hts6), Hl35, (ts_live _ _ Hts3).
  - intros g. by rewrite Hf6, Hf35, Hf3.
  - intros x Hx. split; [|by apply Hapart]. pose proof (program_range (opener:=binfmt_opener cfg) _ s p s3 x Hok) as Hr.
    rewrite decide_True in Hr by done. apply Hr.
  - intros x Hx Hm. rewrite Hrange by done.
    pose proof (program_range (opener:=binfmt_opener cfg) _ s p s3 x Hok) as Hr. by rewrite decide_False in Hr.
  - apply (loaded_alive kc s p s3); [done|done| |]; [intros b bl Hb; by apply Hb6, Hs35|]. intros x Hx. by apply Hrange, Hapart.
  - exists s3. split; [done|]. split; [done|]. intros b bl Hb. by apply Hb6, Hs35.
  - eapply program_ok_shows; [exact Hok|]. intros x Hx. by apply Hrange, Hapart.
  - exists sp, aux. split_and!; [by rewrite (ts_starts _ _ Hts6)|done|done|].
    apply (stack_persists kc s5); [|done]. intros x Hx. by rewrite Hv6.
Qed.

Lemma binfmt_load_wpe args own s :
  k_inv s -> solid_files kc -> exec_ready args own s ->
  wpe (binfmt_load cfg args) (fun rc s' => rc = HANDLED /\ exists p, executed args own s p s')
    (fun _ s' => undone own s s') s.
Proof.
  intros Hi Hsolid He. unfold binfmt_load. cbv zeta. fold (exec_path args). fold (exec_argv args). fold (exec_envp args).
  change (bin_vm cfg) with ef_vm.
  apply wpe_bind. eapply wpe_mono; [apply exec_load_wp; [done|apply He|done]| |intros e s'; apply failed_undone].
  intros p s3 Hok. assert (Hld : loaded kc s p s3) by (by exists (binfmt_opener cfg), (exec_path args)).
  destruct (exec_ready_loaded args own s p s3 He Hld) as (Hi3 & Hts3 & He3).
  pose proof (ts_sp _ _ Hts3 (ba_ctx args)) as Hsp.
  apply wpe_bind. unfold wpe at 1. rewrite exec_get_sp by apply He.
  pose proof (unload_undone own s p s3) as Hun.
  destruct (Z.ltb_spec (ctx_sp (ba_ctx args) s3) (ba_stack_size args)) as [Hlt|Hle].
  { destruct (Hun s3 Hld ltac:(by split)) as (s5 & Hrun & Hb). apply wpe_bind. unfold wpe at 1. rewrite Hrun. apply Hb. }
  apply wpe_bind. unfold wpe at 1, lift. rewrite sub64_small by done.
  destruct (program_auxv_total (opener:=binfmt_opener cfg) _ s p s3 (system_environment cfg (exec_path args)) Hok) as [aux Haux].
  apply wpe_bind. unfold wpe at 1, lift. rewrite Haux.
  destruct (er_size _ _ _ He3) as [Hz Htop].
  assert (Hb01 : 0 <= ctx_sp (ba_ctx args) s3 - ba_stack_size args <= ctx_sp (ba_ctx args) s3)
    by (split; [by apply Z.le_0_sub|by apply Z.le_sub_nonneg]).
  pose proof (build_app_stack_wpe kc (ctx_sp (ba_ctx args) s3 - ba_stack_size args) (ctx_sp (ba_ctx args) s3) s3
    (exec_argv args) (exec_envp args) aux Hi3 Hb01 Htop (fun x Hx => proj2 (proj2 (er_stack _ _ _ He3 Hle x Hx)))
    (er_strings _ _ _ He)) as Hbuild.
  apply wpe_bind. unfold wpe at 1, on_err. unfold wpe in Hbuild.
  destruct (build_app_stack _ _ _ _ _ s3) as [[layout|e|] s4]; [| |done].
  - destruct Hbuild as (Hos & Hlo & Hhi & Hsh). pose proof (exec_stack_aside args own s3 s4 He3 Hle Hos) as H34.
    apply wpe_bind. unfold wpe at 1. rewrite exec_ctx_init by (apply He || apply Hsh).
    destruct (exec_ctx_aside args own s3 s4 (sp layout) (program_entry p) He3 Hle) as (H45 & Hst & Hv5); [apply H34|done|done|].
    set (s5 := ukarch_ctx_init _ _ _ _ s4) in *.
    apply (stack_persists kc s4 s5) in Hsh; [|done]. rewrite Hsp in Hlo, Hsh. unfold wpe. cbn. split; [done|]. exists p.
    apply (hand_over_spec args own s p s3 s5 (sp layout) aux); try done. by eapply aside_trans.
  - destruct (Hun s4 Hld (exec_stack_aside args own s3 s4 He3 Hle Hbuild)) as (s5 & Hrun & Hb). rewrite Hrun. apply Hb.
Qed.

(** Unloading, in any state in which the program is still held. *)
Lemma exec_unload args own s p s' s2 :
  executed args own s p s' -> vm_held s' s2 -> args_user s2 = Some p ->
  exists s3, elfrs_binfmt_unload cfg s2 = (Ok HANDLED, s3) /\ args_user s3 = None /\
    (forall g, k_file s3 g = k_file s2 g) /\
    forall x, k_view s3 x = if decide (in_program p x) then None else k_view s2 x.
Proof.
  intros Hx H2 Hu. destruct (ex_held _ _ _ _ _ Hx) as (s1 & Hok & Hh).
  destruct (unload_from (opener:=binfmt_opener cfg) _ s p s1 s2 Hok) as (s3 & Hun & [Hi3 Hb3] & [_ Hf3 Hu3] & Hv3).
  { eauto with vm. }
  destruct (law_set_user s3 None Hi3) as (_ & Hu4 & _ & _ & Hf4 & Hv4).
  exists (set_args_user None s3). unfold elfrs_binfmt_unload, mbind, stM_bind, gets.
  change (elfrs_binfmt_get_user s2) with (args_user s2). rewrite Hu. change (bin_vm cfg) with ef_vm. rewrite Hun.
  split; [done|]. split; [done|]. split; [intros g; rewrite Hf4; apply Hf3|]. intros x. rewrite Hv4. apply Hv3.
Qed.

End Exec.
