(* ===== verification/ExecRun.v ===== *)
(** * An [execve] on the concrete machine

    The machine of Machine.v with one thread, whose stack and context the call is
    given. *)

From Stdlib Require Import Strings.Byte.
From stdpp Require Import base numbers option strings sets list.
From S2P Require Import Prelude Err Util Elf ElfFacts TestImage Layout Loader VmSpec Auxv Program ProgramFacts ProgramRun.
From S2P Require Import Sys App Binfmt Shim ShimFacts RunFacts StartFacts Machine ExecFacts.

(** Contexts are kept outside of the memory, and setting one up pushes nothing. *)
Definition machine_exec disk : KernelExec Machine (kernel:=machine disk) (kview:=machine_view disk).
Proof.
  refine {| k_ctx := fun _ _ => false; ctx_room := 0 |}.
  - intros s c sp keep ip [H1 H2 H3 H4 H5 H6]. cbn. split_and!; try done. unfold upd. by rewrite decide_True.
  - intros s u [H1 H2 H3 H4 H5 H6]. cbn. by split_and!.
Defined.

(** A thread with a stack of 64 KiB. *)
Definition machine1 : Machine :=
  MkMachine (fun x => if decide (within 0x100000 0x10000 x) then Some (RW, x00) else None) 0x110000 (fun _ => None) 3
    (fun _ => None) (upd (fun _ => None) 0x100000 (Some 0x10000)) (fun _ => 0) (fun _ => None) (fun _ => false) None.

Lemma machine1_inv : m_inv disk0 machine1.
Proof.
  split; cbn; try done.
  - intros x. case_decide as Hx; [|by intros []%is_Some_None]. unfold within in Hx. lia.
  - intros t len. unfold upd. case_decide; [|done]. lia.
Qed.

(** [execve("/p", {"x"}, {"A=1"})], on the upper half of the stack. *)
Definition exec_args0 : BinArgs :=
  MkBinArgs (Some (prog_path ++ [x00])) None 1 (Some [Some [x78; x00]]) 1 (Some [Some [x41; x3d; x31; x00]])
    0x100000 0x8000.

Abbreviation kernel1 := (machine disk0).
Abbreviation view1 := (machine_view disk0).

Definition own0 (x : Z) : bool := bool_decide (within 0x100000 0x10000 x).

Lemma own0_spec x : own0 x = true <-> within 0x100000 0x10000 x.
Proof. apply bool_decide_eq_true. Qed.

(** The call can be made in any state that has the thread and its stack. *)
Lemma exec_ready_at s :
  (forall x, own0 x = true -> m_mem s x = Some (RW, x00)) -> ctx_sp (Kernel:=kernel1) 0x100000 s = 0x110000 ->
  exec_ready (kernel:=kernel1) (kview:=view1) (kexec:=machine_exec disk0) exec_args0 own0 s.
Proof.
  intros Hm Hsp.
  assert (Hin : forall x, 0x108000 <= x < 0x110000 -> own0 x = true).
  { intros x Hx. apply own0_spec. unfold within. lia. }
  split; change (ba_ctx exec_args0) with 0x100000; change (ba_stack_size exec_args0) with 0x8000; rewrite ?Hsp; try done.
  - intros x Hx. cbn [k_view]. rewrite Hm by done. eauto.
  - intros _ x Hx. assert (Hox : own0 x = true) by (by apply Hin). split; [done|]. split; [done|].
    cbn [k_view]. by rewrite Hm.
  - by repeat constructor.
Qed.

Lemma exec_ready0 : exec_ready (kernel:=kernel1) (kview:=view1) (kexec:=machine_exec disk0) exec_args0 own0 machine1.
Proof.
  apply exec_ready_at; [|done]. intros x Hx%own0_spec. cbn. by rewrite decide_True.
Qed.

Abbreviation exec0 := (binfmt_load (memory:=shim_memory (kernel:=kernel1) (target:=x86_target) kc0)
  (threads:=shim_threads (kernel:=kernel1) kc0) (slot:=shim_slot (kernel:=kernel1)) (heap:=plenty) (target:=x86_target)
  (vfs:=shim_vfs (kernel:=kernel1) kc0) (proc:=shim_process (kenv:=kenv0) (target:=x86_target) kc0)
  (elfrs_cfg_get kc0 0) exec_args0 machine1).

Lemma exec0_handled : match exec0 with (Ok rc, s) => Some (rc, (fun e => e.2) <$> m_starts s 0x100000) | _ => None end
  = Some (HANDLED, Some 0x112400).
Proof. vm_compute. reflexivity. Qed.

