(* ===== verification/Life.v ===== *)
(** * The life of the unikernel

    The rest of the shim -- the registration of the loader with Unikraft, [main],
    and the wait that never ends -- and the unikernel as a transition system: it
    registers the loader, starts the application, and then its main thread only
    sleeps while the application runs, calls [execve] and exits, in any order and
    any number of times.  Whatever happens, the programs in memory keep apart. *)

From Stdlib Require Import Strings.Byte.
From stdpp Require Import base numbers option strings sets list relations.
From S2P Require Import Prelude Err Util Elf ElfFacts Layout LayoutFacts Loader VmSpec LoaderFacts Auxv AuxvFacts.
From S2P Require Import Program ProgramFacts Frame Sys SysFacts App AppFacts Binfmt Shim ShimFacts ShimFiles RunFacts StartFacts ExecFacts.

(** [struct uk_binfmt_loader]. *)
Record uk_binfmt_loader (S : Type) : Type := MkBinfmtLoader {
  bl_name : list byte;
  bl_type : Z;
  bl_load : BinArgs -> stM Error S Z;
  bl_unload : stM Error S Z
}.
Arguments MkBinfmtLoader {S} _ _ _ _.
Arguments bl_name {S} _.
Arguments bl_type {S} _.
Arguments bl_load {S} _ _.
Arguments bl_unload {S} _.

(** [UK_CRASH] prints the message and stops the unikernel. *)
Definition elfrs_crash {S : Type} (msg : list byte) : stM Error S unit := lift Panic.

(** [uk_malloc] on the default allocator. *)
Definition elfrs_malloc {S : Type} (uk_malloc : Z -> S -> Z * S) (size : Z) (s : S) : Z * S := uk_malloc size s.

(** Where the unikernel is: before the loader is registered, before [main], in the
    wait at the end of a start, after [main] returned, stopped by an init call that
    failed, or stopped by a panic. *)
Inductive phase : Type :=
| Booting
| Ready
| Waiting (st : Started)
| Returned (code : option Z)
| Halted (rc : Z)
| Crashed.

Record world (S : Type) : Type := World {
  w_state : S;
  w_phase : phase;
  (** the programs [execve] loaded, each with its own arguments *)
  w_execs : list LoadedProgram
}.
Arguments World {S} _ _ _.
Arguments w_state {S} _.
Arguments w_phase {S} _.
Arguments w_execs {S} _.

(** The programs in memory. *)
Definition live {S : Type} (w : world S) : list LoadedProgram :=
  match w_phase w with Waiting st => st_program st :: w_execs w | _ => w_execs w end.

Definition panics {E A : Type} (r : outcome E A) : bool := match r with Panic => true | _ => false end.

Section Life.
Context {S : Type} {kernel : Kernel S} {kview : KernelView S} {kenv : KernelEnv} {target : Target} {heap : Heap}.
Context (kc : Kconfig) {kmem : KernelMemory S kc} {kfiles : KernelFiles S kc} {kthreads : KernelThreads S kc}.
Context {kexec : KernelExec S}.

Abbreviation cfg := (elfrs_cfg_get kc vdso_image_addr).
#[local] Instance lf_memory : Memory S := shim_memory kc.
#[local] Instance lf_vm : Vm S := UkVm cfg.
#[local] Instance lf_laws : VmLaws S := UkVm_laws kc.
#[local] Instance lf_vfs : Vfs S := shim_vfs kc.
#[local] Instance lf_threads : Threads S := shim_threads kc.
#[local] Instance lf_process : Process := shim_process kc.
#[local] Instance lf_slot : UserSlot S := shim_slot.

(** ** The rest of the shim *)

Variables (UK_BINFMT_HANDLED UK_BINFMT_NOT_HANDLED UK_BINFMT_LOADER_TYPE_EXEC : Z).
Variable uk_binfmt_register : uk_binfmt_loader S -> S -> Z * S.

Definition elf_loader : uk_binfmt_loader S :=
  MkBinfmtLoader (String.list_byte_of_string "ELF loader (rust)") UK_BINFMT_LOADER_TYPE_EXEC
    (fun args => c_binfmt_load UK_BINFMT_HANDLED UK_BINFMT_NOT_HANDLED (elfrs_binfmt_load cfg args))
    (c_binfmt_unload UK_BINFMT_HANDLED (elfrs_binfmt_unload cfg)).

Definition elfrs_binfmt_init (s : S) : Z * S := uk_binfmt_register elf_loader s.

(** [main]; a start that succeeds does not come back. *)
Definition c_main (argc : Z) (argv : option (list (option (list byte)))) : stM Error S Started :=
  run cfg (collect_argv argc argv).

(** What the registered functions do to the kernel is what the Rust functions do,
    whatever code they answer with. *)
Lemma elf_loader_load args s : (bl_load elf_loader args s).2 = (binfmt_load cfg args s).2.
Proof.
  cbn [bl_load elf_loader]. unfold c_binfmt_load, elfrs_binfmt_load, mbind, stM_bind.
  destruct (binfmt_load cfg args s) as [[rc|e|] s']; [done| |done]. case_bool_decide; [done|].
  unfold as_neg. by destruct (errno e =? _).
Qed.

Lemma elf_loader_unload s s' :
  elfrs_binfmt_unload cfg s = (Ok HANDLED, s') -> bl_unload elf_loader s = (Ok UK_BINFMT_HANDLED, s').
Proof. intros H. cbn [bl_unload elf_loader]. unfold c_binfmt_unload, mbind, stM_bind. by rewrite H. Qed.

(** ** The transitions *)

(** What other threads may do, beside the programs in memory, while the calling
    thread sleeps for some time. *)
Variable uk_sched_thread_sleep : Z -> list LoadedProgram -> S -> S -> Prop.
Variable NSEC_MAX : Z.

(** A turn of the loop of [elfrs_wait_forever], which has no way out. *)
Definition elfrs_wait_turn : list LoadedProgram -> S -> S -> Prop := uk_sched_thread_sleep NSEC_MAX.

Inductive step : world S -> world S -> Prop :=
| step_init s rc s' ps :
    elfrs_binfmt_init s = (rc, s') ->
    step (World s Booting ps) (World s' (if rc <? 0 then Halted rc else Ready) ps)
| step_main s argc argv r s' ps :
    strings_ok kc (collect_argv argc argv) ->
    c_main argc argv s = (r, s') ->
    step (World s Ready ps)
      (World s' (match r with Ok st => Waiting st | Err _ => Returned (exit_code r) | Panic => Crashed end) ps)
| step_sleep s st s' ps :
    elfrs_wait_turn (st_program st :: ps) s s' ->
    step (World s (Waiting st) ps) (World s' (Waiting st) ps)
| step_exec s st args own r s' ps :
    exec_ready args own (set_args_user None s) ->
    (forall p x, p ∈ st_program st :: ps -> in_program p x -> own x = false) ->
    (binfmt_load cfg args (set_args_user None s)).1 = r ->
    (bl_load elf_loader args (set_args_user None s)).2 = s' ->
    step (World s (Waiting st) ps)
      (World s' (if panics r then Crashed else Waiting st) (option_list (args_user s') ++ ps))
| step_unload s st l1 p l2 r s' :
    bl_unload elf_loader (set_args_user (Some p) s) = (r, s') ->
    step (World s (Waiting st) (l1 ++ p :: l2))
      (World s' (if panics r then Crashed else Waiting st) (l1 ++ l2)).

(** ** The invariant *)

Definition apart (p q : LoadedProgram) : Prop := forall x, in_program p x -> ~ in_program q x.

Fixpoint all_apart (ps : list LoadedProgram) : Prop :=
  match ps with
  | [] => True
  | p :: ps => Forall (apart p) ps /\ all_apart ps
  end.

Definition safe (w : world S) : Prop :=
  k_inv (w_state w) /\ Forall (fun p => alive kc p (w_state w)) (live w) /\ all_apart (live w) /\
  match w_phase w with Crashed => False | Waiting _ => True | _ => w_execs w = [] end.

Lemma apart_sym p q : apart p q -> apart q p.
Proof. intros H x Hq Hp. by apply (H x). Qed.

Lemma all_apart_app l1 l2 :
  all_apart (l1 ++ l2) <-> all_apart l1 /\ all_apart l2 /\ forall p q, p ∈ l1 -> q ∈ l2 -> apart p q.
Proof.
  induction l1 as [|p l1 IH]; cbn; [set_solver|]. rewrite IH, Forall_app, !Forall_forall. set_solver.
Qed.

Lemma all_apart_remove l1 p l2 :
  all_apart (l1 ++ p :: l2) -> all_apart (l1 ++ l2) /\ forall q, q ∈ l1 ++ l2 -> apart p q.
Proof.
  rewrite !all_apart_app. cbn. rewrite Forall_forall. intros (H1 & [H2 H3] & H4). split.
  - split; [done|]. split; [done|]. intros q r Hq Hr. apply H4; set_solver.
  - intros q [Hq|Hq]%elem_of_app; [apply apart_sym, H4; set_solver|by apply H2].
Qed.

(** The [user] field is no program's memory. *)
Lemma alive_set_user p u s : k_inv s -> alive kc p s -> alive kc p (set_args_user u s).
Proof.
  intros Hi Ha. destruct (law_set_user s u Hi) as (_ & _ & Hb & _ & _ & Hv).
  apply (alive_later kc p s); [done|auto|]. intros x Hx. rewrite Hv. by apply (al_mapped _ _ _ Ha).
Qed.

(** Programs outlive what happens elsewhere in memory. *)
Lemma alive_frame p s s' :
  alive kc p s -> (forall b bl, k_block s b bl -> k_block s' b bl) ->
  (forall x, in_program p x -> k_view s' x = k_view s x) -> alive kc p s'.
Proof.
  intros Ha Hb Hv. apply (alive_later kc p s); [done|auto|]. intros x Hx. rewrite Hv by done. by apply (al_mapped _ _ _ Ha).
Qed.

Hypothesis files_solid : solid_files kc.
(** Registering the loader is not felt by the rest of the kernel; the application
    does not unmap its own images, nor those of others. *)
Hypothesis register_law : forall l s, k_inv s -> k_inv (uk_binfmt_register l s).2.
Hypothesis sleep_law : forall d ps s s', uk_sched_thread_sleep d ps s s' -> k_inv s ->
  k_inv s' /\ forall p, p ∈ ps -> alive kc p s -> alive kc p s'.

(** An [execve] among live programs. *)
Lemma exec_among args own s ps :
  k_inv s -> exec_ready args own (set_args_user None s) ->
  (forall p x, p ∈ ps -> in_program p x -> own x = false) -> Forall (fun p => alive kc p s) ps ->
  match binfmt_load cfg args (set_args_user None s) with
  | (Panic, _) => False
  | (_, s') => k_inv s' /\ Forall (fun p => alive kc p s') (option_list (args_user s') ++ ps) /\
      forall q, args_user s' = Some q -> Forall (apart q) ps
  end.
Proof.
  intros Hi Hready Hown Hps. pose proof (law_set_user s None Hi) as (Hi0 & Hu0 & _).
  set (s0 := set_args_user None s) in *.
  assert (Hps0 : forall p, p ∈ ps -> alive kc p s0).
  { intros p Hp. apply alive_set_user; [done|]. by eapply (proj1 (Forall_forall _ _) Hps). }
  pose proof (binfmt_load_wpe kc args own s0 Hi0 files_solid Hready) as H. unfold wpe in H.
  destruct (binfmt_load cfg args s0) as [[rc|e|] s']; [| |done].
  - destruct H as (_ & q & [[Hi' Hb] Hu _ _ Hfresh Hframe Ha _ _ _]). rewrite Hu. cbn.
    assert (Hap : forall p x, p ∈ ps -> in_program p x -> ~ in_program q x).
    { intros p x Hp Hx Hq. destruct (al_mapped _ _ _ (Hps0 p Hp) x Hx) as [c Hc]. destruct (Hfresh x Hq). congruence. }
    split; [done|]. split.
    + constructor; [done|]. apply Forall_forall. intros p Hp. apply (alive_frame p s0); [auto|done|].
      intros x Hx. apply Hframe; [by eapply Hown|by eapply Hap].
    + intros q' [= <-]. apply Forall_forall. intros p Hp. apply apart_sym. intros x Hx. by eapply Hap.
  - destruct H as [[Hi' Hb Hu] _ _ Hv]. rewrite Hu, Hu0. cbn. split; [done|]. split; [|done].
    apply Forall_forall. intros p Hp. apply (alive_frame p s0); [auto|done|]. intros x Hx.
    destruct Hv as [Hv|(img & pl & a & len & _ & Hin & Hout)]; [apply Hv; by eapply Hown|].
    apply Hout; [by eapply Hown|]. intros Hw. destruct (al_mapped _ _ _ (Hps0 p Hp) x Hx) as [c Hc].
    destruct (Hin x Hw). congruence.
Qed.

(** Unloading one program among others: it answers, and they feel nothing. *)
Lemma unload_among p s ps :
  k_inv s -> alive kc p s -> Forall (fun q => alive kc q s) ps -> Forall (apart p) ps ->
  exists s', elfrs_binfmt_unload cfg (set_args_user (Some p) s) = (Ok HANDLED, s') /\ k_inv s' /\
    Forall (fun q => alive kc q s') ps /\
    forall x, k_view s' x = if decide (in_program p x) then None else k_view s x.
Proof.
  intros Hi Ha Hps Hap. pose proof (law_set_user s (Some p) Hi) as (Hi0 & Hu0 & _ & _ & _ & Hv0).
  pose proof (alive_set_user p (Some p) s Hi Ha) as [(sa & sb & o & path & Hok) Hh _].
  set (s0 := set_args_user (Some p) s) in *.
  destruct (unload_held (opener:=o) path sa p sb s0 Hok Hi0 Hh) as (s1 & Hun & Hi1 & _ & Hb1 & Hv1).
  pose proof (law_set_user s1 None Hi1) as (Hi2 & Hu2 & Hb2 & _ & _ & Hv2).
  exists (set_args_user None s1). split.
  { unfold elfrs_binfmt_unload, mbind, stM_bind, gets. change (elfrs_binfmt_get_user s0) with (args_user s0).
    rewrite Hu0. assert (Hun' : program_unload (vm:=bin_vm cfg) p s0 = (Ok tt, s1)) by exact Hun. by rewrite Hun'. }
  split; [done|]. split.
  - apply Forall_forall. intros q Hq. assert (Haq : alive kc q s) by (by eapply (proj1 (Forall_forall _ _) Hps)).
    assert (Hpq : apart p q) by (by eapply (proj1 (Forall_forall _ _) Hap)).
    apply alive_set_user; [done|]. apply (alive_later kc q s0); [by apply alive_set_user| |].
    + intros b bl Hown Hbl. apply Hb1; [done|]. intros Hpb. destruct Haq as [(qa & qb & oq & pq & Hq2) _ _].
      apply (Hpq b); [by eapply (own_block_in (opener:=o))|by eapply (own_block_in (opener:=oq))].
    + intros x Hx. specialize (Hv1 x). cbn in Hv1. rewrite Hv1, decide_False by (intros Hp; by apply (Hpq x)).
      rewrite Hv0. by apply (al_mapped _ _ _ Haq).
  - intros x. rewrite Hv2. specialize (Hv1 x). cbn in Hv1. rewrite Hv1. case_decide; [done|]. apply Hv0.
Qed.

Lemma main_wpe argc argv s :
  strings_ok kc (collect_argv argc argv) -> k_inv s ->
  wpe (c_main argc argv) (started kc (collect_argv argc argv) s) (fun e => rolled_back kc e s) s.
Proof. intros Hstr Hi. exact (run_wpe kc (collect_argv argc argv) s Hstr files_solid Hi). Qed.

(** Every transition keeps the invariant. *)
Lemma step_safe w w' : step w w' -> safe w -> safe w'.
Proof.
  destruct 1 as [s rc s' ps Hinit|s argc argv r s' ps Hstr Hmain|s st s' ps Hg|s st args own r s' ps Hr Hown Hres Hload|s st l1 p l2 r s' Hun];
    intros (Hi & Ha & Hap & Hph); cbn [w_state w_phase w_execs live] in *.
  - subst ps. pose proof (register_law elf_loader s Hi) as Hi'. unfold elfrs_binfmt_init in Hinit. rewrite Hinit in Hi'.
    unfold safe, live. cbn. by destruct (rc <? 0).
  - subst ps. pose proof (main_wpe argc argv s Hstr Hi) as H. unfold wpe in H. rewrite Hmain in H. destruct r as [st|e|]; [| |done].
    + destruct (sd_program _ _ _ _ _ H) as (t0 & sl & o & path & aux & hi & _ & _ & _ & Hal & _).
      split; [apply H|]. unfold live. cbn. split; [by constructor|]. done.
    + split; [apply H|]. by unfold live.
  - destruct (sleep_law _ _ _ _ Hg Hi) as [Hi' Hk]. split; [done|]. split; [|done].
    apply Forall_forall. intros p Hp. apply Hk; [done|]. by eapply (proj1 (Forall_forall _ _) Ha).
  - pose proof (exec_among args own s (st_program st :: ps) Hi Hr Hown Ha) as H. rewrite elf_loader_load in Hload.
    destruct (binfmt_load _ _ _) as [r' s1]. cbn in Hres, Hload. subst r' s1. destruct r as [rc|e|]; [| |done]; destruct H as (Hi' & Hal & Hq); (split; [done|]); unfold live; cbn;
      destruct (args_user s') as [q|]; cbn in *; (split; [by rewrite ?Forall_cons in *; tauto|]); (split; [|done]); try done.
    all: specialize (Hq q eq_refl); rewrite !Forall_cons in Hq; rewrite !Forall_cons.
    all: split; [split; [apply apart_sym, Hq|apply Hap]|split; [apply Hq|apply Hap]].
  - unfold live in *. cbn [w_phase w_execs w_state] in *.
    change (st_program st :: l1 ++ p :: l2) with ((st_program st :: l1) ++ p :: l2) in *.
    apply all_apart_remove in Hap as [Hap Hpq]. apply Forall_app in Ha as [Ha1 [Hp Ha2]%Forall_cons].
    destruct (unload_among p s ((st_program st :: l1) ++ l2) Hi Hp) as (s1 & Hrun & Hi1 & Hal1 & _);
      [by apply Forall_app|by apply Forall_forall|].
    apply elf_loader_unload in Hrun. rewrite Hrun in Hun. injection Hun as <- <-. by split.
Qed.

Lemma reachable_safe s w : k_inv s -> rtc step (World s Booting []) w -> safe w.
Proof.
  intros Hi Hr. assert (H0 : safe (World s Booting [])) by (unfold safe; cbn; auto).
  revert H0. induction Hr as [|w1 w2 w3 H12 _ IH]; [done|]. intros H1. apply IH. by eapply step_safe.
Qed.

Lemma waiting_stays w w' st : safe w -> rtc step w w' -> w_phase w = Waiting st -> w_phase w' = Waiting st.
Proof.
  intros Hs Hr. induction Hr as [|w1 w2 w3 H12 _ IH]; [done|]. intros Hw.
  pose proof (step_safe w1 w2 H12 Hs) as H2. apply IH; [done|]. destruct H2 as (_ & _ & _ & Hph).
  destruct H12; cbn in *; try done; by destruct r.
Qed.

(** C4. The life of the unikernel, whatever the application does: from its boot,
    through any number of program starts by [execve] and unloads in any order,
    nothing panics; the images of the programs in memory -- the application's and
    those of every [execve] not yet unloaded -- all still have their memory and no
    two of them share an address; a program that is unloaded is answered for, frees
    exactly its own addresses and changes no other; and once the application has
    been started, [main] never returns. *)
Theorem life_safe s w :
  k_inv s -> rtc step (World s Booting []) w ->
  w_phase w <> Crashed /\ Forall (fun p => alive kc p (w_state w)) (live w) /\ all_apart (live w) /\
  (forall st p, w_phase w = Waiting st -> p ∈ w_execs w ->
     exists s', bl_unload elf_loader (set_args_user (Some p) (w_state w)) = (Ok UK_BINFMT_HANDLED, s') /\
       forall x, k_view s' x = if decide (in_program p x) then None else k_view (w_state w) x) /\
  (forall st w', w_phase w = Waiting st -> rtc step w w' -> w_phase w' = Waiting st).
Proof.
  intros Hi Hr. pose proof (reachable_safe s w Hi Hr) as Hs. pose proof Hs as (Hiw & Ha & Hap & Hph).
  split; [by intros Hc; rewrite Hc in Hph|]. split; [done|]. split; [done|]. split.
  - intros st p Hw Hp. assert (Hal : alive kc p (w_state w)).
    { apply (proj1 (Forall_forall _ _) Ha). unfold live. rewrite Hw. by right. }
    destruct (unload_among p (w_state w) [] Hiw Hal) as (s' & Hun & _ & _ & Hv); [done|done|].
    exists s'. split; [by apply elf_loader_unload|done].
  - intros st w' Hw Hrw. by eapply waiting_stays.
Qed.
End Life.
