(* ===== verification/LifeRun.v ===== *)
(** * A life on the concrete machine

    The machine of ExecRun.v boots, starts its application, and a thread beside it
    calls [execve]: two programs in memory, and the invariant of Life.v of them. *)

From Stdlib Require Import Strings.Byte.
From stdpp Require Import base numbers option strings sets list relations.
From S2P Require Import Prelude Err Util Elf ElfFacts TestImage Layout Loader VmSpec Auxv Program ProgramFacts ProgramRun.
From S2P Require Import Sys App Binfmt Shim ShimFacts RunFacts StartFacts Machine ExecFacts ExecRun Life.

(** Registering always succeeds, and other threads do nothing worth mention. *)
Abbreviation step0 := (step (kernel:=kernel1) (kview:=view1) (kenv:=kenv0) (target:=x86_target) (heap:=plenty) kc0
  (kexec:=machine_exec disk0) 1 0 0 (fun _ s => (0, s)) (fun _ _ s s' => s' = s) 0).
Definition argv0 : option (list (option (list byte))) := Some [Some [x6b; x00]; Some (prog_path ++ [x00]); Some [x78; x00]].
Abbreviation main0 := (c_main (kernel:=kernel1) (kenv:=kenv0) (target:=x86_target) (heap:=plenty) kc0 3 argv0).
Abbreviation exec_at s := (binfmt_load (memory:=shim_memory (kernel:=kernel1) (target:=x86_target) kc0)
  (threads:=shim_threads (kernel:=kernel1) kc0) (slot:=shim_slot (kernel:=kernel1)) (heap:=plenty) (target:=x86_target)
  (vfs:=shim_vfs (kernel:=kernel1) kc0) (proc:=shim_process (kenv:=kenv0) (target:=x86_target) kc0)
  (elfrs_cfg_get kc0 0) exec_args0 (set_args_user (Kernel:=kernel1) None s)).

Lemma strings_main : strings_ok (kenv:=kenv0) kc0 (collect_argv 3 argv0).
Proof.
  assert (collect_argv 3 argv0 = args0) as -> by (vm_compute; reflexivity). exact strings0.
Qed.

(** The lowest address of a program's images. *)
Definition lowest (p : LoadedProgram) : Z :=
  match interp_image p with
  | Some (_, il) => Z.min (reserve_addr (lplan (main p))) (reserve_addr (lplan il))
  | None => reserve_addr (lplan (main p))
  end.

Lemma lowest_spec p x : in_program p x -> lowest p <= x.
Proof.
  unfold in_program, in_image, within, lowest. destruct (interp_image p) as [[ii il]|]; [lia|]. intros [|[]]; lia.
Qed.

Definition main_check : bool :=
  match main0 machine1 with
  | (Ok st, s) => (0x110000 <=? lowest (st_program st)) && (ctx_sp (Kernel:=kernel1) 0x100000 s =? 0x110000) &&
      match exec_at s with (Ok rc, s') => match args_user (Kernel:=kernel1) s' with Some _ => true | None => false end | _ => false end
  | _ => false
  end.

Lemma main_checked : main_check = true.
Proof. vm_compute. reflexivity. Qed.

(** The thread that was there before is as it was. *)
Lemma main_keeps st s x : main0 machine1 = (Ok st, s) -> own0 x = true -> m_mem s x = Some (RW, x00).
Proof.
  intros Hm Hx%own0_spec.
  pose proof (main_wpe (kernel:=kernel1) (kview:=view1) (kenv:=kenv0) (target:=x86_target) (heap:=plenty) kc0
    (kmem:=machine_memory disk0 kc0 eq_refl disk0_small) (kfiles:=machine_files disk0 kc0 eq_refl disk0_small)
    (kthreads:=machine_threads disk0 kc0) solid0 3 argv0
    machine1 strings_main machine1_inv) as H.
  pose proof (wpe_Ok _ _ _ _ _ _ H Hm) as Hs. clear H. pose proof (sd_frame _ _ _ _ _ Hs x) as Hf. cbn [k_view machine_view] in Hf.
  assert (H1 : m_mem machine1 x = Some (RW, x00)) by (cbn; by rewrite decide_True). rewrite Hf, H1; [done|by rewrite H1].
Qed.

Lemma still_sleep (ps : list LoadedProgram) (s s' : Machine) :
  s' = s -> k_inv (KernelView:=view1) s -> k_inv (KernelView:=view1) s' /\ forall p, p ∈ ps ->
    alive (kernel:=kernel1) (kview:=view1) (kenv:=kenv0) (target:=x86_target) (heap:=plenty) kc0
      (kmem:=machine_memory disk0 kc0 eq_refl disk0_small) p s ->
    alive (kernel:=kernel1) (kview:=view1) (kenv:=kenv0) (target:=x86_target) (heap:=plenty) kc0
      (kmem:=machine_memory disk0 kc0 eq_refl disk0_small) p s'.
Proof. intros -> Hi. split; [exact Hi|]. intros p _ Ha. exact Ha. Qed.

Lemma life_safe_witness :
  exists w, rtc step0 (World machine1 Booting []) w /\ length (live w) = 2%nat /\ all_apart (live w).
Proof.
  pose proof main_checked as Hc. unfold main_check in Hc.
  destruct (main0 machine1) as [[st|e|] s1] eqn:Hm; [|discriminate Hc..].
  apply andb_prop in Hc as [[Hlow Hsp]%andb_prop He]. apply Z.leb_le in Hlow. apply Z.eqb_eq in Hsp.
  destruct (exec_at s1) as [[rc|e|] s2] eqn:Hx; [|discriminate He..].
  destruct (args_user s2) as [q|] eqn:Hq; [|discriminate He].
  assert (Hr : rtc step0 (World machine1 Booting []) (World s2 (Waiting st) [q])).
  { eapply rtc_l; [by eapply step_init|]. eapply rtc_l; [exact (step_main _ _ _ _ _ _ _ machine1 3 _ (Ok st) s1 [] strings_main Hm)|].
    apply rtc_once. pose proof (step_exec (kernel:=kernel1) (kview:=view1) (kenv:=kenv0) (target:=x86_target) (heap:=plenty)
      kc0 (kexec:=machine_exec disk0) 1 0 0 (fun _ s => (0, s)) (fun _ _ s s' => s' = s) 0 s1 st exec_args0 own0 (Ok rc) s2 []) as Hstep.
    rewrite Hq in Hstep. apply Hstep; [|intros p x Hp Hpx|exact (f_equal fst Hx)|
      etransitivity; [apply elf_loader_load|exact (f_equal snd Hx)]].
    - apply exec_ready_at; [intros x Hox; exact (main_keeps st s1 x Hm Hox)|exact Hsp].
    - apply list_elem_of_singleton in Hp as ->. apply lowest_spec in Hpx. apply bool_decide_eq_false. unfold within. lia. }
  exists (World s2 (Waiting st) [q]). split; [exact Hr|]. split; [reflexivity|].
  pose proof (life_safe (kernel:=kernel1) (kview:=view1) (kenv:=kenv0) (target:=x86_target) (heap:=plenty) kc0
    (kmem:=machine_memory disk0 kc0 eq_refl disk0_small) (kfiles:=machine_files disk0 kc0 eq_refl disk0_small)
    (kthreads:=machine_threads disk0 kc0) (kexec:=machine_exec disk0) 1 0 0 (fun _ s => (0, s)) (fun _ _ s s' => s' = s) 0
    solid0 (fun l s Hi => Hi) (fun _ => still_sleep) machine1 (World s2 (Waiting st) [q]) machine1_inv Hr) as (_ & _ & Hap & _).
  exact Hap.
Defined.
