(* ===== verification/Conf.v ===== *)
(** * Writing configuration files ([autogen/conffile.c])

    The helpers that create the files of [/etc] before the loader starts.  They
    are C: a function returns its [int], which is [Ok] here whatever its sign;
    leaving a block with [goto out] and a code is [Err] of the code; reading or
    writing outside an object is [Panic].  The system calls and [stat] of the C
    library are parameters.  A C string is the list of its bytes before the NUL. *)

From Stdlib Require Import Strings.Byte.
From stdpp Require Import base numbers option strings sets list.
From S2P Require Import Prelude Err.

(** ** The system *)

(** Numbers of the C library. *)
Definition CEINTR : Z := 4.
Definition CEAGAIN : Z := 11.
Definition CEEXIST : Z := 17.
Definition CENOTDIR : Z := 20.
Definition CENOENT : Z := 2.
Definition S_IFDIR : Z := 0x4000.
Definition S_IFREG : Z := 0x8000.
Definition O_WRONLY : Z := 0x1.
Definition O_CREAT : Z := 0x40.
Definition O_TRUNC : Z := 0x200.

(** The calls of [conffile.c].  A system call returns a [long]; the two ways to
    look at a file also return its [st_mode]. *)
Class ConfSys (S : Type) : Type := {
  uk_syscall_r_stat : list byte -> S -> Z * Z;
  libc_stat : list byte -> S -> Z * Z;
  uk_syscall_r_open : list byte -> Z -> Z -> S -> Z * S;
  uk_syscall_r_chmod : list byte -> Z -> S -> Z * S;
  uk_syscall_r_mkdir : list byte -> Z -> S -> Z * S;
  uk_syscall_r_write : Z -> list byte -> S -> Z * S;
  uk_syscall_r_close : Z -> S -> Z * S;
  (** how many calls will still be interrupted *)
  interruptions : S -> nat
}.

(** The choice [Creation mode] of the build configuration. *)
Inductive exist_mode : Type := SKIPEXIST | ERROREXIST | REPLACEEXIST.

#[global] Instance exist_mode_eq_dec : EqDecision exist_mode.
Proof. solve_decision. Defined.

(** A [printf] format in which [%s] is the only conversion. *)
Fixpoint format (fmt : list byte) (args : list (list byte)) : list byte :=
  match fmt with
  | [] => []
  | x25 :: x73 :: fmt =>
    match args with
    | [] => format fmt []
    | a :: args => a ++ format fmt args
    end
  | c :: fmt => c :: format fmt args
  end.

(** [vsnprintf]: the characters it leaves in the buffer, and what it returns: the
    length of the whole text, if that is an [int]. *)
Definition vsnprintf (maxlen : Z) (text : list byte) : list byte * Z :=
  let n := Z.of_nat (length text) in
  (take (Z.to_nat (maxlen - 1)) text ++ [x00], if n <? 2 ^ 31 then n else -1).

Section Conf.
Context {S : Type} {sys : ConfSys S} (mode : exist_mode).

(** A call of a system function, its [long] cut to an [int]. *)
Definition int_call (f : S -> Z * S) : stM Z S Z := fun s => let '(rc, s') := f s in (Ok (as_i32 rc), s').

Definition cf_mkdir (dpath : list byte) (dmode : Z) : stM Z S Z := fun s =>
  let '(rc, st_mode) := uk_syscall_r_stat dpath s in
  let rc := as_i32 rc in
  if (rc =? 0) && (Z.land st_mode S_IFDIR =? 0) then (Ok (- CENOTDIR), s)
  else if rc =? 0 then (Ok 0, s)
  else if negb (rc =? - CENOENT) then (Ok rc, s)
  else
  (rc ← int_call (uk_syscall_r_mkdir dpath dmode);
   if rc <? 0 then mret rc else mret 1) s.

(** Whether [cf_create] stops at a file that is there already, and its code. *)
Definition existing (rc st_mode : Z) : option Z :=
  if rc =? 0 then
    match mode with
    | SKIPEXIST | ERROREXIST => Some (- CEEXIST)
    | REPLACEEXIST => if Z.land st_mode S_IFREG =? 0 then Some (- CENOENT) else None
    end
  else None.

Definition cf_create (fpath : list byte) (fmode : Z) : stM Z S Z := fun s =>
  let '(rc, st_mode) := libc_stat fpath s in
  match existing rc st_mode with
  | Some rc => (Ok rc, s)
  | None =>
    (fd ← int_call (uk_syscall_r_open fpath (Z.lor (Z.lor O_CREAT O_WRONLY) O_TRUNC) 0);
     if fd <? 0 then mret fd else
     rc ← int_call (uk_syscall_r_chmod fpath fmode);
     if rc <? 0 then mret rc else mret fd) s
  end.

(** One turn of the loop of [cf_write]: the system is handed the [buflen] bytes at
    [buf], which must be there.  It goes on with what is left, or ends with a
    code. *)
Inductive turn : Type := Again (buf : list byte) (buflen : Z) | Done (rc : Z).

Definition write_turn (fd : Z) (buf : list byte) (buflen : Z) : stM Z S turn := fun s =>
  if Z.of_nat (length buf) <? buflen then (Panic, s) else
  let '(rc, s') := uk_syscall_r_write fd (take (Z.to_nat buflen) buf) s in
  if rc <? 0 then
    if negb (rc =? - CEAGAIN) && negb (rc =? - CEINTR) then (Ok (Done (as_i32 rc)), s')
    else (Ok (if 0 <? buflen then Again buf buflen else Done 0), s')
  else
    let buflen := (buflen - rc) mod 2 ^ 64 in
    let buf := drop (Z.to_nat rc) buf in
    (Ok (if 0 <? buflen then Again buf buflen else Done 0), s').

Fixpoint write_loop (fuel : nat) (fd : Z) (buf : list byte) (buflen : Z) : stM Z S Z :=
  match fuel with
  | O => lift Panic
  | Datatypes.S fuel =>
    t ← write_turn fd buf buflen;
    match t with
    | Done rc => mret rc
    | Again buf buflen => write_loop fuel fd buf buflen
    end
  end.

(** Every turn writes a byte, is interrupted or is the last. *)
Definition cf_write (fd : Z) (buf : list byte) (buflen : Z) : stM Z S Z := fun s =>
  write_loop (Datatypes.S (Z.to_nat buflen + interruptions s)) fd buf buflen s.

Definition cf_close (fd : Z) : stM Z S unit := fun s =>
  let '(_, s') := uk_syscall_r_close fd s in (Ok tt, s').

Definition cf_vnprintf (fd maxlen : Z) (fmt : list byte) (ap : list (list byte)) : stM Z S Z :=
  let '(buf, strlen) := vsnprintf maxlen (format fmt ap) in
  if strlen <=? 0 then mret strlen else cf_write fd buf strlen.

Definition cf_nprintf (fd maxlen : Z) (fmt : list byte) (args : list (list byte)) : stM Z S Z :=
  cf_vnprintf fd maxlen fmt args.

Definition cf_strcpy (fd : Z) (strbuf : list byte) : stM Z S Z :=
  let len := Z.of_nat (length strbuf) in
  if len =? 0 then mret 0 else cf_write fd strbuf len.

Definition cf_strncpy (fd : Z) (strbuf : list byte) (maxlen : Z) : stM Z S Z :=
  let len := Z.min (Z.of_nat (length strbuf)) maxlen in
  if len =? 0 then mret 0 else cf_write fd strbuf len.
End Conf.
