(* ===== verification/ConfFacts.v ===== *)
(** * Configuration files are written in full

    What the system calls promise ([ConfLaws]), the loop of [cf_write] as a
    relation that needs no fuel, and what each helper of [conffile.c] does to the
    file system: [cf_write] ends, with the whole buffer in the file or an error and
    a prefix of it, however often it is interrupted and however little a call
    writes. *)

From Stdlib Require Import Strings.Byte.
From stdpp Require Import base numbers option strings sets list.
From S2P Require Import Prelude Err Conf.

(** ** What the system promises *)

(** A file: its [st_mode] and its bytes. *)
Record node : Type := MkNode { n_mode : Z; n_data : list byte }.

(** The permission bits of a mode. *)
Definition perms (m : Z) : Z := Z.land m 0xfff.

Class ConfLaws (S : Type) {sys : ConfSys S} : Type := {
  cs_inv : S -> Prop;
  (** the file at a path, and the path whose file a descriptor appends to *)
  cs_node : S -> list byte -> option node;
  cs_fd : S -> Z -> option (list byte);
  same_except (ps : list (list byte)) (s s' : S) : Prop :=
    cs_inv s' /\ forall q, q ∉ ps -> cs_node s' q = cs_node s q;
  same_fds (s s' : S) : Prop := forall fd, cs_fd s' fd = cs_fd s fd;
  law_fd s fd p : cs_inv s -> cs_fd s fd = Some p -> is_Some (cs_node s p);
  (** [stat] finds what is there *)
  law_r_stat s p : cs_inv s ->
    let '(rc, m) := uk_syscall_r_stat p s in
    rc = 0 /\ n_mode <$> cs_node s p = Some m \/ i32 rc /\ rc < 0 /\ (rc = - CENOENT -> cs_node s p = None);
  law_libc_stat s p : cs_inv s ->
    let '(rc, m) := libc_stat p s in
    rc = 0 /\ n_mode <$> cs_node s p = Some m \/ rc <> 0 /\ cs_node s p = None;
  (** a descriptor to write to is new, and the file it was opened for empty; only
      [O_EXCL], which is not asked for, can fail with [EEXIST] *)
  law_open s p : cs_inv s ->
    let '(fd, s') := uk_syscall_r_open p (Z.lor (Z.lor O_CREAT O_WRONLY) O_TRUNC) 0 s in
    i32 fd /\ interruptions s' = interruptions s /\
    (fd < 0 /\ fd <> - CEEXIST /\ same_except [] s s' /\ same_fds s s' \/
     0 <= fd /\ same_except [p] s s' /\ n_data <$> cs_node s' p = Some [] /\ cs_fd s fd = None /\
     forall g, cs_fd s' g = if decide (g = fd) then Some p else cs_fd s g);
  law_chmod s p m : cs_inv s ->
    let '(rc, s') := uk_syscall_r_chmod p m s in
    i32 rc /\ interruptions s' = interruptions s /\ same_fds s s' /\
    (rc < 0 /\ rc <> - CEEXIST /\ same_except [] s s' \/
     0 <= rc /\ same_except [p] s s' /\ exists n n', cs_node s p = Some n /\ cs_node s' p = Some n' /\
       n_data n' = n_data n /\ perms (n_mode n') = perms m);
  law_mkdir s p m : cs_inv s ->
    let '(rc, s') := uk_syscall_r_mkdir p m s in
    i32 rc /\ interruptions s' = interruptions s /\ same_fds s s' /\
    (rc < 0 /\ same_except [] s s' \/
     0 <= rc /\ same_except [p] s s' /\ exists n, cs_node s' p = Some n /\ Z.land (n_mode n) S_IFDIR <> 0);
  (** a write appends as many bytes as it says, at least one if there is one *)
  law_write s fd p n d : cs_inv s -> cs_fd s fd = Some p -> cs_node s p = Some n ->
    let '(rc, s') := uk_syscall_r_write fd d s in
    same_fds s s' /\
    (rc < 0 /\ i32 rc /\ same_except [] s s' /\ (interruptions s' <= interruptions s)%nat /\
       (rc = - CEAGAIN \/ rc = - CEINTR -> (interruptions s' < interruptions s)%nat) \/
     0 <= rc <= Z.of_nat (length d) /\ (d <> [] -> 0 < rc) /\ same_except [p] s s' /\
       (interruptions s' <= interruptions s)%nat /\
       cs_node s' p = Some (MkNode (n_mode n) (n_data n ++ take (Z.to_nat rc) d)));
  law_close s fd : cs_inv s ->
    let '(_, s') := uk_syscall_r_close fd s in
    same_except [] s s' /\ interruptions s' = interruptions s /\
    forall g, cs_fd s' g = if decide (g = fd) then None else cs_fd s g
}.

Lemma as_i32_id v : i32 v -> as_i32 v = v.
Proof. unfold i32, as_i32. intros. rewrite Z.mod_small by lia. lia. Qed.

(** ** The loop of [cf_write] *)

Section Loop.
Context {S : Type} {sys : ConfSys S} (fd : Z).

(** The loop, without a bound on its turns. *)
Inductive loop_runs : list byte -> Z -> S -> Z -> S -> Prop :=
| loop_done buf n s rc s' :
    write_turn fd buf n s = (Ok (Done rc), s') -> loop_runs buf n s rc s'
| loop_again buf n s buf' n' s1 rc s' :
    write_turn fd buf n s = (Ok (Again buf' n'), s1) -> loop_runs buf' n' s1 rc s' -> loop_runs buf n s rc s'.

Lemma loop_sound fuel buf n s rc s' :
  write_loop fuel fd buf n s = (Ok rc, s') -> loop_runs buf n s rc s'.
Proof.
  revert buf n s. induction fuel as [|fuel IH]; intros buf n s; cbn [write_loop]; [done|].
  intros ([buf' n'|rc'] & s1 & Ht & Hr)%st_bind_Ok; [by eapply loop_again; eauto|].
  injection Hr as <- <-. by apply loop_done.
Qed.

Lemma loop_deterministic buf n s rc s' rc2 s2 :
  loop_runs buf n s rc s' -> loop_runs buf n s rc2 s2 -> rc = rc2 /\ s' = s2.
Proof.
  intros H. revert rc2 s2. induction H as [buf n s rc s' Ht|buf n s buf' n' s1 rc s' Ht _ IH];
    intros rc2 s2 H2; destruct H2 as [? ? ? ? ? Ht2|? ? ? ? ? ? ? ? Ht2]; rewrite Ht in Ht2; simplify_eq; auto.
Qed.
End Loop.

Section Facts.
Context {S : Type} {sys : ConfSys S} {laws : ConfLaws S}.
Implicit Types (s : S) (p : list byte).

(** Some bytes were appended to the file at [p]. *)
Record appended (p d : list byte) (s s' : S) : Prop := {
  ap_except : same_except [p] s s';
  ap_fds : same_fds s s';
  ap_node n : cs_node s p = Some n -> cs_node s' p = Some (MkNode (n_mode n) (n_data n ++ d))
}.

Lemma same_except_refl ps s : cs_inv s -> same_except ps s s.
Proof. by split. Qed.

Lemma same_except_trans ps qs s1 s2 s3 :
  same_except ps s1 s2 -> same_except qs s2 s3 -> same_except (ps ++ qs) s1 s3.
Proof.
  intros [_ H1] [Hi H2]. split; [done|]. intros q [Hp Hq]%not_elem_of_app. by rewrite H2, H1.
Qed.

Lemma same_except_weaken ps qs s s' : same_except ps s s' -> ps ⊆ qs -> same_except qs s s'.
Proof. intros [Hi H] Hs. split; [done|]. intros q Hq. apply H. set_solver. Qed.

Lemma appended_nil p s s' : same_except [] s s' -> same_fds s s' -> appended p [] s s'.
Proof.
  intros [Hi H] Hf. split; [split; [done|intros; apply H; set_solver]|done|].
  intros [m d] Hn. rewrite H, app_nil_r by set_solver. done.
Qed.

Lemma appended_trans p d1 d2 s1 s2 s3 :
  appended p d1 s1 s2 -> appended p d2 s2 s3 -> appended p (d1 ++ d2) s1 s3.
Proof.
  intros [E1 F1 N1] [E2 F2 N2]. split.
  - eapply same_except_weaken; [by eapply same_except_trans|set_solver].
  - intros g. by rewrite F2, F1.
  - intros n Hn. rewrite (N2 _ (N1 _ Hn)). cbn. by rewrite app_assoc.
Qed.

(** One turn: what it appends, and that it brings the end nearer. *)
Lemma write_turn_spec fd p buf n s :
  cs_inv s -> cs_fd s fd = Some p -> 0 <= n <= Z.of_nat (length buf) -> n < 2 ^ 63 ->
  exists t s' k, write_turn fd buf n s = (Ok t, s') /\ 0 <= k <= n /\
    appended p (take (Z.to_nat k) buf) s s' /\
    match t with
    | Done rc => rc = 0 /\ k = n \/ rc < 0
    | Again buf' n' => buf' = drop (Z.to_nat k) buf /\ n' = n - k /\
        (Z.to_nat n' + interruptions s' < Z.to_nat n + interruptions s)%nat
    end.
Proof.
  intros Hi Hf Hn Hmax. destruct (law_fd s fd p Hi Hf) as [nd Hnd]. unfold write_turn.
  destruct (Z.ltb_spec (Z.of_nat (length buf)) n) as [|_]; [lia|].
  pose proof (law_write s fd p nd (take (Z.to_nat n) buf) Hi Hf Hnd) as Hw.
  destruct (uk_syscall_r_write fd (take (Z.to_nat n) buf) s) as [rc s'].
  destruct Hw as (Hfds & [(Hneg & Hr & Hex & Hint & Hless)|(Hrc & Hpos & Hex & Hint & Hnode)]).
  - destruct (Z.ltb_spec rc 0); [|lia].
    assert (Happ : appended p (take (Z.to_nat 0) buf) s s') by by apply appended_nil.
    destruct (negb (rc =? - CEAGAIN) && negb (rc =? - CEINTR)) eqn:Hsort.
    { exists (Done (as_i32 rc)), s', 0. rewrite as_i32_id by done. repeat split; [lia|lia|apply Happ..|lia]. }
    assert (rc = - CEAGAIN \/ rc = - CEINTR) as Hl%Hless by lia.
    destruct (Z.ltb_spec 0 n).
    + exists (Again buf n), s', 0. repeat split; [lia|lia|apply Happ..|lia|lia].
    + exists (Done 0), s', 0. repeat split; [lia|lia|apply Happ..|lia].
  - rewrite length_take in Hrc. destruct (Z.ltb_spec rc 0); [lia|].
    rewrite (Z.mod_small (n - rc)) by lia.
    assert (Happ : appended p (take (Z.to_nat rc) buf) s s').
    { split; [done|done|]. intros n0 Hn0. rewrite Hnode, take_take. replace n0 with nd by congruence.
      do 4 f_equal. lia. }
    destruct (Z.ltb_spec 0 (n - rc)).
    + exists (Again (drop (Z.to_nat rc) buf) (n - rc)), s', rc.
      assert (0 < rc). { apply Hpos. intros Hnil%(f_equal length). rewrite length_take in Hnil. cbn in Hnil. lia. }
      repeat split; [lia|lia|apply Happ..|lia].
    + exists (Done 0), s', rc. repeat split; [lia|lia|apply Happ..|lia].
Qed.

(** The loop ends: each of its turns brings the end nearer. *)
Lemma write_loop_total fuel fd p buf n s :
  cs_inv s -> cs_fd s fd = Some p -> 0 <= n <= Z.of_nat (length buf) -> n < 2 ^ 63 ->
  (Z.to_nat n + interruptions s < fuel)%nat ->
  exists rc s', write_loop fuel fd buf n s = (Ok rc, s').
Proof.
  revert buf n s. induction fuel as [|fuel IH]; intros buf n s Hi Hf Hn Hmax Hfuel; [lia|].
  destruct (write_turn_spec fd p buf n s Hi Hf Hn Hmax) as (t & s1 & k & Ht & Hk & [[Hi1 _] Hf1 _] & Hcase).
  cbn [write_loop]. unfold mbind, stM_bind. rewrite Ht. destruct t as [buf' n'|rc]; [|by eexists _, _].
  destruct Hcase as (-> & -> & Hless). apply IH; [done|by rewrite Hf1| |lia|lia].
  rewrite length_drop. lia.
Qed.

(** What the loop has done when it ends, by induction on its run. *)
Lemma loop_appends fd p buf n s rc s' :
  loop_runs fd buf n s rc s' ->
  cs_inv s -> cs_fd s fd = Some p -> 0 <= n <= Z.of_nat (length buf) -> n < 2 ^ 63 ->
  exists k, 0 <= k <= n /\ appended p (take (Z.to_nat k) buf) s s' /\ (rc = 0 /\ k = n \/ rc < 0).
Proof.
  induction 1 as [buf n s rc s' Ht|buf n s buf' n' s1 rc s' Ht _ IH]; intros Hi Hf Hn Hmax;
    destruct (write_turn_spec fd p buf n s Hi Hf Hn Hmax) as (t & s2 & k & Ht2 & Hk & Happ & Hcase);
    rewrite Ht in Ht2; simplify_eq.
  - by exists k.
  - destruct Hcase as (-> & -> & _). destruct Happ as [[Hi1 Hx] Hf1 Hn1] eqn:Heq.
    destruct IH as (k2 & Hk2 & Happ2 & Hend); [done|by rewrite Hf1|rewrite length_drop; lia|lia|].
    exists (k + k2). split; [lia|]. split; [|lia].
    replace (take (Z.to_nat (k + k2)) buf)
      with (take (Z.to_nat k) buf ++ take (Z.to_nat k2) (drop (Z.to_nat k) buf)); [by eapply appended_trans|].
    rewrite Z2Nat.inj_add by lia. by rewrite take_take_drop.
Qed.

(** [cf_write] as a program; it never leaves by [goto]. *)
Lemma cf_write_wpe fd p buf n s :
  cs_inv s -> cs_fd s fd = Some p -> 0 <= n <= Z.of_nat (length buf) -> n < 2 ^ 63 ->
  exists rc s' k, cf_write fd buf n s = (Ok rc, s') /\ 0 <= k <= n /\
    appended p (take (Z.to_nat k) buf) s s' /\ (rc = 0 /\ k = n \/ rc < 0).
Proof.
  intros Hi Hf Hn Hmax. unfold cf_write.
  destruct (write_loop_total (Datatypes.S (Z.to_nat n + interruptions s)) fd p buf n s) as (rc & s' & Hrun);
    try done; [lia|].
  destruct (loop_appends fd p buf n s rc s') as (k & Hk); try done; [by eapply loop_sound|]. by exists rc, s', k.
Qed.

(** C27. [cf_write] handles short writes and interruptions.  Handed a buffer that
    holds the [n] bytes it is to write, it ends, without reading past them, and it
    does exactly what its loop does without a bound on its turns; when it returns
    zero the [n] bytes, no more and no fewer and in order, are at the end of the
    file, otherwise its code is negative and a prefix of them is; and no other
    file, mode or descriptor has changed. *)
Theorem cf_write_spec fd p buf n s :
  cs_inv s -> cs_fd s fd = Some p -> 0 <= n <= Z.of_nat (length buf) -> n < 2 ^ 63 ->
  exists rc s', cf_write fd buf n s = (Ok rc, s') /\
    (forall rc2 s2, loop_runs fd buf n s rc2 s2 <-> rc2 = rc /\ s2 = s') /\
    exists k, 0 <= k <= n /\ appended p (take (Z.to_nat k) buf) s s' /\ (rc = 0 /\ k = n \/ rc < 0).
Proof.
  intros Hi Hf Hn Hmax. destruct (cf_write_wpe fd p buf n s) as (rc & s' & k & Hrun & Hk); try done.
  exists rc, s'. apply loop_sound in Hrun as Hl. split; [done|]. split; [|by exists k].
  intros rc2 s2. split; [|by intros [-> ->]]. intros H2. by destruct (loop_deterministic _ _ _ _ _ _ _ _ Hl H2) as [-> ->].
Qed.
(** ** Printing *)

(** [m] appends [d] to the file [fd] stands for, or leaves with an error and some
    bytes appended. *)
Definition emits (fd : Z) (m : stM Z S unit) (d : list byte) : Prop := forall s p,
  cs_inv s -> cs_fd s fd = Some p ->
  wpe m (fun _ s' => appended p d s s') (fun rc s' => rc < 0 /\ exists d', appended p d' s s') s.

Lemma emits_ret fd : emits fd (mret tt) [].
Proof. intros s p Hi Hf. apply appended_nil; [by apply same_except_refl|done]. Qed.

Lemma emits_bind fd m k d1 d2 : emits fd m d1 -> emits fd k d2 -> emits fd (_ ← m; k) (d1 ++ d2).
Proof.
  intros Hm Hk s p Hi Hf. apply wpe_bind. eapply wpe_mono; [by apply Hm| |done].
  intros u s1 H1. eapply wpe_mono; [apply (Hk s1 p); [apply H1|by rewrite (ap_fds _ _ _ _ H1)]| |].
  - intros u2 s2 H2. exact (appended_trans _ _ _ _ _ _ H1 H2).
  - intros rc s2 [Hrc [d' H2]]. split; [done|]. eexists. exact (appended_trans _ _ _ _ _ _ H1 H2).
Qed.

Lemma emits_for_each {A} fd (body : A -> stM Z S unit) (f : A -> list byte) xs :
  (forall x, x ∈ xs -> emits fd (body x) (f x)) -> emits fd (for_each body xs) (mjoin (f <$> xs)).
Proof.
  induction xs as [|x xs IH]; intros Hb; cbn; [apply emits_ret|].
  apply emits_bind; [apply Hb, list_elem_of_here|]. apply IH. intros y Hy. by apply Hb, list_elem_of_further.
Qed.

(** Writing the whole of a buffer. *)
Lemma emits_write fd buf : Z.of_nat (length buf) < 2 ^ 63 ->
  emits fd (rc ← cf_write fd buf (Z.of_nat (length buf)); if rc <? 0 then fail rc else mret tt) buf.
Proof.
  intros Hmax s p Hi Hf. apply wpe_bind. unfold wpe at 1.
  destruct (cf_write_wpe fd p buf (Z.of_nat (length buf)) s) as (rc & s' & k & -> & Hk & Happ & Hend); try done; [lia|].
  destruct (Z.ltb_spec rc 0); unfold wpe; cbn; [by eauto|].
  replace (Z.to_nat k) with (length buf) in Happ by lia. by rewrite take_ge in Happ by lia.
Qed.

(** A text that leaves room for the NUL is printed as it is. *)
Lemma emits_nprintf fd maxlen fmt args :
  0 < maxlen <= 2 ^ 31 -> Z.of_nat (length (format fmt args)) < maxlen ->
  emits fd (rc ← cf_nprintf fd maxlen fmt args; if rc <? 0 then fail rc else mret tt) (format fmt args).
Proof.
  intros Hmax Hlen. unfold cf_nprintf, cf_vnprintf, vsnprintf. set (t := format fmt args) in *.
  destruct (Z.ltb_spec (Z.of_nat (length t)) (2 ^ 31)) as [_|]; [|lia].
  destruct (Z.leb_spec (Z.of_nat (length t)) 0) as [Hz|Hz].
  { destruct t; [|cbn in Hz; lia]. apply emits_ret. }
  rewrite take_ge by lia. intros s p Hi Hf. apply wpe_bind. unfold wpe at 1.
  destruct (cf_write_wpe fd p (t ++ [x00]) (Z.of_nat (length t)) s) as (rc & s' & k & -> & Hk & Happ & Hend);
    try done; [rewrite length_app; lia|lia|].
  destruct (Z.ltb_spec rc 0); unfold wpe; cbn; [by eauto|].
  replace (Z.to_nat k) with (length t) in Happ by lia. by rewrite take_app_length in Happ.
Qed.

Lemma emits_strcpy fd t :
  Z.of_nat (length t) < 2 ^ 63 -> emits fd (rc ← cf_strcpy fd t; if rc <? 0 then fail rc else mret tt) t.
Proof.
  intros Hmax. unfold cf_strcpy. destruct (Z.eqb_spec (Z.of_nat (length t)) 0); [|by apply emits_write].
  destruct t; [apply emits_ret|done].
Qed.

(** C28. What [cf_nprintf] makes of a text of any length: one shorter than the
    buffer is appended as it is; one exactly as long loses its last byte to the NUL,
    which goes into the file; a longer one makes it read past the end of the buffer,
    [vsnprintf] returning the length the text would have had. *)
Theorem cf_nprintf_limit fd maxlen fmt args s p :
  cs_inv s -> cs_fd s fd = Some p -> 0 < maxlen < 2 ^ 31 ->
  let t := format fmt args in
  let n := Z.of_nat (length t) in
  0 < n < 2 ^ 31 ->
  if n <=? maxlen then
    exists rc s' k, cf_nprintf fd maxlen fmt args s = (Ok rc, s') /\ (rc = 0 \/ rc < 0) /\ (rc = 0 -> k = length t) /\
      appended p (take k (if n <? maxlen then t else take (length t - 1) t ++ [x00])) s s'
  else cf_nprintf fd maxlen fmt args s = (Panic, s).
Proof.
  intros Hi Hf Hmax t n Hn. unfold cf_nprintf, cf_vnprintf, vsnprintf. fold t. fold n.
  destruct (Z.ltb_spec n (2 ^ 31)); [|lia]. destruct (Z.leb_spec n 0); [lia|].
  destruct (Z.leb_spec n maxlen) as [Hle|Hgt].
  - destruct (cf_write_wpe fd p (take (Z.to_nat (maxlen - 1)) t ++ [x00]) n s)
      as (rc & s' & k & -> & Hk & Happ & Hend); try done; [rewrite length_app, length_take; cbn; lia|lia|].
    exists rc, s', (Z.to_nat k). split; [done|]. split; [lia|]. split; [lia|].
    destruct (Z.ltb_spec n maxlen).
    + rewrite (take_ge t) in Happ by lia. rewrite take_app_le in Happ by lia. done.
    + by replace (Z.to_nat (maxlen - 1)) with (length t - 1)%nat in Happ by lia.
  - unfold cf_write. cbn [write_loop]. unfold mbind, stM_bind, write_turn.
    rewrite length_app, length_take. destruct (Z.ltb_spec (Z.of_nat (Z.to_nat (maxlen - 1) `min` length t + length [x00])) n);
      [done|cbn in *; lia].
Qed.

(** ** Creating *)

(** What [cf_create] returns: the file was there and stays as it is; it could not
    be made; or a new descriptor stands for it, empty and with its mode. *)
Definition created (mode : exist_mode) (p : list byte) (fmode : Z) (s : S) (rc : Z) (s' : S) : Prop :=
  rc = - CEEXIST /\ s' = s /\ is_Some (cs_node s p) /\ mode <> REPLACEEXIST \/
  rc < 0 /\ rc <> - CEEXIST /\ same_except [p] s s' \/
  0 <= rc /\ same_except [p] s s' /\ cs_fd s rc = None /\
    (forall g, cs_fd s' g = if decide (g = rc) then Some p else cs_fd s g) /\
    (mode <> REPLACEEXIST -> cs_node s p = None) /\
    exists n, cs_node s' p = Some n /\ n_data n = [] /\ perms (n_mode n) = perms fmode.

Lemma cf_create_spec mode p fmode s :
  cs_inv s -> exists rc s', cf_create mode p fmode s = (Ok rc, s') /\ created mode p fmode s rc s'.
Proof.
  intros Hi. unfold cf_create, created. pose proof (law_libc_stat s p Hi) as Hst.
  destruct (libc_stat p s) as [rc m]. destruct (existing mode rc m) as [rc'|] eqn:He.
  { exists rc', s. split; [done|]. unfold existing in He. destruct (Z.eqb_spec rc 0); [|done].
    destruct Hst as [[_ Hm]|[? _]]; [|done]. destruct mode; [..|destruct (_ =? 0)]; simplify_eq;
      [left|left|right; left]; repeat split; try done.
    - by destruct (cs_node s p).
    - by destruct (cs_node s p). }
  assert (Hnew : mode <> REPLACEEXIST -> cs_node s p = None).
  { intros Hm. destruct Hst as [[-> _]|[_ H]]; [|done]. by destruct mode. }
  unfold int_call, mbind, stM_bind. pose proof (law_open s p Hi) as Ho.
  destruct (uk_syscall_r_open p _ 0 s) as [fd s1]. destruct Ho as (Hr & _ & Ho). rewrite as_i32_id by done.
  destruct Ho as [(Hneg & Hne & Hex & Hfds)|(Hpos & Hex & Hd & Hfree & Hfds)].
  { destruct (Z.ltb_spec fd 0); [|lia]. exists fd, s1. split; [done|]. right; left.
    split; [done|]. split; [done|]. eapply same_except_weaken; [done|set_solver]. }
  destruct (Z.ltb_spec fd 0); [lia|]. pose proof (law_chmod s1 p fmode (proj1 Hex)) as Hc.
  destruct (uk_syscall_r_chmod p fmode s1) as [rc2 s2]. destruct Hc as (Hr2 & _ & Hfds2 & Hc).
  rewrite as_i32_id by done.
  destruct Hc as [(Hneg & Hne & Hex2)|(Hpos2 & Hex2 & n & n' & Hn & Hn' & Hdd & Hperm)].
  { destruct (Z.ltb_spec rc2 0); [|lia]. exists rc2, s2. split; [done|]. right; left.
    split; [done|]. split; [done|]. eapply same_except_weaken; [by eapply same_except_trans|set_solver]. }
  destruct (Z.ltb_spec rc2 0); [lia|]. exists fd, s2. split; [done|]. right; right. split; [done|].
  split; [eapply same_except_weaken; [by eapply same_except_trans|set_solver]|]. split; [done|].
  split; [intros g; by rewrite Hfds2, Hfds|]. split; [done|]. exists n'. rewrite Hn in Hd. cbn in Hd. simplify_eq.
  split; [done|]. split; [congruence|done].
Qed.

Lemma cf_mkdir_spec p m s :
  cs_inv s -> exists rc s', cf_mkdir p m s = (Ok rc, s') /\ same_except [p] s s' /\ same_fds s s' /\
    (rc < 0 \/ rc = 0 /\ s' = s /\ is_Some (cs_node s p) \/ rc = 1 /\ cs_node s p = None /\ is_Some (cs_node s' p)).
Proof.
  intros Hi. unfold cf_mkdir. pose proof (law_r_stat s p Hi) as Hst. destruct (uk_syscall_r_stat p s) as [rc m'].
  assert (Hsame : same_except [p] s s) by by apply same_except_refl.
  destruct Hst as [[-> Hm]|(Hr & Hneg & Hno)].
  { rewrite as_i32_id by done. cbn. assert (is_Some (cs_node s p)) by (by destruct (cs_node s p)).
    destruct (Z.land m' S_IFDIR =? 0); eexists _, s; split_and!; try done; [by left|by right; left]. }
  rewrite as_i32_id by done. destruct (Z.eqb_spec rc 0); [lia|]. cbn [andb].
  destruct (Z.eqb_spec rc (- CENOENT)) as [Hc|]; cbn [negb].
  2: { exists rc, s. split_and!; [done|done|done|by left]. }
  unfold int_call, mbind, stM_bind. pose proof (law_mkdir s p m Hi) as Hk.
  destruct (uk_syscall_r_mkdir p m s) as [rc2 s1]. destruct Hk as (Hr2 & _ & Hfds & Hk). rewrite as_i32_id by done.
  destruct Hk as [[? Hex]|(? & Hex & nd & Hn & _)]; destruct (Z.ltb_spec rc2 0); try lia; eexists _, s1.
  - split_and!; [done|eapply same_except_weaken; [done|set_solver]|done|by left].
  - split_and!; [done|done|done|]. right; right. rewrite Hn. auto.
Qed.

(** A file whose mode cannot be set stays open: [cf_create] returns the error, and
    its caller has no descriptor to close. *)
Theorem cf_create_leaks mode p fmode s fd s1 rc s2 :
  cs_inv s -> cs_node s p = None ->
  uk_syscall_r_open p (Z.lor (Z.lor O_CREAT O_WRONLY) O_TRUNC) 0 s = (fd, s1) -> 0 <= fd ->
  uk_syscall_r_chmod p fmode s1 = (rc, s2) -> rc < 0 ->
  cf_create mode p fmode s = (Ok rc, s2) /\ cs_fd s fd = None /\ cs_fd s2 fd = Some p.
Proof.
  intros Hi Hno Ho Hpos Hc Hneg. pose proof (law_libc_stat s p Hi) as Hst. unfold cf_create.
  destruct (libc_stat p s) as [r m]. destruct Hst as [[_ Hm]|[Hr _]]; [by rewrite Hno in Hm|].
  unfold existing. destruct (Z.eqb_spec r 0); [done|]. unfold int_call, mbind, stM_bind. rewrite Ho.
  pose proof (law_open s p Hi) as Hlo. rewrite Ho in Hlo. destruct Hlo as (Hr1 & _ & [[? _]|(_ & Hex & _ & Hnew & Hfds)]); [lia|].
  pose proof (law_chmod s1 p fmode (proj1 Hex)) as Hlc. rewrite Hc in Hlc. destruct Hlc as (Hr2 & _ & Hf2 & _).
  rewrite as_i32_id by done. destruct (Z.ltb_spec fd 0); [lia|]. rewrite Hc, as_i32_id by done.
  destruct (Z.ltb_spec rc 0); [|lia]. rewrite Hf2, Hfds, decide_True by done. done.
Qed.
End Facts.

(** Anything whose mode has the bit of [S_IFDIR] passes for a directory, a socket
    among them. *)
Definition S_IFSOCK : Z := 0xc000.
Theorem cf_mkdir_accepts_socket {S : Type} {sys : ConfSys S} p m s perm :
  uk_syscall_r_stat p s = (0, Z.lor S_IFSOCK perm) -> cf_mkdir p m s = (Ok 0, s).
Proof.
  intros Hst. unfold cf_mkdir. rewrite Hst. cbn [as_i32]. rewrite (as_i32_id 0) by done. cbn [Z.eqb andb].
  destruct (Z.eqb_spec (Z.land (Z.lor S_IFSOCK perm) S_IFDIR) 0) as [H|]; [|done].
  apply (f_equal (fun z => Z.testbit z 14)) in H. rewrite Z.land_spec, Z.lor_spec in H. done.
Qed.
