(* ===== verification/Etc.v ===== *)
(** * The files of [/etc] ([autogen/etc.c])

    [gen_etc], which Unikraft calls before the loader starts: it writes
    [/etc/resolv.conf], [/etc/hosts] and [/etc/hostname] from what the network
    devices were configured with.  The devices (uk/netdev.h) are parameters. *)

From Stdlib Require Import Strings.Byte.
From stdpp Require Import base numbers option strings sets list.
From S2P Require Import Prelude Err Conf.

(** The properties of a device that are looked at. *)
Inductive Einfo : Type :=
| IPV4_CIDR | IPV4_ADDR | IPV4_DNS0 | IPV4_DNS1 | IPV4_HOSTNAME | IPV4_DOMAIN.

Class NetDevs : Type := {
  netdev : Type;
  uk_netdev_count : nat;
  uk_netdev_get : nat -> option netdev;
  uk_netdev_einfo_get : netdev -> Einfo -> option (list byte)
}.

(** The options of the build. *)
Record EtcCfg : Type := MkEtcCfg {
  ETCRESOLVCONF : bool;
  ETCHOSTS : bool;
  ETCHOSTS_LOCALHOST4 : bool;
  ETCHOSTNAME : bool;
  CREATION : exist_mode
}.

(** A string literal. *)
Definition text (s : string) : list byte := String.list_byte_of_string s.
Arguments text s%_string.

Definition NL : list byte := [x0a].
Definition TAB : list byte := [x09].

(** [einfo && einfo[0] != '\0']. *)
Definition present (einfo : option (list byte)) : option (list byte) :=
  match einfo with
  | Some (c :: t) => Some (c :: t)
  | _ => None
  end.

(** ** Looking at the devices *)

Section Devices.
Context {devs : NetDevs}.

Definition uk_netdev_find_einfo (einfo_property : Einfo) : option netdev :=
  let fix go (l : list nat) : option netdev :=
    match l with
    | [] => None
    | i :: l =>
      match uk_netdev_get i with
      | None => go l
      | Some nd =>
        match present (uk_netdev_einfo_get nd einfo_property) with
        | Some _ => Some nd
        | None => go l
        end
      end
    end in
  go (seq 0 uk_netdev_count).

(** [strchr(einfo, '/')], as a distance. *)
Definition find_slash (s : list byte) : option nat := fst <$> list_find (.= x2f) s.

(** [strncpy] into [char ip4buf[16]] and the NUL after it, and the string that is
    in the buffer then. *)
Definition IP4BUF : Z := 16.
Definition copy_ip4 (einfo : list byte) (ip4len : Z) : outcome Z (list byte) :=
  if IP4BUF <? ip4len then Panic
  else if ip4len <? IP4BUF then Ok (take (Z.to_nat ip4len) einfo)
  else Panic.

Definition uk_netdev_ip4addr_get (nd : netdev) : outcome Z (option (list byte)) :=
  let legacy := Ok (present (uk_netdev_einfo_get nd IPV4_ADDR)) in
  match present (uk_netdev_einfo_get nd IPV4_CIDR) with
  | None => legacy
  | Some einfo =>
    match find_slash einfo with
    | None => legacy
    | Some maskbits =>
      let ip4len := Z.of_nat maskbits in
      if (16 <? ip4len) || (ip4len <? 7) then legacy
      else Some <$> copy_ip4 einfo ip4len
    end
  end.
End Devices.

(** ** Generating the files *)

Section Etc.
Context {S : Type} {sys : ConfSys S} {devs : NetDevs} (cfg : EtcCfg).

(** [rc = ..; if (unlikely(rc < 0)) goto out]. *)
Definition or_out (m : stM Z S Z) : stM Z S unit :=
  rc ← m;
  if rc <? 0 then fail rc else mret tt.

(** [for (i = 0; i < uk_netdev_count(); i++)], over the devices that are there. *)
Definition for_netdevs (body : netdev -> stM Z S unit) : stM Z S unit :=
  for_each (fun i => match uk_netdev_get i with None => mret tt | Some nd => body nd end)
    (seq 0 uk_netdev_count).

(** The label [out]: [cf_close(fd)] and the code. *)
Definition closing (fd : Z) (body : stM Z S unit) : stM Z S Z := fun s =>
  match body s with
  | (Ok _, s1) => (_ ← cf_close fd; mret 0) s1
  | (Err rc, s1) => (_ ← cf_close fd; mret rc) s1
  | (Panic, s1) => (Panic, s1)
  end.

(** [fd = cf_create(..)] and the two tests after it. *)
Definition creating (fpath : list byte) (fmode : Z) (k : Z -> stM Z S Z) : stM Z S Z :=
  fd ← cf_create (CREATION cfg) fpath fmode;
  if bool_decide (CREATION cfg = SKIPEXIST) && (fd =? - CEEXIST) then mret 0
  else if fd <? 0 then mret fd
  else k fd.

(** A line for a property, if the device has it. *)
Definition print_einfo (fd : Z) (fmt : list byte) (nd : netdev) (p : Einfo) : stM Z S unit :=
  match present (uk_netdev_einfo_get nd p) with
  | None => mret tt
  | Some einfo => or_out (cf_nprintf fd 128 fmt [einfo])
  end.

Definition resolvconf_body (fd : Z) : stM Z S unit :=
  _ ← for_netdevs (fun nd =>
        _ ← print_einfo fd (text "nameserver %s" ++ NL) nd IPV4_DNS0;
        print_einfo fd (text "nameserver %s" ++ NL) nd IPV4_DNS1);
  match uk_netdev_find_einfo IPV4_DOMAIN ≫= (fun nd => uk_netdev_einfo_get nd IPV4_DOMAIN) with
  | None => mret tt
  | Some primary_domain =>
    _ ← or_out (cf_strcpy fd (text "search"));
    _ ← for_netdevs (fun nd => print_einfo fd (text " %s") nd IPV4_DOMAIN);
    _ ← or_out (cf_strcpy fd NL);
    or_out (cf_nprintf fd 128 (text "domain %s" ++ NL) [primary_domain])
  end.

Definition gen_etc_resolvconf (fpath : list byte) (fmode : Z) : stM Z S Z :=
  if ETCRESOLVCONF cfg then creating fpath fmode (fun fd => closing fd (resolvconf_body fd))
  else mret 0.

Definition hosts_entry (fd : Z) (nd : netdev) : stM Z S unit :=
  ip4 ← lift (uk_netdev_ip4addr_get nd);
  match ip4 with
  | None => mret tt
  | Some ip4 =>
    match present (uk_netdev_einfo_get nd IPV4_HOSTNAME) with
    | None => mret tt
    | Some hostname =>
      match present (uk_netdev_einfo_get nd IPV4_DOMAIN) with
      | None => or_out (cf_nprintf fd 128 (text "%s" ++ TAB ++ text "%s" ++ NL) [ip4; hostname])
      | Some domain =>
        or_out (cf_nprintf fd 128 (text "%s" ++ TAB ++ text "%s %s.%s" ++ NL) [ip4; hostname; hostname; domain])
      end
    end
  end.

Definition hosts_body (fd : Z) : stM Z S unit :=
  _ ← (if ETCHOSTS_LOCALHOST4 cfg then or_out (cf_strcpy fd (text "127.0.0.1" ++ TAB ++ text "localhost" ++ NL))
       else mret tt);
  for_netdevs (hosts_entry fd).

Definition gen_etc_hosts (fpath : list byte) (fmode : Z) : stM Z S Z :=
  if ETCHOSTS cfg then creating fpath fmode (fun fd => closing fd (hosts_body fd))
  else mret 0.

Definition gen_etc_hostname (fpath : list byte) (fmode : Z) : stM Z S Z :=
  if ETCHOSTNAME cfg then
    match present (uk_netdev_find_einfo IPV4_HOSTNAME ≫= (fun nd => uk_netdev_einfo_get nd IPV4_HOSTNAME)) with
    | None => mret 0
    | Some hostname =>
      creating fpath fmode (fun fd =>
        rc ← cf_nprintf fd 128 (text "%s" ++ NL) [hostname];
        let rc := if 0 <? rc then 0 else rc in
        _ ← cf_close fd;
        mret rc)
    end
  else mret 0.

(** The modes are [0755], [0644] and [0444]. *)
Definition gen_etc : stM Z S Z := fun s =>
  match
    (_ ← or_out (cf_mkdir (text "/etc") 0x1ed);
     _ ← or_out (gen_etc_resolvconf (text "/etc/resolv.conf") 0x1a4);
     _ ← or_out (gen_etc_hosts (text "/etc/hosts") 0x1a4);
     or_out (gen_etc_hostname (text "/etc/hostname") 0x124)) s
  with
  | (Ok _, s') => (Ok 0, s')
  | (Err rc, s') => (Ok rc, s')
  | (Panic, s') => (Panic, s')
  end.
End Etc.
