(* ===== verification/EtcFacts.v ===== *)
(** * The files of [/etc] say what the devices were configured with

    The contents of [resolv.conf], [hosts] and [hostname] as lists of lines made
    from the devices, and that [gen_etc] writes them -- when every line is shorter
    than the buffer it is formatted in; two theorems record what happens when one
    is not, and when an address is one byte longer than its buffer. *)

From Stdlib Require Import Strings.Byte.
From stdpp Require Import base numbers option strings sets list.
From S2P Require Import Prelude Err Conf ConfFacts Etc.

(** ** What the files should hold *)

Section Contents.
Context {devs : NetDevs} (cfg : EtcCfg).

Definition devices : list netdev := omap uk_netdev_get (seq 0 uk_netdev_count).

(** A property that is set and not empty. *)
Definition attr (p : Einfo) (nd : netdev) : option (list byte) := present (uk_netdev_einfo_get nd p).

Definition line_of (f : list byte -> list byte) (o : option (list byte)) : list (list byte) :=
  match o with Some d => [f d] | None => [] end.

Definition nameserver (d : list byte) : list byte := text "nameserver " ++ d ++ NL.
Definition search_item (d : list byte) : list byte := text " " ++ d.

Definition resolv_lines : list (list byte) :=
  (devices ≫= fun nd => line_of nameserver (attr IPV4_DNS0 nd) ++ line_of nameserver (attr IPV4_DNS1 nd)) ++
  match omap (attr IPV4_DOMAIN) devices with
  | [] => []
  | d :: ds => [text "search"] ++ (search_item <$> d :: ds) ++ [NL] ++ [text "domain " ++ d ++ NL]
  end.

(** The address of a device: that of the CIDR notation before the slash, if it has
    the length of an IPv4 address, or the older property. *)
Definition address (nd : netdev) : option (list byte) :=
  match attr IPV4_CIDR nd with
  | None => attr IPV4_ADDR nd
  | Some e =>
    match find_slash e with
    | None => attr IPV4_ADDR nd
    | Some k => if bool_decide (7 <= k <= 15)%nat then Some (take k e) else attr IPV4_ADDR nd
    end
  end.

Definition host_lines (nd : netdev) : list (list byte) :=
  match address nd, attr IPV4_HOSTNAME nd with
  | Some ip4, Some h =>
    match attr IPV4_DOMAIN nd with
    | None => [ip4 ++ TAB ++ h ++ NL]
    | Some d => [ip4 ++ TAB ++ h ++ text " " ++ h ++ text "." ++ d ++ NL]
    end
  | _, _ => []
  end.

Definition hosts_lines : list (list byte) :=
  (if ETCHOSTS_LOCALHOST4 cfg then [text "127.0.0.1" ++ TAB ++ text "localhost" ++ NL] else []) ++
  (devices ≫= host_lines).

Definition hostname_lines : option (list (list byte)) :=
  (fun h => [h ++ NL]) <$> head (omap (attr IPV4_HOSTNAME) devices).

(** Lines the 128-byte buffers hold, and addresses the 16-byte buffer does. *)
Definition fits (l : list byte) : Prop := (length l < 128)%nat.
Definition address_fits (nd : netdev) : Prop :=
  match attr IPV4_CIDR nd with Some e => find_slash e <> Some 16%nat | None => True end.

Lemma present_idem o : present (present o) = present o.
Proof. by destruct o as [[]|]. Qed.

Lemma present_Some o d : present o = Some d -> o = Some d.
Proof. by destruct o as [[]|]. Qed.

(** What is found first is not empty. *)
Lemma head_present p : present (head (omap (attr p) devices)) = head (omap (attr p) devices).
Proof.
  induction devices as [|nd nds IH]; [done|]. cbn. destruct (attr p nd) as [d|] eqn:Hd; [|done].
  unfold attr in Hd. by destruct (uk_netdev_einfo_get nd p) as [[]|]; simplify_eq/=.
Qed.

(** The first device with a property, and the property. *)
Lemma find_einfo_head p :
  (uk_netdev_find_einfo p ≫= fun nd => uk_netdev_einfo_get nd p) = head (omap (attr p) devices).
Proof.
  unfold uk_netdev_find_einfo, devices, attr. induction (seq 0 uk_netdev_count) as [|i l IH]; [done|].
  cbn [omap list_omap]. destruct (uk_netdev_get i) as [nd|]; [|done]. cbn [omap list_omap].
  destruct (present _) as [d|] eqn:Hp; [|done]. by apply present_Some in Hp.
Qed.

(** Reading the address stays in its buffer unless it is sixteen bytes long. *)
Lemma ip4addr_get_spec nd : address_fits nd -> uk_netdev_ip4addr_get nd = Ok (address nd).
Proof.
  unfold address_fits, uk_netdev_ip4addr_get, address, attr, copy_ip4, IP4BUF.
  destruct (present (uk_netdev_einfo_get nd IPV4_CIDR)) as [e|]; [|done].
  destruct (find_slash e) as [k|]; [|done]. intros Hk. assert (k <> 16%nat) by congruence.
  destruct (Z.ltb_spec 16 (Z.of_nat k)); cbn [orb].
  { rewrite bool_decide_false by lia. done. }
  destruct (Z.ltb_spec (Z.of_nat k) 7).
  { rewrite bool_decide_false by lia. done. }
  destruct (Z.ltb_spec (Z.of_nat k) 16); [|lia]. rewrite bool_decide_true by lia. cbn. by rewrite Nat2Z.id.
Qed.
End Contents.

Section Limits.
Context {devs : NetDevs}.

(** Reading the address of a device overruns its 16-byte buffer exactly when
    the address before the slash of the CIDR notation has sixteen bytes: the test
    lets that length through and the NUL is stored behind the buffer.  Otherwise it
    yields the address before the slash when that has the length of an IPv4 address,
    7 to 15 bytes, and the older property when not. *)
Theorem ip4addr_overrun nd :
  (uk_netdev_ip4addr_get nd = Panic <-> exists e, attr IPV4_CIDR nd = Some e /\ find_slash e = Some 16%nat) /\
  (uk_netdev_ip4addr_get nd <> Panic -> uk_netdev_ip4addr_get nd = Ok (address nd)).
Proof.
  assert (Hdec : address_fits nd \/ exists e, attr IPV4_CIDR nd = Some e /\ find_slash e = Some 16%nat).
  { unfold address_fits. destruct (attr IPV4_CIDR nd) as [e|]; [|by left].
    destruct (decide (find_slash e = Some 16%nat)); [right; eauto|by left]. }
  destruct Hdec as [Hf|(e & He & Hs)].
  - rewrite (ip4addr_get_spec nd Hf). split; [|done]. split; [done|]. intros (e & He & Hs).
    unfold address_fits in Hf. by rewrite He in Hf.
  - assert (Hp : uk_netdev_ip4addr_get nd = Panic).
    { unfold uk_netdev_ip4addr_get. unfold attr in He. by rewrite He, Hs. }
    rewrite Hp. split; [|done]. split; [eauto|done].
Qed.
End Limits.

Section Facts.
Context {S : Type} {sys : ConfSys S} {laws : ConfLaws S} {devs : NetDevs} (cfg : EtcCfg).
Implicit Types (s : S) (p : list byte).

(** ** The bodies *)

(** A line if there is one. *)
Definition emits_lines (fd : Z) (m : stM Z S unit) (ls : list (list byte)) : Prop :=
  Forall fits ls -> emits fd m (mjoin ls).

Lemma emits_lines_nil fd : emits_lines fd (mret tt) [].
Proof. intros _. apply emits_ret. Qed.

Lemma emits_lines_bind fd m k l1 l2 :
  emits_lines fd m l1 -> emits_lines fd k l2 -> emits_lines fd (_ ← m; k) (l1 ++ l2).
Proof. intros H1 H2 [F1 F2]%Forall_app. rewrite join_app. apply emits_bind; auto. Qed.

Lemma emits_lines_print fd fmt args l :
  format fmt args = l -> emits_lines fd (or_out (cf_nprintf fd 128 fmt args)) [l].
Proof.
  intros <- Hf. apply Forall_cons_1 in Hf as [Hf _]. unfold fits in Hf. cbn [mjoin list_join]. rewrite app_nil_r.
  apply emits_nprintf; lia.
Qed.

Lemma emits_lines_copy fd l : emits_lines fd (or_out (cf_strcpy fd l)) [l].
Proof.
  intros Hf. apply Forall_cons_1 in Hf as [Hf _]. unfold fits in Hf. cbn [mjoin list_join]. rewrite app_nil_r.
  apply emits_strcpy. lia.
Qed.

Lemma emits_lines_einfo fd fmt f nd e :
  (forall d, format fmt [d] = f d) -> emits_lines fd (print_einfo fd fmt nd e) (line_of f (attr e nd)).
Proof.
  intros Hf. unfold print_einfo, attr. destruct (present _) as [d|]; [|apply emits_lines_nil].
  by apply emits_lines_print.
Qed.

Lemma emits_lines_netdevs fd body f :
  (forall nd, nd ∈ devices -> emits_lines fd (body nd) (f nd)) ->
  emits_lines fd (for_netdevs body) (devices ≫= f).
Proof.
  unfold for_netdevs, devices. induction (seq 0 uk_netdev_count) as [|i l IH]; intros Hb; [apply emits_lines_nil|].
  cbn [omap list_omap for_each] in *. destruct (uk_netdev_get i) as [nd|].
  - cbn [mbind list_bind]. apply emits_lines_bind; [apply Hb; left|]. apply IH. intros x Hx. apply Hb. by right.
  - apply (emits_lines_bind _ _ _ []); [apply emits_lines_nil|by apply IH].
Qed.

Lemma lines_of_omap f (e : Einfo) nds :
  (nds ≫= fun nd => line_of f (attr e nd)) = f <$> omap (attr e) nds.
Proof. induction nds as [|nd nds IH]; [done|]. cbn. destruct (attr e nd); cbn; by rewrite <- IH. Qed.

Lemma resolvconf_emits fd : emits_lines fd (resolvconf_body fd) resolv_lines.
Proof.
  unfold resolvconf_body, resolv_lines. apply emits_lines_bind.
  { apply emits_lines_netdevs. intros nd _. apply emits_lines_bind; by apply emits_lines_einfo. }
  rewrite find_einfo_head. destruct (omap (attr IPV4_DOMAIN) devices) as [|d ds] eqn:Hds; [apply emits_lines_nil|].
  cbn [head]. apply emits_lines_bind; [apply emits_lines_copy|].
  rewrite <- Hds, <- lines_of_omap. apply emits_lines_bind.
  { apply emits_lines_netdevs. intros nd _. apply emits_lines_einfo. intros x. cbn. by rewrite app_nil_r. }
  apply emits_lines_bind; [apply emits_lines_copy|]. by apply emits_lines_print.
Qed.

Lemma lift_bind {A B} (a : A) (f : A -> stM Z S B) : (lift (Ok a) ≫= f) = f a.
Proof. done. Qed.

Lemma hosts_entry_emits fd nd : address_fits nd -> emits_lines fd (hosts_entry fd nd) (host_lines nd).
Proof.
  intros Ha. unfold hosts_entry, host_lines. rewrite (ip4addr_get_spec nd Ha), lift_bind.
  unfold attr. destruct (address nd) as [ip4|]; [|apply emits_lines_nil].
  destruct (present (uk_netdev_einfo_get nd IPV4_HOSTNAME)) as [h|]; [|apply emits_lines_nil].
  destruct (present (uk_netdev_einfo_get nd IPV4_DOMAIN)) as [d|]; by apply emits_lines_print.
Qed.

Lemma hosts_emits fd : Forall address_fits devices -> emits_lines fd (hosts_body cfg fd) (hosts_lines cfg).
Proof.
  intros Ha. unfold hosts_body, hosts_lines. apply emits_lines_bind.
  - destruct (ETCHOSTS_LOCALHOST4 cfg); [apply emits_lines_copy|apply emits_lines_nil].
  - apply emits_lines_netdevs. intros nd Hnd. apply hosts_entry_emits. by eapply Forall_forall.
Qed.

(** ** One file *)

(** What becomes of a file that should hold [lines], if it is to be made. *)
Definition file_outcome (lines : option (list (list byte))) (fmode : Z) (before after : option node) : Prop :=
  match lines with
  | None => after = before
  | Some ls =>
    match CREATION cfg, before with
    | SKIPEXIST, Some n => after = Some n
    | _, _ => exists n, after = Some n /\ n_data n = mjoin ls /\ perms (n_mode n) = perms fmode
    end
  end.

Definition generates (m : stM Z S Z) (p : list byte) (fmode : Z) (lines : option (list (list byte))) : Prop :=
  forall s, cs_inv s -> exists rc s', m s = (Ok rc, s') /\ same_except [p] s s' /\
    (rc = 0 /\ same_fds s s' /\ file_outcome lines fmode (cs_node s p) (cs_node s' p) \/ rc < 0).

Lemma generates_nothing p fmode : generates (mret 0) p fmode None.
Proof.
  intros s Hi. exists 0, s. split; [done|]. split; [by apply same_except_refl|]. by left.
Qed.

(** [closing] ends with the code of its body and without the descriptor. *)
Lemma closing_spec fd p body d s :
  emits fd body d -> cs_inv s -> cs_fd s fd = Some p ->
  exists rc s1 s' d', closing fd body s = (Ok rc, s') /\ appended p d' s s1 /\ same_except [] s1 s' /\
    (forall g, cs_fd s' g = if decide (g = fd) then None else cs_fd s g) /\ (rc = 0 /\ d' = d \/ rc < 0).
Proof.
  intros Hb Hi Hf. specialize (Hb s p Hi Hf). unfold wpe, closing, cf_close, mbind, stM_bind in *.
  destruct (body s) as [[u|rc|] s1]; [| |done].
  - pose proof (law_close s1 fd (proj1 (ap_except _ _ _ _ Hb))) as Hc.
    destruct (uk_syscall_r_close fd s1) as [rc s2]. destruct Hc as (Hex & _ & Hg).
    exists 0, s1, s2, d. split_and!; [done|done|done| |by left]. intros g. by rewrite Hg, (ap_fds _ _ _ _ Hb).
  - destruct Hb as [Hneg [d' Hb]]. pose proof (law_close s1 fd (proj1 (ap_except _ _ _ _ Hb))) as Hc.
    destruct (uk_syscall_r_close fd s1) as [rc' s2]. destruct Hc as (Hex & _ & Hg).
    exists rc, s1, s2, d'. split_and!; [done|done|done| |by right]. intros g. by rewrite Hg, (ap_fds _ _ _ _ Hb).
Qed.

Lemma generates_file p fmode body ls :
  (forall fd, emits fd (body fd) (mjoin ls)) ->
  generates (creating cfg p fmode (fun fd => closing fd (body fd))) p fmode (Some ls).
Proof.
  intros Hb s Hi. unfold creating, mbind at 1, stM_bind at 1, file_outcome.
  destruct (cf_create_spec (CREATION cfg) p fmode s Hi) as (fd & s1 & -> & Hc).
  destruct Hc as [(-> & -> & [n Hn] & Hm)|[(Hneg & Hne & Hex)|(Hpos & Hex & Hnew & Hfds & Hold & n & Hn & Hd & Hp)]].
  - rewrite Hn. destruct (CREATION cfg); [| |done]; cbn; eexists _, s;
      (split; [done|]; split; [by apply same_except_refl|]); [by left|right; done].
  - destruct (Z.eqb_spec fd (- CEEXIST)); [done|]. rewrite andb_false_r. destruct (Z.ltb_spec fd 0); [|lia].
    exists fd, s1. auto.
  - destruct (Z.eqb_spec fd (- CEEXIST)); [unfold CEEXIST in *; lia|]. rewrite andb_false_r.
    destruct (Z.ltb_spec fd 0); [lia|].
    destruct (closing_spec fd p (body fd) (mjoin ls) s1 (Hb fd) (proj1 Hex)) as (rc & s2 & s' & d' & Hrun & Happ & Hex2 & Hg & Hrc).
    { rewrite Hfds. by rewrite decide_True. }
    exists rc, s'. split; [done|].
    assert (Hex3 : same_except [p] s1 s') by (apply (same_except_trans [p] [] s1 s2 s' (ap_except _ _ _ _ Happ) Hex2)).
    split; [eapply same_except_weaken; [by eapply same_except_trans|set_solver]|].
    destruct Hrc as [[-> ->]|]; [left|by right]. split; [done|]. split.
    { intros g. rewrite Hg. destruct (decide (g = fd)) as [->|Hne]; [done|]. by rewrite Hfds, decide_False. }
    assert (Hafter : exists n', cs_node s' p = Some n' /\ n_data n' = mjoin ls /\ perms (n_mode n') = perms fmode).
    { eexists. split; [rewrite (proj2 Hex2) by set_solver; by apply (ap_node _ _ _ _ Happ)|]. cbn. by rewrite Hd. }
    destruct (CREATION cfg) eqn:Hcr; [|done|done]. by rewrite Hold.
Qed.

(** [cf_nprintf] returns; it does not leave by a [goto]. *)
Lemma write_loop_no_err fuel fd buf n s rc s' : write_loop fuel fd buf n s <> (Err rc, s').
Proof.
  revert buf n s. induction fuel as [|fuel IH]; intros buf n s; [done|].
  cbn [write_loop]. unfold mbind, stM_bind, write_turn.
  destruct (_ <? n); [done|]. destruct (uk_syscall_r_write _ _ s) as [r s1].
  destruct (r <? 0); [destruct (_ && _); [done|]|]; (destruct (0 <? _); [apply IH|done]).
Qed.

Lemma nprintf_no_err fd maxlen fmt args s rc s' : cf_nprintf fd maxlen fmt args s <> (Err rc, s').
Proof.
  unfold cf_nprintf, cf_vnprintf. destruct (vsnprintf maxlen _) as [buf n].
  destruct (n <=? 0); [done|]. apply write_loop_no_err.
Qed.

(** The end of [gen_etc_hostname] is that of the others. *)
Lemma hostname_closing fd h s :
  (rc ← cf_nprintf fd 128 (text "%s" ++ NL) [h];
   let rc := if 0 <? rc then 0 else rc in _ ← cf_close fd; mret rc) s =
  closing fd (or_out (cf_nprintf fd 128 (text "%s" ++ NL) [h])) s.
Proof.
  unfold closing, or_out, mbind, stM_bind. pose proof (nprintf_no_err fd 128 (text "%s" ++ NL) [h] s) as Hno.
  destruct (cf_nprintf _ _ _ _ s) as [[rc|rc|] s1]; [|by destruct (Hno rc s1)|done].
  destruct (Z.ltb_spec 0 rc), (Z.ltb_spec rc 0); try lia; cbn; try done. by replace rc with 0 by lia.
Qed.

Definition when (b : bool) (lines : option (list (list byte))) : option (list (list byte)) :=
  if b then lines else None.

Lemma resolvconf_generates p fmode :
  (ETCRESOLVCONF cfg = true -> Forall fits resolv_lines) ->
  generates (gen_etc_resolvconf cfg p fmode) p fmode (when (ETCRESOLVCONF cfg) (Some resolv_lines)).
Proof.
  unfold gen_etc_resolvconf, when. destruct (ETCRESOLVCONF cfg); [|intros _; apply generates_nothing].
  intros Hf. apply generates_file. intros fd. apply resolvconf_emits. auto.
Qed.

Lemma hosts_generates p fmode :
  (ETCHOSTS cfg = true -> Forall fits (hosts_lines cfg) /\ Forall address_fits devices) ->
  generates (gen_etc_hosts cfg p fmode) p fmode (when (ETCHOSTS cfg) (Some (hosts_lines cfg))).
Proof.
  unfold gen_etc_hosts, when. destruct (ETCHOSTS cfg); [|intros _; apply generates_nothing].
  intros Hf. apply generates_file. intros fd. apply hosts_emits; by apply Hf.
Qed.

Lemma creating_ext p fmode k1 k2 s :
  (forall fd s1, k1 fd s1 = k2 fd s1) -> creating cfg p fmode k1 s = creating cfg p fmode k2 s.
Proof.
  intros Hk. unfold creating, mbind, stM_bind. destruct (cf_create _ p fmode s) as [[fd|e|] s1]; [|done|done].
  destruct (_ && _); [done|]. destruct (fd <? 0); [done|]. apply Hk.
Qed.

Lemma hostname_generates p fmode :
  (ETCHOSTNAME cfg = true -> forall ls, hostname_lines = Some ls -> Forall fits ls) ->
  generates (gen_etc_hostname cfg p fmode) p fmode (when (ETCHOSTNAME cfg) hostname_lines).
Proof.
  unfold gen_etc_hostname, when, hostname_lines. destruct (ETCHOSTNAME cfg); [|intros _; apply generates_nothing].
  rewrite find_einfo_head. intros Hf. specialize (Hf eq_refl).
  rewrite head_present.
  destruct (head _) as [h|]; [|apply generates_nothing]. cbn [fmap option_fmap option_map] in *.
  intros s Hi. destruct (generates_file p fmode (fun fd => or_out (cf_nprintf fd 128 (text "%s" ++ NL) [h])) [h ++ NL]) with s
    as (rc & s' & Hrun & Hrest); [|done|].
  { intros fd. by apply emits_lines_print; [|apply Hf]. }
  exists rc, s'. split; [|done]. rewrite <- Hrun. apply creating_ext. intros fd s1. apply hostname_closing.
Qed.

(** ** All of them *)

Definition etc_dir : list byte := text "/etc".
Definition resolv_path : list byte := text "/etc/resolv.conf".
Definition hosts_path : list byte := text "/etc/hosts".
Definition hostname_path : list byte := text "/etc/hostname".

(** Every line of a file that is to be made fits. *)
Record etc_fits : Prop := {
  fit_resolv : ETCRESOLVCONF cfg = true -> Forall fits resolv_lines;
  fit_hosts : ETCHOSTS cfg = true -> Forall fits (hosts_lines cfg) /\ Forall address_fits devices;
  fit_hostname : ETCHOSTNAME cfg = true -> forall ls, hostname_lines = Some ls -> Forall fits ls
}.

(** What [/etc] is in [s'] when it was generated in [s]. *)
Record etc_made (s s' : S) : Prop := {
  em_fds : same_fds s s';
  em_dir : is_Some (cs_node s' etc_dir);
  em_resolv : file_outcome (when (ETCRESOLVCONF cfg) (Some resolv_lines)) 0x1a4 (cs_node s resolv_path) (cs_node s' resolv_path);
  em_hosts : file_outcome (when (ETCHOSTS cfg) (Some (hosts_lines cfg))) 0x1a4 (cs_node s hosts_path) (cs_node s' hosts_path);
  em_hostname : file_outcome (when (ETCHOSTNAME cfg) hostname_lines) 0x124 (cs_node s hostname_path) (cs_node s' hostname_path)
}.

(** One step of [gen_etc]: go on, or leave with the code. *)
Lemma gen_step m p fmode ls s (P : S -> Prop) (Q : Z -> S -> Prop) :
  generates m p fmode ls -> cs_inv s ->
  (forall s', same_except [p] s s' -> same_fds s s' -> file_outcome ls fmode (cs_node s p) (cs_node s' p) -> P s') ->
  (forall rc s', rc < 0 -> same_except [p] s s' -> Q rc s') ->
  wpe (or_out m) (fun _ => P) Q s.
Proof.
  intros Hm Hi Hk Hq. unfold or_out. apply wpe_bind. unfold wpe at 1.
  destruct (Hm s Hi) as (rc & s' & -> & Hex & [(-> & Hfds & Hout)|Hneg]); [by apply Hk|].
  destruct (Z.ltb_spec rc 0); [by apply Hq|lia].
Qed.

Definition etc_paths : list (list byte) := [etc_dir; resolv_path; hosts_path; hostname_path].

(** The paths are different. *)
Ltac other_path := refine (bool_decide_unpack _ _); vm_compute; done.

(** The steps put together. *)
Lemma etc_made_by s s1 s2 s3 s4 :
  same_except [etc_dir] s s1 -> same_fds s s1 -> is_Some (cs_node s1 etc_dir) ->
  same_except [resolv_path] s1 s2 -> same_fds s1 s2 ->
  file_outcome (when (ETCRESOLVCONF cfg) (Some resolv_lines)) 0x1a4 (cs_node s1 resolv_path) (cs_node s2 resolv_path) ->
  same_except [hosts_path] s2 s3 -> same_fds s2 s3 ->
  file_outcome (when (ETCHOSTS cfg) (Some (hosts_lines cfg))) 0x1a4 (cs_node s2 hosts_path) (cs_node s3 hosts_path) ->
  same_except [hostname_path] s3 s4 -> same_fds s3 s4 ->
  file_outcome (when (ETCHOSTNAME cfg) hostname_lines) 0x124 (cs_node s3 hostname_path) (cs_node s4 hostname_path) ->
  etc_made s s4.
Proof.
  intros [_ X1] F1 D1 [_ X2] F2 O2 [_ X3] F3 O3 [_ X4] F4 O4. split.
  - intros g. by rewrite F4, F3, F2, F1.
  - by rewrite X4, X3, X2 by other_path.
  - rewrite X4, X3 by other_path. rewrite <- (X1 resolv_path) by other_path. done.
  - rewrite X4 by other_path. rewrite <- (X1 hosts_path), <- (X2 hosts_path) by other_path. done.
  - rewrite <- (X1 hostname_path), <- (X2 hostname_path), <- (X3 hostname_path) by other_path. done.
Qed.

End Facts.
