(* ===== verification/EtcRun.v ===== *)
(** * A file system for the files of [/etc]

    A small file system that keeps the promises of [ConfLaws] and answers writes
    from a script -- short, interrupted or failing -- and [gen_etc] on it. *)

From Stdlib Require Import Strings.Byte.
From stdpp Require Import base numbers option strings sets list.
From S2P Require Import Prelude Err Conf ConfFacts Etc EtcFacts.

(** ** The machine *)

Inductive response : Type := Short (k : nat) | Interrupted | NoSpace.

Record Disk : Type := MkDisk {
  d_node : list byte -> option node;
  d_fd : Z -> option (list byte);
  d_next : Z;
  d_script : list response;
  d_chmods : bool
}.

Fixpoint count_interrupted (l : list response) : nat :=
  match l with
  | [] => 0
  | Interrupted :: l => Datatypes.S (count_interrupted l)
  | _ :: l => count_interrupted l
  end.
Definition disk_interruptions (d : Disk) : nat := count_interrupted (d_script d).

Definition set_node (p : list byte) (n : node) (d : Disk) : Disk :=
  MkDisk (fun q => if decide (q = p) then Some n else d_node d q) (d_fd d) (d_next d) (d_script d) (d_chmods d).
Definition set_script (l : list response) (d : Disk) : Disk :=
  MkDisk (d_node d) (d_fd d) (d_next d) l (d_chmods d).
Definition set_fd (fd : Z) (o : option (list byte)) (next : Z) (d : Disk) : Disk :=
  MkDisk (d_node d) (fun g => if decide (g = fd) then o else d_fd d g) next (d_script d) (d_chmods d).

Definition disk_stat (p : list byte) (d : Disk) : Z * Z :=
  match d_node d p with Some n => (0, n_mode n) | None => (- CENOENT, 0) end.

Definition disk_open (p : list byte) (flags mode : Z) (d : Disk) : Z * Disk :=
  if d_next d <? 2 ^ 31 then
    let m := match d_node d p with Some n => n_mode n | None => Z.lor S_IFREG mode end in
    (d_next d, set_fd (d_next d) (Some p) (d_next d + 1) (set_node p (MkNode m []) d))
  else (-24, d).

Definition disk_chmod (p : list byte) (mode : Z) (d : Disk) : Z * Disk :=
  match d_node d p, d_chmods d with
  | Some n, true => (0, set_node p (MkNode (Z.lor (Z.ldiff (n_mode n) 0xfff) (perms mode)) (n_data n)) d)
  | _, _ => (-1, d)
  end.

Definition disk_mkdir (p : list byte) (mode : Z) (d : Disk) : Z * Disk :=
  (0, set_node p (MkNode (Z.lor S_IFDIR mode) []) d).

(** A write of [k] bytes at most, one at least. *)
Definition disk_append (k : nat) (fd : Z) (b : list byte) (d : Disk) : Z * Disk :=
  match d_fd d fd ≫= d_node d, d_fd d fd with
  | Some n, Some p =>
    let b := take (Datatypes.S k) b in
    (Z.of_nat (length b), set_node p (MkNode (n_mode n) (n_data n ++ b)) d)
  | _, _ => (-9, d)
  end.

Definition disk_write (fd : Z) (b : list byte) (d : Disk) : Z * Disk :=
  match d_script d with
  | [] => disk_append (length b) fd b d
  | Short k :: l => disk_append k fd b (set_script l d)
  | Interrupted :: l => (- CEINTR, set_script l d)
  | NoSpace :: l => (-28, set_script l d)
  end.

Definition disk_close (fd : Z) (d : Disk) : Z * Disk := (0, set_fd fd None (d_next d) d).

#[global] Instance disk_sys : ConfSys Disk := {|
  uk_syscall_r_stat := disk_stat;
  libc_stat := disk_stat;
  uk_syscall_r_open := disk_open;
  uk_syscall_r_chmod := disk_chmod;
  uk_syscall_r_mkdir := disk_mkdir;
  uk_syscall_r_write := disk_write;
  uk_syscall_r_close := disk_close;
  interruptions := disk_interruptions
|}.

(** Descriptors stand for files, and those to come are free. *)
Record disk_inv (d : Disk) : Prop := {
  di_next : 0 <= d_next d;
  di_free g : d_next d <= g -> d_fd d g = None;
  di_fd g p : d_fd d g = Some p -> is_Some (d_node d p)
}.

Lemma set_node_inv p n d : disk_inv d -> disk_inv (set_node p n d).
Proof. intros [N F D]. split; [done|done|]. cbn. intros g q Hg. destruct (decide (q = p)); [done|eauto]. Qed.

Lemma set_script_inv l d : disk_inv d -> disk_inv (set_script l d).
Proof. by intros [N F D]. Qed.

Lemma set_node_except p n d : disk_inv d -> disk_inv (set_node p n d) /\ forall q, q ∉ [p] -> d_node (set_node p n d) q = d_node d q.
Proof.
  intros Hi. split; [by apply set_node_inv|]. intros q Hq. cbn. rewrite decide_False; [done|set_solver].
Qed.

Lemma perms_of m mode : perms (Z.lor (Z.ldiff m 0xfff) (perms mode)) = perms mode.
Proof.
  unfold perms. rewrite Z.land_lor_distr_l, <- Z.land_assoc, Z.land_diag. 
  assert (Z.land (Z.ldiff m 0xfff) 0xfff = 0) as ->; [|done].
  apply Z.bits_inj'. intros n Hn. rewrite Z.land_spec, Z.ldiff_spec, Z.bits_0. by destruct (Z.testbit m n), (Z.testbit _ n).
Qed.

Lemma disk_append_law k fd p n b d :
  disk_inv d -> d_fd d fd = Some p -> d_node d p = Some n ->
  exists rc d', disk_append k fd b d = (rc, d') /\ 0 <= rc <= Z.of_nat (length b) /\ (b <> [] -> 0 < rc) /\
    (disk_inv d' /\ forall q, q ∉ [p] -> d_node d' q = d_node d q) /\ d_fd d' = d_fd d /\ d_script d' = d_script d /\
    d_node d' p = Some (MkNode (n_mode n) (n_data n ++ take (Z.to_nat rc) b)).
Proof.
  intros Hi Hf Hn. unfold disk_append. rewrite Hf. cbn [mbind option_bind]. rewrite Hn.
  eexists _, _. split; [done|]. rewrite length_take. split; [lia|]. split.
  { intros Hb. destruct b; [done|]. cbn. lia. }
  split; [by apply set_node_except|]. split; [done|]. split; [done|]. cbn [d_node set_node]. rewrite decide_True by done.
  do 3 f_equal. rewrite Nat2Z.id. destruct (Nat.le_ge_cases (Datatypes.S k) (length b)).
  - by rewrite Nat.min_l by lia.
  - by rewrite !take_ge by lia.
Qed.

#[global] Instance disk_laws : ConfLaws Disk.
Proof.
  refine {| cs_inv := disk_inv; cs_node := d_node; cs_fd := d_fd |}; cbn.
  - intros s fd p Hi. apply (di_fd _ Hi).
  - intros s p Hi. unfold disk_stat. destruct (d_node s p) as [n|]; [by left|]. right. by unfold i32.
  - intros s p Hi. unfold disk_stat. destruct (d_node s p) as [n|]; [by left|by right].
  - intros s p Hi. unfold disk_open. destruct (Z.ltb_spec (d_next s) (2 ^ 31)).
    + pose proof Hi as [N F D]. split; [unfold i32; lia|]. split; [done|]. right. split; [done|]. split.
      * split; [|by apply set_node_except]. split; cbn; [lia|intros g Hg; rewrite decide_False by lia; apply F; lia|].
        intros g q Hg. destruct (decide (q = p)); [done|]. destruct (decide (g = d_next s)); [congruence|eauto].
      * cbn. rewrite decide_True by done. split; [done|]. split; [apply F; lia|done].
    + split; [done|]. split; [done|]. left. by repeat split; try apply Hi.
  - intros s p m Hi. unfold disk_chmod. destruct (d_node s p) as [n|] eqn:Hn; [destruct (d_chmods s)|];
      (split; [done|]; split; [done|]; split; [done|]).
    + right. split; [done|]. split; [by apply set_node_except|]. eexists n, _. split; [done|]. cbn. rewrite decide_True by done.
      split; [done|]. split; [done|]. apply perms_of.
    + by left.
    + by left.
  - intros s p m Hi. unfold disk_mkdir. split; [done|]. split; [done|]. split; [done|]. right. split; [done|].
    split; [by apply set_node_except|]. eexists. cbn. rewrite decide_True by done. split; [done|]. cbn.
    intros H%(f_equal (fun z => Z.testbit z 14)). rewrite Z.land_spec, Z.lor_spec in H. done.
  - intros s fd p n d Hi Hf Hn. unfold disk_write.
    destruct (d_script s) as [|[k| |] l] eqn:Hl; [| |split; [done|left].. ].
    + destruct (disk_append_law (length d) fd p n d s Hi Hf Hn) as (rc & s' & -> & H1 & H2 & H3 & H4 & H5 & H6).
      split; [by rewrite H4|]. right. unfold disk_interruptions. rewrite H5. auto.
    + destruct (disk_append_law k fd p n d (set_script l s) (set_script_inv l s Hi) Hf Hn)
        as (rc & s' & -> & H1 & H2 & H3 & H4 & H5 & H6).
      split; [by rewrite H4|]. right. unfold disk_interruptions. rewrite H5, Hl. auto.
    + unfold disk_interruptions. rewrite Hl. cbn. repeat split; try done; try apply Hi; lia.
    + unfold disk_interruptions. rewrite Hl. cbn. repeat split; try done; try apply Hi. unfold CEAGAIN, CEINTR. lia.
  - intros s fd Hi. unfold disk_close. split; [|done]. pose proof Hi as [N F D]. split; [|done]. split; cbn; [done| |].
    + intros g Hg. destruct (decide (g = fd)); auto.
    + intros g p. destruct (decide (g = fd)); [done|eauto].
Defined.

(** ** A boot *)

#[local] Instance fits_dec l : Decision (fits l).
Proof. unfold fits. apply _. Defined.

(** Two devices and a hole between them. *)
Definition demo_netdev (i : nat) : option (Einfo -> option (list byte)) :=
  match i with
  | 0%nat => Some (fun p => match p with
      | IPV4_CIDR => Some (text "10.0.0.2/24")
      | IPV4_DNS0 => Some (text "10.0.0.1")
      | IPV4_HOSTNAME => Some (text "box")
      | IPV4_DOMAIN => Some (text "lan")
      | _ => None
      end)
  | 2%nat => Some (fun p => match p with
      | IPV4_ADDR => Some (text "192.168.1.5")
      | IPV4_DNS0 => Some []
      | IPV4_DNS1 => Some (text "8.8.8.8")
      | IPV4_HOSTNAME => Some (text "wan")
      | _ => None
      end)
  | _ => None
  end.

#[global] Instance demo_devs : NetDevs := {|
  netdev := Einfo -> option (list byte);
  uk_netdev_count := 3;
  uk_netdev_get := demo_netdev;
  uk_netdev_einfo_get := fun nd p => nd p
|}.

Definition demo_etc : EtcCfg := MkEtcCfg true true true true SKIPEXIST.

(** A [/etc/hostname] that is there already, and a system that interrupts. *)
Definition demo_disk : Disk :=
  MkDisk (fun p => if decide (p = hostname_path) then Some (MkNode 0x81a4 (text "kept")) else None) (fun _ => None) 3
    [Interrupted; Short 3; Interrupted; Interrupted; Short 0; Short 11] true.

Lemma demo_disk_inv : cs_inv demo_disk.
Proof. by split. Qed.

Lemma demo_fits : etc_fits demo_etc.
Proof.
  split; [intros _|intros _; split|intros _ ls Hls].
  - refine (bool_decide_unpack _ _). by vm_compute.
  - refine (bool_decide_unpack _ _). by vm_compute.
  - change (Forall address_fits [default (fun _ => None) (demo_netdev 0); default (fun _ => None) (demo_netdev 2)]).
    by repeat constructor.
  - vm_compute in Hls. injection Hls as <-. refine (bool_decide_unpack _ _). by vm_compute.
Qed.


(** What a reader finds afterwards. *)
Example demo_contents :
  let s' := (gen_etc demo_etc demo_disk).2 in
  (n_data <$> d_node s' resolv_path) = Some (text "nameserver 10.0.0.1" ++ NL ++ text "nameserver 8.8.8.8" ++ NL ++
                                             text "search lan" ++ NL ++ text "domain lan" ++ NL) /\
  (n_data <$> d_node s' hosts_path) = Some (text "127.0.0.1" ++ TAB ++ text "localhost" ++ NL ++
                                            text "10.0.0.2" ++ TAB ++ text "box box.lan" ++ NL ++
                                            text "192.168.1.5" ++ TAB ++ text "wan" ++ NL) /\
  (n_data <$> d_node s' hostname_path) = Some (text "kept").
Proof. vm_compute. done. Qed.

(** A descriptor on the disk, for the functions that take one. *)
Definition open_disk : Disk := (disk_open (text "/f") 0 0 demo_disk).2.

Lemma open_disk_inv : cs_inv open_disk.
Proof.
  change (disk_inv (set_fd 3 (Some (text "/f")) 4 (set_node (text "/f") (MkNode S_IFREG []) demo_disk))).
  split; cbn [d_next d_fd set_fd set_node]; [lia| |].
  - intros g Hg. by rewrite decide_False by lia.
  - intros g p. destruct (decide (g = 3)); [|done]. intros [= <-]. vm_compute. by eexists.
Qed.

Lemma cf_write_spec_witness :
  exists s', cf_write 3 (text "interrupted") 11 open_disk = (Ok 0, s') /\
    n_data <$> cs_node s' (text "/f") = Some (text "interrupted").
Proof.
  destruct (cf_write_spec 3 (text "/f") (text "interrupted") 11 open_disk open_disk_inv)
    as (rc & s' & Hrun & _ & k & Hk & Happ & Hend); [reflexivity|vm_compute; done|lia|].
  assert (H0 : (cf_write 3 (text "interrupted") 11 open_disk).1 = Ok 0) by (vm_compute; reflexivity).
  rewrite Hrun in H0. injection H0 as ->. exists s'. split; [exact Hrun|].
  destruct Hend as [[_ ->]|]; [|lia]. by rewrite (ap_node _ _ _ _ Happ (MkNode S_IFREG []) eq_refl).
Defined.

(** A host name of two hundred bytes. *)
Lemma cf_nprintf_limit_witness :
  cf_nprintf 3 128 (text "%s" ++ NL) [replicate 200 x61] open_disk = (Panic, open_disk).
Proof.
  apply (cf_nprintf_limit 3 128 (text "%s" ++ NL) [replicate 200 x61] open_disk (text "/f") open_disk_inv);
    [reflexivity|lia|vm_compute; done].
Defined.

(** An address of sixteen bytes before the slash. *)
Lemma ip4addr_overrun_witness :
  uk_netdev_ip4addr_get (fun p => match p with IPV4_CIDR => Some (text "1000.1000.1000.1/8") | _ => None end) = Panic.
Proof. apply ip4addr_overrun. exists (text "1000.1000.1000.1/8"). by vm_compute. Defined.

(** A disk that refuses [chmod] keeps the file open. *)
Definition strict_disk : Disk := MkDisk (d_node demo_disk) (d_fd demo_disk) 3 [] false.

Lemma cf_create_leaks_witness :
  let '(r, s') := cf_create SKIPEXIST (text "/f") 0x1a4 strict_disk in r = Ok (-1) /\ cs_fd s' 3 = Some (text "/f").
Proof.
  destruct (cf_create_leaks SKIPEXIST (text "/f") 0x1a4 strict_disk 3 (disk_open (text "/f") 0 0 strict_disk).2 (-1)
    (disk_open (text "/f") 0 0 strict_disk).2) as (-> & _ & Hfd); [by split|reflexivity..|lia|reflexivity|lia|]. done.
Defined.
