(* ===== verification/TestKit.v ===== *)
(** * Assertions of the unit tests

    A [#[test]] function is an outcome: a failed assertion and an [unwrap] that
    fails are panics, and a test passes when it returns.  The sums of addresses
    inside an assertion are written on [Z]: they are of constants and of addresses
    of the fixtures, far below [2 ^ 64]. *)

From Stdlib Require Import Strings.Byte.
From stdpp Require Import base numbers option strings sets list.
From S2P Require Import Prelude Err.

(** ** Assertions *)

Abbreviation Test := (outcome Error unit).

Definition passes (t : Test) : bool := match t with Ok _ => true | _ => false end.

Definition assert (b : bool) : Test := if b then Ok tt else Panic.

Definition unwrap {E A : Type} (m : outcome E A) : outcome Error A :=
  match m with Ok a => Ok a | _ => Panic end.
Definition unwrap_err {E A : Type} (m : outcome E A) : outcome Error E :=
  match m with Err e => Ok e | _ => Panic end.
Definition expect {A : Type} (o : option A) : outcome Error A :=
  match o with Some a => Ok a | None => Panic end.

(** [assert!], [assert_eq!] and [assert_ne!] of decidable things. *)
Abbreviation assert_eq a b := (assert (bool_decide (a = b))).
Abbreviation assert_ne a b := (assert (bool_decide (a <> b))).

(** A string literal. *)
Definition bytes (s : string) : list byte := String.list_byte_of_string s.

(** [for x in l]. *)
Fixpoint each {A : Type} (l : list A) (f : A -> Test) : Test :=
  match l with
  | [] => Ok tt
  | x :: l => _ ← f x; each l f
  end.

(** The assertions about a value of which only the shape is tested. *)
Definition is_some {A : Type} (o : option A) : bool := match o with Some _ => true | None => false end.
Definition is_ok {E A : Type} (m : outcome E A) : bool := match m with Ok _ => true | _ => false end.

(** A loop passes when each of its turns does. *)
Lemma each_pass {A} (l : list A) f : (forall x, x ∈ l -> f x = Ok tt) -> each l f = Ok tt.
Proof.
  induction l as [|x l IH]; intros H; cbn [each]; [done|].
  rewrite H by apply list_elem_of_here. cbn [mbind outcome_bind]. apply IH. intros y Hy. by apply H, list_elem_of_further.
Qed.
