(* ===== verification/Tests.v ===== *)
(** * The unit tests of the parser, the planner and the helpers

    The [#[test]] functions of [rust/src/elf.rs], [rust/src/layout.rs],
    [rust/src/util.rs] and [rust/src/log.rs], run on the model.  They pass on both
    architectures. *)

From Stdlib Require Import Strings.Byte.
From stdpp Require Import base numbers option strings sets list pretty.
From S2P Require Import Prelude Err Log Util Elf TestImage Layout TestKit.

Section Tests.
Context {target : Target}.
#[local] Instance test_heap : Heap := plenty.

Abbreviation new := (builder_new (target:=target)).

(** ** elf.rs *)

Definition is_malformed (r : Reject) : bool := match r with Malformed _ => true | _ => false end.
Definition is_unsupported (r : Reject) : bool := match r with Unsupported _ => true | _ => false end.

Definition parses_a_minimal_pie : Test :=
  img ← build (pie_two_segment new);
  e ← unwrap (Image_parse (slice_source img) 4096);
  _ ← assert (is_pie e);
  _ ← assert_eq (length (loads e)) 2%nat;
  _ ← assert (negb (needs_interp e));
  '(lo, _) ← unwrap (va_span e 4096);
  assert_eq lo 0.

Definition accepts_non_pie : Test :=
  img ← build (non_pie new);
  e ← unwrap (Image_parse (slice_source img) 4096);
  _ ← assert (negb (is_pie e));
  _ ← assert_eq (e_type (ehdr e)) ET_EXEC;
  '(lo, _) ← unwrap (va_span e 4096);
  assert_eq lo 0x400000.

Definition accepts_glibc_style_64k_alignment : Test :=
  img ← build (glibc_arm64_style new);
  e ← unwrap (Image_parse (slice_source img) 4096);
  a ← load_align e 4096;
  _ ← assert_eq a 0x10000;
  _ ← assert (needs_interp e);
  p ← unwrap (interp_path e (slice_source img));
  assert_eq p (bytes "/lib/ld-linux-aarch64.so.1").

Definition rejects_non_elf : Test :=
  r1 ← unwrap_err (Image_parse (slice_source (bytes "#!/bin/sh" ++ [x0a])) 4096);
  _ ← assert_eq r1 NotElf;
  r2 ← unwrap_err (Image_parse (slice_source []) 4096);
  assert_eq r2 NotElf.

Definition rejects_wrong_machine : Test :=
  img ← build (machine 0x1234 (pie_two_segment new));
  r ← unwrap_err (Image_parse (slice_source img) 4096);
  assert (is_unsupported r).

Definition rejects_truncated_phdr_table : Test :=
  img ← build (pie_two_segment new);
  r ← unwrap_err (Image_parse (slice_source (take 72 img)) 4096);
  assert (is_malformed r).

(** What the tests change of a program header. *)
Definition set_flags (v : Z) (p : Phdr) : Phdr :=
  MkPhdr (p_type p) v (p_offset p) (p_vaddr p) (p_paddr p) (p_filesz p) (p_memsz p) (p_align p).
Definition set_offset (v : Z) (p : Phdr) : Phdr :=
  MkPhdr (p_type p) (p_flags p) v (p_vaddr p) (p_paddr p) (p_filesz p) (p_memsz p) (p_align p).
Definition set_vaddr (v : Z) (p : Phdr) : Phdr :=
  MkPhdr (p_type p) (p_flags p) (p_offset p) v (p_paddr p) (p_filesz p) (p_memsz p) (p_align p).
Definition set_filesz (v : Z) (p : Phdr) : Phdr :=
  MkPhdr (p_type p) (p_flags p) (p_offset p) (p_vaddr p) (p_paddr p) v (p_memsz p) (p_align p).
Definition set_memsz (v : Z) (p : Phdr) : Phdr :=
  MkPhdr (p_type p) (p_flags p) (p_offset p) (p_vaddr p) (p_paddr p) (p_filesz p) v (p_align p).

Definition rejects_segment_past_end_of_file : Test :=
  img ← build (patch_phdr 0 (set_filesz (Z.shiftl 1 40)) (pie_two_segment new));
  r ← unwrap_err (Image_parse (slice_source img) 4096);
  assert (is_malformed r).

Definition rejects_vaddr_memsz_overflow : Test :=
  img ← build (patch_phdr 0 (fun p => set_memsz 0x2000 (set_vaddr (u64_max - 0xfff) p)) (pie_two_segment new));
  r ← unwrap_err (Image_parse (slice_source img) 4096);
  assert (is_malformed r).

Definition rejects_filesz_greater_than_memsz : Test :=
  img ← build (patch_phdr 0 (set_memsz 1) (pie_two_segment new));
  r ← unwrap_err (Image_parse (slice_source img) 4096);
  assert (is_malformed r).

Definition rejects_non_congruent_segment : Test :=
  img ← build (patch_phdr 0 (fun p => set_vaddr (p_vaddr p + 0x40) p) (pie_two_segment new));
  r ← unwrap_err (Image_parse (slice_source img) 4096);
  assert (is_malformed r).

Definition rejects_overlapping_segments : Test :=
  img ← build (patch_phdr 1 (set_vaddr 0) (pie_two_segment new));
  r ← unwrap_err (Image_parse (slice_source img) 4096);
  assert (is_malformed r).

Definition rejects_pn_xnum : Test :=
  img ← build (phnum_xnum (pie_two_segment new));
  r ← unwrap_err (Image_parse (slice_source img) 4096);
  assert (is_unsupported r).

Definition rejects_unterminated_interp : Test :=
  img ← build (interp_without_nul new);
  e ← unwrap (Image_parse (slice_source img) 4096);
  r ← unwrap_err (interp_path e (slice_source img));
  assert_eq r ENOEXEC.

Definition segments_are_sorted_by_vaddr : Test :=
  img ← build (reverse_phdrs (pie_two_segment new));
  e ← unwrap (Image_parse (slice_source img) 4096);
  i ← index (loads e) 0;
  j ← index (loads e) 1;
  a ← index (phdrs e) i;
  b ← index (phdrs e) j;
  assert (p_vaddr a <? p_vaddr b).

Definition notices_executable_stack_request : Test :=
  img ← build (with_exec_stack (pie_two_segment new));
  e ← unwrap (Image_parse (slice_source img) 4096);
  assert (exec_stack e).

Definition elf_tests : list Test :=
  [parses_a_minimal_pie; accepts_non_pie; accepts_glibc_style_64k_alignment; rejects_non_elf; rejects_wrong_machine;
   rejects_truncated_phdr_table; rejects_segment_past_end_of_file; rejects_vaddr_memsz_overflow;
   rejects_filesz_greater_than_memsz; rejects_non_congruent_segment; rejects_overlapping_segments; rejects_pn_xnum;
   rejects_unterminated_interp; segments_are_sorted_by_vaddr; notices_executable_stack_request].

(** ** layout.rs *)

Definition parse (img : list byte) : outcome Error Image := unwrap (Image_parse (slice_source img) 4096).

Definition prot_bits_follow_pf_flags_not_prot_constants : Test :=
  let ph := set_flags (Z.lor PF_R PF_X) Phdr_default in
  _ ← assert_eq (prot_of ph) (Z.lor PROT_READ PROT_EXEC);
  let ph := set_flags (Z.lor PF_R PF_W) ph in
  _ ← assert_eq (prot_of ph) (Z.lor PROT_READ PROT_WRITE);
  _ ← assert_eq (Z.land (prot_of ph) PROT_EXEC) 0;
  let ph := set_flags 0 ph in
  assert_eq (prot_of ph) PROT_NONE.

Definition pie_is_biased_to_the_chosen_base : Test :=
  b ← build (pie_two_segment new);
  img ← parse b;
  p ← unwrap (plan img 4096 (At 0x10000000));
  _ ← assert_eq (bias p) 0x10000000;
  _ ← assert_eq (base p) 0x10000000;
  e ← add64 (e_entry (ehdr img)) 0x10000000;
  assert_eq (entry p) e.

Definition non_pie_keeps_its_link_address : Test :=
  b ← build (non_pie new);
  img ← parse b;
  p ← unwrap (plan img 4096 Fixed);
  _ ← assert_eq (bias p) 0;
  _ ← assert_eq (base p) 0x400000;
  _ ← assert_eq (entry p) (e_entry (ehdr img));
  assert (reserve_len p <? 0x400000).

Definition reservation_absorbs_alignment_slack : Test :=
  b ← build (glibc_arm64_style new);
  img ← parse b;
  need ← unwrap (reservation_len img 4096);
  '(lo, hi) ← unwrap (va_span img 4096);
  _ ← assert_eq need (hi - lo + 0x10000 - 0x1000);
  p ← unwrap (plan img 4096 (At 0x20000000));
  _ ← assert_eq (bias p) 0x20000000;
  _ ← assert_eq (reserve_addr p) 0x20000000;
  _ ← assert_eq (reserve_len p) need;
  assert (end_ p <=? reserve_addr p + reserve_len p).

Definition unaligned_reservation_base_is_rounded_up : Test :=
  b ← build (glibc_arm64_style new);
  img ← parse b;
  p ← unwrap (plan img 4096 (At 0x20001000));
  _ ← assert_eq (base p) 0x20010000;
  _ ← assert_eq (reserve_addr p) 0x20001000;
  _ ← assert (reserve_addr p <? base p);
  assert (end_ p <=? reserve_addr p + reserve_len p).

(** [segments.iter().find(..)], the test of a segment looking at its header. *)
Fixpoint find_seg (f : SegmentPlan -> outcome Error bool) (l : list SegmentPlan) : outcome Error SegmentPlan :=
  match l with
  | [] => Panic
  | s :: l => hit ← f s; if hit : bool then Ok s else find_seg f l
  end.

Definition rounded_up (a : Z) : outcome Error Z :=
  r ← align_up a 4096;
  expect r.

Definition bss_is_split_into_a_zeroed_tail_and_anonymous_pages : Test :=
  b ← build (glibc_arm64_style new);
  img ← parse b;
  p ← unwrap (plan img 4096 (At 0x10000000));
  data ← find_seg (fun s => ph ← index (phdrs img) (idx s); Ok (is_write ph)) (segments p);
  ph ← index (phdrs img) (idx data);
  let vaddr := p_vaddr ph + bias p in
  let fend := vaddr + p_filesz ph in
  z ← expect (zero data);
  up ← rounded_up fend;
  _ ← assert_eq (a_addr z) fend;
  _ ← assert_eq (a_addr z + a_len z) up;
  a ← expect (anon data);
  mup ← rounded_up (vaddr + p_memsz ph);
  _ ← assert_eq (a_addr a) up;
  _ ← assert_eq (a_addr a + a_len a) mup;
  f ← expect (file data);
  _ ← assert_eq (f_addr f mod 4096) 0;
  _ ← assert_eq (f_off f mod 4096) 0;
  assert_eq (f_addr f + f_len f) up.

Definition read_only_segment_with_bss_gets_a_write_window : Test :=
  b ← build (patch_phdr 0 (fun p => set_memsz 0x1100 (set_filesz 0xf00 (set_flags (Z.lor PF_R PF_X) p))) (pie_two_segment new));
  img ← parse b;
  p ← unwrap (plan img 4096 (At 0x10000000));
  s ← index (segments p) 0;
  _ ← assert (is_some (zero s));
  _ ← assert (needs_write_window s);
  assert_eq (prot s) (Z.lor PROT_READ PROT_EXEC).

Definition zero_filesz_segment_is_entirely_anonymous : Test :=
  b ← build (patch_phdr 1 (fun p => set_memsz 0x3000 (set_filesz 0 p)) (pie_two_segment new));
  img ← parse b;
  p ← unwrap (plan img 4096 (At 0x10000000));
  s ← find_seg (fun s => Ok (idx s =? 1)%nat) (segments p);
  _ ← assert (negb (is_some (file s)));
  _ ← assert (negb (is_some (zero s)));
  a ← expect (anon s);
  assert_eq (a_len a) 0x3000.

Definition file_mapping_offset_stays_congruent_for_unaligned_vaddr : Test :=
  b ← build (unaligned_second_segment new);
  img ← parse b;
  p ← unwrap (plan img 4096 (At 0x10000000));
  each (segments p) (fun s =>
    match file s with
    | None => Ok tt
    | Some f =>
      ph ← index (phdrs img) (idx s);
      _ ← assert_eq (f_addr f mod 4096) 0;
      _ ← assert_eq (f_off f mod 4096) 0;
      d ← sub64 (p_offset ph) (f_off f);
      assert_eq (f_addr f + d) (p_vaddr ph + bias p)
    end).

(** [ranges.windows(2)]. *)
Fixpoint windows {A : Type} (l : list A) : list (A * A) :=
  match l with
  | x :: (y :: _) as l' => (x, y) :: windows l'
  | _ => []
  end.

Fixpoint ranges_of (l : list SegmentPlan) : outcome Error (list (Z * Z)) :=
  match l with
  | [] => Ok []
  | s :: l => r ← range s; rest ← ranges_of l; Ok (r :: rest)
  end.

Definition segments_never_overlap_in_the_plan : Test :=
  each [pie_two_segment new; glibc_arm64_style new; non_pie new; four_segment_separate_code new] (fun eb =>
    img ← build eb;
    e ← parse img;
    let placement := if is_pie e then At 0x10000000 else Fixed in
    p ← unwrap (plan e 4096 placement);
    rs ← ranges_of (segments p);
    let rs := sort_by_key fst (sort_by_key snd rs) in
    _ ← each (windows rs) (fun w => assert (w.1.2 <=? w.2.1));
    each rs (fun r =>
      _ ← assert (reserve_addr p <=? r.1);
      assert (r.2 <=? reserve_addr p + reserve_len p))).

Definition phdr_addr_prefers_pt_phdr_then_falls_back : Test :=
  b ← build (glibc_arm64_style new);
  img ← parse b;
  p ← unwrap (plan img 4096 (At 0x10000000));
  pt_phdr ← expect (phdr_seg img);
  a ← phdr_addr p img;
  _ ← assert_eq a (Some (p_vaddr pt_phdr + bias p));
  b2 ← build (drop_pt_phdr (glibc_arm64_style new));
  img2 ← parse b2;
  p2 ← unwrap (plan img2 4096 (At 0x10000000));
  a2 ← phdr_addr p2 img2;
  assert_eq a2 (Some (e_phoff (ehdr img2) + bias p2)).

Fixpoint find_phdr (img : Image) (f : Phdr -> bool) (l : list nat) : outcome Error Phdr :=
  match l with
  | [] => Panic
  | i :: l => ph ← index (phdrs img) i; if f ph then Ok ph else find_phdr img f l
  end.

Definition exec_ranges_cover_only_executable_segments : Test :=
  b ← build (four_segment_separate_code new);
  img ← parse b;
  p ← unwrap (plan img 4096 (At 0x10000000));
  ranges ← exec_ranges p img;
  _ ← assert_eq (length ranges) 1%nat;
  x ← find_phdr img is_exec (loads img);
  r ← index ranges 0;
  _ ← assert (r.1 <=? p_vaddr x + bias p);
  assert (p_vaddr x + bias p + p_memsz x <=? r.1 + r.2).

Definition layout_tests : list Test :=
  [prot_bits_follow_pf_flags_not_prot_constants; pie_is_biased_to_the_chosen_base; non_pie_keeps_its_link_address;
   reservation_absorbs_alignment_slack; unaligned_reservation_base_is_rounded_up;
   bss_is_split_into_a_zeroed_tail_and_anonymous_pages; read_only_segment_with_bss_gets_a_write_window;
   zero_filesz_segment_is_entirely_anonymous; file_mapping_offset_stays_congruent_for_unaligned_vaddr;
   segments_never_overlap_in_the_plan; phdr_addr_prefers_pt_phdr_then_falls_back;
   exec_ranges_cover_only_executable_segments].
End Tests.

(** ** util.rs *)

Definition basename_handles_the_awkward_cases : Test :=
  _ ← assert_eq (basename (bytes "/usr/bin/node")) (bytes "node");
  _ ← assert_eq (basename (bytes "node")) (bytes "node");
  _ ← assert_eq (basename (bytes "/usr/bin/")) (bytes "bin");
  _ ← assert_eq (basename (bytes "/usr/bin///")) (bytes "bin");
  _ ← assert_eq (basename (bytes "/")) (bytes "");
  _ ← assert_eq (basename (bytes "///")) (bytes "");
  _ ← assert_eq (basename (bytes "")) (bytes "");
  assert_eq (basename (bytes "./x")) (bytes "x").

Definition only_bare_names_are_searched : Test :=
  _ ← assert (is_bare_name (bytes "node"));
  _ ← assert (negb (is_bare_name (bytes "/usr/bin/node")));
  _ ← assert (negb (is_bare_name (bytes "./node")));
  _ ← assert (negb (is_bare_name (bytes "../node")));
  _ ← assert (negb (is_bare_name (bytes "bin/node")));
  assert (negb (is_bare_name (bytes ""))).

Definition candidates_cover_each_element_in_order : Test :=
  assert_eq (path_candidates (heap:=plenty) (bytes "node") (bytes "/usr/local/bin:/usr/bin:/bin"))
    [bytes "/usr/local/bin/node"; bytes "/usr/bin/node"; bytes "/bin/node"].

Definition trailing_slashes_do_not_double_up : Test :=
  assert_eq (path_candidates (heap:=plenty) (bytes "node") (bytes "/usr/bin/")) [bytes "/usr/bin/node"].

Definition an_empty_element_means_the_current_directory : Test :=
  assert_eq (path_candidates (heap:=plenty) (bytes "node") (bytes "/bin::/usr/bin"))
    [bytes "/bin/node"; bytes "./node"; bytes "/usr/bin/node"].

Definition show_escapes_non_printable_bytes : Test :=
  assert_eq (show (bytes "/usr/bin" ++ [x01; xff])) (bytes "/usr/bin??").

Definition util_tests : list Test :=
  [basename_handles_the_awkward_cases; only_bare_names_are_searched; candidates_cover_each_element_in_order;
   trailing_slashes_do_not_double_up; an_empty_element_means_the_current_directory; show_escapes_non_printable_bytes].

(** ** log.rs *)

Definition truncates_instead_of_overflowing : Test :=
  b ← write_fmt Buf_new [replicate (MSG_MAX * 2) x78];
  msg ← finish b;
  _ ← assert (length msg <=? MSG_MAX)%nat;
  last ← slice msg (length msg - 4) 4;
  assert_eq last (bytes "..." ++ [x00]).

Definition short_messages_are_nul_terminated_verbatim : Test :=
  b ← write_fmt Buf_new [bytes "hello "; bytes (pretty 42)];
  msg ← finish b;
  assert_eq msg (bytes "hello 42" ++ [x00]).

Definition log_tests : list Test := [truncates_instead_of_overflowing; short_messages_are_nul_terminated_verbatim].

(** ** The suites pass *)

Lemma elf_tests_pass : forallb passes (elf_tests (target:=true) ++ elf_tests (target:=false)) = true.
Proof. vm_cast_no_check (eq_refl true). Qed.

Lemma layout_tests_pass : forallb passes (layout_tests (target:=true) ++ layout_tests (target:=false)) = true.
Proof. vm_cast_no_check (eq_refl true). Qed.

Lemma util_tests_pass : forallb passes util_tests = true.
Proof. vm_cast_no_check (eq_refl true). Qed.

Lemma log_tests_pass : forallb passes log_tests = true.
Proof. vm_cast_no_check (eq_refl true). Qed.
