(* ===== verification/StackTests.v ===== *)
(** * The unit tests of the initial stack ([rust/src/auxv.rs])

    The [#[test]] functions of [auxv.rs], run on the model stack. *)

From Stdlib Require Import Strings.Byte.
From stdpp Require Import base numbers option strings sets list pretty.
From S2P Require Import Prelude Err TestImage VmSpec Auxv AuxvFacts StackFits FakeStack TestKit.

#[local] Instance test_heap : Heap := plenty.

Definition spec : AuxvSpec := {|
  phdr := Some 0x10000040;
  phent := 56;
  phnum := 9;
  base := 0x20000000;
  entry := 0x10007930;
  pagesz := 4096;
  uid := 0;
  gid := 0;
  hwcap := 0x3;
  hwcap2 := 0;
  clktck := 100;
  secure := false;
  random := bytes "0123456789abcdef";
  platform := bytes "aarch64";
  execfn := bytes "/usr/bin/node";
  sysinfo_ehdr := None;
  minsigstksz := Some 6144
|}.

Definition stack_64k : FakeStack := fs_new 0x70000000 (64 * 1024).

(** [build_stack(..).unwrap()], with the stack it wrote. *)
Definition laid (argv envp : list (list byte)) (aux : AuxvSpec) (s : FakeStack) : outcome Error (StackLayout * FakeStack) :=
  let '(r, s) := build_stack argv envp aux s in
  l ← unwrap r;
  Ok (l, s).

Definition round_trips_argv_envp_and_auxv : Test :=
  let argv := [bytes "/usr/bin/node"; bytes "/usr/src/server.js"] in
  let envp := [bytes "PATH=/usr/bin:/bin"; bytes "HOME=/"; bytes "PWD=/"] in
  '(l, s) ← laid argv envp spec stack_64k;
  p ← parse_stack s (sp l);
  _ ← assert_eq (pr_argv p) argv;
  _ ← assert_eq (pr_envp p) envp;
  _ ← assert_eq (get p AT_PHDR) (Some 0x10000040);
  _ ← assert_eq (get p AT_PHENT) (Some 56);
  _ ← assert_eq (get p AT_PHNUM) (Some 9);
  _ ← assert_eq (get p AT_BASE) (Some 0x20000000);
  _ ← assert_eq (get p AT_ENTRY) (Some 0x10007930);
  _ ← assert_eq (get p AT_PAGESZ) (Some 4096);
  _ ← assert_eq (get p AT_CLKTCK) (Some 100);
  _ ← assert_eq (get p AT_SECURE) (Some 0);
  assert_eq (get p AT_MINSIGSTKSZ) (Some 6144).

(** [format!("arg{i}")] and [format!("E{i}=v")] for the first few [i]. *)
Definition args (na : nat) : list (list byte) := (fun i : nat => bytes ("arg" +:+ pretty i)) <$> seq 0 na.
Definition envs (ne : nat) : list (list byte) := (fun i : nat => bytes ("E" +:+ pretty i +:+ "=v")) <$> seq 0 ne.

Definition sp_is_sixteen_byte_aligned_for_every_shape : Test :=
  each (seq 0 8) (fun na =>
    each (seq 0 8) (fun ne =>
      '(l, s) ← laid (args na) (envs ne) spec stack_64k;
      _ ← assert_eq (sp l mod 16) 0;
      p ← parse_stack s (sp l);
      assert_eq (length (pr_argv p)) na)).

Definition at_random_points_at_sixteen_readable_bytes_on_the_stack : Test :=
  '(l, s) ← laid [bytes "prog"] [] spec stack_64k;
  p ← parse_stack s (sp l);
  at_ ← expect (get p AT_RANDOM);
  _ ← assert ((sp l <=? at_) && (at_ <? fs_top s));
  b ← fs_read s at_ 16;
  assert_eq b (bytes "0123456789abcdef").

Definition platform_and_execfn_are_copied_onto_the_stack : Test :=
  '(l, s) ← laid [bytes "prog"] [] spec stack_64k;
  p ← parse_stack s (sp l);
  plat ← expect (get p AT_PLATFORM);
  exec ← expect (get p AT_EXECFN);
  _ ← each [plat; exec] (fun a => assert ((sp l <=? a) && (a <? fs_top s)));
  b ← cstr_at s plat;
  _ ← assert_eq b (bytes "aarch64");
  b ← cstr_at s exec;
  assert_eq b (bytes "/usr/bin/node").

Definition strings_are_nul_terminated_including_empty_ones : Test :=
  let argv := [bytes "prog"; bytes ""; bytes "x"] in
  let envp := [bytes ""] in
  '(l, s) ← laid argv envp spec stack_64k;
  p ← parse_stack s (sp l);
  _ ← assert_eq (pr_argv p) [bytes "prog"; []; bytes "x"];
  assert_eq (pr_envp p) [[]].

(** [keys.dedup()] on the sorted keys. *)
Fixpoint dedup (l : list Z) : list Z :=
  match l with
  | x :: (y :: _) as l' => if x =? y then dedup l' else x :: dedup l'
  | _ => l
  end.

Definition no_auxv_entry_is_duplicated : Test :=
  '(l, s) ← laid [bytes "p"] [] spec stack_64k;
  p ← parse_stack s (sp l);
  let keys := sort_by_key (fun k => k) (pr_auxv p).*1 in
  assert_eq (length (dedup keys)) (length keys).

Definition without_phdr (a : AuxvSpec) : AuxvSpec :=
  MkAuxvSpec None (phent a) (phnum a) (base a) (entry a) (pagesz a) (uid a) (gid a) (hwcap a) (hwcap2 a) (clktck a)
    (secure a) (random a) (platform a) (execfn a) (sysinfo_ehdr a) (minsigstksz a).

Definition omits_phdr_entries_when_the_headers_are_not_mapped : Test :=
  '(l, s) ← laid [bytes "p"] [] (without_phdr spec) stack_64k;
  p ← parse_stack s (sp l);
  _ ← assert_eq (get p AT_PHDR) None;
  _ ← assert_eq (get p AT_PHENT) None;
  assert_eq (get p AT_PHNUM) None.

Definition oversized_environment_is_rejected_not_overflowed : Test :=
  let s := fs_new 0x70000000 (16 * 1024) in
  let big := replicate (32 * 1024) x78 in
  e ← unwrap_err (build_stack [bytes "p"] [big] spec s).1;
  assert_eq e E2BIG.

Definition a_stack_that_is_merely_tight_still_fails_cleanly : Test :=
  let s := fs_new 0x70000000 4096 in
  let envp := (fun i : nat => bytes ("VAR" +:+ pretty i +:+ "=0123456789")) <$> seq 0 200 in
  match (build_stack [bytes "p"] envp spec s).1 with
  | Err e => assert_eq e E2BIG
  | _ => Panic
  end.

Definition everything_written_stays_inside_the_stack : Test :=
  let argv := [bytes "/usr/bin/node"; bytes "/usr/src/server.js"] in
  let envp := [bytes "PATH=/usr/bin"; bytes "HOME=/"] in
  '(l, s) ← laid argv envp spec stack_64k;
  _ ← assert (fs_bottom s <=? fs_low s);
  assert_eq (fs_low s) (sp l).

Definition size_check_counts_terminators_and_pointers : Test :=
  let v := replicate (110 * 1000) (bytes "a") in
  let stack := 4 * 1024 * 1024 in
  let strlen_only := foldl (fun n (s : list byte) => n + Z.of_nat (length s)) 0 v in
  _ ← assert (strlen_only <? stack / 4);
  e ← unwrap_err (check_arg_env_size v [] stack);
  _ ← assert_eq e E2BIG;
  assert (is_ok (check_arg_env_size [bytes "prog"] [bytes "HOME=/"] (8 * 1024))).

Definition auxv_tests : list Test :=
  [round_trips_argv_envp_and_auxv; sp_is_sixteen_byte_aligned_for_every_shape;
   at_random_points_at_sixteen_readable_bytes_on_the_stack; platform_and_execfn_are_copied_onto_the_stack;
   strings_are_nul_terminated_including_empty_ones; no_auxv_entry_is_duplicated;
   omits_phdr_entries_when_the_headers_are_not_mapped; oversized_environment_is_rejected_not_overflowed;
   a_stack_that_is_merely_tight_still_fails_cleanly; everything_written_stays_inside_the_stack;
   size_check_counts_terminators_and_pointers].

(** ** The suite passes

    What the tests read back from the large stack follows from the theorems about
    the layout; the rest is computed. *)

Definition fits_64k (argv envp : list (list byte)) (aux : AuxvSpec) : bool :=
  forallb (fun str => negb (bool_decide (x00 ∈ str)) && (Z.of_nat (length str) <? 2 ^ 63)) (argv ++ envp) &&
  (arg_env_total (argv ++ envp) <=? ARG_MAX) && (stack_room argv envp aux <=? 0x10000).

Lemma stack_64k_size : fs_inv stack_64k /\ fs_top stack_64k - fs_bottom stack_64k = 0x10000.
Proof.
  assert (Ht : fs_top stack_64k = 0x70010000).
  { unfold fs_top, stack_64k, fs_new. cbn [fs_base fs_mem]. rewrite length_replicate, Nat2Z.inj_mul. reflexivity. }
  unfold fs_inv. rewrite Ht. change (fs_bottom stack_64k) with 0x70000000. change (fs_base stack_64k) with 0x70000000. lia.
Qed.

Lemma laid_reads s0 argv envp aux :
  fs_inv s0 /\ fs_top s0 - fs_bottom s0 = 0x10000 -> fits_64k argv envp aux = true -> aux_u64 aux ->
  exists l s body pa ea ra, laid argv envp aux s0 = Ok (l, s) /\ reads_back argv envp aux s l body pa ea ra.
Proof.
  unfold fits_64k. intros [Hi Hsz] [[Hs Hb%Z.leb_le]%andb_true_iff Hr%Z.leb_le]%andb_true_iff Hx.
  assert (Hall : Forall (fun str : list byte => (x00 ∉ str) /\ (Z.of_nat (length str) < 2 ^ 63)) (argv ++ envp)).
  { apply Forall_forall. intros str Hin. rewrite forallb_forall in Hs. apply list_elem_of_In in Hin.
    specialize (Hs str Hin). apply andb_true_iff in Hs as [Hz%negb_true_iff%bool_decide_eq_false Hl%Z.ltb_lt]. done. }
  pose proof (Forall_impl _ _ _ Hall (fun _ => @proj2 _ _)) as Hl.
  pose proof (Forall_impl _ _ _ Hall (fun _ => @proj1 _ _)) as Hz. apply Forall_app in Hz as [Ha He].
  destruct (roomy_stack argv envp aux s0) as (L & s' & body & pa & ea & ra & Hrun & Hrb);
    try done; try (rewrite Hsz; lia).
  exists L, s', body, pa, ea, ra. unfold laid. by rewrite Hrun.
Qed.

Lemma spec_ok : aux_u64 spec /\ aux_u64 (without_phdr spec).
Proof. split; split; vm_compute; try split; done. Qed.

(** Lay the stack out, and name what is read back from it. *)
Ltac lay_out aux :=
  match goal with
  | |- context [laid ?argv ?envp _ _] =>
    destruct (laid_reads stack_64k argv envp aux) as (l & s & body & pa & ea & ra & Hlaid & Hread);
      [exact stack_64k_size|vm_compute; reflexivity|apply spec_ok|];
    destruct Hread as [Hav Hp Hal Hpl [Hea Hec] (Hra1 & Hra2 & Hrd)]; rewrite Hlaid; cbn [mbind outcome_bind];
    rewrite ?Hp; cbn [mbind outcome_bind];
    destruct pa as [pa|]; [destruct Hpl as (_ & Hpa & Hpc)|by vm_compute in Hpl];
    pose proof (removelast_last body (AT_NULL, 0)) as Hbody; rewrite <- Hav in Hbody; cbn in Hbody; subst body
  end.

Lemma assert_true (b : bool) : b = true -> assert b = Ok tt.
Proof. by intros ->. Qed.

Lemma laid_tests_pass :
  round_trips_argv_envp_and_auxv = Ok tt /\ strings_are_nul_terminated_including_empty_ones = Ok tt /\
  no_auxv_entry_is_duplicated = Ok tt /\ omits_phdr_entries_when_the_headers_are_not_mapped = Ok tt.
Proof.
  split_and!.
  - unfold round_trips_argv_envp_and_auxv. cbv zeta. lay_out spec. reflexivity.
  - unfold strings_are_nul_terminated_including_empty_ones. cbv zeta. lay_out spec. reflexivity.
  - unfold no_auxv_entry_is_duplicated. lay_out spec. reflexivity.
  - unfold omits_phdr_entries_when_the_headers_are_not_mapped. lay_out (without_phdr spec). reflexivity.
Qed.

Lemma random_test_passes : at_random_points_at_sixteen_readable_bytes_on_the_stack = Ok tt.
Proof.
  unfold at_random_points_at_sixteen_readable_bytes_on_the_stack. lay_out spec.
  change (get _ AT_RANDOM) with (Some ra). cbn [expect mbind outcome_bind].
  change (length (random spec)) with 16%nat in *. rewrite assert_true by (apply andb_true_iff; lia).
  cbn [mbind outcome_bind]. rewrite Hrd. reflexivity.
Qed.

Lemma blobs_test_passes : platform_and_execfn_are_copied_onto_the_stack = Ok tt.
Proof.
  unfold platform_and_execfn_are_copied_onto_the_stack. lay_out spec.
  change (get _ AT_PLATFORM) with (Some pa). change (get _ AT_EXECFN) with (Some ea). cbn [expect mbind outcome_bind].
  cbn [each]. rewrite !assert_true by (apply andb_true_iff; lia). cbn [mbind outcome_bind].
  rewrite Hpc by (apply (bool_decide_unpack _); by vm_compute). cbn [mbind outcome_bind].
  rewrite assert_true by (by vm_compute). cbn [mbind outcome_bind].
  rewrite Hec by (apply (bool_decide_unpack _); by vm_compute). reflexivity.
Qed.

Lemma shapes_fit na ne : (na < 8)%nat -> (ne < 8)%nat -> fits_64k (args na) (envs ne) spec = true.
Proof.
  intros Ha He. do 8 (destruct na as [|na]; [do 8 (destruct ne as [|ne]; [by vm_compute|]); lia|]). lia.
Qed.

Lemma alignment_test_passes : sp_is_sixteen_byte_aligned_for_every_shape = Ok tt.
Proof.
  apply each_pass. intros na Ha%elem_of_seq. apply each_pass. intros ne He%elem_of_seq.
  destruct (laid_reads stack_64k (args na) (envs ne) spec) as (l & s & body & pa & ea & ra & -> & [_ Hp [k Hk] _ _ _]);
    [exact stack_64k_size|apply shapes_fit; lia|apply spec_ok|].
  cbn [mbind outcome_bind]. rewrite assert_true.
  2: { rewrite Hk. unfold SP_ALIGN. by rewrite Z_mod_mult. }
  cbn [mbind outcome_bind]. rewrite Hp. cbn [mbind outcome_bind]. apply assert_true, bool_decide_eq_true.
  cbn [pr_argv]. unfold args. by rewrite length_fmap, length_seq.
Qed.

Lemma arg_env_total_replicate n (str : list byte) :
  arg_env_total (replicate n str) = Z.of_nat n * (Z.of_nat (length str) + 9).
Proof. unfold arg_env_total. induction n as [|n IH]; cbn [replicate foldr]; [done|]. rewrite IH. lia. Qed.

Lemma strlen_replicate n (str : list byte) acc :
  foldl (fun n (s : list byte) => n + Z.of_nat (length s)) acc (replicate n str) = acc + Z.of_nat n * Z.of_nat (length str).
Proof. revert acc. induction n as [|n IH]; intros acc; cbn [replicate foldl]; [lia|]. rewrite IH. lia. Qed.

Lemma size_test_passes : size_check_counts_terminators_and_pointers = Ok tt.
Proof.
  unfold size_check_counts_terminators_and_pointers. cbv zeta. rewrite strlen_replicate.
  assert (Hn : Z.of_nat (110 * 1000) = 110000) by (rewrite Nat2Z.inj_mul; reflexivity).
  unfold check_arg_env_size at 2. rewrite app_nil_r, arg_env_len_eq, arg_env_total_replicate.
  2: done.
  2: by apply Forall_replicate.
  rewrite Hn. reflexivity.
Qed.

Lemma oversized_test_passes : passes oversized_environment_is_rejected_not_overflowed = true.
Proof. vm_cast_no_check (eq_refl true). Qed.

Lemma tight_test_passes : passes a_stack_that_is_merely_tight_still_fails_cleanly = true.
Proof. vm_cast_no_check (eq_refl true). Qed.

Lemma inside_test_passes : passes everything_written_stays_inside_the_stack = true.
Proof. vm_cast_no_check (eq_refl true). Qed.

Lemma passed t : t = Ok tt -> passes t = true.
Proof. by intros ->. Qed.

Lemma auxv_tests_pass : Forall (fun t => passes t = true) auxv_tests.
Proof.
  destruct laid_tests_pass as (Hr & Hs & Hd & Ho). unfold auxv_tests.
  apply Forall_cons; split; [exact (passed _ Hr)|].
  apply Forall_cons; split; [exact (passed _ alignment_test_passes)|].
  apply Forall_cons; split; [exact (passed _ random_test_passes)|].
  apply Forall_cons; split; [exact (passed _ blobs_test_passes)|].
  apply Forall_cons; split; [exact (passed _ Hs)|].
  apply Forall_cons; split; [exact (passed _ Hd)|].
  apply Forall_cons; split; [exact (passed _ Ho)|].
  apply Forall_cons; split; [exact oversized_test_passes|].
  apply Forall_cons; split; [exact tight_test_passes|].
  apply Forall_cons; split; [exact inside_test_passes|].
  apply Forall_cons; split; [exact (passed _ size_test_passes)|].
  apply Forall_nil_2.
Qed.
