(* ===== verification/LoadTests.v ===== *)
(** * The unit tests of the loader and of programs

    The [#[test]] functions of [rust/src/loader.rs] and [rust/src/program.rs], run
    on the model address space. *)

From Stdlib Require Import Strings.Byte.
From stdpp Require Import base numbers option strings sets list.
From S2P Require Import Prelude Err Elf TestImage Layout Loader FakeVm Auxv FakeStack Program ProgramRun TestKit.

(** ** Tests with an address space *)

Abbreviation VmTest := (stM Error State unit).

(** A test starts with [FakeVm::new()] and no file installed. *)
Definition on_vm (t : VmTest) : Test := (t fake_new).1.

Definition see {A : Type} (f : State -> outcome Error A) : stM Error State A := fun s => (f s, s).
Definition unwrapping {A : Type} (m : stM Error State A) : stM Error State A := fun s =>
  let '(r, s) := m s in (unwrap r, s).
Definition failing {A : Type} (m : stM Error State A) : stM Error State Error := fun s =>
  let '(r, s) := m s in (unwrap_err r, s).
Definition installing (fd : Z) (img : list byte) : stM Error State unit := fun s => (Ok tt, install fd img s).

(** The pages of a range, as the loops of the tests walk them. *)
Definition pages (lo len : Z) : list Z := (fun i : nat => lo + 4096 * Z.of_nat i) <$> seq 0 (Z.to_nat ((len + 4095) / 4096)).

Definition reserved_to (l : Loaded) : Z := reserve_addr (lplan l) + reserve_len (lplan l).

Section Tests.
Context {target : Target}.
#[local] Instance test_heap : Heap := plenty.
#[local] Instance test_vm : Vm State := FakeVm true.

Abbreviation new := (builder_new (target:=target)).

(** ** loader.rs *)

Definition parse_img (img : list byte) : stM Error State Image :=
  lift (unwrap (Image_parse (slice_source img) 4096)).

Definition load_fixture (img : list byte) (fd : Z) : stM Error State Loaded :=
  _ ← installing fd img;
  e ← parse_img img;
  unwrapping (load e (slice_source img) (Some fd)).

Definition is_map (o : Op) : bool := match o with OpMap _ _ _ => true | _ => false end.
Definition is_unmap (o : Op) : bool := match o with OpUnmap _ _ => true | _ => false end.

Definition image_range_is_never_left_unreserved : VmTest :=
  img ← lift (build (glibc_arm64_style new));
  l ← load_fixture img 3;
  first ← see (fun s => index (ops s) 0);
  _ ← lift (assert (is_map first));
  _ ← see (fun s => assert (negb (existsb is_unmap (ops s))));
  for_each (fun a => m ← see (fun s => is_mapped s a); lift (assert m))
    (pages (reserve_addr (lplan l)) (reserve_len (lplan l))).

Definition a_later_anonymous_mapping_cannot_land_inside_the_image : VmTest :=
  img ← lift (build (glibc_arm64_style new));
  l ← load_fixture img 3;
  placed ← see (fun s => would_place s 0x4000);
  lift (assert (reserved_to l <=? placed)).

Definition segment_contents_land_at_the_right_addresses : VmTest :=
  img ← lift (build (unaligned_second_segment new));
  l ← load_fixture img 3;
  e ← parse_img img;
  for_each (fun i =>
    ph ← lift (index (phdrs e) i);
    let va := p_vaddr ph + bias (lplan l) in
    let n := Z.min (p_filesz ph) 256 in
    got ← see (fun s => fake_read s va n);
    want ← lift (slice img (Z.to_nat (p_offset ph)) (Z.to_nat n));
    _ ← lift (assert_eq got want);
    let last := p_filesz ph - 1 in
    got ← see (fun s => fake_read s (va + last) 1);
    b ← lift (index got 0);
    w ← lift (index img (Z.to_nat (p_offset ph + last)));
    lift (assert_eq b w)) (loads e).

(** [e.loads.iter().map(|&i| &e.phdrs[i]).find(..)]. *)
Fixpoint find_load (e : Image) (f : Phdr -> bool) (l : list nat) : outcome Error Phdr :=
  match l with
  | [] => Panic
  | i :: l => ph ← index (phdrs e) i; if f ph then Ok ph else find_load e f l
  end.

Definition byte_at (a : Z) (v : byte) : VmTest :=
  got ← see (fun s => fake_read s a 1);
  b ← lift (index got 0);
  lift (assert_eq b v).

Definition bss_tail_is_zeroed_and_file_bytes_do_not_leak : VmTest :=
  img ← lift (build (glibc_arm64_style new));
  l ← load_fixture img 3;
  e ← parse_img img;
  data ← lift (find_load e is_write (loads e));
  let fend := p_vaddr data + bias (lplan l) + p_filesz data in
  let mend := p_vaddr data + bias (lplan l) + p_memsz data in
  b ← lift (index img (Z.to_nat (p_offset data + p_filesz data)));
  _ ← lift (assert_ne b x00);
  _ ← byte_at fend x00;
  byte_at (mend - 1) x00.

Definition final_protections_match_the_segment_flags : VmTest :=
  img ← lift (build (four_segment_separate_code new));
  l ← load_fixture img 3;
  e ← parse_img img;
  _ ← for_each (fun i =>
        ph ← lift (index (phdrs e) i);
        p ← see (fun s => prot_at s (p_vaddr ph + bias (lplan l)));
        lift (assert_eq p (prot_of ph))) (loads e);
  see (fun s => each (region_list s) (fun '(_, _, prot) =>
    assert ((Z.land prot PROT_WRITE =? 0) || (Z.land prot PROT_EXEC =? 0)))).

Definition gaps_between_segments_stay_inaccessible : VmTest :=
  img ← lift (build (glibc_arm64_style new));
  l ← load_fixture img 3;
  e ← parse_img img;
  code ← lift (find_load e (fun _ => true) (loads e));
  up ← lift (align_up (p_vaddr code + p_memsz code) 4096);
  up ← lift (expect up);
  let gap := up + bias (lplan l) in
  m ← see (fun s => is_mapped s gap);
  _ ← lift (assert m);
  p ← see (fun s => prot_at s gap);
  lift (assert_eq p PROT_NONE).

Definition non_pie_loads_at_its_link_address : VmTest :=
  img ← lift (build (non_pie new));
  l ← load_fixture img 3;
  _ ← lift (assert_eq (bias (lplan l)) 0);
  _ ← lift (assert_eq (Layout.base (lplan l)) 0x400000);
  _ ← lift (assert_eq (Layout.entry (lplan l)) 0x400500);
  got ← see (fun s => fake_read s 0x400000 4);
  lift (assert_eq got ELFMAG).

(** What the tests change of a program header. *)
Definition read_only_tail (p : Phdr) : Phdr :=
  MkPhdr (p_type p) (Z.lor PF_R PF_X) (p_offset p) (p_vaddr p) (p_paddr p) 0xf00 0xf00 (p_align p).

Definition protects (v : Z) (o : Op) : bool := match o with OpProtect _ _ p => p =? v | _ => false end.

Definition read_only_segment_is_narrowed_after_zeroing : VmTest :=
  img ← lift (build (patch_phdr 0 read_only_tail (pie_two_segment new)));
  l ← load_fixture img 3;
  let va := Layout.base (lplan l) in
  p ← see (fun s => prot_at s va);
  _ ← lift (assert_eq p (Z.lor PROT_READ PROT_EXEC));
  _ ← byte_at (va + 0xf00) x00;
  see (fun s => assert (existsb (protects (Z.lor PROT_READ PROT_EXEC)) (ops s))).

Definition icache_of (o : Op) : option (Z * Z) := match o with OpIcache a n => Some (a, n) | _ => None end.

Definition copy_path_loads_and_syncs_the_icache : VmTest :=
  img ← lift (build (pie_two_segment new));
  e ← parse_img img;
  l ← unwrapping (load (vm:=FakeVm false) e (slice_source img) None);
  got ← see (fun s => fake_read s (Layout.base (lplan l)) 4);
  _ ← lift (assert_eq got ELFMAG);
  see (fun s =>
    let syncs := omap icache_of (ops s) in
    _ ← assert (negb (bool_decide (syncs = [])));
    '(addr, len) ← index syncs 0;
    _ ← assert (addr <=? Layout.base (lplan l));
    assert (Layout.base (lplan l) + 0x1000 <=? addr + len)).

Definition copy_path_refuses_non_pie : VmTest :=
  img ← lift (build (non_pie new));
  e ← parse_img img;
  err ← failing (load (vm:=FakeVm false) e (slice_source img) None);
  lift (assert_eq err ENOTSUP).

Definition unload_releases_the_whole_reservation : VmTest :=
  img ← lift (build (glibc_arm64_style new));
  l ← load_fixture img 3;
  _ ← unload l;
  _ ← for_each (fun a => m ← see (fun s => is_mapped s a); lift (assert (negb m)))
        (pages (reserve_addr (lplan l)) (reserve_len (lplan l)));
  placed ← see (fun s => would_place s 0x1000);
  lift (assert_eq placed 0x10000000).

Definition apart (a b : Loaded) : bool :=
  (reserved_to a <=? reserve_addr (lplan b)) || (reserved_to b <=? reserve_addr (lplan a)).

Definition two_images_do_not_overlap : VmTest :=
  prog ← lift (build (glibc_arm64_style new));
  interp ← lift (build (glibc_arm64_style new));
  a ← load_fixture prog 3;
  b ← load_fixture interp 4;
  lift (assert (apart a b)).

Definition nothing_mapped : VmTest := see (fun s => assert (bool_decide (region_list s = []))).

Definition a_failed_load_leaves_nothing_behind : VmTest :=
  img ← lift (build (glibc_arm64_style new));
  e ← parse_img img;
  let short := take 0x100 img in
  _ ← failing (load e (slice_source short) None);
  nothing_mapped.

Definition loader_tests : list VmTest :=
  [image_range_is_never_left_unreserved; a_later_anonymous_mapping_cannot_land_inside_the_image;
   segment_contents_land_at_the_right_addresses; bss_tail_is_zeroed_and_file_bytes_do_not_leak;
   final_protections_match_the_segment_flags; gaps_between_segments_stay_inaccessible;
   non_pie_loads_at_its_link_address; read_only_segment_is_narrowed_after_zeroing;
   copy_path_loads_and_syncs_the_icache; copy_path_refuses_non_pie; unload_releases_the_whole_reservation;
   two_images_do_not_overlap; a_failed_load_leaves_nothing_behind].

(** ** program.rs *)

(** [fs.add(path, img, fd)]. *)
Definition adding (path : string) (img : list byte) (fd : Z) (fs : FakeFs) : stM Error State FakeFs := fun s =>
  let '(fs, s) := FakeFs_add (bytes path) img fd fs s in (Ok fs, s).

Definition load_from (fs : FakeFs) (path : string) : stM Error State LoadedProgram :=
  load_program (opener:=fakefs_open fs) (bytes path).

Definition the_interp (p : LoadedProgram) : outcome Error Loaded := '(_, l) ← expect (interp_image p); Ok l.

Definition dynamic_program_jumps_into_the_interpreter : VmTest :=
  prog ← lift (build (glibc_arm64_style new));
  ld ← lift (build (pie_two_segment new));
  fs ← adding "/usr/bin/node" prog 3 (FakeFs_new true);
  fs ← adding "/lib/ld-linux-aarch64.so.1" ld 4 fs;
  p ← unwrapping (load_from fs "/usr/bin/node");
  il ← lift (the_interp p);
  _ ← lift (assert_eq (program_entry p) (Layout.entry (lplan il)));
  _ ← lift (assert_ne (program_entry p) (Layout.entry (lplan (main p))));
  _ ← lift (assert_eq (interp_base p) (bias (lplan il)));
  lift (assert_eq (interp_name p) (Some (bytes "/lib/ld-linux-aarch64.so.1"))).

Definition moved_to (off va : Z) (p : Phdr) : Phdr :=
  MkPhdr (p_type p) (p_flags p) off va (p_paddr p) (p_filesz p) (p_memsz p) (p_align p).

Definition at_base_is_the_interpreter_bias_not_its_first_segment : VmTest :=
  prog ← lift (build (glibc_arm64_style new));
  ld ← lift (build (patch_phdr 1 (moved_to 0x2000 0x3000) (patch_phdr 0 (moved_to 0x1000 0x1000) (pie_two_segment new))));
  fs ← adding "/usr/bin/node" prog 3 (FakeFs_new true);
  fs ← adding "/lib/ld-linux-aarch64.so.1" ld 4 fs;
  p ← unwrapping (load_from fs "/usr/bin/node");
  il ← lift (the_interp p);
  _ ← lift (assert_ne (bias (lplan il)) (Layout.base (lplan il)));
  lift (assert_eq (interp_base p) (bias (lplan il))).

Definition program_and_interpreter_do_not_overlap : VmTest :=
  prog ← lift (build (glibc_arm64_style new));
  ld ← lift (build (no_interp (glibc_arm64_style new)));
  fs ← adding "/usr/bin/node" prog 3 (FakeFs_new true);
  fs ← adding "/lib/ld-linux-aarch64.so.1" ld 4 fs;
  p ← unwrapping (load_from fs "/usr/bin/node");
  il ← lift (the_interp p);
  lift (assert (apart (main p) il)).

(** The stack of the last assertions. *)
Definition auxv_on_stack (p : LoadedProgram) (a : AuxvSpec) : Test :=
  let '(r, st) := build_stack [bytes "node"] [] a (fs_new 0x70000000 (64 * 1024)) in
  l ← unwrap r;
  e ← auxv_value st (sp l) AT_ENTRY;
  _ ← assert_eq e (Some (Layout.entry (lplan (main p))));
  b ← auxv_value st (sp l) AT_BASE;
  _ ← assert_eq b (Some (interp_base p));
  ph ← auxv_value st (sp l) AT_PHDR;
  ad ← phdr_addr (lplan (main p)) (image p);
  ad ← expect ad;
  assert_eq ph (Some ad).

Definition auxv_describes_the_program_not_the_interpreter : VmTest :=
  prog ← lift (build (glibc_arm64_style new));
  ld ← lift (build (pie_two_segment new));
  fs ← adding "/usr/bin/node" prog 3 (FakeFs_new true);
  fs ← adding "/lib/ld-linux-aarch64.so.1" ld 4 fs;
  p ← unwrapping (load_from fs "/usr/bin/node");
  a ← lift (program_auxv p
       (MkEnvironment 4096 (bytes "aarch64") (bytes "/usr/bin/node") (replicate 16 x07) 0 0 (0, 0) None));
  _ ← lift (assert_eq (Auxv.entry a) (Layout.entry (lplan (main p))));
  _ ← lift (assert_eq (Auxv.base a) (interp_base p));
  _ ← lift (assert_eq (phnum a) (e_phnum (ehdr (image p))));
  ad ← lift (phdr_addr (lplan (main p)) (image p));
  ad ← lift (expect ad);
  _ ← lift (assert_eq (phdr a) (Some ad));
  lift (auxv_on_stack p a).

Definition a_static_program_needs_no_interpreter : VmTest :=
  prog ← lift (build (pie_two_segment new));
  fs ← adding "/bin/hello" prog 3 (FakeFs_new true);
  p ← unwrapping (load_from fs "/bin/hello");
  _ ← lift (assert (negb (is_some (interp_image p))));
  _ ← lift (assert_eq (program_entry p) (Layout.entry (lplan (main p))));
  lift (assert_eq (interp_base p) 0).

Definition a_missing_interpreter_unloads_the_program : VmTest :=
  prog ← lift (build (glibc_arm64_style new));
  fs ← adding "/usr/bin/node" prog 3 (FakeFs_new true);
  err ← failing (load_from fs "/usr/bin/node");
  _ ← lift (assert_eq err ENOENT);
  nothing_mapped.

Definition an_interpreter_that_is_not_pie_is_refused : VmTest :=
  prog ← lift (build (glibc_arm64_style new));
  ld ← lift (build (non_pie new));
  fs ← adding "/usr/bin/node" prog 3 (FakeFs_new true);
  fs ← adding "/lib/ld-linux-aarch64.so.1" ld 4 fs;
  err ← failing (load_from fs "/usr/bin/node");
  _ ← lift (assert_eq err ENOEXEC);
  nothing_mapped.

Definition an_executable_stack_request_is_refused : VmTest :=
  prog ← lift (build (with_exec_stack (pie_two_segment new)));
  fs ← adding "/bin/trampoline" prog 3 (FakeFs_new true);
  err ← failing (load_from fs "/bin/trampoline");
  _ ← lift (assert_eq err ENOTSUP);
  nothing_mapped.

Definition a_non_pie_program_loads_at_its_link_address : VmTest :=
  prog ← lift (build (non_pie new));
  fs ← adding "/bin/static" prog 3 (FakeFs_new true);
  p ← unwrapping (load_from fs "/bin/static");
  _ ← lift (assert_eq (bias (lplan (main p))) 0);
  _ ← lift (assert_eq (Layout.base (lplan (main p))) 0x400000);
  _ ← lift (assert_eq (program_entry p) 0x400500);
  a ← lift (program_auxv p
       (MkEnvironment 4096 (bytes "x86_64") (bytes "/bin/static") (replicate 16 x00) 0 0 (0, 0) None));
  _ ← lift (assert_eq (phdr a) (Some (0x400000 + e_phoff (ehdr (image p)))));
  lift (assert_eq (Auxv.base a) 0).

Definition a_bad_program_is_not_loaded_at_all : VmTest :=
  let fs := MkFakeFs [(bytes "/bin/junk", replicate 4096 x41)] true in
  err ← failing (load_from fs "/bin/junk");
  _ ← lift (assert_eq err ENOEXEC);
  nothing_mapped.

Definition program_tests : list VmTest :=
  [dynamic_program_jumps_into_the_interpreter; at_base_is_the_interpreter_bias_not_its_first_segment;
   program_and_interpreter_do_not_overlap; auxv_describes_the_program_not_the_interpreter;
   a_static_program_needs_no_interpreter; a_missing_interpreter_unloads_the_program;
   an_interpreter_that_is_not_pie_is_refused; an_executable_stack_request_is_refused;
   a_non_pie_program_loads_at_its_link_address; a_bad_program_is_not_loaded_at_all].
End Tests.

(** ** The suites pass *)

Definition arm64_target : Target := true.

Lemma loader_tests_pass : forallb (fun t => passes (on_vm t)) (loader_tests (target:=arm64_target)) = true.
Proof. vm_cast_no_check (eq_refl true). Qed.

Lemma program_tests_pass : forallb (fun t => passes (on_vm t)) (program_tests (target:=arm64_target)) = true.
Proof. vm_cast_no_check (eq_refl true). Qed.
